(** * FileNetLogObserver: bounded / unbounded rotating NetLog writer

    A shallow embedding of [net/log/file_net_log_observer.cc]: the
    producer-side [WriteQueue], the [FileWriter] that runs on the file task
    runner, and the observer front-end that connects the two.

    Conventions.
    - [size_t] is a 64-bit unsigned integer (LP64).  Values are carried in
      [Z]; every arithmetic operation of the source is followed by the
      reduction modulo [2^64] that the hardware performs.
    - [std::string] is [string]; its [size()] is [string_size].
    - [std::queue<std::unique_ptr<std::string>>] is a [list string] whose
      head is the front of the queue.
    - [FILE*] is [option nat]: [None] is the null pointer, [Some id] names
      an open stream of the [World].
    - File operations live in the monad [IO], a state monad over [World]
      with two failure outcomes: [NullDeref] (a libc call on a null
      [FILE*]) and [OutOfFuel] (a copy loop that would not terminate).
    - [DCHECK]s are compiled out, as in a release build. *)

From Stdlib Require Import ZArith Lia String Ascii List Bool.
From stdpp Require Import base gmap strings list pretty.

Local Open Scope Z_scope.

(** ** [size_t] arithmetic *)

Definition size_t_bits : Z := 64.
Definition SIZE_MAX : Z := 2 ^ size_t_bits - 1.

Definition to_size_t (z : Z) : Z := z mod 2 ^ size_t_bits.
Definition size_add (a b : Z) : Z := to_size_t (a + b).
Definition size_sub (a b : Z) : Z := to_size_t (a - b).
Definition size_mul (a b : Z) : Z := to_size_t (a * b).

(** A value that a [size_t] variable can hold. *)
Definition is_size_t (z : Z) : Prop := 0 <= z <= SIZE_MAX.

Definition string_size (s : string) : Z := Z.of_nat (String.length s).

Definition string_empty (s : string) : bool :=
  match s with
  | EmptyString => true
  | String _ _ => false
  end.

(** [const size_t FileNetLogObserver::kNoLimit =
      std::numeric_limits<size_t>::max();] *)
Definition kNoLimit : Z := SIZE_MAX.

(** [const int kNumWriteQueueEvents = 15;] *)
Definition kNumWriteQueueEvents : Z := 15.

(** ** WriteQueue *)

Definition EventQueue : Type := list string.

Record WriteQueue : Type := mkWriteQueue {
  queue_ : EventQueue;
  memory_ : Z;
  memory_max_ : Z
}.

(** [WriteQueue::WriteQueue(size_t memory_max)
      : memory_(0), memory_max_(memory_max) {}] *)
Definition WriteQueue_new (memory_max : Z) : WriteQueue :=
  {| queue_ := []; memory_ := 0; memory_max_ := memory_max |}.

(** The [while (memory_ > memory_max_ && !queue_.empty())] loop of
    [AddEntryToQueue]; every iteration pops the front, so the recursion is
    structural on the queue. *)
Fixpoint drop_oldest (memory_max memory : Z) (queue : EventQueue)
  : Z * EventQueue :=
  match queue with
  | [] => (memory, [])
  | front :: rest =>
      if memory >? memory_max
      then drop_oldest memory_max (size_sub memory (string_size front)) rest
      else (memory, queue)
  end.

(** [size_t WriteQueue::AddEntryToQueue(std::unique_ptr<std::string> event)];
    the result pairs the returned [queue_.size()] with the new state. *)
Definition AddEntryToQueue (event : string) (wq : WriteQueue)
  : Z * WriteQueue :=
  let memory := size_add (memory_ wq) (string_size event) in
  let queue := queue_ wq ++ [event] in
  let '(memory', queue') := drop_oldest (memory_max_ wq) memory queue in
  (Z.of_nat (length queue'),
   {| queue_ := queue'; memory_ := memory'; memory_max_ := memory_max_ wq |}).

(** [void WriteQueue::SwapQueue(EventQueue* local_queue)]; the result pairs
    the new contents of [*local_queue] with the new state. *)
Definition SwapQueue (local_queue : EventQueue) (wq : WriteQueue)
  : EventQueue * WriteQueue :=
  (queue_ wq,
   {| queue_ := local_queue; memory_ := 0; memory_max_ := memory_max_ wq |}).

(** Bytes held by a queue: the sum of the sizes of its strings. *)
Fixpoint queue_bytes (queue : EventQueue) : Z :=
  match queue with
  | [] => 0
  | s :: rest => string_size s + queue_bytes rest
  end.

(** Calls a client can make on a [WriteQueue].  [SwapQueue] is called the
    way [Flush] calls it, with a freshly constructed local queue. *)
Inductive queue_call : Type :=
| CallAddEntry (event : string)
| CallSwapQueue.

Definition run_call (wq : WriteQueue) (c : queue_call) : WriteQueue :=
  match c with
  | CallAddEntry event => snd (AddEntryToQueue event wq)
  | CallSwapQueue => snd (SwapQueue [] wq)
  end.

Definition run_calls (wq : WriteQueue) (cs : list queue_call) : WriteQueue :=
  fold_left run_call cs wq.

(** The strings of the queue and the string being added are all alive in
    one address space, so their sizes add up to at most [SIZE_MAX].  This
    is the only fact about memory the queue proofs rely on. *)
Fixpoint fits_in_memory (wq : WriteQueue) (cs : list queue_call) : Prop :=
  match cs with
  | [] => True
  | c :: cs' =>
      match c with
      | CallAddEntry event =>
          queue_bytes (queue_ wq) + string_size event <= SIZE_MAX
      | CallSwapQueue => True
      end /\ fits_in_memory (run_call wq c) cs'
  end.

(** The byte counter agrees with the strings that are queued. *)
Definition counter_exact (wq : WriteQueue) : Prop :=
  memory_ wq = queue_bytes (queue_ wq).

(** ** The file system seen by the file task runner *)

(** [fopen] modes used by the source: ["wb"] and ["rb"]. *)
Inductive open_mode : Type := ModeWrite | ModeRead.

(** One entry per library call that touches the file system. *)
Inductive io_event : Type :=
| EvOpen (path : string) (mode : open_mode) (result : option nat)
| EvWrite (file : nat) (data : string)
| EvRead (file : nat) (data : string)
| EvSeekEnd (file : nat) (offset : Z)
| EvFlush (file : nat)
| EvClose (file : nat)
| EvCreateDirectory (path : string) (ok : bool)
| EvDeleteFile (path : string) (recursive : bool).

(** What the operating system decides: whether an open or a mkdir
    succeeds, how many bytes a write accepts, how many bytes a read
    delivers, and which of the files that a delete request covers it
    removes.  Each decision may depend on everything that happened
    before. *)
Record Env : Type := mkEnv {
  env_open_ok : list io_event -> string -> open_mode -> bool;
  env_write_room : list io_event -> nat -> nat -> nat;
  env_read_room : list io_event -> nat -> nat -> nat;
  env_mkdir_ok : list io_event -> string -> bool;
  env_delete_ok : list io_event -> string -> bool -> string -> bool
}.

(** A stream is a position in a file.  [disk] holds for every file the
    bytes a reader finds once the streams that are open on the file have
    been flushed: a write shows in [disk] at once, where stdio may hold the
    bytes back until [fflush], [fseek] or [fclose].  The two views agree as
    long as no file is opened for writing while another stream holds bytes
    for it that were not flushed.  The source does that in one place: with
    a single event file ([total_num_event_files_ = 1])
    [IncrementCurrentEventFile] reopens the file the old stream is still
    open on, and the [fclose] that follows writes the old bytes back.  What
    is stated about the contents of rotated event files therefore asks for
    two event files or more. *)
Record stream : Type := mkStream {
  stream_path : string;
  stream_pos : nat
}.

Record World : Type := mkWorld {
  disk : gmap string string;
  streams : gmap nat stream;
  next_stream : nat;
  trace : list io_event;
  env : Env
}.

Definition log_event (e : io_event) (w : World) : World :=
  {| disk := disk w; streams := streams w; next_stream := next_stream w;
     trace := trace w ++ [e]; env := env w |}.

Inductive result (A : Type) : Type :=
| Done (a : A) (w : World)
| NullDeref
| OutOfFuel.

Arguments Done {A} a w.
Arguments NullDeref {A}.
Arguments OutOfFuel {A}.

Definition IO (A : Type) : Type := World -> result A.

Definition io_ret {A : Type} (a : A) : IO A := fun w => Done a w.

Definition io_bind {A B : Type} (m : IO A) (k : A -> IO B) : IO B :=
  fun w =>
    match m w with
    | Done a w' => k a w'
    | NullDeref => NullDeref
    | OutOfFuel => OutOfFuel
    end.

Notation "'let*' x ':=' m 'in' k" := (io_bind m (fun x => k))
  (at level 10, x name, m at level 100, k at level 200).
Notation "m ';;' k" := (io_bind m (fun _ => k))
  (at level 100, k at level 200, right associativity).

(** *** Byte strings *)

Fixpoint str_take (n : nat) (s : string) : string :=
  match n, s with
  | S n', String c s' => String c (str_take n' s')
  | _, _ => EmptyString
  end.

Fixpoint str_drop (n : nat) (s : string) : string :=
  match n, s with
  | S n', String _ s' => str_drop n' s'
  | _, _ => s
  end.

Fixpoint str_zeros (n : nat) : string :=
  match n with
  | O => EmptyString
  | S n' => String "000"%char (str_zeros n')
  end.

(** The file contents after [data] is written at offset [pos]: bytes under
    the data are overwritten, a gap past the end is filled with zeros. *)
Definition write_at (content : string) (pos : nat) (data : string) : string :=
  str_take pos content +:+ str_zeros (pos - String.length content) +:+ data
  +:+ str_drop (pos + String.length data) content.

(** The characters that string literals of the source escape. *)
Definition dquote : string := String "034"%char EmptyString.
Definition newline : string := String "010"%char EmptyString.

(** *** Library calls *)

(** [base::OpenFile(path, mode)]: ["wb"] creates or truncates the file,
    ["rb"] needs the file to exist. *)
Definition OpenFile (path : string) (mode : open_mode) : IO (option nat) :=
  fun w =>
    let present :=
      match mode with
      | ModeWrite => true
      | ModeRead => bool_decide (is_Some (disk w !! path))
      end in
    if env_open_ok (env w) (trace w) path mode && present then
      let id := next_stream w in
      Done (Some id)
        {| disk := match mode with
                   | ModeWrite => <[path := EmptyString]> (disk w)
                   | ModeRead => disk w
                   end;
           streams := <[id := mkStream path 0]> (streams w);
           next_stream := S id;
           trace := trace w ++ [EvOpen path mode (Some id)];
           env := env w |}
    else Done None (log_event (EvOpen path mode None) w).

(** [fclose], reached through [base::ScopedFILE]. *)
Definition fclose (id : nat) : IO unit :=
  fun w =>
    Done tt
      {| disk := disk w; streams := delete id (streams w);
         next_stream := next_stream w;
         trace := trace w ++ [EvClose id]; env := env w |}.

(** [base::ScopedFILE::reset()] and the destructor of a [ScopedFILE]. *)
Definition ScopedFILE_reset (file : option nat) : IO unit :=
  match file with
  | Some id => fclose id
  | None => io_ret tt
  end.

(** [fwrite(data, 1, size, file)]; returns the number of bytes written. *)
Definition fwrite (data : string) (file : option nat) : IO Z :=
  fun w =>
    match file with
    | None => NullDeref
    | Some id =>
        match streams w !! id with
        | Some st =>
            match disk w !! stream_path st with
            | Some content =>
                let n := Nat.min (String.length data)
                           (env_write_room (env w) (trace w) id
                              (String.length data)) in
                let written := str_take n data in
                Done (Z.of_nat n)
                  {| disk := <[stream_path st :=
                                 write_at content (stream_pos st) written]>
                               (disk w);
                     streams := <[id := mkStream (stream_path st)
                                           (stream_pos st + n)]> (streams w);
                     next_stream := next_stream w;
                     trace := trace w ++ [EvWrite id written];
                     env := env w |}
            | None => Done 0 (log_event (EvWrite id EmptyString) w)
            end
        | None => Done 0 (log_event (EvWrite id EmptyString) w)
        end
    end.

(** [fread(buffer, 1, size, file)]; returns the bytes placed in the
    buffer, as many of those asked for as the operating system delivers. *)
Definition fread (size : Z) (file : option nat) : IO string :=
  fun w =>
    match file with
    | None => NullDeref
    | Some id =>
        match streams w !! id with
        | Some st =>
            match disk w !! stream_path st with
            | Some content =>
                let n := Nat.min (Z.to_nat size)
                           (env_read_room (env w) (trace w) id
                              (Z.to_nat size)) in
                let data := str_take n (str_drop (stream_pos st) content) in
                Done data
                  {| disk := disk w;
                     streams :=
                       <[id := mkStream (stream_path st)
                                 (stream_pos st + String.length data)]>
                         (streams w);
                     next_stream := next_stream w;
                     trace := trace w ++ [EvRead id data];
                     env := env w |}
            | None => Done EmptyString (log_event (EvRead id EmptyString) w)
            end
        | None => Done EmptyString (log_event (EvRead id EmptyString) w)
        end
    end.

(** [fseek(file, offset, SEEK_END)]; a target before the start of the file
    is refused and leaves the position alone. *)
Definition fseek_end (file : option nat) (offset : Z) : IO unit :=
  fun w =>
    match file with
    | None => NullDeref
    | Some id =>
        let w' := log_event (EvSeekEnd id offset) w in
        match streams w !! id with
        | Some st =>
            match disk w !! stream_path st with
            | Some content =>
                let target := Z.of_nat (String.length content) + offset in
                if target <? 0 then Done tt w'
                else
                  Done tt
                    {| disk := disk w';
                       streams := <[id := mkStream (stream_path st)
                                             (Z.to_nat target)]> (streams w');
                       next_stream := next_stream w';
                       trace := trace w'; env := env w' |}
            | None => Done tt w'
            end
        | None => Done tt w'
        end
    end.

(** [fflush(file)]: a write shows in [disk] at once, so there is nothing
    left to do. *)
Definition fflush (file : option nat) : IO unit :=
  fun w =>
    match file with
    | None => NullDeref
    | Some id => Done tt (log_event (EvFlush id) w)
    end.

(** [base::CreateDirectory(path)]. *)
Definition CreateDirectory (path : string) : IO bool :=
  fun w =>
    let ok := env_mkdir_ok (env w) (trace w) path in
    Done ok (log_event (EvCreateDirectory path ok) w).

(** Is [path] strictly inside directory [dir]? *)
Definition inside_directory (dir path : string) : bool :=
  String.prefix (dir +:+ "/") path.

(** Does the request [base::DeleteFile(path, recursive)] cover file [q]? *)
Definition delete_covers (path : string) (recursive : bool) (q : string)
  : bool :=
  bool_decide (q = path) || (recursive && inside_directory path q).

(** [base::DeleteFile(path, recursive)].  The operating system decides
    which of the files the request covers it removes.  The call returns
    whether it succeeded; the source never looks at that, so the result is
    not modelled. *)
Definition DeleteFile (path : string) (recursive : bool) : IO unit :=
  fun w =>
    let removed q :=
      delete_covers path recursive q
      && env_delete_ok (env w) (trace w) path recursive q in
    Done tt
      {| disk := filter (fun kv => removed (fst kv) = false) (disk w);
         streams := streams w;
         next_stream := next_stream w;
         trace := trace w ++ [EvDeleteFile path recursive]; env := env w |}.

(** ** Values and paths *)

(** Modelled from the spec: [base::Value] and [base::JSONWriter::Write] are
    external collaborators ("the JSON encoder used for individual values").
    A value is represented by what the encoder does with it: whether
    [Write] reports success and the text it leaves in the output string. *)
Record Value : Type := mkValue {
  json_ok : bool;
  json_text : string
}.

Definition JSONWriter_Write (node : Value) : bool * string :=
  (json_ok node, json_text node).

(** Modelled from the spec: [base::FilePath::AddExtension] and
    [base::FilePath::AppendASCII], following the path table of the spec
    ([<final_log_path>.inprogress/], [.../constants.json]). *)
Definition AddExtension (path extension : string) : string :=
  path +:+ extension.

Definition AppendASCII (directory component : string) : string :=
  directory +:+ "/" +:+ component.

(** [base::SizeTToString]: the decimal digits of a [size_t]. *)
Definition SizeTToString (n : Z) : string := pretty (Z.to_N n).

(** ** FileWriter *)

(** The literals of [WriteConstantsToFile], [Flush] and
    [WritePolledDataToFile]. *)
Definition kConstantsKey : string :=
  "{" +:+ dquote +:+ "constants" +:+ dquote +:+ ":".
Definition kEventsOpen : string :=
  "," +:+ newline +:+ dquote +:+ "events" +:+ dquote +:+ ": [" +:+ newline.
Definition kEventSeparator : string := "," +:+ newline.
Definition kEventsClose : string := "]".
Definition kPolledDataKey : string :=
  "," +:+ newline +:+ dquote +:+ "polledData" +:+ dquote +:+ ": ".
Definition kLogClose : string := "}" +:+ newline.
Definition kPlaceholder : string :=
  "Log data is being written to the XXX.inprogress directory".

Record FileWriter : Type := mkFileWriter {
  final_log_path_ : string;
  final_log_file_ : option nat;
  current_event_file_ : option nat;
  current_event_file_size_ : Z;
  total_num_event_files_ : Z;
  current_event_file_number_ : Z;
  max_event_file_size_ : Z;
  wrote_event_bytes_ : bool
}.

Definition set_final_log_file (f : option nat) (fw : FileWriter) : FileWriter :=
  mkFileWriter (final_log_path_ fw) f (current_event_file_ fw)
    (current_event_file_size_ fw) (total_num_event_files_ fw)
    (current_event_file_number_ fw) (max_event_file_size_ fw)
    (wrote_event_bytes_ fw).

Definition set_current_event_file (f : option nat) (fw : FileWriter)
  : FileWriter :=
  mkFileWriter (final_log_path_ fw) (final_log_file_ fw) f
    (current_event_file_size_ fw) (total_num_event_files_ fw)
    (current_event_file_number_ fw) (max_event_file_size_ fw)
    (wrote_event_bytes_ fw).

Definition set_current_event_file_size (n : Z) (fw : FileWriter)
  : FileWriter :=
  mkFileWriter (final_log_path_ fw) (final_log_file_ fw)
    (current_event_file_ fw) n (total_num_event_files_ fw)
    (current_event_file_number_ fw) (max_event_file_size_ fw)
    (wrote_event_bytes_ fw).

Definition set_current_event_file_number (n : Z) (fw : FileWriter)
  : FileWriter :=
  mkFileWriter (final_log_path_ fw) (final_log_file_ fw)
    (current_event_file_ fw) (current_event_file_size_ fw)
    (total_num_event_files_ fw) n (max_event_file_size_ fw)
    (wrote_event_bytes_ fw).

Definition set_wrote_event_bytes (b : bool) (fw : FileWriter) : FileWriter :=
  mkFileWriter (final_log_path_ fw) (final_log_file_ fw)
    (current_event_file_ fw) (current_event_file_size_ fw)
    (total_num_event_files_ fw) (current_event_file_number_ fw)
    (max_event_file_size_ fw) b.

(** The constructor.  Its initializer list leaves
    [current_event_file_size_] out; [indeterminate] stands for whatever the
    member holds until [IncrementCurrentEventFile] assigns it. *)
Definition FileWriter_new (log_path : string)
    (max_event_file_size total_num_event_files indeterminate : Z)
  : FileWriter :=
  {| final_log_path_ := log_path;
     final_log_file_ := None;
     current_event_file_ := None;
     current_event_file_size_ := indeterminate;
     total_num_event_files_ := total_num_event_files;
     current_event_file_number_ := 0;
     max_event_file_size_ := max_event_file_size;
     wrote_event_bytes_ := false |}.

(** [base::ScopedFILE OpenFileForWrite(const base::FilePath& path)] *)
Definition OpenFileForWrite (path : string) : IO (option nat) :=
  OpenFile path ModeWrite.

(** [size_t WriteToFile(FILE* file, StringPiece data1, StringPiece data2,
                        StringPiece data3)]; absent arguments default to the
    empty piece. *)
Definition WriteToFile (file : option nat) (data1 data2 data3 : string)
  : IO Z :=
  let bytes_written := 0 in
  match file with
  | Some _ =>
      let* bytes_written :=
        if string_empty data1 then io_ret bytes_written
        else let* n := fwrite data1 file in
             io_ret (size_add bytes_written n) in
      let* bytes_written :=
        if string_empty data2 then io_ret bytes_written
        else let* n := fwrite data2 file in
             io_ret (size_add bytes_written n) in
      let* bytes_written :=
        if string_empty data3 then io_ret bytes_written
        else let* n := fwrite data3 file in
             io_ret (size_add bytes_written n) in
      io_ret bytes_written
  | None => io_ret bytes_written
  end.

(** The [while ((num_bytes_read = fread(...)) > 0)] loop of
    [AppendToFileThenDelete].  Every iteration consumes at least one byte
    of the source, so [fuel] above the size of the source never runs
    out. *)
Fixpoint copy_loop (fuel : nat) (source_file destination_file : option nat)
    (read_buffer_size : Z) : IO unit :=
  match fuel with
  | O => fun _ => OutOfFuel
  | S fuel' =>
      let* read_buffer := fread read_buffer_size source_file in
      if string_empty read_buffer then io_ret tt
      else
        WriteToFile destination_file read_buffer EmptyString EmptyString;;
        copy_loop fuel' source_file destination_file read_buffer_size
  end.

(** Fuel for copying [source_path]: one more than the bytes it holds. *)
Definition copy_fuel (source_path : string) (w : World) : nat :=
  match disk w !! source_path with
  | Some content => S (String.length content)
  | None => 1
  end.

(** [void AppendToFileThenDelete(const base::FilePath& source_path,
      FILE* destination_file, char* read_buffer, size_t read_buffer_size)] *)
Definition AppendToFileThenDelete (source_path : string)
    (destination_file : option nat) (read_buffer_size : Z) : IO unit :=
  let* source_file := OpenFile source_path ModeRead in
  match source_file with
  | None => io_ret tt
  | Some _ =>
      (fun w =>
         copy_loop (copy_fuel source_path w) source_file destination_file
           read_buffer_size w);;
      ScopedFILE_reset source_file;;
      DeleteFile source_path false
  end.

Definition IsUnbounded (fw : FileWriter) : bool :=
  max_event_file_size_ fw =? kNoLimit.

Definition IsBounded (fw : FileWriter) : bool := negb (IsUnbounded fw).

Definition GetInprogressDirectory (fw : FileWriter) : string :=
  AddExtension (final_log_path_ fw) ".inprogress".

Definition GetEventFilePath (fw : FileWriter) (index : Z) : string :=
  AppendASCII (GetInprogressDirectory fw)
    ("event_file_" +:+ SizeTToString index +:+ ".json").

Definition GetConstantsFilePath (fw : FileWriter) : string :=
  AppendASCII (GetInprogressDirectory fw) "constants.json".

Definition GetClosingFilePath (fw : FileWriter) : string :=
  AppendASCII (GetInprogressDirectory fw) "end_netlog.json".

(** [size_t FileWriter::FileNumberToIndex(size_t file_number) const] *)
Definition FileNumberToIndex (fw : FileWriter) (file_number : Z) : Z :=
  (size_sub file_number 1) mod total_num_event_files_ fw.

(** [void FileWriter::IncrementCurrentEventFile()].  Assigning to the
    [ScopedFILE] member closes the stream it held. *)
Definition IncrementCurrentEventFile (fw : FileWriter) : IO FileWriter :=
  let fw := set_current_event_file_number
              (size_add (current_event_file_number_ fw) 1) fw in
  let* file := OpenFileForWrite
                 (GetEventFilePath fw
                    (FileNumberToIndex fw (current_event_file_number_ fw))) in
  ScopedFILE_reset (current_event_file_ fw);;
  let fw := set_current_event_file file fw in
  io_ret (set_current_event_file_size 0 fw).

(** [static void FileWriter::WriteConstantsToFile(
      std::unique_ptr<base::Value> constants_value, FILE* file)].  The
    result of the encoder is only checked by a [DCHECK]. *)
Definition WriteConstantsToFile (constants_value : Value)
    (file : option nat) : IO unit :=
  let '(_, json) := JSONWriter_Write constants_value in
  WriteToFile file kConstantsKey json kEventsOpen;;
  io_ret tt.

(** [void FileWriter::CreateInprogressDirectory() const] *)
Definition CreateInprogressDirectory (fw : FileWriter) : IO unit :=
  match final_log_file_ fw with
  | None => io_ret tt
  | Some _ =>
      let* created := CreateDirectory (GetInprogressDirectory fw) in
      if negb created then io_ret tt
      else
        WriteToFile (final_log_file_ fw) kPlaceholder EmptyString EmptyString;;
        fflush (final_log_file_ fw)
  end.

(** [void FileWriter::Initialize(std::unique_ptr<base::Value>
      constants_value)].  [constants_file] is a local [ScopedFILE], closed
    when it leaves scope. *)
Definition Initialize (constants_value : Value) (fw : FileWriter)
  : IO FileWriter :=
  let* file := OpenFileForWrite (final_log_path_ fw) in
  ScopedFILE_reset (final_log_file_ fw);;
  let fw := set_final_log_file file fw in
  if IsBounded fw then
    CreateInprogressDirectory fw;;
    let* constants_file := OpenFileForWrite (GetConstantsFilePath fw) in
    WriteConstantsToFile constants_value constants_file;;
    ScopedFILE_reset constants_file;;
    io_ret fw
  else
    WriteConstantsToFile constants_value (final_log_file_ fw);;
    io_ret fw.

(** [static void FileWriter::WritePolledDataToFile(
      std::unique_ptr<base::Value> polled_data, FILE* file)];
    a null [polled_data] is [None]. *)
Definition WritePolledDataToFile (polled_data : option Value)
    (file : option nat) : IO unit :=
  WriteToFile file kEventsClose EmptyString EmptyString;;
  match polled_data with
  | Some value =>
      let '(_, polled_data_json) := JSONWriter_Write value in
      if negb (string_empty polled_data_json)
      then WriteToFile file kPolledDataKey polled_data_json newline;;
           io_ret tt
      else io_ret tt
  | None => io_ret tt
  end;;
  WriteToFile file kLogClose EmptyString EmptyString;;
  io_ret tt.

(** [void FileWriter::RewindIfWroteEventBytes(FILE* file) const] *)
Definition RewindIfWroteEventBytes (fw : FileWriter) (file : option nat)
  : IO unit :=
  match file with
  | Some _ =>
      if wrote_event_bytes_ fw then fseek_end file (-2) else io_ret tt
  | None => io_ret tt
  end.

(** [const size_t kReadBufferSize = 1 << 16;] *)
Definition kReadBufferSize : Z := Z.shiftl 1 16.

(** The file numbers visited by
    [for (size_t filenumber = begin_filenumber;
          filenumber < end_filenumber; ++filenumber)]. *)
Definition for_filenumbers (begin_filenumber end_filenumber : Z) : list Z :=
  seqZ begin_filenumber (end_filenumber - begin_filenumber).

Definition end_filenumber (fw : FileWriter) : Z :=
  size_add (current_event_file_number_ fw) 1.

Definition begin_filenumber (fw : FileWriter) : Z :=
  if current_event_file_number_ fw <=? total_num_event_files_ fw
  then 1
  else size_sub (end_filenumber fw) (total_num_event_files_ fw).

(** The body of the loop over file numbers, run for each of [filenumbers]
    in turn. *)
Fixpoint append_event_files (fw : FileWriter) (filenumbers : list Z) : IO unit :=
  match filenumbers with
  | [] => io_ret tt
  | filenumber :: rest =>
      AppendToFileThenDelete
        (GetEventFilePath fw (FileNumberToIndex fw filenumber))
        (final_log_file_ fw) kReadBufferSize;;
      append_event_files fw rest
  end.

(** [void FileWriter::StitchFinalLogFile()] *)
Definition StitchFinalLogFile (fw : FileWriter) : IO FileWriter :=
  ScopedFILE_reset (current_event_file_ fw);;
  let fw := set_current_event_file None fw in
  let* file := OpenFileForWrite (final_log_path_ fw) in
  ScopedFILE_reset (final_log_file_ fw);;
  let fw := set_final_log_file file fw in
  AppendToFileThenDelete (GetConstantsFilePath fw) (final_log_file_ fw)
    kReadBufferSize;;
  append_event_files fw
    (for_filenumbers (begin_filenumber fw) (end_filenumber fw));;
  RewindIfWroteEventBytes fw (final_log_file_ fw);;
  AppendToFileThenDelete (GetClosingFilePath fw) (final_log_file_ fw)
    kReadBufferSize;;
  DeleteFile (GetInprogressDirectory fw) true;;
  io_ret fw.

(** [void FileWriter::Stop(std::unique_ptr<base::Value> polled_data)].
    [closing_file] is a local [ScopedFILE]. *)
Definition Stop (polled_data : option Value) (fw : FileWriter)
  : IO FileWriter :=
  (if IsBounded fw then
     let* closing_file := OpenFileForWrite (GetClosingFilePath fw) in
     WritePolledDataToFile polled_data closing_file;;
     ScopedFILE_reset closing_file
   else
     RewindIfWroteEventBytes fw (final_log_file_ fw);;
     WritePolledDataToFile polled_data (final_log_file_ fw));;
  let* fw := if IsBounded fw then StitchFinalLogFile fw else io_ret fw in
  ScopedFILE_reset (final_log_file_ fw);;
  io_ret (set_final_log_file None fw).

(** Does [Flush] rotate to a new event file before it writes the next
    event?  This is the condition of its inner [if]. *)
Definition needs_new_event_file (fw : FileWriter) : bool :=
  (current_event_file_number_ fw =? 0)
  || (current_event_file_size_ fw >=? max_event_file_size_ fw).

(** One iteration of the [while (!local_file_queue.empty())] loop of
    [Flush], for the event at the front of the local queue. *)
Definition Flush_event (event : string) (fw : FileWriter) : IO FileWriter :=
  let* fw :=
    if IsBounded fw then
      if needs_new_event_file fw then IncrementCurrentEventFile fw
      else io_ret fw
    else io_ret fw in
  let output_file :=
    if IsBounded fw then current_event_file_ fw else final_log_file_ fw in
  let* bytes_written :=
    WriteToFile output_file event kEventSeparator EmptyString in
  let fw := set_wrote_event_bytes
              (wrote_event_bytes_ fw || (bytes_written >? 0)) fw in
  let fw :=
    if IsBounded fw
    then set_current_event_file_size
           (size_add (current_event_file_size_ fw) bytes_written) fw
    else fw in
  io_ret fw.

Fixpoint Flush_loop (local_file_queue : EventQueue) (fw : FileWriter)
  : IO FileWriter :=
  match local_file_queue with
  | [] => io_ret fw
  | front :: rest =>
      let* fw := Flush_event front fw in
      Flush_loop rest fw
  end.

(** [void FileWriter::Flush(scoped_refptr<WriteQueue> write_queue)].  The
    queue is shared with the observer, so its new state is returned. *)
Definition Flush (write_queue : WriteQueue) (fw : FileWriter)
  : IO (WriteQueue * FileWriter) :=
  let '(local_file_queue, write_queue) := SwapQueue [] write_queue in
  let* fw := Flush_loop local_file_queue fw in
  io_ret (write_queue, fw).

(** [void FileWriter::FlushThenStop(scoped_refptr<WriteQueue> write_queue,
      std::unique_ptr<base::Value> polled_data)] *)
Definition FlushThenStop (write_queue : WriteQueue)
    (polled_data : option Value) (fw : FileWriter)
  : IO (WriteQueue * FileWriter) :=
  let* flushed := Flush write_queue fw in
  let '(write_queue, fw) := flushed in
  let* fw := Stop polled_data fw in
  io_ret (write_queue, fw).

(** [void FileWriter::DeleteAllFiles()] *)
Definition DeleteAllFiles (fw : FileWriter) : IO FileWriter :=
  ScopedFILE_reset (final_log_file_ fw);;
  let fw := set_final_log_file None fw in
  let* fw :=
    if IsBounded fw then
      ScopedFILE_reset (current_event_file_ fw);;
      DeleteFile (GetInprogressDirectory fw) true;;
      io_ret (set_current_event_file None fw)
    else io_ret fw in
  DeleteFile (final_log_path_ fw) false;;
  io_ret fw.

(** ** FileNetLogObserver *)

(** Closures posted to the file task runner. *)
Inductive Task : Type :=
| TaskInitialize (constants : Value)
| TaskFlush
| TaskFlushThenStop (polled_data : option Value) (reply : bool)
| TaskDeleteAllFiles
| TaskDeleteSoon.

(** [file_task_runner_] is the sequence of tasks posted so far, oldest
    first; [net_log_] tells whether the observer is registered with a
    [NetLog] ([net_log()] is non-null). *)
Record FileNetLogObserver : Type := mkObserver {
  file_task_runner_ : list Task;
  write_queue_ : WriteQueue;
  file_writer_ : FileWriter;
  net_log_ : bool
}.

Definition PostTask (task : Task) (obs : FileNetLogObserver)
  : FileNetLogObserver :=
  mkObserver (file_task_runner_ obs ++ [task]) (write_queue_ obs)
    (file_writer_ obs) (net_log_ obs).

(** The private constructor.  [GetNetConstants] is the value the external
    [GetNetConstants()] returns. *)
Definition FileNetLogObserver_new (file_writer : FileWriter)
    (write_queue : WriteQueue) (constants : option Value)
    (GetNetConstants : Value) : FileNetLogObserver :=
  let constants :=
    match constants with
    | Some c => c
    | None => GetNetConstants
    end in
  PostTask (TaskInitialize constants)
    (mkObserver [] write_queue file_writer false).

(** [FileNetLogObserver::CreateBoundedInternal(log_path, max_total_size,
      total_num_event_files, constants)] *)
Definition CreateBoundedInternal (log_path : string)
    (max_total_size total_num_event_files : Z) (constants : option Value)
    (GetNetConstants : Value) (indeterminate : Z) : FileNetLogObserver :=
  let max_event_file_size :=
    if max_total_size =? kNoLimit then kNoLimit
    else max_total_size / total_num_event_files in
  let file_writer :=
    FileWriter_new log_path max_event_file_size total_num_event_files
      indeterminate in
  let write_queue := WriteQueue_new (size_mul max_total_size 2) in
  FileNetLogObserver_new file_writer write_queue constants GetNetConstants.

Definition CreateBounded (log_path : string) (max_total_size : Z)
    (constants : option Value) (GetNetConstants : Value) (indeterminate : Z)
  : FileNetLogObserver :=
  CreateBoundedInternal log_path max_total_size 10 constants GetNetConstants
    indeterminate.

Definition CreateUnbounded (log_path : string) (constants : option Value)
    (GetNetConstants : Value) (indeterminate : Z) : FileNetLogObserver :=
  CreateBounded log_path kNoLimit constants GetNetConstants indeterminate.

Definition CreateBoundedForTests (log_path : string)
    (max_total_size total_num_event_files : Z) (constants : option Value)
    (GetNetConstants : Value) (indeterminate : Z) : FileNetLogObserver :=
  CreateBoundedInternal log_path max_total_size total_num_event_files
    constants GetNetConstants indeterminate.

(** [void FileNetLogObserver::StartObserving(NetLog*, NetLogCaptureMode)] *)
Definition StartObserving (obs : FileNetLogObserver) : FileNetLogObserver :=
  mkObserver (file_task_runner_ obs) (write_queue_ obs) (file_writer_ obs)
    true.

(** [void FileNetLogObserver::StopObserving(
      std::unique_ptr<base::Value> polled_data,
      base::OnceClosure optional_callback)];
    [optional_callback] tells whether the closure is non-null. *)
Definition StopObserving (polled_data : option Value)
    (optional_callback : bool) (obs : FileNetLogObserver)
  : FileNetLogObserver :=
  let obs := mkObserver (file_task_runner_ obs) (write_queue_ obs)
               (file_writer_ obs) false in
  PostTask (TaskFlushThenStop polled_data optional_callback) obs.

(** [void FileNetLogObserver::OnAddEntry(const NetLogEntry& entry)];
    [entry] is the value [entry.ToValue()] yields. *)
Definition OnAddEntry (entry : Value) (obs : FileNetLogObserver)
  : FileNetLogObserver :=
  let '(ok, json) := JSONWriter_Write entry in
  if negb ok then obs
  else
    let '(queue_size, write_queue) :=
      AddEntryToQueue json (write_queue_ obs) in
    let obs := mkObserver (file_task_runner_ obs) write_queue
                 (file_writer_ obs) (net_log_ obs) in
    if queue_size =? kNumWriteQueueEvents then PostTask TaskFlush obs
    else obs.

(** [FileNetLogObserver::~FileNetLogObserver()] *)
Definition FileNetLogObserver_delete (obs : FileNetLogObserver)
  : FileNetLogObserver :=
  let obs :=
    if net_log_ obs then
      PostTask TaskDeleteAllFiles
        (mkObserver (file_task_runner_ obs) (write_queue_ obs)
           (file_writer_ obs) false)
    else obs in
  PostTask TaskDeleteSoon obs.

(** The file task runner runs one posted task against the queue and the
    writer it was bound to. *)
Definition run_task (task : Task) (write_queue : WriteQueue)
    (fw : FileWriter) : IO (WriteQueue * FileWriter) :=
  match task with
  | TaskInitialize constants =>
      let* fw := Initialize constants fw in io_ret (write_queue, fw)
  | TaskFlush => Flush write_queue fw
  | TaskFlushThenStop polled_data _ => FlushThenStop write_queue polled_data fw
  | TaskDeleteAllFiles =>
      let* fw := DeleteAllFiles fw in io_ret (write_queue, fw)
  | TaskDeleteSoon => io_ret (write_queue, fw)
  end.

(** ** Reading a trace *)

(** The paths opened for reading, in the order of the calls. *)
Fixpoint opened_for_read (events : list io_event) : list string :=
  match events with
  | [] => []
  | EvOpen path ModeRead _ :: rest => path :: opened_for_read rest
  | _ :: rest => opened_for_read rest
  end.

(** The paths opened for writing, in the order of the calls. *)
Fixpoint opened_for_write (events : list io_event) : list string :=
  match events with
  | [] => []
  | EvOpen path ModeWrite _ :: rest => path :: opened_for_write rest
  | _ :: rest => opened_for_write rest
  end.

(** The bytes that reached stream [file], in the order they were
    written. *)
Fixpoint written_to (file : nat) (events : list io_event) : string :=
  match events with
  | [] => EmptyString
  | EvWrite id data :: rest =>
      if Nat.eqb id file then data +:+ written_to file rest
      else written_to file rest
  | _ :: rest => written_to file rest
  end.

(** All bytes written, whatever the stream. *)
Fixpoint bytes_written (events : list io_event) : string :=
  match events with
  | [] => EmptyString
  | EvWrite _ data :: rest => data +:+ bytes_written rest
  | _ :: rest => bytes_written rest
  end.

(** Was a seek issued? *)
Fixpoint seeks (events : list io_event) : list (nat * Z) :=
  match events with
  | [] => []
  | EvSeekEnd id offset :: rest => (id, offset) :: seeks rest
  | _ :: rest => seeks rest
  end.

(** ** Reference environments *)

(** An operating system on which every call succeeds in full. *)
Definition reliable_env : Env :=
  {| env_open_ok := fun _ _ _ => true;
     env_write_room := fun _ _ n => n;
     env_read_room := fun _ _ n => n;
     env_mkdir_ok := fun _ _ => true;
     env_delete_ok := fun _ _ _ _ => true |}.

(** An operating system on which nothing can be opened and every other
    request is refused. *)
Definition hostile_env : Env :=
  {| env_open_ok := fun _ _ _ => false;
     env_write_room := fun _ _ _ => O;
     env_read_room := fun _ _ _ => O;
     env_mkdir_ok := fun _ _ => false;
     env_delete_ok := fun _ _ _ _ => false |}.

(** An operating system that removes every file it is asked to delete,
    whatever else it refuses. *)
Definition deletes_carried_out (e : Env) : Prop :=
  forall events path recursive q,
    env_delete_ok e events path recursive q = true.

Definition empty_world (e : Env) : World :=
  {| disk := ∅; streams := ∅; next_stream := 0; trace := []; env := e |}.

(** The epilogue as the specification words it: ["]"], then the polled
    data clause when polled data is present and encodes to a non-empty
    string, then the closing brace and a newline. *)
Definition spec_epilogue (polled_data : option Value) : string :=
  "]" +:+
  match polled_data with
  | Some value =>
      if string_empty (json_text value) then EmptyString
      else "," +:+ newline +:+ dquote +:+ "polledData" +:+ dquote +:+ ": "
           +:+ json_text value +:+ newline
  | None => EmptyString
  end +:+ "}" +:+ newline.

(** The prologue as the specification words it. *)
Definition spec_prologue (constants : Value) : string :=
  "{" +:+ dquote +:+ "constants" +:+ dquote +:+ ":" +:+ json_text constants
  +:+ "," +:+ newline +:+ dquote +:+ "events" +:+ dquote +:+ ": ["
  +:+ newline.


(** ** Describing what an operation did *)

(** Stream [id] is open on [path] at offset [pos], and the file holds
    [content]. *)
Definition stream_at (w : World) (id : nat) (path : string) (pos : nat)
    (content : string) : Prop :=
  streams w !! id = Some (mkStream path pos) /\ disk w !! path = Some content.

(** Stream [id] stands at the end of the file [path]. *)
Definition at_eof (w : World) (id : nat) (path content : string) : Prop :=
  stream_at w id path (String.length content) content.

(** An event that is a write through [file]. *)
Definition is_write_to (file : option nat) (e : io_event) : bool :=
  match e, file with
  | EvWrite id _, Some id' => Nat.eqb id id'
  | _, _ => false
  end.

(** [w'] comes from [w] by writes through [file] alone, which left the
    events [evs] in the trace. *)
Definition wrote (file : option nat) (w w' : World) (evs : list io_event)
  : Prop :=
  trace w' = trace w ++ evs /\
  forallb (is_write_to file) evs = true /\
  env w' = env w /\
  next_stream w' = next_stream w /\
  (forall id, file <> Some id -> streams w' !! id = streams w !! id) /\
  (forall id, stream_path <$> streams w' !! id
              = stream_path <$> streams w !! id) /\
  (forall path,
      (forall id st, file = Some id -> streams w !! id = Some st ->
                     stream_path st <> path) ->
      disk w' !! path = disk w !! path).

(** The destination of a copy is null, or an older stream that is not
    open on anything but [path]. *)
Definition dest_ok (dst : option nat) (path : string) (w : World) : Prop :=
  match dst with
  | None => True
  | Some d =>
      (d < next_stream w)%nat /\
      forall st, streams w !! d = Some st -> stream_path st = path
  end.

(** The events a copy loop leaves: reads, and writes through the
    destination. *)
Definition is_copy_event (dst : option nat) (e : io_event) : bool :=
  match e with
  | EvRead _ _ => true
  | _ => is_write_to dst e
  end.

(** What the events of a sequence of [AppendToFileThenDelete] calls look
    like from outside: the sources opened for reading, in order; no open
    for writing, no seek, and no byte written through any stream but the
    destination. *)
Definition appended_from (sources : list string) (dst : option nat)
    (evs : list io_event) : Prop :=
  opened_for_read evs = sources /\
  opened_for_write evs = [] /\
  seeks evs = [] /\
  forall id, dst <> Some id -> written_to id evs = EmptyString.

(** [w'] is a later state of [w]: the trace grew by [evs], the operating
    system is the same, stream numbers were only handed out upwards, and a
    stream that existed before is closed or still open on the same
    path. *)
Definition extends (w w' : World) (evs : list io_event) : Prop :=
  trace w' = trace w ++ evs /\
  env w' = env w /\
  (next_stream w <= next_stream w')%nat /\
  forall id st', (id < next_stream w)%nat -> streams w' !! id = Some st' ->
    exists st, streams w !! id = Some st /\ stream_path st = stream_path st'.

(** The writer after [IncrementCurrentEventFile] opened [file]. *)
Definition rotated (file : option nat) (fw : FileWriter) : FileWriter :=
  set_current_event_file_size 0
    (set_current_event_file file
       (set_current_event_file_number
          (size_add (current_event_file_number_ fw) 1) fw)).

(** The path [IncrementCurrentEventFile] opens. *)
Definition next_event_file_path (fw : FileWriter) : string :=
  GetEventFilePath fw
    (FileNumberToIndex fw (size_add (current_event_file_number_ fw) 1)).

(** The stream [Flush] writes the next event to. *)
Definition output_file (fw : FileWriter) : option nat :=
  if IsBounded fw then current_event_file_ fw else final_log_file_ fw.

(** The bookkeeping of [Flush] after [WriteToFile] returned
    [bytes_written]. *)
Definition accounted (bytes_written : Z) (fw : FileWriter) : FileWriter :=
  let fw := set_wrote_event_bytes
              (wrote_event_bytes_ fw || (bytes_written >? 0)) fw in
  if IsBounded fw
  then set_current_event_file_size
         (size_add (current_event_file_size_ fw) bytes_written) fw
  else fw.

Definition close_events (file : option nat) : list io_event :=
  match file with
  | Some id => [EvClose id]
  | None => []
  end.

(** Both streams of the writer were handed out by this world. *)
Definition handles_ok (fw : FileWriter) (w : World) : Prop :=
  (forall id, final_log_file_ fw = Some id -> (id < next_stream w)%nat) /\
  (forall id, current_event_file_ fw = Some id -> (id < next_stream w)%nat).

(** ** The rounds of Flush *)

(** The rounds of the [while] loop of [Flush] over a local queue, one for
    each record: [drains holds queue fw w fw' w'] says that the rounds for
    the records of [queue], taken in order, lead from writer [fw] and
    world [w] to [fw'] and [w'], and that [holds] is true of every
    round. *)
Inductive drains
    (holds : string -> FileWriter -> World -> FileWriter -> World -> Prop)
  : EventQueue -> FileWriter -> World -> FileWriter -> World -> Prop :=
| drains_empty fw w : drains holds [] fw w fw w
| drains_record event rest fw w fw1 w1 fw' w' :
    Flush_event event fw w = Done fw1 w1 ->
    holds event fw w fw1 w1 ->
    drains holds rest fw1 w1 fw' w' ->
    drains holds (event :: rest) fw w fw' w'.

(** The condition under which a record is preceded by a rotation: no
    event file was opened yet, or the current one holds at least
    [max_event_file_size_] bytes. *)
Definition rotation_due (fw : FileWriter) : Prop :=
  current_event_file_number_ fw = 0 \/
  current_event_file_size_ fw >= max_event_file_size_ fw.

(** The byte count the record of a round is added to: that of the current
    event file, or 0 when the round starts with a rotation. *)
Definition bytes_before (fw : FileWriter) : Z :=
  if needs_new_event_file fw then 0 else current_event_file_size_ fw.

(** A round that rotates first, if at all, and then writes: its events
    are [rotation ++ writes], no byte is written during [rotation], no
    file is opened during [writes], and every write goes through the
    current event file of the end of the round.  The rotation takes place
    exactly when it is due: then the next event file is opened and the
    file number goes up by one; otherwise nothing is opened and file number
    and stream stay. *)
Definition rotates_then_writes (event : string) (fw : FileWriter)
    (w : World) (fw' : FileWriter) (w' : World) : Prop :=
  exists rotation writes,
    trace w' = trace w ++ rotation ++ writes /\
    bytes_written rotation = EmptyString /\
    opened_for_write writes = [] /\
    forallb (is_write_to (current_event_file_ fw')) writes = true /\
    (rotation_due fw ->
     opened_for_write rotation = [next_event_file_path fw] /\
     current_event_file_number_ fw'
     = size_add (current_event_file_number_ fw) 1) /\
    (~ rotation_due fw ->
     rotation = [] /\
     current_event_file_number_ fw' = current_event_file_number_ fw /\
     current_event_file_ fw' = current_event_file_ fw).

(** A round whose record is written in full: the whole record and its
    separator are the bytes written in the round, all through the one
    current event file, however large the record is; the byte count of the
    file grows by the size of the record plus two; a record larger than
    [max_event_file_size_] makes the rotation due for the next record.
    With two event files or more the file itself holds what it held
    before, nothing after a rotation, followed by the record and the
    separator. *)
Definition written_in_full (event : string) (fw : FileWriter) (w : World)
    (fw' : FileWriter) (w' : World) : Prop :=
  exists rotation writes,
    trace w' = trace w ++ rotation ++ writes /\
    bytes_written rotation = EmptyString /\
    forallb (is_write_to (current_event_file_ fw')) writes = true /\
    bytes_written writes = event +:+ kEventSeparator /\
    current_event_file_size_ fw'
    = bytes_before fw + string_size event + 2 /\
    (string_size event > max_event_file_size_ fw ->
     rotation_due fw') /\
    (2 <= total_num_event_files_ fw ->
     exists id path content,
       current_event_file_ fw' = Some id /\
       at_eof w' id path (content +:+ event +:+ kEventSeparator) /\
       (rotation_due fw -> content = EmptyString) /\
       (~ rotation_due fw -> at_eof w id path content)).

(** The event files named by a list of file numbers. *)
Definition event_file_paths (fw : FileWriter) (filenumbers : list Z)
  : list string :=
  map (fun filenumber =>
         GetEventFilePath fw (FileNumberToIndex fw filenumber)) filenumbers.

(** The paths [StitchFinalLogFile] copies from, in order. *)
Definition stitch_sources (fw : FileWriter) : list string :=
  GetConstantsFilePath fw
  :: event_file_paths fw
       (for_filenumbers (begin_filenumber fw) (end_filenumber fw))
  ++ [GetClosingFilePath fw].

Definition rewind_seeks (fw : FileWriter) (file : option nat)
  : list (nat * Z) :=
  if wrote_event_bytes_ fw
  then match file with Some id => [(id, -2)] | None => [] end
  else [].

(** The writer [Stop] leaves behind. *)
Definition stopped (fw : FileWriter) : FileWriter :=
  set_final_log_file None
    (if IsBounded fw then set_current_event_file None fw else fw).


(** The file task runner runs the posted tasks in the order they were
    posted. *)
Fixpoint run_tasks (tasks : list Task) (write_queue : WriteQueue)
    (fw : FileWriter) : IO (WriteQueue * FileWriter) :=
  match tasks with
  | [] => io_ret (write_queue, fw)
  | task :: rest =>
      let* state := run_task task write_queue fw in
      run_tasks rest (fst state) (snd state)
  end.

(** The [Flush] tasks of a run, one per state in which the file task
    runner finds the shared queue. *)
Fixpoint flush_each (write_queues : list WriteQueue) (fw : FileWriter)
  : IO FileWriter :=
  match write_queues with
  | [] => io_ret fw
  | write_queue :: rest =>
      let* flushed := Flush write_queue fw in
      flush_each rest (snd flushed)
  end.

(** The life of a writer whose observer is stopped: [Initialize], the
    [Flush] tasks, then [Stop]. *)
Definition writer_run (constants : Value) (write_queues : list WriteQueue)
    (polled_data : option Value) (fw : FileWriter) : IO FileWriter :=
  let* fw := Initialize constants fw in
  let* fw := flush_each write_queues fw in
  Stop polled_data fw.

(** What is in file [path], nothing when there is no such file. *)
Definition file_text (files : gmap string string) (path : string) : string :=
  match files !! path with
  | Some content => content
  | None => EmptyString
  end.

(** The files [paths] one after the other. *)
Fixpoint concat_files (files : gmap string string) (paths : list string)
  : string :=
  match paths with
  | [] => EmptyString
  | path :: rest => file_text files path +:+ concat_files files rest
  end.

(** The position of the final file's stream after
    [RewindIfWroteEventBytes], from the end of [body]. *)
Definition rewind_position (fw : FileWriter) (body : string) : nat :=
  if wrote_event_bytes_ fw && (2 <=? String.length body)%nat
  then (String.length body - 2)%nat
  else String.length body.

(** The text [StitchFinalLogFile] leaves in the final file, from the files
    of the in-progress directory and the text of the closing file. *)
Definition stitched_text (fw : FileWriter) (files : gmap string string)
    (closing : string) : string :=
  let body :=
    file_text files (GetConstantsFilePath fw)
    +:+ concat_files files
          (event_file_paths fw
             (for_filenumbers (begin_filenumber fw) (end_filenumber fw))) in
  write_at body (rewind_position fw body) closing.

(** ** Reference inputs *)

Definition example_calls : list queue_call :=
  [CallAddEntry "aaaa"; CallSwapQueue; CallAddEntry "bbbb";
   CallAddEntry "cccc"].

(** A queue of cap 10 that holds one empty record. *)
Definition queue_with_empty_record : WriteQueue :=
  run_calls (WriteQueue_new 10) [CallAddEntry EmptyString].

Definition example_value (json : string) : Value := mkValue true json.

(** A bounded writer with three chunk files of four bytes, before
    [Initialize]. *)
Definition example_bounded_writer : FileWriter :=
  FileWriter_new "log.json" 4 3 77.

(** The same writer after seven rotations. *)
Definition example_wrapped_writer : FileWriter :=
  set_current_event_file_number 7 example_bounded_writer.

Definition example_unbounded_writer : FileWriter :=
  FileWriter_new "log.json" kNoLimit 10 77.

(** An observer whose queue holds fourteen records. *)
Definition example_observer : FileNetLogObserver :=
  fold_left (fun obs entry => OnAddEntry entry obs)
    (repeat (example_value "{}") 14)
    (StartObserving
       (CreateBounded "log.json" 1000 None (example_value "{}") 77)).



(** Seven records of two bytes: with chunk files of four bytes every
    record fills its chunk. *)
Definition example_ring_queue : WriteQueue :=
  run_calls (WriteQueue_new 100)
    (map CallAddEntry ["e1"; "e2"; "e3"; "e4"; "e5"; "e6"; "e7"]).

(** The writer and the world when [Stop] is reached after the seven
    records were flushed to three chunk files of four bytes. *)
Definition example_ring_state : FileWriter * World :=
  match
    (let* fw := Initialize (example_value "{}") example_bounded_writer in
     flush_each [example_ring_queue] fw) (empty_world reliable_env)
  with
  | Done fw w => (fw, w)
  | _ => (example_bounded_writer, empty_world reliable_env)
  end.

(** ** The text of a log *)

(** What [Flush] hands to [WriteToFile] for the events of a queue: every
    event followed by the separator. *)
Fixpoint events_text (events : list string) : string :=
  match events with
  | [] => EmptyString
  | event :: rest => event +:+ kEventSeparator +:+ events_text rest
  end.

(** The events [Flush] finds in a sequence of queue states, oldest
    first. *)
Definition queued_events (write_queues : list WriteQueue) : list string :=
  concat (map queue_ write_queues).

(** A complete log: the prologue, the events with a separator between
    each two, the epilogue. *)
Definition log_text (constants : Value) (events : list string)
    (polled_data : option Value) : string :=
  spec_prologue constants +:+ String.concat kEventSeparator events
  +:+ spec_epilogue polled_data.

(** ** The ring of event files *)

(** The event files as [Flush] fills them in bounded mode, newest first,
    each with the events written to it: an event goes to a new file when
    there is no file yet or the newest holds at least
    [max_event_file_size] bytes, and to the newest file otherwise. *)
Definition add_event (max_event_file_size : Z) (chunks : list (list string))
    (event : string) : list (list string) :=
  match chunks with
  | [] => [[event]]
  | current :: older =>
      if string_size (events_text current) >=? max_event_file_size
      then [event] :: chunks
      else (current ++ [event]) :: older
  end.

Definition chunk_events (max_event_file_size : Z) (events : list string)
  : list (list string) :=
  fold_left (add_event max_event_file_size) events [].

(** The events of the newest [total_num_event_files] files, oldest
    first. *)
Definition retained_events (total_num_event_files : Z)
    (chunks : list (list string)) : list string :=
  concat (rev (firstn (Z.to_nat total_num_event_files) chunks)).

(** The path of the event file with number [file_number]. *)
Definition event_file_of (fw : FileWriter) (file_number : Z) : string :=
  GetEventFilePath fw (FileNumberToIndex fw file_number).

(** A bounded writer between two events of [Flush], on an operating system
    that carries out every request: its file number is the number of files
    filled so far, the newest file is open at its end, and each of the
    newest [total_num_event_files_] files holds the text of its events. *)
Definition ring_state (constants : Value) (chunks : list (list string))
    (fw : FileWriter) (w : World) : Prop :=
  env w = reliable_env /\
  IsBounded fw = true /\
  current_event_file_number_ fw = Z.of_nat (length chunks) /\
  wrote_event_bytes_ fw = negb (bool_decide (chunks = [])) /\
  Forall (fun chunk => chunk <> []) chunks /\
  handles_ok fw w /\
  disk w !! GetConstantsFilePath fw = Some (spec_prologue constants) /\
  (forall k chunk,
     chunks !! k = Some chunk ->
     Z.of_nat k < total_num_event_files_ fw ->
     disk w !! event_file_of fw (Z.of_nat (length chunks) - Z.of_nat k)
     = Some (events_text chunk)) /\
  match chunks with
  | [] => True
  | current :: _ =>
      exists id,
        current_event_file_ fw = Some id /\
        at_eof w id (event_file_of fw (Z.of_nat (length chunks)))
          (events_text current) /\
        current_event_file_size_ fw = string_size (events_text current)
  end.

(** ** The observer and its file task runner *)

(** What happens next to an observer: its [NetLog] delivers an entry on
    the observer's thread, or the file task runner runs the oldest task
    that was posted and has not run yet. *)
Inductive system_action : Type :=
| DeliverEntry (entry : Value)
| RunNextTask.

(** One such step; [file_task_runner_] holds the tasks that were posted
    and have not run yet.  A task touches the shared queue only through
    [SwapQueue], under the queue's lock, so the step of a task is taken as
    a whole. *)
Definition system_step (action : system_action) (obs : FileNetLogObserver)
  : IO FileNetLogObserver :=
  match action with
  | DeliverEntry entry => io_ret (OnAddEntry entry obs)
  | RunNextTask =>
      match file_task_runner_ obs with
      | [] => io_ret obs
      | task :: rest =>
          let* state :=
            run_task task (write_queue_ obs) (file_writer_ obs) in
          io_ret (mkObserver rest (fst state) (snd state) (net_log_ obs))
      end
  end.

Fixpoint system_run (actions : list system_action)
    (obs : FileNetLogObserver) : IO FileNetLogObserver :=
  match actions with
  | [] => io_ret obs
  | action :: rest =>
      let* obs := system_step action obs in
      system_run rest obs
  end.

(** Fifteen or more queued events have a [Flush] task posted. *)
Definition flush_on_its_way (obs : FileNetLogObserver) : Prop :=
  15 <= Z.of_nat (length (queue_ (write_queue_ obs))) ->
  In TaskFlush (file_task_runner_ obs).

(** ** Streams and files a writer may touch *)

(** No stream carries a number that has not been handed out yet. *)
Definition wf_world (w : World) : Prop :=
  forall id, (next_stream w <= id)%nat -> streams w !! id = None.

(** [w'] comes from [w] by an operation that closed every stream it
    opened, left the streams that were open as they were (open, on the same
    path), and changed no file outside [touched]. *)
Definition quiet (touched : string -> Prop) (w w' : World) : Prop :=
  (next_stream w <= next_stream w')%nat /\
  (forall id, (id < next_stream w)%nat ->
     stream_path <$> streams w' !! id = stream_path <$> streams w !! id) /\
  (forall id, (next_stream w <= id)%nat -> streams w' !! id = None) /\
  (forall q, ~ touched q -> disk w' !! q = disk w !! q).

(** The files of a writer: the final log file and, in bounded mode, its
    in-progress directory with everything inside. *)
Definition log_files (fw : FileWriter) (path : string) : Prop :=
  path = final_log_path_ fw \/
  (IsBounded fw = true /\
   (path = GetInprogressDirectory fw \/
    inside_directory (GetInprogressDirectory fw) path = true)).

(** A writer whose streams were all handed out from number [n0] on: its
    handles are such streams, and every stream from [n0] on that is open is
    one of its two handles, open on the final log file or on a file inside
    the in-progress directory; an unbounded writer has no event file. *)
Definition writer_ok (n0 : nat) (fw : FileWriter) (w : World) : Prop :=
  wf_world w /\ (n0 <= next_stream w)%nat /\
  (forall id, final_log_file_ fw = Some id ->
     (n0 <= id < next_stream w)%nat) /\
  (forall id, current_event_file_ fw = Some id ->
     (n0 <= id < next_stream w)%nat /\ IsBounded fw = true) /\
  (forall id path,
     (n0 <= id)%nat -> stream_path <$> streams w !! id = Some path ->
     (final_log_file_ fw = Some id /\ path = final_log_path_ fw) \/
     (current_event_file_ fw = Some id /\
      inside_directory (GetInprogressDirectory fw) path = true)).

(** Between [w] and [w'] the streams below [n0] stayed as they were and no
    file but the writer's changed. *)
Definition kept (n0 : nat) (fw : FileWriter) (w w' : World) : Prop :=
  (forall id, (id < n0)%nat ->
     stream_path <$> streams w' !! id = stream_path <$> streams w !! id) /\
  (forall q, ~ log_files fw q -> disk w' !! q = disk w !! q).

(** The tasks an observer posts while it is observing. *)
Definition observing_task (task : Task) : Prop :=
  match task with
  | TaskInitialize _ | TaskFlush => True
  | _ => False
  end.

(** An observer registered with its [NetLog], writing to [log_path] with
    event files of [max_event_file_size] bytes. *)
Definition observing (log_path : string) (max_event_file_size : Z)
    (obs : FileNetLogObserver) : Prop :=
  net_log_ obs = true /\
  final_log_path_ (file_writer_ obs) = log_path /\
  max_event_file_size_ (file_writer_ obs) = max_event_file_size /\
  Forall observing_task (file_task_runner_ obs).


(** The events an observer queues in a sequence of steps: the text of every
    entry the encoder accepts, in the order of delivery. *)
Fixpoint delivered (actions : list system_action) : list string :=
  match actions with
  | [] => []
  | DeliverEntry entry :: rest =>
      if json_ok entry then json_text entry :: delivered rest
      else delivered rest
  | RunNextTask :: rest => delivered rest
  end.

(** The life of an observer that is stopped: the steps [actions], then
    [StopObserving], then the file task runner runs every task that is
    left. *)
Definition observer_run (actions : list system_action)
    (polled_data : option Value) (optional_callback : bool)
    (obs : FileNetLogObserver) : IO (WriteQueue * FileWriter) :=
  let* obs := system_run actions obs in
  let obs := StopObserving polled_data optional_callback obs in
  run_tasks (file_task_runner_ obs) (write_queue_ obs) (file_writer_ obs).

(** Sixteen entries of two bytes each, and one the encoder rejects. *)
Definition example_entries : list Value :=
  map example_value
    ["e0"; "e1"; "e2"; "e3"; "e4"; "e5"; "e6"; "e7";
     "e8"; "e9"; "ea"; "eb"; "ec"; "ed"; "ee"; "ef"].

Definition example_rejected_entry : Value := mkValue false "xx".

(** Fifteen entries are delivered before the file task runner gets to run;
    it then runs [Initialize] and the [Flush] the fifteenth entry posted; a
    rejected entry and the sixteenth entry follow, and a turn of the file
    task runner that finds no task. *)
Definition example_schedule : list system_action :=
  map DeliverEntry (firstn 15 example_entries)
  ++ [RunNextTask; RunNextTask; DeliverEntry example_rejected_entry]
  ++ map DeliverEntry (skipn 15 example_entries)
  ++ [RunNextTask].

(** Sixteen entries are delivered and [Initialize] runs in between; the
    [Flush] that was posted has not run. *)
Definition example_backlog : list system_action :=
  map DeliverEntry (firstn 15 example_entries)
  ++ [RunNextTask]
  ++ map DeliverEntry (skipn 15 example_entries).

(** A world with somebody else's file, open on stream 0. *)
Definition example_shared_world (e : Env) : World :=
  {| disk := {["notes.txt" := "keep"]};
     streams := {[0%nat := mkStream "notes.txt" 4]};
     next_stream := 1; trace := []; env := e |}.

(** A world in which stream 0 stands at the end of ["out.json"], which
    holds ["ab"], and ["in.json"] holds five bytes. *)
Definition example_copy_world : World :=
  {| disk := <["in.json" := "hello"]> {["out.json" := "ab"]};
     streams := {[0%nat := mkStream "out.json" 2]};
     next_stream := 1; trace := []; env := reliable_env |}.




(** * Properties *)

(** ** [size_t] arithmetic *)

Lemma SIZE_MAX_eq : SIZE_MAX = 18446744073709551615.
Proof. reflexivity. Qed.

Lemma to_size_t_small z : is_size_t z -> to_size_t z = z.
Proof.
  unfold is_size_t, to_size_t. rewrite SIZE_MAX_eq. intros Hz.
  apply Z.mod_small. change (2 ^ size_t_bits) with 18446744073709551616. lia.
Qed.

Lemma to_size_t_range z : is_size_t (to_size_t z).
Proof.
  unfold is_size_t, to_size_t. rewrite SIZE_MAX_eq.
  change (2 ^ size_t_bits) with 18446744073709551616.
  pose proof (Z.mod_pos_bound z 18446744073709551616). lia.
Qed.

Lemma size_add_small a b : is_size_t (a + b) -> size_add a b = a + b.
Proof. apply to_size_t_small. Qed.

Lemma size_sub_small a b : is_size_t (a - b) -> size_sub a b = a - b.
Proof. apply to_size_t_small. Qed.

Lemma string_size_nonneg s : 0 <= string_size s.
Proof. unfold string_size. lia. Qed.

Lemma string_empty_size s : string_empty s = true <-> string_size s = 0.
Proof. destruct s; unfold string_size; simpl; split; intros; try done; lia. Qed.

(** ** WriteQueue *)

Lemma queue_bytes_nonneg q : 0 <= queue_bytes q.
Proof.
  induction q as [|s q IH]; simpl; [lia|].
  pose proof (string_size_nonneg s). lia.
Qed.

Lemma queue_bytes_app q1 q2 :
  queue_bytes (q1 ++ q2) = queue_bytes q1 + queue_bytes q2.
Proof. induction q1 as [|s q1 IH]; simpl; lia. Qed.

Lemma queue_bytes_zero q :
  queue_bytes q = 0 <-> Forall (fun s => string_size s = 0) q.
Proof.
  induction q as [|s q IH]; simpl.
  - split; auto.
  - pose proof (string_size_nonneg s). pose proof (queue_bytes_nonneg q).
    split.
    + intros H1. constructor; [lia|]. apply IH. lia.
    + intros H1. inversion H1; subst. apply IH in H5. lia.
Qed.

(** What the drop loop computes when the counter is exact on entry. *)
Lemma drop_oldest_exact cap q :
  queue_bytes q <= SIZE_MAX ->
  exists dropped kept,
    drop_oldest cap (queue_bytes q) q = (queue_bytes kept, kept) /\
    q = dropped ++ kept /\
    (forall k, (k < length dropped)%nat -> queue_bytes (drop k q) > cap) /\
    (kept = [] \/ queue_bytes kept <= cap).
Proof.
  induction q as [|s q IH]; intros Hfit.
  - exists [], []. simpl. repeat split; auto. intros k Hk. simpl in Hk. lia.
  - simpl in Hfit. pose proof (string_size_nonneg s) as Hs.
    pose proof (queue_bytes_nonneg q) as Hq.
    cbn [drop_oldest queue_bytes].
    destruct (string_size s + queue_bytes q >? cap) eqn:Hgt.
    + assert (Hsub : size_sub (string_size s + queue_bytes q) (string_size s)
                     = queue_bytes q).
      { rewrite size_sub_small; [lia|]. unfold is_size_t. lia. }
      rewrite Hsub.
      destruct IH as (dropped & kept & Hd & Hq' & Hall & Hend); [lia|].
      exists (s :: dropped), kept. repeat split; auto.
      * simpl. congruence.
      * intros [|k] Hk; simpl in *.
        -- apply Z.gtb_lt in Hgt. lia.
        -- apply Hall. lia.
    + exists [], (s :: q). simpl. repeat split; auto.
      * intros k Hk. simpl in Hk. lia.
      * right. rewrite Z.gtb_ltb in Hgt. apply Z.ltb_ge in Hgt. lia.
Qed.

(** A record larger than the cap takes the whole queue with it. *)
Lemma drop_oldest_oversized cap q event :
  queue_bytes (q ++ [event]) <= SIZE_MAX ->
  string_size event > cap ->
  drop_oldest cap (queue_bytes (q ++ [event])) (q ++ [event]) = (0, []).
Proof.
  induction q as [|s q IH]; intros Hfit Hbig.
  - simpl in *. replace (string_size event + 0 >? cap) with true
      by (symmetry; apply Z.gtb_lt; lia).
    rewrite size_sub_small; [f_equal; lia|].
    unfold is_size_t. rewrite SIZE_MAX_eq. lia.
  - simpl in Hfit. pose proof (string_size_nonneg s) as Hs.
    pose proof (queue_bytes_nonneg (q ++ [event])) as Hq.
    assert (Hev : string_size event <= queue_bytes (q ++ [event])).
    { rewrite queue_bytes_app. simpl. pose proof (queue_bytes_nonneg q). lia. }
    cbn [app drop_oldest queue_bytes].
    replace (string_size s + queue_bytes (q ++ [event]) >? cap) with true
      by (symmetry; apply Z.gtb_lt; lia).
    rewrite size_sub_small by (unfold is_size_t; lia).
    replace (string_size s + queue_bytes (q ++ [event]) - string_size s)
      with (queue_bytes (q ++ [event])) by lia.
    apply IH; [lia | assumption].
Qed.

Lemma AddEntryToQueue_exact event wq :
  counter_exact wq ->
  queue_bytes (queue_ wq) + string_size event <= SIZE_MAX ->
  exists dropped,
    let wq' := snd (AddEntryToQueue event wq) in
    counter_exact wq' /\
    memory_max_ wq' = memory_max_ wq /\
    fst (AddEntryToQueue event wq) = Z.of_nat (length (queue_ wq')) /\
    queue_ wq ++ [event] = dropped ++ queue_ wq' /\
    (forall k, (k < length dropped)%nat ->
       queue_bytes (drop k (queue_ wq ++ [event])) > memory_max_ wq) /\
    (queue_ wq' = [] \/ queue_bytes (queue_ wq') <= memory_max_ wq).
Proof.
  intros Hinv Hfit. unfold AddEntryToQueue. rewrite Hinv.
  pose proof (queue_bytes_nonneg (queue_ wq)) as Hq.
  pose proof (string_size_nonneg event) as He.
  assert (Hsum : size_add (queue_bytes (queue_ wq)) (string_size event)
                 = queue_bytes (queue_ wq ++ [event])).
  { rewrite size_add_small by (unfold is_size_t; lia).
    rewrite queue_bytes_app. simpl. lia. }
  rewrite Hsum.
  destruct (drop_oldest_exact (memory_max_ wq) (queue_ wq ++ [event]))
    as (dropped & kept & Hd & Happ & Hall & Hend).
  { rewrite queue_bytes_app. simpl. lia. }
  rewrite Hd. exists dropped. simpl. unfold counter_exact. simpl.
  repeat split; auto.
Qed.

Lemma run_call_exact wq c :
  counter_exact wq -> fits_in_memory wq [c] -> counter_exact (run_call wq c).
Proof.
  intros Hinv [Hfit _]. destruct c as [event|]; simpl.
  - destruct (AddEntryToQueue_exact event wq Hinv Hfit) as (d & H & _).
    exact H.
  - reflexivity.
Qed.

Lemma run_calls_exact cs : forall wq,
  counter_exact wq -> fits_in_memory wq cs -> counter_exact (run_calls wq cs).
Proof.
  induction cs as [|c cs IH]; intros wq Hinv Hfit; simpl; [assumption|].
  destruct Hfit as [Hc Hrest]. apply IH; [|assumption].
  apply run_call_exact; [assumption|]. simpl. auto.
Qed.

Lemma run_calls_memory_max cs : forall wq,
  memory_max_ (run_calls wq cs) = memory_max_ wq.
Proof.
  induction cs as [|c cs IH]; intros wq; simpl; [reflexivity|].
  rewrite IH. destruct c as [event|]; simpl; [|reflexivity].
  unfold AddEntryToQueue.
  destruct (drop_oldest _ _ _). reflexivity.
Qed.

Lemma fits_in_memory_app cs1 : forall wq cs2,
  fits_in_memory wq (cs1 ++ cs2) <->
  fits_in_memory wq cs1 /\ fits_in_memory (run_calls wq cs1) cs2.
Proof.
  induction cs1 as [|c cs1 IH]; intros wq cs2; simpl.
  - tauto.
  - rewrite IH. tauto.
Qed.

(** C1.  Whatever calls were made on a queue with byte cap [cap], after
    one more [AddEntryToQueue] the byte count is at most [cap]; the records
    that are gone are a prefix of the FIFO, each dropped while the count
    still exceeded the cap; the returned length is the length of what is
    left; and a record larger than the cap leaves the queue empty, with
    length 0 returned. *)
Theorem C1_queue_bound (cap : Z) (cs : list queue_call) (event : string) :
  is_size_t cap ->
  fits_in_memory (WriteQueue_new cap) (cs ++ [CallAddEntry event]) ->
  let wq := run_calls (WriteQueue_new cap) cs in
  let len := fst (AddEntryToQueue event wq) in
  let wq' := snd (AddEntryToQueue event wq) in
  memory_ wq' <= cap /\
  queue_bytes (queue_ wq') <= cap /\
  len = Z.of_nat (length (queue_ wq')) /\
  (exists dropped,
      queue_ wq ++ [event] = dropped ++ queue_ wq' /\
      forall k, (k < length dropped)%nat ->
        queue_bytes (drop k (queue_ wq ++ [event])) > cap) /\
  (string_size event > cap -> queue_ wq' = [] /\ len = 0).
Proof.
  intros Hcap Hfit wq len wq'.
  apply fits_in_memory_app in Hfit. destruct Hfit as [Hcs [Hev _]].
  fold wq in Hev.
  assert (Hinv : counter_exact wq).
  { apply run_calls_exact; [reflexivity | assumption]. }
  assert (Hmax : memory_max_ wq = cap).
  { unfold wq. rewrite run_calls_memory_max. reflexivity. }
  destruct (AddEntryToQueue_exact event wq Hinv Hev)
    as (dropped & Hinv' & _ & Hlen & Happ & Hall & Hend).
  fold wq' in Hinv', Hlen, Happ, Hend. fold len in Hlen.
  rewrite Hmax in Hall, Hend.
  assert (Hbytes : queue_bytes (queue_ wq') <= cap).
  { destruct Hend as [Hnil | Hle]; [|assumption].
    rewrite Hnil. simpl. unfold is_size_t in Hcap. lia. }
  repeat split.
  - rewrite Hinv'. assumption.
  - assumption.
  - assumption.
  - exists dropped. split; assumption.
  - subst wq' len. unfold AddEntryToQueue. rewrite Hinv, Hmax.
    rewrite size_add_small.
    2:{ unfold is_size_t. pose proof (queue_bytes_nonneg (queue_ wq)).
        pose proof (string_size_nonneg event). lia. }
    replace (queue_bytes (queue_ wq) + string_size event)
      with (queue_bytes (queue_ wq ++ [event]))
      by (rewrite queue_bytes_app; simpl; lia).
    rewrite drop_oldest_oversized; [reflexivity | | assumption].
    rewrite queue_bytes_app. simpl. lia.
  - subst wq' len. unfold AddEntryToQueue. rewrite Hinv, Hmax.
    rewrite size_add_small.
    2:{ unfold is_size_t. pose proof (queue_bytes_nonneg (queue_ wq)).
        pose proof (string_size_nonneg event). lia. }
    replace (queue_bytes (queue_ wq) + string_size event)
      with (queue_bytes (queue_ wq ++ [event]))
      by (rewrite queue_bytes_app; simpl; lia).
    rewrite drop_oldest_oversized; [reflexivity | | assumption].
    rewrite queue_bytes_app. simpl. lia.
Qed.

(** C10, as amended.  After construction and after every
    [AddEntryToQueue] and [SwapQueue], [memory_] is the sum of the sizes of
    the queued strings; it is therefore never negative, it is zero when the
    queue is empty, and when it is zero every queued string is empty (so a
    queue of non-empty records is empty exactly when the counter is
    zero). *)
Theorem C10_counter_is_queue_bytes (cap : Z) (cs : list queue_call) :
  fits_in_memory (WriteQueue_new cap) cs ->
  let wq := run_calls (WriteQueue_new cap) cs in
  memory_ wq = queue_bytes (queue_ wq) /\
  0 <= memory_ wq /\
  (queue_ wq = [] -> memory_ wq = 0) /\
  (memory_ wq = 0 -> Forall (fun s => s = EmptyString) (queue_ wq)) /\
  (Forall (fun s => s <> EmptyString) (queue_ wq) ->
     (memory_ wq = 0 <-> queue_ wq = [])).
Proof.
  intros Hfit wq.
  assert (Hinv : counter_exact wq).
  { apply run_calls_exact; [reflexivity | assumption]. }
  unfold counter_exact in Hinv.
  assert (Hzero : memory_ wq = 0 ->
                  Forall (fun s => s = EmptyString) (queue_ wq)).
  { rewrite Hinv. intros H0. apply queue_bytes_zero in H0.
    eapply Forall_impl; [eassumption|].
    intros s Hs. simpl in Hs. destruct s; [reflexivity|].
    unfold string_size in Hs. simpl in Hs. lia. }
  repeat split.
  - assumption.
  - rewrite Hinv. apply queue_bytes_nonneg.
  - intros Hnil. rewrite Hinv, Hnil. reflexivity.
  - assumption.
  - intros H0. specialize (Hzero H0).
    destruct (queue_ wq) as [|s q]; [reflexivity|].
    inversion H; subst. inversion Hzero; subst. congruence.
  - intros Hnil. rewrite Hinv, Hnil. reflexivity.
Qed.

(** ** Construction *)

(** C5, as amended.  With [N >= 1] chunks: in bounded mode the writer's
    chunk limit is [max_total_size / N], and the queue's byte cap is
    [2 * max_total_size] whenever that product is a [size_t]; in unbounded
    mode the chunk limit is the sentinel [kNoLimit] and the queue's byte cap
    is [kNoLimit - 1]. *)
Theorem C5_construction_limits (log_path : string)
    (max_total_size total_num_event_files : Z) (constants : option Value)
    (GetNetConstants : Value) (indeterminate : Z) :
  is_size_t max_total_size ->
  1 <= total_num_event_files ->
  let obs := CreateBoundedInternal log_path max_total_size
               total_num_event_files constants GetNetConstants
               indeterminate in
  (max_total_size <> kNoLimit ->
     max_event_file_size_ (file_writer_ obs)
       = max_total_size / total_num_event_files /\
     IsBounded (file_writer_ obs) = true /\
     (2 * max_total_size <= SIZE_MAX ->
        memory_max_ (write_queue_ obs) = 2 * max_total_size)) /\
  (max_total_size = kNoLimit ->
     max_event_file_size_ (file_writer_ obs) = kNoLimit /\
     IsUnbounded (file_writer_ obs) = true /\
     memory_max_ (write_queue_ obs) = kNoLimit - 1).
Proof.
  intros Hsz HN obs. split.
  - intros Hne. subst obs. unfold CreateBoundedInternal. simpl.
    destruct (max_total_size =? kNoLimit) eqn:Heq.
    { apply Z.eqb_eq in Heq. contradiction. }
    assert (Hdiv : max_total_size / total_num_event_files < kNoLimit).
    { unfold is_size_t, kNoLimit in *.
      assert (max_total_size / total_num_event_files <= max_total_size).
      { apply Z.div_le_upper_bound; [lia|]. nia. }
      lia. }
    repeat split.
    + unfold IsBounded, IsUnbounded. simpl.
      replace (max_total_size / total_num_event_files =? kNoLimit) with false
        by (symmetry; apply Z.eqb_neq; lia).
      reflexivity.
    + intros Hfit. unfold size_mul. rewrite to_size_t_small; [lia|].
      unfold is_size_t in *. lia.
  - intros Heq. subst obs max_total_size.
    repeat split; vm_compute; reflexivity.
Qed.

(** ** OnAddEntry *)

(** C6.  When the entry encodes, [OnAddEntry] pushes it and posts a
    [Flush] task exactly when the length the push returns is 15; when the
    encoder fails, the observer is left as it was: nothing is pushed and
    nothing is posted. *)
Theorem C6_flush_posted_at_threshold (entry : Value)
    (obs : FileNetLogObserver) :
  let obs' := OnAddEntry entry obs in
  let pushed := AddEntryToQueue (json_text entry) (write_queue_ obs) in
  (json_ok entry = true ->
     write_queue_ obs' = snd pushed /\
     (fst pushed = 15 ->
        file_task_runner_ obs' = file_task_runner_ obs ++ [TaskFlush]) /\
     (fst pushed <> 15 ->
        file_task_runner_ obs' = file_task_runner_ obs) /\
     (fst pushed = 15 <->
        length (file_task_runner_ obs')
          = S (length (file_task_runner_ obs)))) /\
  (json_ok entry = false -> obs' = obs).
Proof.
  intros obs' pushed. subst obs'. unfold OnAddEntry, JSONWriter_Write.
  split.
  - intros Hok. rewrite Hok. simpl. fold pushed.
    destruct pushed as [queue_size write_queue] eqn:Hp. simpl.
    unfold kNumWriteQueueEvents.
    destruct (queue_size =? 15) eqn:H15.
    + apply Z.eqb_eq in H15. subst queue_size. simpl.
      repeat split; try reflexivity; try congruence.
      intros _. rewrite length_app. simpl. lia.
    + apply Z.eqb_neq in H15. simpl.
      repeat split; try reflexivity; try congruence; intros; try lia.
  - intros Hfail. rewrite Hfail. reflexivity.
Qed.

(** ** Byte strings *)

Lemma str_app_nil_l s : EmptyString +:+ s = s.
Proof. reflexivity. Qed.

Lemma str_app_cons c a b : String c a +:+ b = String c (a +:+ b).
Proof. reflexivity. Qed.

Lemma str_app_nil_r s : s +:+ EmptyString = s.
Proof.
  induction s as [|c s IH]; [reflexivity|].
  rewrite str_app_cons, IH. reflexivity.
Qed.

Lemma str_app_assoc a b c : (a +:+ b) +:+ c = a +:+ (b +:+ c).
Proof.
  induction a as [|x a IH]; [reflexivity|].
  rewrite !str_app_cons, IH. reflexivity.
Qed.

Lemma str_length_app a b :
  String.length (a +:+ b) = (String.length a + String.length b)%nat.
Proof.
  induction a as [|x a IH]; [reflexivity|].
  rewrite str_app_cons. simpl. rewrite IH. reflexivity.
Qed.

Lemma string_size_app a b : string_size (a +:+ b) = string_size a + string_size b.
Proof. unfold string_size. rewrite str_length_app. lia. Qed.

Lemma string_empty_app a b :
  string_empty (a +:+ b) = string_empty a && string_empty b.
Proof. destruct a; reflexivity. Qed.

Lemma string_empty_true s : string_empty s = true -> s = EmptyString.
Proof. destruct s; simpl; congruence. Qed.

Lemma string_empty_false s :
  string_empty s = false -> (0 < String.length s)%nat.
Proof. destruct s; simpl; [congruence | lia]. Qed.

Lemma str_take_length n s :
  String.length (str_take n s) = Nat.min n (String.length s).
Proof.
  revert s. induction n as [|n IH]; intros [|c s]; simpl; try reflexivity.
  rewrite IH. reflexivity.
Qed.

Lemma str_take_all n s : (String.length s <= n)%nat -> str_take n s = s.
Proof.
  revert s. induction n as [|n IH]; intros [|c s] H; simpl in *;
    try reflexivity; try lia.
  rewrite IH by lia. reflexivity.
Qed.

Lemma str_drop_all n s :
  (String.length s <= n)%nat -> str_drop n s = EmptyString.
Proof.
  revert s. induction n as [|n IH]; intros [|c s] H; simpl in *;
    try reflexivity; try lia.
  apply IH. lia.
Qed.

Lemma str_drop_length n s :
  String.length (str_drop n s) = (String.length s - n)%nat.
Proof.
  revert s. induction n as [|n IH]; intros [|c s]; simpl; try reflexivity.
  apply IH.
Qed.

Lemma str_take_drop n s : str_take n s +:+ str_drop n s = s.
Proof.
  revert s. induction n as [|n IH]; intros [|c s]; simpl; try reflexivity.
  rewrite str_app_cons, IH. reflexivity.
Qed.

Lemma str_drop_drop n m s : str_drop n (str_drop m s) = str_drop (m + n) s.
Proof.
  revert s. induction m as [|m IH]; intros s; simpl; [reflexivity|].
  destruct s as [|c s]; simpl.
  - destruct n; reflexivity.
  - apply IH.
Qed.

Lemma str_take_0 s : str_take 0 s = EmptyString.
Proof. destruct s; reflexivity. Qed.

Lemma str_zeros_0 n : n = O -> str_zeros n = EmptyString.
Proof. intros ->. reflexivity. Qed.

Lemma write_at_end c data : write_at c (String.length c) data = c +:+ data.
Proof.
  unfold write_at. rewrite str_take_all by lia.
  rewrite str_zeros_0 by lia. rewrite str_drop_all by lia.
  rewrite str_app_nil_l, str_app_nil_r. reflexivity.
Qed.

(** ** Traces *)

Lemma opened_for_read_app a b :
  opened_for_read (a ++ b) = opened_for_read a ++ opened_for_read b.
Proof.
  induction a as [|e a IH]; [reflexivity|].
  destruct e as [p [] r| | | | | | |]; simpl; rewrite IH; reflexivity.
Qed.

Lemma opened_for_write_app a b :
  opened_for_write (a ++ b) = opened_for_write a ++ opened_for_write b.
Proof.
  induction a as [|e a IH]; [reflexivity|].
  destruct e as [p [] r| | | | | | |]; simpl; rewrite IH; reflexivity.
Qed.

Lemma seeks_app a b : seeks (a ++ b) = seeks a ++ seeks b.
Proof.
  induction a as [|e a IH]; [reflexivity|].
  destruct e; simpl; rewrite IH; reflexivity.
Qed.

Lemma bytes_written_app a b :
  bytes_written (a ++ b) = bytes_written a +:+ bytes_written b.
Proof.
  induction a as [|e a IH]; [reflexivity|].
  destruct e; simpl; rewrite IH; try reflexivity.
  rewrite str_app_assoc. reflexivity.
Qed.

Lemma written_to_app file a b :
  written_to file (a ++ b) = written_to file a +:+ written_to file b.
Proof.
  induction a as [|e a IH]; [reflexivity|].
  destruct e; simpl; rewrite IH; try reflexivity.
  destruct (Nat.eqb _ _); [|reflexivity].
  rewrite str_app_assoc. reflexivity.
Qed.

(** A run of writes through one stream has nothing else in it. *)
Lemma writes_only_summary file evs :
  forallb (is_write_to file) evs = true ->
  opened_for_read evs = [] /\ opened_for_write evs = [] /\ seeks evs = [] /\
  (forall id, file = Some id -> written_to id evs = bytes_written evs) /\
  (forall id, file <> Some id -> written_to id evs = EmptyString).
Proof.
  induction evs as [|e evs IH]; intros Hall.
  - repeat split; reflexivity.
  - simpl in Hall. apply andb_prop in Hall. destruct Hall as [He Hall].
    destruct (IH Hall) as (Hr & Hw & Hs & Hto & Hnot).
    destruct e; simpl in He; try discriminate.
    destruct file as [id'|]; [|discriminate].
    apply Nat.eqb_eq in He. subst id'. simpl.
    repeat split; auto.
    + intros id [= <-]. rewrite Nat.eqb_refl. rewrite Hto; reflexivity.
    + intros id Hne. destruct (Nat.eqb file0 id) eqn:E.
      * apply Nat.eqb_eq in E. congruence.
      * apply Hnot. assumption.
Qed.

Lemma wrote_nothing file w : wrote file w w [].
Proof.
  unfold wrote. rewrite app_nil_r. repeat split; auto.
Qed.

Lemma wrote_trans file w1 w2 w3 evs1 evs2 :
  wrote file w1 w2 evs1 -> wrote file w2 w3 evs2 ->
  wrote file w1 w3 (evs1 ++ evs2).
Proof.
  intros (Ht1 & Ha1 & He1 & Hn1 & Hs1 & Hp1 & Hd1)
         (Ht2 & Ha2 & He2 & Hn2 & Hs2 & Hp2 & Hd2).
  unfold wrote. repeat split.
  - rewrite Ht2, Ht1, app_assoc. reflexivity.
  - rewrite forallb_app, Ha1, Ha2. reflexivity.
  - congruence.
  - congruence.
  - intros id Hne. rewrite Hs2, Hs1; auto.
  - intros id. rewrite Hp2, Hp1. reflexivity.
  - intros path Hpath. rewrite Hd2, Hd1; auto.
    intros id st Hfile Hst. specialize (Hp1 id). rewrite Hst in Hp1.
    destruct (streams w1 !! id) as [st1|] eqn:E1; simpl in Hp1; [|discriminate].
    injection Hp1 as Hp1. rewrite Hp1. eapply Hpath; eauto.
Qed.

(** ** Library calls *)

Lemma fwrite_wrote data id w :
  exists w' written,
    fwrite data (Some id) w = Done (string_size written) w' /\
    wrote (Some id) w w' [EvWrite id written] /\
    string_size written <= string_size data.
Proof.
  unfold fwrite.
  destruct (streams w !! id) as [st|] eqn:Hst.
  - destruct (disk w !! stream_path st) as [content|] eqn:Hc.
    + set (n := Nat.min (String.length data)
                  (env_write_room (env w) (trace w) id (String.length data))).
      eexists _, (str_take n data).
      assert (Hn : String.length (str_take n data) = n).
      { rewrite str_take_length. subst n. lia. }
      split; [|split].
      * unfold string_size. rewrite Hn. reflexivity.
      * unfold wrote. simpl. rewrite Nat.eqb_refl. repeat split.
        -- intros id' Hne. rewrite lookup_insert_ne; [reflexivity|congruence].
        -- intros id'. destruct (decide (id = id')) as [<-|Hne].
           ++ rewrite lookup_insert_eq, Hst. reflexivity.
           ++ rewrite lookup_insert_ne by assumption. reflexivity.
        -- intros path Hpath. rewrite lookup_insert_ne; [reflexivity|].
           eapply Hpath; eauto.
      * unfold string_size. rewrite Hn. subst n. lia.
    + exists (log_event (EvWrite id EmptyString) w), EmptyString.
      split; [reflexivity|]. split; [|apply string_size_nonneg].
      unfold wrote. simpl. rewrite Nat.eqb_refl. repeat split.
  - exists (log_event (EvWrite id EmptyString) w), EmptyString.
    split; [reflexivity|]. split; [|apply string_size_nonneg].
    unfold wrote. simpl. rewrite Nat.eqb_refl. repeat split.
Qed.

Lemma to_size_t_add_l a b : to_size_t (to_size_t a + b) = to_size_t (a + b).
Proof. unfold to_size_t. apply Zplus_mod_idemp_l. Qed.

(** One piece of [WriteToFile]: an empty piece is skipped, any other is
    handed to [fwrite] and its count added. *)
Lemma write_piece_wrote data id acc w0 w evs0 :
  wrote (Some id) w0 w evs0 ->
  acc = to_size_t (string_size (bytes_written evs0)) ->
  exists acc' w' evs,
    (if string_empty data then io_ret acc
     else let* n := fwrite data (Some id) in io_ret (size_add acc n)) w
    = Done acc' w' /\
    wrote (Some id) w0 w' evs /\
    acc' = to_size_t (string_size (bytes_written evs)) /\
    string_size (bytes_written evs)
    <= string_size (bytes_written evs0) + string_size data.
Proof.
  intros Hw Hacc. destruct (string_empty data).
  - exists acc, w, evs0. split; [reflexivity|]. split_and!; try assumption.
    pose proof (string_size_nonneg data). lia.
  - destruct (fwrite_wrote data id w) as (w' & written & Hf & Hw' & Hle).
    exists (size_add acc (string_size written)), w',
      (evs0 ++ [EvWrite id written]).
    assert (Hb : bytes_written (evs0 ++ [EvWrite id written])
                 = bytes_written evs0 +:+ written).
    { rewrite bytes_written_app. simpl. rewrite str_app_nil_r. reflexivity. }
    split_and!.
    + unfold io_bind. rewrite Hf. reflexivity.
    + eapply wrote_trans; eassumption.
    + rewrite Hb, string_size_app. subst acc. unfold size_add.
      apply to_size_t_add_l.
    + rewrite Hb, string_size_app. lia.
Qed.

Lemma WriteToFile_wrote file data1 data2 data3 w :
  exists n w' evs,
    WriteToFile file data1 data2 data3 w = Done n w' /\
    wrote file w w' evs /\
    n = to_size_t (string_size (bytes_written evs)) /\
    string_size (bytes_written evs)
    <= string_size data1 + string_size data2 + string_size data3.
Proof.
  destruct file as [id|].
  - unfold WriteToFile.
    destruct (write_piece_wrote data1 id 0 w w [] (wrote_nothing _ _) eq_refl)
      as (a1 & w1 & e1 & H1 & Hw1 & Ha1 & Hl1).
    destruct (write_piece_wrote data2 id a1 w w1 e1 Hw1 Ha1)
      as (a2 & w2 & e2 & H2 & Hw2 & Ha2 & Hl2).
    destruct (write_piece_wrote data3 id a2 w w2 e2 Hw2 Ha2)
      as (a3 & w3 & e3 & H3 & Hw3 & Ha3 & Hl3).
    exists a3, w3, e3. split_and!; try assumption.
    + unfold io_bind at 1. rewrite H1.
      unfold io_bind at 1. rewrite H2.
      unfold io_bind at 1. rewrite H3. reflexivity.
    + simpl in Hl1. unfold string_size in Hl1 at 2. simpl in Hl1. lia.
  - exists 0, w, []. split_and!; try reflexivity; [apply wrote_nothing|].
    simpl. pose proof (string_size_nonneg data1).
    pose proof (string_size_nonneg data2).
    pose proof (string_size_nonneg data3).
    unfold string_size at 1. simpl. lia.
Qed.

Lemma copy_events_summary dst evs :
  forallb (is_copy_event dst) evs = true ->
  opened_for_read evs = [] /\ opened_for_write evs = [] /\ seeks evs = [] /\
  (forall id, dst <> Some id -> written_to id evs = EmptyString).
Proof.
  induction evs as [|e evs IH]; intros Hall.
  - repeat split; reflexivity.
  - simpl in Hall. apply andb_prop in Hall. destruct Hall as [He Hall].
    destruct (IH Hall) as (Hr & Hw & Hs & Hnot).
    destruct e; simpl in He; try discriminate; simpl; repeat split; auto.
    intros id Hne. destruct dst as [d|]; [|discriminate].
    apply Nat.eqb_eq in He. subst d.
    destruct (Nat.eqb file id) eqn:E.
    + apply Nat.eqb_eq in E. congruence.
    + apply Hnot. assumption.
Qed.

Lemma writes_are_copy_events dst evs :
  forallb (is_write_to dst) evs = true ->
  forallb (is_copy_event dst) evs = true.
Proof.
  induction evs as [|e evs IH]; [reflexivity|].
  simpl. intros H. apply andb_prop in H. destruct H as [He H].
  rewrite IH by assumption. destruct e; simpl in *; try discriminate.
  rewrite He. reflexivity.
Qed.

(** The copy loop terminates: the source shrinks with every round, and
    writing to a destination that is another file cannot make it grow. *)
Lemma copy_loop_general s src dst size : forall fuel w pos content,
  streams w !! s = Some (mkStream src pos) ->
  disk w !! src = Some content ->
  (String.length content - pos < fuel)%nat ->
  dst <> Some s ->
  (forall d st, dst = Some d -> streams w !! d = Some st ->
                stream_path st <> src) ->
  exists w' evs,
    copy_loop fuel (Some s) dst size w = Done tt w' /\
    trace w' = trace w ++ evs /\
    forallb (is_copy_event dst) evs = true /\
    env w' = env w /\
    next_stream w' = next_stream w /\
    (forall id, id <> s ->
       stream_path <$> streams w' !! id = stream_path <$> streams w !! id).
Proof.
  induction fuel as [|fuel IH]; intros w pos content Hs Hc Hfuel Hne Hdst.
  { exfalso. lia. }
  cbn [copy_loop]. unfold io_bind at 1. unfold fread. rewrite Hs. simpl.
  rewrite Hc.
  set (data := str_take
                 (Nat.min (Z.to_nat size)
                    (env_read_room (env w) (trace w) s (Z.to_nat size)))
                 (str_drop pos content)).
  set (w1 := {| disk := disk w;
                streams := <[s := mkStream src (pos + String.length data)]>
                             (streams w);
                next_stream := next_stream w;
                trace := trace w ++ [EvRead s data];
                env := env w |}).
  destruct (string_empty data) eqn:Hempty.
  - exists w1, [EvRead s data]. unfold io_ret. repeat split.
    intros id Hid. simpl. rewrite lookup_insert_ne by congruence. reflexivity.
  - destruct (WriteToFile_wrote dst data EmptyString EmptyString w1)
      as (n & w2 & evs2 & Hwrite & Hw & _ & _).
    destruct Hw as (Ht2 & Ha2 & He2 & Hn2 & Hs2 & Hp2 & Hd2).
    assert (Hlen : (0 < String.length data)%nat)
      by (apply string_empty_false; assumption).
    assert (Hdata : (String.length data <= String.length content - pos)%nat).
    { subst data. rewrite str_take_length, str_drop_length. lia. }
    assert (Hdst1 : forall d st, dst = Some d -> streams w1 !! d = Some st ->
                                 stream_path st <> src).
    { intros d st Hd Hst. simpl in Hst.
      rewrite lookup_insert_ne in Hst by congruence. eauto. }
    destruct (IH w2 (pos + String.length data)%nat content)
      as (w3 & evs3 & Hloop & Ht3 & Ha3 & He3 & Hn3 & Hp3).
    + rewrite Hs2 by assumption. simpl. apply lookup_insert_eq.
    + rewrite Hd2; [exact Hc|]. exact Hdst1.
    + lia.
    + assumption.
    + intros d st Hd Hst. specialize (Hp2 d). rewrite Hst in Hp2.
      destruct (streams w1 !! d) as [st1|] eqn:E1; simpl in Hp2;
        [|discriminate].
      injection Hp2 as Hp2. rewrite Hp2. eapply Hdst1; eauto.
    + exists w3, ([EvRead s data] ++ evs2 ++ evs3).
      unfold io_bind at 1. fold w1. rewrite Hwrite. split; [exact Hloop|].
      repeat split.
      * rewrite Ht3, Ht2. simpl. rewrite <- !app_assoc. reflexivity.
      * simpl. rewrite forallb_app, Ha3.
        rewrite writes_are_copy_events by assumption. reflexivity.
      * rewrite He3, He2. reflexivity.
      * rewrite Hn3, Hn2. reflexivity.
      * intros id Hid. rewrite Hp3 by assumption. rewrite Hp2. simpl.
        rewrite lookup_insert_ne by congruence. reflexivity.
Qed.

Lemma extends_refl w : extends w w [].
Proof.
  unfold extends. rewrite app_nil_r. repeat split; auto. eauto.
Qed.

Lemma extends_trans w1 w2 w3 evs1 evs2 :
  extends w1 w2 evs1 -> extends w2 w3 evs2 -> extends w1 w3 (evs1 ++ evs2).
Proof.
  intros (Ht1 & He1 & Hn1 & Hp1) (Ht2 & He2 & Hn2 & Hp2).
  unfold extends. repeat split.
  - rewrite Ht2, Ht1, app_assoc. reflexivity.
  - congruence.
  - lia.
  - intros id st3 Hid Hst3.
    destruct (Hp2 id st3) as (st2 & Hst2 & Hpath2); [lia | assumption |].
    destruct (Hp1 id st2) as (st1 & Hst1 & Hpath1); [lia | assumption |].
    exists st1. split; [assumption | congruence].
Qed.

Lemma extends_env w w' evs : extends w w' evs -> env w' = env w.
Proof. intros (_ & He & _). exact He. Qed.

Lemma extends_trace w w' evs : extends w w' evs -> trace w' = trace w ++ evs.
Proof. intros (Ht & _). exact Ht. Qed.

Lemma wrote_extends file w w' evs : wrote file w w' evs -> extends w w' evs.
Proof.
  intros (Ht & Ha & He & Hn & Hs & Hp & Hd). unfold extends.
  repeat split; auto; [lia|].
  intros id st' _ Hst'. specialize (Hp id). rewrite Hst' in Hp.
  destruct (streams w !! id) as [st|]; simpl in Hp; [|discriminate].
  exists st. split; [reflexivity | congruence].
Qed.

Lemma dest_ok_extends dst path w w' evs :
  dest_ok dst path w -> extends w w' evs -> dest_ok dst path w'.
Proof.
  destruct dst as [d|]; simpl; [|auto].
  intros [Hlt Hpath] (_ & _ & Hle & Hframe). split; [lia|].
  intros st' Hst'. destruct (Hframe d st' Hlt Hst') as (st & Hst & Heq).
  rewrite <- Heq. apply Hpath. assumption.
Qed.

Lemma appended_from_app s1 s2 dst evs1 evs2 :
  appended_from s1 dst evs1 -> appended_from s2 dst evs2 ->
  appended_from (s1 ++ s2) dst (evs1 ++ evs2).
Proof.
  intros (Hr1 & Hw1 & Hs1 & Hn1) (Hr2 & Hw2 & Hs2 & Hn2).
  unfold appended_from.
  rewrite opened_for_read_app, opened_for_write_app, seeks_app.
  rewrite Hr1, Hr2, Hw1, Hw2, Hs1, Hs2. repeat split.
  intros id Hid. rewrite written_to_app, Hn1, Hn2 by assumption. reflexivity.
Qed.

Lemma wrote_appended_from file w w' evs :
  wrote file w w' evs -> appended_from [] file evs.
Proof.
  intros (_ & Ha & _).
  destruct (writes_only_summary file evs Ha) as (Hr & Hw & Hs & _ & Hn).
  repeat split; assumption.
Qed.

(** [AppendToFileThenDelete] returns, whatever the operating system does,
    when the source is not the file the destination is open on. *)
Lemma AppendToFileThenDelete_general src dst path size w :
  src <> path ->
  dest_ok dst path w ->
  exists w' evs,
    AppendToFileThenDelete src dst size w = Done tt w' /\
    extends w w' evs /\
    appended_from [src] dst evs.
Proof.
  intros Hsrc Hdst. unfold AppendToFileThenDelete.
  unfold io_bind at 1. unfold OpenFile.
  destruct (env_open_ok (env w) (trace w) src ModeRead
            && bool_decide (is_Some (disk w !! src))) eqn:Hopen.
  - apply andb_prop in Hopen. destruct Hopen as [_ Hsome].
    apply bool_decide_eq_true in Hsome. destruct Hsome as [content Hc].
    set (s := next_stream w).
    set (w1 := {| disk := disk w;
                  streams := <[s := mkStream src 0]> (streams w);
                  next_stream := S s;
                  trace := trace w ++ [EvOpen src ModeRead (Some s)];
                  env := env w |}).
    assert (Hne : dst <> Some s).
    { destruct dst as [d|]; [|discriminate]. destruct Hdst as [Hlt _].
      intros [= ->]. subst s. lia. }
    destruct (copy_loop_general s src dst size (copy_fuel src w1) w1 0 content)
      as (w2 & evs2 & Hloop & Ht2 & Ha2 & He2 & Hn2 & Hp2).
    + simpl. apply lookup_insert_eq.
    + exact Hc.
    + unfold copy_fuel. simpl. rewrite Hc. lia.
    + exact Hne.
    + intros d st -> Hst. simpl in Hst.
      rewrite lookup_insert_ne in Hst by congruence.
      destruct Hdst as [_ Hpath]. rewrite (Hpath st Hst). congruence.
    + unfold io_bind. fold w1. rewrite Hloop. simpl.
      eexists _, ([EvOpen src ModeRead (Some s)] ++ evs2
                  ++ [EvClose s; EvDeleteFile src false]).
      split; [reflexivity|].
      destruct (copy_events_summary dst evs2 Ha2) as (Hr & Hw & Hs & Hnot).
      split; [unfold extends | unfold appended_from]; simpl; repeat split.
      * rewrite Ht2. simpl. rewrite <- !app_assoc. reflexivity.
      * rewrite He2. reflexivity.
      * rewrite Hn2. simpl. lia.
      * intros id st' Hid Hst'.
        rewrite lookup_delete_ne in Hst' by (subst s; lia).
        assert (Hid' : id <> s) by (subst s; lia).
        specialize (Hp2 id Hid'). rewrite Hst' in Hp2. simpl in Hp2.
        rewrite lookup_insert_ne in Hp2 by congruence.
        destruct (streams w !! id) as [st|]; simpl in Hp2; [|discriminate].
        exists st. split; [reflexivity | congruence].
      * rewrite opened_for_read_app, Hr. reflexivity.
      * rewrite opened_for_write_app, Hw. reflexivity.
      * rewrite seeks_app, Hs. reflexivity.
      * intros id Hid. rewrite written_to_app, Hnot by assumption.
        reflexivity.
  - exists (log_event (EvOpen src ModeRead None) w),
      [EvOpen src ModeRead None].
    split; [reflexivity|].
    split; [unfold extends | unfold appended_from]; simpl; repeat split;
      eauto.
Qed.

Lemma io_bind_done {A B : Type} (m : IO A) (k : A -> IO B) w a w1 :
  m w = Done a w1 -> io_bind m k w = k a w1.
Proof. intros H. unfold io_bind. rewrite H. reflexivity. Qed.

Lemma OpenFile_extends path mode w :
  exists file w',
    OpenFile path mode w = Done file w' /\
    extends w w' [EvOpen path mode file] /\
    dest_ok file path w' /\
    match file with
    | Some id =>
        id = next_stream w /\ next_stream w' = S (next_stream w) /\
        streams w' !! id = Some (mkStream path 0)
    | None => True
    end.
Proof.
  unfold OpenFile.
  destruct (env_open_ok (env w) (trace w) path mode && _).
  - eexists _, _. split; [reflexivity|].
    split; [|split].
    + unfold extends. simpl. repeat split; [lia|].
      intros id st' Hid Hst'. rewrite lookup_insert_ne in Hst' by lia.
      eauto.
    + simpl. split; [lia|]. intros st. rewrite lookup_insert_eq.
      intros [= <-]. reflexivity.
    + simpl. rewrite lookup_insert_eq. auto.
  - eexists _, _. split; [reflexivity|].
    split; [|split; exact I].
    unfold extends. simpl. repeat split; eauto.
Qed.

Lemma close_events_summary file :
  opened_for_read (close_events file) = [] /\
  opened_for_write (close_events file) = [] /\
  seeks (close_events file) = [] /\
  bytes_written (close_events file) = EmptyString /\
  forall id, written_to id (close_events file) = EmptyString.
Proof. destruct file; repeat split. Qed.

Lemma ScopedFILE_reset_extends file w :
  exists w',
    ScopedFILE_reset file w = Done tt w' /\
    extends w w' (close_events file) /\
    disk w' = disk w.
Proof.
  destruct file as [id|]; simpl.
  - eexists. split; [reflexivity|]. split; [|reflexivity].
    unfold extends. simpl. repeat split; [lia|].
    intros id' st' _ Hst'. destruct (decide (id = id')) as [->|Hne].
    + rewrite lookup_delete_eq in Hst'. discriminate.
    + rewrite lookup_delete_ne in Hst' by assumption. eauto.
  - exists w. split; [reflexivity|]. split; [apply extends_refl|reflexivity].
Qed.

Lemma io_bind_inv {A B : Type} (m : IO A) (k : A -> IO B) w b w' :
  io_bind m k w = Done b w' ->
  exists a w1, m w = Done a w1 /\ k a w1 = Done b w'.
Proof.
  unfold io_bind. destruct (m w) as [a w1| |]; try discriminate. eauto.
Qed.

Lemma OpenFile_effect path mode w file w' :
  OpenFile path mode w = Done file w' ->
  (forall q, q <> path -> disk w' !! q = disk w !! q) /\
  match file with
  | Some id =>
      id = next_stream w /\ next_stream w' = S (next_stream w) /\
      streams w' = <[id := mkStream path 0]> (streams w)
  | None => streams w' = streams w /\ next_stream w' = next_stream w /\
            disk w' = disk w
  end.
Proof.
  unfold OpenFile. destruct (_ && _).
  - intros [= <- <-]. simpl. split; [|auto].
    intros q Hq.
    destruct mode; [reflexivity || (apply lookup_insert_ne; congruence)..].
  - intros [= <- <-]. simpl. auto.
Qed.

Lemma ScopedFILE_reset_effect file w w' :
  ScopedFILE_reset file w = Done tt w' ->
  next_stream w' = next_stream w /\ disk w' = disk w /\
  streams w'
  = match file with
    | Some id => delete id (streams w)
    | None => streams w
    end.
Proof.
  destruct file as [id|]; simpl; intros [= <-]; auto.
Qed.

Lemma DeleteFile_extends path recursive w :
  exists w',
    DeleteFile path recursive w = Done tt w' /\
    extends w w' [EvDeleteFile path recursive].
Proof.
  eexists. split; [reflexivity|].
  unfold extends. simpl. repeat split; eauto.
Qed.

(** What is left of the files after a delete request. *)
Lemma lookup_deleted (removed : string -> bool) (files : gmap string string)
    q :
  filter (fun kv => removed (fst kv) = false) files !! q
  = if removed q then None else files !! q.
Proof.
  destruct (removed q) eqn:E.
  - apply map_lookup_filter_None. right. intros x _. cbn. rewrite E.
    discriminate.
  - destruct (files !! q) as [x|] eqn:Hq.
    + apply map_lookup_filter_Some. split; [exact Hq | exact E].
    + apply map_lookup_filter_None. left. exact Hq.
Qed.

Lemma DeleteFile_disk path recursive w w' :
  DeleteFile path recursive w = Done tt w' ->
  forall q,
    disk w' !! q
    = if delete_covers path recursive q
         && env_delete_ok (env w) (trace w) path recursive q
      then None else disk w !! q.
Proof.
  intros [= <-] q. cbn [disk].
  apply (lookup_deleted
           (fun q => delete_covers path recursive q
                     && env_delete_ok (env w) (trace w) path recursive q)).
Qed.

(** A file the request does not cover stays. *)
Lemma DeleteFile_keeps path recursive w w' q :
  DeleteFile path recursive w = Done tt w' ->
  delete_covers path recursive q = false ->
  disk w' !! q = disk w !! q.
Proof.
  intros H Hq. rewrite (DeleteFile_disk _ _ _ _ H), Hq. reflexivity.
Qed.

(** A file the request covers is gone when the operating system carries
    the deletion out. *)
Lemma DeleteFile_removes path recursive w w' q :
  DeleteFile path recursive w = Done tt w' ->
  delete_covers path recursive q = true ->
  env_delete_ok (env w) (trace w) path recursive q = true ->
  disk w' !! q = None.
Proof.
  intros H Hq Hok. rewrite (DeleteFile_disk _ _ _ _ H), Hq, Hok. reflexivity.
Qed.

Lemma delete_covers_file path q :
  delete_covers path false q = bool_decide (q = path).
Proof. unfold delete_covers. apply orb_false_r. Qed.

Lemma delete_covers_self path recursive :
  delete_covers path recursive path = true.
Proof.
  unfold delete_covers. rewrite bool_decide_eq_true_2 by reflexivity.
  reflexivity.
Qed.

Lemma delete_covers_other_file path q :
  q <> path -> delete_covers path false q = false.
Proof.
  intros H. rewrite delete_covers_file. apply bool_decide_eq_false_2. exact H.
Qed.

Lemma RewindIfWroteEventBytes_extends fw file w :
  exists w',
    RewindIfWroteEventBytes fw file w = Done tt w' /\
    extends w w'
      (if wrote_event_bytes_ fw
       then match file with Some id => [EvSeekEnd id (-2)] | None => [] end
       else []).
Proof.
  unfold RewindIfWroteEventBytes.
  destruct file as [id|].
  - destruct (wrote_event_bytes_ fw).
    + unfold fseek_end.
      destruct (streams w !! id) as [st|] eqn:Hst.
      * destruct (disk w !! stream_path st) as [content|].
        -- destruct (_ <? 0).
           ++ eexists. split; [reflexivity|].
              unfold extends. simpl. repeat split; eauto.
           ++ eexists. split; [reflexivity|].
              unfold extends. simpl. repeat split; [lia|].
              intros id' st' _ Hst'. destruct (decide (id = id')) as [<-|Hne].
              ** rewrite lookup_insert_eq in Hst'. injection Hst' as <-.
                 eauto.
              ** rewrite lookup_insert_ne in Hst' by assumption. eauto.
        -- eexists. split; [reflexivity|].
           unfold extends. simpl. repeat split; eauto.
      * eexists. split; [reflexivity|].
        unfold extends. simpl. repeat split; eauto.
    + exists w. split; [reflexivity | apply extends_refl].
  - exists w. split; [reflexivity|].
    destruct (wrote_event_bytes_ fw); apply extends_refl.
Qed.

(** ** Paths *)

Lemma str_app_longer p x : x <> EmptyString -> p +:+ x <> p.
Proof.
  intros Hx H. apply (f_equal String.length) in H.
  rewrite str_length_app in H. destruct x; [congruence|]. simpl in H. lia.
Qed.

Lemma inprogress_path_not_final fw name :
  AppendASCII (GetInprogressDirectory fw) name <> final_log_path_ fw.
Proof.
  unfold AppendASCII, GetInprogressDirectory, AddExtension.
  rewrite str_app_assoc. apply str_app_longer. discriminate.
Qed.

(** ** Stitching, whatever the operating system does *)

Lemma append_event_files_general fw : forall filenumbers w,
  dest_ok (final_log_file_ fw) (final_log_path_ fw) w ->
  exists w' evs,
    append_event_files fw filenumbers w = Done tt w' /\
    extends w w' evs /\
    appended_from (event_file_paths fw filenumbers) (final_log_file_ fw) evs.
Proof.
  induction filenumbers as [|n rest IH]; intros w Hdst.
  - exists w, []. split; [reflexivity|]. split; [apply extends_refl|].
    repeat split.
  - cbn [append_event_files].
    destruct (AppendToFileThenDelete_general
                (GetEventFilePath fw (FileNumberToIndex fw n))
                (final_log_file_ fw) (final_log_path_ fw) kReadBufferSize w)
      as (w1 & evs1 & H1 & Hx1 & Ha1).
    { apply inprogress_path_not_final. }
    { assumption. }
    destruct (IH w1) as (w2 & evs2 & H2 & Hx2 & Ha2).
    { eapply dest_ok_extends; eassumption. }
    exists w2, (evs1 ++ evs2).
    rewrite (io_bind_done _ _ _ _ _ H1). split; [exact H2|].
    split; [eapply extends_trans; eassumption|].
    change (event_file_paths fw (n :: rest))
      with ([GetEventFilePath fw (FileNumberToIndex fw n)]
            ++ event_file_paths fw rest).
    apply appended_from_app; assumption.
Qed.

Lemma StitchFinalLogFile_general fw w :
  exists file w' evs,
    StitchFinalLogFile fw w
    = Done (set_final_log_file file (set_current_event_file None fw)) w' /\
    extends w w' evs /\
    opened_for_read evs = stitch_sources fw /\
    opened_for_write evs = [final_log_path_ fw] /\
    seeks evs = rewind_seeks fw file /\
    (forall id, (id < next_stream w)%nat -> written_to id evs = EmptyString).
Proof.
  unfold StitchFinalLogFile.
  destruct (ScopedFILE_reset_extends (current_event_file_ fw) w)
    as (w1 & H1 & Hx1 & _).
  rewrite (io_bind_done _ _ _ _ _ H1).
  set (fw1 := set_current_event_file None fw).
  destruct (OpenFile_extends (final_log_path_ fw1) ModeWrite w1)
    as (file & w2 & H2 & Hx2 & Hok2 & Hid2).
  unfold OpenFileForWrite. rewrite (io_bind_done _ _ _ _ _ H2).
  destruct (ScopedFILE_reset_extends (final_log_file_ fw1) w2)
    as (w3 & H3 & Hx3 & _).
  rewrite (io_bind_done _ _ _ _ _ H3).
  set (fw2 := set_final_log_file file fw1).
  assert (Hok3 : dest_ok (final_log_file_ fw2) (final_log_path_ fw2) w3).
  { eapply dest_ok_extends; [exact Hok2 | exact Hx3]. }
  destruct (AppendToFileThenDelete_general (GetConstantsFilePath fw2)
              (final_log_file_ fw2) (final_log_path_ fw2) kReadBufferSize w3)
    as (w4 & evs4 & H4 & Hx4 & Ha4);
    [apply inprogress_path_not_final | exact Hok3 |].
  rewrite (io_bind_done _ _ _ _ _ H4).
  assert (Hok4 : dest_ok (final_log_file_ fw2) (final_log_path_ fw2) w4).
  { eapply dest_ok_extends; eassumption. }
  destruct (append_event_files_general fw2
              (for_filenumbers (begin_filenumber fw2) (end_filenumber fw2))
              w4 Hok4)
    as (w5 & evs5 & H5 & Hx5 & Ha5).
  rewrite (io_bind_done _ _ _ _ _ H5).
  destruct (RewindIfWroteEventBytes_extends fw2 (final_log_file_ fw2) w5)
    as (w6 & H6 & Hx6).
  rewrite (io_bind_done _ _ _ _ _ H6).
  assert (Hok6 : dest_ok (final_log_file_ fw2) (final_log_path_ fw2) w6).
  { eapply dest_ok_extends; [|exact Hx6].
    eapply dest_ok_extends; eassumption. }
  destruct (AppendToFileThenDelete_general (GetClosingFilePath fw2)
              (final_log_file_ fw2) (final_log_path_ fw2) kReadBufferSize w6)
    as (w7 & evs7 & H7 & Hx7 & Ha7);
    [apply inprogress_path_not_final | exact Hok6 |].
  rewrite (io_bind_done _ _ _ _ _ H7).
  destruct (DeleteFile_extends (GetInprogressDirectory fw2) true w7)
    as (w8 & H8 & Hx8).
  rewrite (io_bind_done _ _ _ _ _ H8).
  exists file, w8. eexists. split; [reflexivity|].
  split.
  { eapply extends_trans; [exact Hx1|].
    eapply extends_trans; [exact Hx2|].
    eapply extends_trans; [exact Hx3|].
    eapply extends_trans; [exact Hx4|].
    eapply extends_trans; [exact Hx5|].
    eapply extends_trans; [exact Hx6|].
    eapply extends_trans; [exact Hx7|]. exact Hx8. }
  destruct Ha4 as (Hr4 & Hw4 & Hs4 & Hn4).
  destruct Ha5 as (Hr5 & Hw5 & Hs5 & Hn5).
  destruct Ha7 as (Hr7 & Hw7 & Hs7 & Hn7).
  destruct (close_events_summary (current_event_file_ fw))
    as (Hrc & Hwc & Hsc & _ & Hnc).
  destruct (close_events_summary (final_log_file_ fw1))
    as (Hrf & Hwf & Hsf & _ & Hnf).
  assert (Hfresh : forall id, (id < next_stream w)%nat ->
                              final_log_file_ fw2 <> Some id).
  { intros id Hid. simpl. destruct file as [f|]; [|discriminate].
    destruct Hid2 as (-> & _). destruct Hx1 as (_ & _ & Hle & _).
    intros [= <-]. lia. }
  repeat split.
  - rewrite !opened_for_read_app, Hrc, Hrf, Hr4, Hr5, Hr7.
    destruct (wrote_event_bytes_ fw2), (final_log_file_ fw2); reflexivity.
  - rewrite !opened_for_write_app, Hwc, Hwf, Hw4, Hw5, Hw7.
    destruct (wrote_event_bytes_ fw2), (final_log_file_ fw2); reflexivity.
  - rewrite !seeks_app, Hsc, Hsf, Hs4, Hs5, Hs7. unfold rewind_seeks.
    simpl. destruct (wrote_event_bytes_ fw), file; reflexivity.
  - intros id Hid. specialize (Hfresh id Hid).
    rewrite !written_to_app, Hnc, Hnf, Hn4, Hn5, Hn7 by assumption.
    destruct (wrote_event_bytes_ fw2), (final_log_file_ fw2); reflexivity.
Qed.

(** ** Writing when the operating system cooperates *)

Lemma fwrite_reliable data id path pos content w :
  env w = reliable_env ->
  stream_at w id path pos content ->
  exists w',
    fwrite data (Some id) w = Done (string_size data) w' /\
    wrote (Some id) w w' [EvWrite id data] /\
    stream_at w' id path (pos + String.length data)
      (write_at content pos data).
Proof.
  intros Henv [Hst Hc].
  destruct (fwrite_wrote data id w) as (w' & written & Hf & Hw & _).
  unfold fwrite in Hf. rewrite Hst in Hf. simpl in Hf. rewrite Hc in Hf.
  rewrite Henv in Hf. simpl in Hf. rewrite Nat.min_id in Hf.
  rewrite str_take_all in Hf by lia.
  injection Hf as Hsize Hw'.
  unfold fwrite. rewrite Hst. simpl. rewrite Hc. rewrite Henv. simpl.
  rewrite Nat.min_id. rewrite str_take_all by lia.
  eexists. split; [reflexivity|]. split.
  - destruct Hw as (Ht & Ha & He & Hn & Hs & Hp & Hd).
    rewrite <- Hw' in *. simpl in Ht. apply app_inv_head in Ht.
    injection Ht as <-. rewrite <- Henv.
    unfold wrote. simpl. repeat split; auto.
  - split; simpl; apply lookup_insert_eq.
Qed.

Lemma write_piece_reliable data id path acc w0 w evs0 pos content :
  env w = reliable_env ->
  stream_at w id path pos content ->
  wrote (Some id) w0 w evs0 ->
  acc = to_size_t (string_size (bytes_written evs0)) ->
  exists acc' w' evs pos' content',
    (if string_empty data then io_ret acc
     else let* n := fwrite data (Some id) in io_ret (size_add acc n)) w
    = Done acc' w' /\
    wrote (Some id) w0 w' evs /\
    bytes_written evs = bytes_written evs0 +:+ data /\
    acc' = to_size_t (string_size (bytes_written evs)) /\
    env w' = reliable_env /\
    stream_at w' id path pos' content' /\
    (pos = String.length content ->
       pos' = String.length content' /\ content' = content +:+ data).
Proof.
  intros Henv Hat Hw Hacc. destruct (string_empty data) eqn:He.
  - apply string_empty_true in He. subst data.
    exists acc, w, evs0, pos, content. rewrite !str_app_nil_r.
    split_and!; auto.
  - destruct (fwrite_reliable data id path pos content w Henv Hat)
      as (w' & Hf & Hw' & Hat').
    exists (size_add acc (string_size data)), w', (evs0 ++ [EvWrite id data]),
      (pos + String.length data)%nat, (write_at content pos data).
    split; [rewrite (io_bind_done _ _ _ _ _ Hf); reflexivity|].
    assert (Hb : bytes_written (evs0 ++ [EvWrite id data])
                 = bytes_written evs0 +:+ data).
    { rewrite bytes_written_app. simpl. rewrite str_app_nil_r. reflexivity. }
    split_and!.
    + eapply wrote_trans; eassumption.
    + exact Hb.
    + rewrite Hb, string_size_app. subst acc. unfold size_add.
      apply to_size_t_add_l.
    + destruct Hw' as (_ & _ & He' & _). congruence.
    + exact Hat'.
    + intros ->. rewrite write_at_end, str_length_app. split; reflexivity.
Qed.

Lemma WriteToFile_reliable id path pos content data1 data2 data3 w :
  env w = reliable_env ->
  stream_at w id path pos content ->
  exists w' evs pos' content',
    WriteToFile (Some id) data1 data2 data3 w
    = Done (to_size_t (string_size (data1 +:+ data2 +:+ data3))) w' /\
    wrote (Some id) w w' evs /\
    bytes_written evs = data1 +:+ data2 +:+ data3 /\
    env w' = reliable_env /\
    stream_at w' id path pos' content' /\
    (pos = String.length content ->
       pos' = String.length content' /\
       content' = content +:+ data1 +:+ data2 +:+ data3).
Proof.
  intros Henv Hat. unfold WriteToFile.
  destruct (write_piece_reliable data1 id path 0 w w [] pos content
              Henv Hat (wrote_nothing _ _) eq_refl)
    as (a1 & w1 & e1 & p1 & c1 & H1 & Hw1 & Hb1 & Ha1 & He1 & Hat1 & Hc1).
  destruct (write_piece_reliable data2 id path a1 w w1 e1 p1 c1
              He1 Hat1 Hw1 Ha1)
    as (a2 & w2 & e2 & p2 & c2 & H2 & Hw2 & Hb2 & Ha2 & He2 & Hat2 & Hc2).
  destruct (write_piece_reliable data3 id path a2 w w2 e2 p2 c2
              He2 Hat2 Hw2 Ha2)
    as (a3 & w3 & e3 & p3 & c3 & H3 & Hw3 & Hb3 & Ha3 & He3 & Hat3 & Hc3).
  assert (Hbytes : bytes_written e3 = data1 +:+ data2 +:+ data3).
  { rewrite Hb3, Hb2, Hb1. simpl. rewrite str_app_nil_l.
    rewrite !str_app_assoc. reflexivity. }
  exists w3, e3, p3, c3.
  rewrite (io_bind_done _ _ _ _ _ H1).
  rewrite (io_bind_done _ _ _ _ _ H2).
  rewrite (io_bind_done _ _ _ _ _ H3).
  split; [unfold io_ret; rewrite Ha3, Hbytes; reflexivity|].
  split_and!; auto.
  intros Hpos. destruct (Hc1 Hpos) as [Hp1 ->].
  destruct (Hc2 Hp1) as [Hp2 ->]. destruct (Hc3 Hp2) as [Hp3 ->].
  split; [exact Hp3|]. rewrite !str_app_assoc. reflexivity.
Qed.

(** The bytes [WritePolledDataToFile] hands to [WriteToFile], in order. *)
Lemma epilogue_bytes polled_data :
  kEventsClose +:+
  match polled_data with
  | Some value =>
      if negb (string_empty (json_text value))
      then kPolledDataKey +:+ json_text value +:+ newline
      else EmptyString
  | None => EmptyString
  end +:+ kLogClose
  = spec_epilogue polled_data.
Proof.
  unfold spec_epilogue. destruct polled_data as [value|].
  - destruct (string_empty (json_text value)); vm_compute; reflexivity.
  - reflexivity.
Qed.

Lemma WritePolledDataToFile_wrote polled_data file w :
  exists w' evs,
    WritePolledDataToFile polled_data file w = Done tt w' /\
    wrote file w w' evs.
Proof.
  unfold WritePolledDataToFile.
  destruct (WriteToFile_wrote file kEventsClose EmptyString EmptyString w)
    as (n1 & w1 & e1 & H1 & Hw1 & _ & _).
  rewrite (io_bind_done _ _ _ _ _ H1).
  assert (Hmid : exists w2 e2,
    match polled_data with
    | Some value =>
        let '(_, polled_data_json) := JSONWriter_Write value in
        if negb (string_empty polled_data_json)
        then WriteToFile file kPolledDataKey polled_data_json newline;;
             io_ret tt
        else io_ret tt
    | None => io_ret tt
    end w1 = Done tt w2 /\ wrote file w1 w2 e2).
  { destruct polled_data as [value|]; simpl.
    - destruct (negb (string_empty (json_text value))).
      + destruct (WriteToFile_wrote file kPolledDataKey (json_text value)
                    newline w1) as (n2 & w2 & e2 & H2 & Hw2 & _ & _).
        exists w2, e2. rewrite (io_bind_done _ _ _ _ _ H2). auto.
      + exists w1, []. split; [reflexivity | apply wrote_nothing].
    - exists w1, []. split; [reflexivity | apply wrote_nothing]. }
  destruct Hmid as (w2 & e2 & H2 & Hw2).
  rewrite (io_bind_done _ _ _ _ _ H2).
  destruct (WriteToFile_wrote file kLogClose EmptyString EmptyString w2)
    as (n3 & w3 & e3 & H3 & Hw3 & _ & _).
  rewrite (io_bind_done _ _ _ _ _ H3).
  exists w3, (e1 ++ e2 ++ e3). split; [reflexivity|].
  eapply wrote_trans; [eassumption|].
  eapply wrote_trans; eassumption.
Qed.

Lemma WritePolledDataToFile_reliable polled_data id path pos content w :
  env w = reliable_env ->
  stream_at w id path pos content ->
  exists w' evs pos' content',
    WritePolledDataToFile polled_data (Some id) w = Done tt w' /\
    wrote (Some id) w w' evs /\
    bytes_written evs = spec_epilogue polled_data /\
    env w' = reliable_env /\
    stream_at w' id path pos' content' /\
    (pos = String.length content ->
       pos' = String.length content' /\
       content' = content +:+ spec_epilogue polled_data).
Proof.
  intros Henv Hat. unfold WritePolledDataToFile.
  destruct (WriteToFile_reliable id path pos content kEventsClose EmptyString
              EmptyString w Henv Hat)
    as (w1 & e1 & p1 & c1 & H1 & Hw1 & Hb1 & He1 & Hat1 & Hc1).
  rewrite (io_bind_done _ _ _ _ _ H1).
  set (middle := match polled_data with
                 | Some value =>
                     if negb (string_empty (json_text value))
                     then kPolledDataKey +:+ json_text value +:+ newline
                     else EmptyString
                 | None => EmptyString
                 end).
  assert (Hmid : exists w2 e2 p2 c2,
    match polled_data with
    | Some value =>
        let '(_, polled_data_json) := JSONWriter_Write value in
        if negb (string_empty polled_data_json)
        then WriteToFile (Some id) kPolledDataKey polled_data_json newline;;
             io_ret tt
        else io_ret tt
    | None => io_ret tt
    end w1 = Done tt w2 /\ wrote (Some id) w1 w2 e2 /\
    bytes_written e2 = middle /\ env w2 = reliable_env /\
    stream_at w2 id path p2 c2 /\
    (p1 = String.length c1 ->
       p2 = String.length c2 /\ c2 = c1 +:+ middle)).
  { subst middle. destruct polled_data as [value|]; simpl.
    - destruct (negb (string_empty (json_text value))).
      + destruct (WriteToFile_reliable id path p1 c1 kPolledDataKey
                    (json_text value) newline w1 He1 Hat1)
          as (w2 & e2 & p2 & c2 & H2 & Hw2 & Hb2 & He2 & Hat2 & Hc2).
        exists w2, e2, p2, c2. rewrite (io_bind_done _ _ _ _ _ H2).
        split_and!; auto.
      + exists w1, [], p1, c1. rewrite str_app_nil_r.
        split_and!; auto. apply wrote_nothing.
    - exists w1, [], p1, c1. rewrite str_app_nil_r.
      split_and!; auto. apply wrote_nothing. }
  destruct Hmid as (w2 & e2 & p2 & c2 & H2 & Hw2 & Hb2 & He2 & Hat2 & Hc2).
  rewrite (io_bind_done _ _ _ _ _ H2).
  destruct (WriteToFile_reliable id path p2 c2 kLogClose EmptyString
              EmptyString w2 He2 Hat2)
    as (w3 & e3 & p3 & c3 & H3 & Hw3 & Hb3 & He3 & Hat3 & Hc3).
  rewrite (io_bind_done _ _ _ _ _ H3).
  exists w3, (e1 ++ e2 ++ e3), p3, c3. split; [reflexivity|].
  assert (Hbytes : bytes_written (e1 ++ e2 ++ e3)
                   = spec_epilogue polled_data).
  { rewrite !bytes_written_app, Hb1, Hb2, Hb3, !str_app_nil_r.
    apply epilogue_bytes. }
  split_and!; auto.
  - eapply wrote_trans; [eassumption|]. eapply wrote_trans; eassumption.
  - intros Hpos. destruct (Hc1 Hpos) as [Hp1 ->].
    destruct (Hc2 Hp1) as [Hp2 ->]. destruct (Hc3 Hp2) as [Hp3 ->].
    split; [exact Hp3|].
    rewrite <- epilogue_bytes. fold middle.
    rewrite !str_app_nil_r, !str_app_assoc. reflexivity.
Qed.

(** ** Flush *)

Lemma IncrementCurrentEventFile_general fw w :
  exists file w',
    IncrementCurrentEventFile fw w = Done (rotated file fw) w' /\
    extends w w'
      (EvOpen (next_event_file_path fw) ModeWrite file
       :: close_events (current_event_file_ fw)) /\
    (env w = reliable_env -> handles_ok fw w ->
       file = Some (next_stream w) /\
       at_eof w' (next_stream w) (next_event_file_path fw) EmptyString).
Proof.
  unfold IncrementCurrentEventFile, OpenFileForWrite.
  set (fw1 := set_current_event_file_number _ fw).
  destruct (OpenFile_extends
              (GetEventFilePath fw1
                 (FileNumberToIndex fw1 (current_event_file_number_ fw1)))
              ModeWrite w) as (file & w1 & H1 & Hx1 & Hok1 & Hid1).
  rewrite (io_bind_done _ _ _ _ _ H1).
  destruct (ScopedFILE_reset_extends (current_event_file_ fw1) w1)
    as (w2 & H2 & Hx2 & Hd2).
  rewrite (io_bind_done _ _ _ _ _ H2).
  exists file, w2. split; [reflexivity|]. split.
  - change (EvOpen (next_event_file_path fw) ModeWrite file
            :: close_events (current_event_file_ fw))
      with ([EvOpen (next_event_file_path fw) ModeWrite file]
            ++ close_events (current_event_file_ fw)).
    eapply extends_trans; [exact Hx1 | exact Hx2].
  - intros Henv [_ Hcur].
    unfold OpenFile in H1. rewrite Henv in H1. simpl in H1.
    injection H1 as <- <-. split; [reflexivity|].
    change (current_event_file_ fw1) with (current_event_file_ fw) in H2.
    unfold at_eof, stream_at.
    destruct (current_event_file_ fw) as [old|] eqn:Hold; simpl in H2;
      injection H2 as <-; simpl.
    + specialize (Hcur old eq_refl).
      rewrite lookup_delete_ne by lia.
      rewrite !lookup_insert_eq. split; reflexivity.
    + rewrite !lookup_insert_eq. split; reflexivity.
Qed.

Lemma output_file_rotated file fw :
  IsBounded fw = true -> output_file (rotated file fw) = file.
Proof.
  intros Hb. unfold output_file.
  change (IsBounded (rotated file fw)) with (IsBounded fw). rewrite Hb.
  reflexivity.
Qed.

(** One round of the loop of [Flush], whatever the operating system
    does: an optional rotation, then writes through the output file, then
    the bookkeeping. *)
Lemma Flush_event_general event fw w :
  exists fw1 w1 rotation n w' writes,
    (if IsBounded fw && needs_new_event_file fw
     then exists file,
            IncrementCurrentEventFile fw w = Done (rotated file fw) w1 /\
            fw1 = rotated file fw /\
            rotation = EvOpen (next_event_file_path fw) ModeWrite file
                       :: close_events (current_event_file_ fw)
     else fw1 = fw /\ w1 = w /\ rotation = []) /\
    extends w w1 rotation /\
    WriteToFile (output_file fw1) event kEventSeparator EmptyString w1
    = Done n w' /\
    wrote (output_file fw1) w1 w' writes /\
    n = to_size_t (string_size (bytes_written writes)) /\
    string_size (bytes_written writes) <= string_size event + 2 /\
    Flush_event event fw w = Done (accounted n fw1) w'.
Proof.
  unfold Flush_event.
  assert (Hrot : exists fw1 w1 rotation,
    (if IsBounded fw && needs_new_event_file fw
     then exists file,
            IncrementCurrentEventFile fw w = Done (rotated file fw) w1 /\
            fw1 = rotated file fw /\
            rotation = EvOpen (next_event_file_path fw) ModeWrite file
                       :: close_events (current_event_file_ fw)
     else fw1 = fw /\ w1 = w /\ rotation = []) /\
    extends w w1 rotation /\
    (if IsBounded fw then
       if needs_new_event_file fw then IncrementCurrentEventFile fw
       else io_ret fw
     else io_ret fw) w = Done fw1 w1).
  { destruct (IsBounded fw); simpl.
    - destruct (needs_new_event_file fw).
      + destruct (IncrementCurrentEventFile_general fw w)
          as (file & w1 & H1 & Hx1 & _).
        exists (rotated file fw), w1,
          (EvOpen (next_event_file_path fw) ModeWrite file
           :: close_events (current_event_file_ fw)).
        split; [exists file; auto|]. split; assumption.
      + exists fw, w, []. split_and!; auto. apply extends_refl.
    - exists fw, w, []. split_and!; auto. apply extends_refl. }
  destruct Hrot as (fw1 & w1 & rotation & Hcase & Hx1 & H1).
  rewrite (io_bind_done _ _ _ _ _ H1).
  destruct (WriteToFile_wrote (output_file fw1) event kEventSeparator
              EmptyString w1) as (n & w2 & writes & H2 & Hw2 & Hn & Hle).
  fold (output_file fw1). rewrite (io_bind_done _ _ _ _ _ H2).
  exists fw1, w1, rotation, n, w2, writes.
  split_and!; auto.
  unfold string_size in Hle at 3 4. simpl in Hle. lia.
Qed.

Lemma accounted_fields n fw :
  final_log_path_ (accounted n fw) = final_log_path_ fw /\
  final_log_file_ (accounted n fw) = final_log_file_ fw /\
  current_event_file_ (accounted n fw) = current_event_file_ fw /\
  total_num_event_files_ (accounted n fw) = total_num_event_files_ fw /\
  current_event_file_number_ (accounted n fw) = current_event_file_number_ fw /\
  max_event_file_size_ (accounted n fw) = max_event_file_size_ fw /\
  wrote_event_bytes_ (accounted n fw) = wrote_event_bytes_ fw || (n >? 0) /\
  current_event_file_size_ (accounted n fw)
  = if IsBounded fw then size_add (current_event_file_size_ fw) n
    else current_event_file_size_ fw.
Proof.
  unfold accounted.
  change (IsBounded (set_wrote_event_bytes _ fw)) with (IsBounded fw).
  destruct (IsBounded fw); repeat split.
Qed.

Lemma Flush_loop_general : forall local_file_queue fw w,
  exists fw' w' evs,
    Flush_loop local_file_queue fw w = Done fw' w' /\
    extends w w' evs /\
    seeks evs = [] /\ opened_for_read evs = [] /\
    final_log_path_ fw' = final_log_path_ fw /\
    final_log_file_ fw' = final_log_file_ fw /\
    total_num_event_files_ fw' = total_num_event_files_ fw /\
    max_event_file_size_ fw' = max_event_file_size_ fw /\
    (is_size_t (current_event_file_number_ fw) ->
     current_event_file_number_ fw + Z.of_nat (length local_file_queue)
     <= SIZE_MAX ->
     current_event_file_number_ fw <= current_event_file_number_ fw'
     <= current_event_file_number_ fw + Z.of_nat (length local_file_queue)) /\
    (Forall (fun e => string_size e + 2 <= SIZE_MAX) local_file_queue ->
     wrote_event_bytes_ fw'
     = wrote_event_bytes_ fw || negb (string_empty (bytes_written evs))).
Proof.
  induction local_file_queue as [|front rest IH]; intros fw w.
  - exists fw, w, []. split_and!; auto.
    + apply extends_refl.
    + intros _ _. simpl. lia.
    + intros _. simpl. rewrite orb_false_r. reflexivity.
  - cbn [Flush_loop].
    destruct (Flush_event_general front fw w)
      as (fw1 & w1 & rotation & n & w2 & writes
          & Hcase & Hx1 & _ & Hw2 & Hn & Hle & H2).
    rewrite (io_bind_done _ _ _ _ _ H2).
    destruct (IH (accounted n fw1) w2)
      as (fw' & w' & evs & H3 & Hx3 & Hs3 & Hr3 & Hp3 & Hf3 & HN3 & Hm3
          & Hnum3 & Hflag3).
    destruct (accounted_fields n fw1)
      as (Ap & Af & Ac & AN & An & Am & Aw & As).
    destruct (writes_only_summary _ _ (proj1 (proj2 Hw2)))
      as (Wr & Ww & Ws & _ & _).
    assert (Hrotation :
      seeks rotation = [] /\ opened_for_read rotation = [] /\
      bytes_written rotation = EmptyString /\
      final_log_path_ fw1 = final_log_path_ fw /\
      final_log_file_ fw1 = final_log_file_ fw /\
      total_num_event_files_ fw1 = total_num_event_files_ fw /\
      max_event_file_size_ fw1 = max_event_file_size_ fw /\
      wrote_event_bytes_ fw1 = wrote_event_bytes_ fw /\
      (current_event_file_number_ fw1 = current_event_file_number_ fw \/
       current_event_file_number_ fw1
       = size_add (current_event_file_number_ fw) 1)).
    { destruct (IsBounded fw && needs_new_event_file fw).
      - destruct Hcase as (file & _ & -> & ->).
        destruct (current_event_file_ fw); simpl; split_and!; auto.
      - destruct Hcase as (-> & _ & ->). split_and!; auto. }
    destruct Hrotation as (Rs & Rr & Rb & Rp & Rf & RN & Rm & Rw & Rn).
    exists fw', w', (rotation ++ writes ++ evs).
    split; [exact H3|]. split_and!.
    + eapply extends_trans; [exact Hx1|].
      eapply extends_trans; [eapply wrote_extends; exact Hw2 | exact Hx3].
    + rewrite !seeks_app, Rs, Ws, Hs3. reflexivity.
    + rewrite !opened_for_read_app, Rr, Wr, Hr3. reflexivity.
    + congruence.
    + congruence.
    + congruence.
    + congruence.
    + intros Hsz Hfit. rewrite An in Hnum3.
      simpl length in Hfit. simpl length. unfold is_size_t in *.
      assert (Hstep : current_event_file_number_ fw
                      <= current_event_file_number_ fw1
                      <= current_event_file_number_ fw + 1).
      { destruct Rn as [-> | ->]; [lia|].
        rewrite size_add_small by (unfold is_size_t; lia). lia. }
      specialize (Hnum3 ltac:(lia) ltac:(lia)). lia.
    + intros Hall. apply Forall_cons in Hall. destruct Hall as [Hfront Hrest].
      rewrite (Hflag3 Hrest), Aw, Rw.
      rewrite !bytes_written_app, Rb, str_app_nil_l.
      assert (Hpos : (n >? 0) = negb (string_empty (bytes_written writes))).
      { subst n. pose proof (string_size_nonneg (bytes_written writes)).
        rewrite to_size_t_small by (unfold is_size_t; lia).
        destruct (bytes_written writes); reflexivity. }
      rewrite Hpos, string_empty_app, negb_andb, orb_assoc. reflexivity.
Qed.

Lemma Flush_general write_queue fw w :
  exists fw' w' evs,
    Flush write_queue fw w = Done (snd (SwapQueue [] write_queue), fw') w' /\
    Flush_loop (queue_ write_queue) fw w = Done fw' w' /\
    extends w w' evs.
Proof.
  unfold Flush. simpl.
  destruct (Flush_loop_general (queue_ write_queue) fw w)
    as (fw' & w' & evs & H & Hx & _).
  exists fw', w', evs. rewrite (io_bind_done _ _ _ _ _ H). auto.
Qed.

(** ** Stop, Initialize and DeleteAllFiles, whatever the operating system
    does *)

Lemma io_bind_assoc {A B C : Type} (m : IO A) (k : A -> IO B)
    (h : B -> IO C) w :
  io_bind (io_bind m k) h w = io_bind m (fun a => io_bind (k a) h) w.
Proof. unfold io_bind. destruct (m w); reflexivity. Qed.

Lemma Stop_general polled_data fw w :
  exists w' evs,
    Stop polled_data fw w = Done (stopped fw) w' /\
    extends w w' evs /\
    (wrote_event_bytes_ fw = false -> seeks evs = []) /\
    opened_for_read evs = (if IsBounded fw then stitch_sources fw else []) /\
    opened_for_write evs
    = (if IsBounded fw
       then [GetClosingFilePath fw; final_log_path_ fw] else []).
Proof.
  unfold Stop, stopped. destruct (IsBounded fw) eqn:Hb.
  - unfold OpenFileForWrite.
    destruct (OpenFile_extends (GetClosingFilePath fw) ModeWrite w)
      as (cfile & w1 & H1 & Hx1 & _ & _).
    rewrite io_bind_assoc, (io_bind_done _ _ _ _ _ H1).
    destruct (WritePolledDataToFile_wrote polled_data cfile w1)
      as (w2 & e2 & H2 & Hw2).
    rewrite io_bind_assoc, (io_bind_done _ _ _ _ _ H2).
    destruct (ScopedFILE_reset_extends cfile w2) as (w3 & H3 & Hx3 & _).
    rewrite (io_bind_done _ _ _ _ _ H3).
    destruct (StitchFinalLogFile_general fw w3)
      as (file & w4 & e4 & H4 & Hx4 & Hr4 & Hw4 & Hs4 & _).
    rewrite (io_bind_done _ _ _ _ _ H4).
    destruct (ScopedFILE_reset_extends
                (final_log_file_
                   (set_final_log_file file (set_current_event_file None fw)))
                w4) as (w5 & H5 & Hx5 & _).
    rewrite (io_bind_done _ _ _ _ _ H5).
    eexists w5, _. split; [reflexivity|].
    destruct (wrote_appended_from _ _ _ _ Hw2) as (Pr & Pw & Ps & _).
    destruct (close_events_summary cfile) as (Cr & Cw & Cs & _).
    destruct (close_events_summary
                (final_log_file_
                   (set_final_log_file file
                      (set_current_event_file None fw))))
      as (Fr & Fw & Fs & _).
    split_and!.
    + eapply extends_trans; [exact Hx1|].
      eapply extends_trans; [eapply wrote_extends; exact Hw2|].
      eapply extends_trans; [exact Hx3|].
      eapply extends_trans; [exact Hx4 | exact Hx5].
    + intros Hflag. rewrite !seeks_app, Ps, Cs, Hs4, Fs.
      unfold rewind_seeks. rewrite Hflag. reflexivity.
    + rewrite !opened_for_read_app, Pr, Cr, Hr4, Fr. simpl.
      rewrite app_nil_r. reflexivity.
    + rewrite !opened_for_write_app, Pw, Cw, Hw4, Fw. reflexivity.
  - destruct (RewindIfWroteEventBytes_extends fw (final_log_file_ fw) w)
      as (w1 & H1 & Hx1).
    rewrite io_bind_assoc, (io_bind_done _ _ _ _ _ H1).
    destruct (WritePolledDataToFile_wrote polled_data (final_log_file_ fw) w1)
      as (w2 & e2 & H2 & Hw2).
    rewrite (io_bind_done _ _ _ _ _ H2).
    rewrite (io_bind_done _ _ _ _ _ (eq_refl : io_ret fw w2 = Done fw w2)).
    destruct (ScopedFILE_reset_extends (final_log_file_ fw) w2)
      as (w3 & H3 & Hx3 & _).
    rewrite (io_bind_done _ _ _ _ _ H3).
    eexists w3, _. split; [reflexivity|].
    destruct (wrote_appended_from _ _ _ _ Hw2) as (Pr & Pw & Ps & _).
    destruct (close_events_summary (final_log_file_ fw))
      as (Fr & Fw & Fs & _).
    split_and!.
    + eapply extends_trans; [exact Hx1|].
      eapply extends_trans; [eapply wrote_extends; exact Hw2 | exact Hx3].
    + intros Hflag. rewrite !seeks_app, Ps, Fs. rewrite Hflag. reflexivity.
    + rewrite !opened_for_read_app, Pr, Fr.
      destruct (wrote_event_bytes_ fw), (final_log_file_ fw); reflexivity.
    + rewrite !opened_for_write_app, Pw, Fw.
      destruct (wrote_event_bytes_ fw), (final_log_file_ fw); reflexivity.
Qed.

Lemma WriteConstantsToFile_wrote constants_value file w :
  exists w' evs,
    WriteConstantsToFile constants_value file w = Done tt w' /\
    wrote file w w' evs.
Proof.
  unfold WriteConstantsToFile. simpl.
  destruct (WriteToFile_wrote file kConstantsKey (json_text constants_value)
              kEventsOpen w) as (n & w' & evs & H & Hw & _).
  exists w', evs. rewrite (io_bind_done _ _ _ _ _ H). auto.
Qed.

Lemma CreateInprogressDirectory_general fw w :
  exists w' evs,
    CreateInprogressDirectory fw w = Done tt w' /\
    extends w w' evs /\ seeks evs = [] /\ opened_for_read evs = [].
Proof.
  unfold CreateInprogressDirectory.
  destruct (final_log_file_ fw) as [id|].
  - unfold io_bind at 1. unfold CreateDirectory.
    set (ok := env_mkdir_ok (env w) (trace w) (GetInprogressDirectory fw)).
    set (w1 := log_event (EvCreateDirectory (GetInprogressDirectory fw) ok) w).
    assert (Hx1 : extends w w1
                    [EvCreateDirectory (GetInprogressDirectory fw) ok]).
    { unfold extends. simpl. split_and!; eauto. }
    destruct ok; simpl.
    + destruct (WriteToFile_wrote (Some id) kPlaceholder EmptyString
                  EmptyString w1) as (n & w2 & e2 & H2 & Hw2 & _).
      rewrite (io_bind_done _ _ _ _ _ H2). simpl.
      eexists _, ([EvCreateDirectory (GetInprogressDirectory fw) true]
                  ++ e2 ++ [EvFlush id]).
      split; [reflexivity|].
      destruct (wrote_appended_from _ _ _ _ Hw2) as (Pr & _ & Ps & _).
      split_and!.
      * eapply extends_trans; [exact Hx1|].
        eapply extends_trans; [eapply wrote_extends; exact Hw2|].
        unfold extends. simpl. split_and!; eauto.
      * rewrite !seeks_app, Ps. reflexivity.
      * rewrite !opened_for_read_app, Pr. reflexivity.
    + exists w1. eexists. split; [reflexivity|]. split; [exact Hx1|].
      split; reflexivity.
  - exists w, []. split; [reflexivity|]. split; [apply extends_refl|].
    split; reflexivity.
Qed.

Lemma Initialize_general constants_value fw w :
  exists file w' evs,
    Initialize constants_value fw w = Done (set_final_log_file file fw) w' /\
    extends w w' evs /\
    seeks evs = [] /\ opened_for_read evs = [].
Proof.
  unfold Initialize, OpenFileForWrite.
  destruct (OpenFile_extends (final_log_path_ fw) ModeWrite w)
    as (file & w1 & H1 & Hx1 & _ & _).
  rewrite (io_bind_done _ _ _ _ _ H1).
  destruct (ScopedFILE_reset_extends (final_log_file_ fw) w1)
    as (w2 & H2 & Hx2 & _).
  rewrite (io_bind_done _ _ _ _ _ H2).
  set (fw1 := set_final_log_file file fw).
  destruct (close_events_summary (final_log_file_ fw)) as (Cr & _ & Cs & _).
  destruct (IsBounded fw1).
  - destruct (CreateInprogressDirectory_general fw1 w2)
      as (w3 & e3 & H3 & Hx3 & Hs3 & Hr3).
    rewrite (io_bind_done _ _ _ _ _ H3).
    destruct (OpenFile_extends (GetConstantsFilePath fw1) ModeWrite w3)
      as (cfile & w4 & H4 & Hx4 & _ & _).
    rewrite (io_bind_done _ _ _ _ _ H4).
    destruct (WriteConstantsToFile_wrote constants_value cfile w4)
      as (w5 & e5 & H5 & Hw5).
    rewrite (io_bind_done _ _ _ _ _ H5).
    destruct (ScopedFILE_reset_extends cfile w5) as (w6 & H6 & Hx6 & _).
    rewrite (io_bind_done _ _ _ _ _ H6).
    exists file, w6. eexists. split; [reflexivity|].
    destruct (wrote_appended_from _ _ _ _ Hw5) as (Pr & _ & Ps & _).
    destruct (close_events_summary cfile) as (Dr & _ & Ds & _).
    split_and!.
    + eapply extends_trans; [exact Hx1|].
      eapply extends_trans; [exact Hx2|].
      eapply extends_trans; [exact Hx3|].
      eapply extends_trans; [exact Hx4|].
      eapply extends_trans; [eapply wrote_extends; exact Hw5 | exact Hx6].
    + rewrite !seeks_app, Cs, Hs3, Ps, Ds. reflexivity.
    + rewrite !opened_for_read_app, Cr, Hr3, Pr, Dr. reflexivity.
  - destruct (WriteConstantsToFile_wrote constants_value
                (final_log_file_ fw1) w2) as (w3 & e3 & H3 & Hw3).
    rewrite (io_bind_done _ _ _ _ _ H3).
    exists file, w3. eexists. split; [reflexivity|].
    destruct (wrote_appended_from _ _ _ _ Hw3) as (Pr & _ & Ps & _).
    split_and!.
    + eapply extends_trans; [exact Hx1|].
      eapply extends_trans; [exact Hx2 | eapply wrote_extends; exact Hw3].
    + rewrite !seeks_app, Cs, Ps. reflexivity.
    + rewrite !opened_for_read_app, Cr, Pr. reflexivity.
Qed.

Lemma DeleteAllFiles_general fw w :
  exists fw' w' evs,
    DeleteAllFiles fw w = Done fw' w' /\ extends w w' evs.
Proof.
  unfold DeleteAllFiles.
  destruct (ScopedFILE_reset_extends (final_log_file_ fw) w)
    as (w1 & H1 & Hx1 & _).
  rewrite (io_bind_done _ _ _ _ _ H1).
  set (fw1 := set_final_log_file None fw).
  destruct (IsBounded fw1).
  - destruct (ScopedFILE_reset_extends (current_event_file_ fw1) w1)
      as (w2 & H2 & Hx2 & _).
    rewrite io_bind_assoc, (io_bind_done _ _ _ _ _ H2).
    destruct (DeleteFile_extends (GetInprogressDirectory fw1) true w2)
      as (w3 & H3 & Hx3).
    rewrite io_bind_assoc, (io_bind_done _ _ _ _ _ H3).
    destruct (DeleteFile_extends
                (final_log_path_ (set_current_event_file None fw1)) false w3)
      as (w4 & H4 & Hx4).
    unfold io_bind at 1. unfold io_ret at 1.
    rewrite (io_bind_done _ _ _ _ _ H4).
    eexists _, w4, _. split; [reflexivity|].
    eapply extends_trans; [exact Hx1|].
    eapply extends_trans; [exact Hx2|].
    eapply extends_trans; [exact Hx3 | exact Hx4].
  - destruct (DeleteFile_extends (final_log_path_ fw1) false w1)
      as (w2 & H2 & Hx2).
    unfold io_bind at 1. unfold io_ret at 1.
    rewrite (io_bind_done _ _ _ _ _ H2).
    eexists _, w2, _. split; [reflexivity|].
    eapply extends_trans; [exact Hx1 | exact Hx2].
Qed.

Lemma FlushThenStop_general write_queue polled_data fw w :
  exists fw1 w1 w' evs,
    Flush write_queue fw w = Done (snd (SwapQueue [] write_queue), fw1) w1 /\
    Stop polled_data fw1 w1 = Done (stopped fw1) w' /\
    FlushThenStop write_queue polled_data fw w
    = Done (snd (SwapQueue [] write_queue), stopped fw1) w' /\
    extends w w' evs.
Proof.
  unfold FlushThenStop.
  destruct (Flush_general write_queue fw w) as (fw1 & w1 & e1 & H1 & _ & Hx1).
  destruct (Stop_general polled_data fw1 w1) as (w2 & e2 & H2 & Hx2 & _).
  exists fw1, w1, w2, (e1 ++ e2).
  rewrite (io_bind_done _ _ _ _ _ H1). simpl.
  rewrite (io_bind_done _ _ _ _ _ H2).
  split_and!; auto. eapply extends_trans; eassumption.
Qed.

(** Every task the observer can post runs to completion. *)
Lemma run_task_total task write_queue fw w :
  exists write_queue' fw' w' evs,
    run_task task write_queue fw w = Done (write_queue', fw') w' /\
    extends w w' evs.
Proof.
  destruct task as [constants| |polled_data reply| |]; simpl.
  - destruct (Initialize_general constants fw w)
      as (file & w' & evs & H & Hx & _).
    rewrite (io_bind_done _ _ _ _ _ H). eauto 10.
  - destruct (Flush_general write_queue fw w) as (fw' & w' & evs & H & _ & Hx).
    eauto 10.
  - destruct (FlushThenStop_general write_queue polled_data fw w)
      as (fw1 & w1 & w' & evs & _ & _ & H & Hx).
    eauto 10.
  - destruct (DeleteAllFiles_general fw w) as (fw' & w' & evs & H & Hx).
    rewrite (io_bind_done _ _ _ _ _ H). eauto 10.
  - exists write_queue, fw, w, []. split; [reflexivity | apply extends_refl].
Qed.

(** ** Copying when the operating system cooperates *)

Lemma str_take_drop_length n s :
  str_take n s +:+ str_drop (String.length (str_take n s)) s = s.
Proof.
  revert s. induction n as [|n IH]; intros [|c s]; simpl; try reflexivity.
  rewrite str_app_cons, IH. reflexivity.
Qed.

Lemma str_take_empty n s :
  (0 < n)%nat -> str_take n s = EmptyString -> s = EmptyString.
Proof. destruct n, s; simpl; intros; try lia; congruence. Qed.

(** ** Writing inside a file *)

Lemma str_take_app_l n a b :
  (n <= String.length a)%nat -> str_take n (a +:+ b) = str_take n a.
Proof.
  revert a. induction n as [|n IH]; intros a H.
  - rewrite !str_take_0. reflexivity.
  - destruct a as [|x a]; simpl in H; [lia|].
    rewrite str_app_cons. simpl. rewrite IH by lia. reflexivity.
Qed.

Lemma str_take_app_length a b : str_take (String.length a) (a +:+ b) = a.
Proof. rewrite str_take_app_l by lia. apply str_take_all. lia. Qed.

Lemma str_drop_app_length a b n :
  str_drop (String.length a + n) (a +:+ b) = str_drop n b.
Proof.
  induction a as [|x a IH]; [reflexivity|].
  rewrite str_app_cons. simpl. exact IH.
Qed.

Lemma write_at_inside c pos data :
  (pos <= String.length c)%nat ->
  write_at c pos data
  = str_take pos c +:+ data +:+ str_drop (pos + String.length data) c.
Proof.
  intros H. unfold write_at. rewrite str_zeros_0 by lia. reflexivity.
Qed.

Lemma write_at_length c pos data :
  (pos <= String.length c)%nat ->
  (pos + String.length data <= String.length (write_at c pos data))%nat.
Proof.
  intros H. rewrite write_at_inside by exact H.
  rewrite !str_length_app, str_take_length. lia.
Qed.

Lemma write_at_nothing c pos :
  (pos <= String.length c)%nat -> write_at c pos EmptyString = c.
Proof.
  intros H. rewrite write_at_inside by exact H.
  rewrite str_app_nil_l, Nat.add_0_r. apply str_take_drop.
Qed.

(** Two writes, the second where the first stopped, are one write. *)
Lemma write_at_twice c pos data1 data2 :
  (pos <= String.length c)%nat ->
  write_at (write_at c pos data1) (pos + String.length data1) data2
  = write_at c pos (data1 +:+ data2).
Proof.
  intros H.
  rewrite (write_at_inside (write_at c pos data1))
    by (apply write_at_length; exact H).
  rewrite !(write_at_inside c) by exact H.
  assert (Hlen : String.length (str_take pos c) = pos)
    by (rewrite str_take_length; lia).
  rewrite <- (str_app_assoc (str_take pos c) data1).
  set (head := str_take pos c +:+ data1).
  assert (Hhead : String.length head = (pos + String.length data1)%nat)
    by (subst head; rewrite str_length_app, Hlen; reflexivity).
  rewrite <- Hhead at 1. rewrite str_take_app_length.
  rewrite <- Hhead at 1. rewrite str_drop_app_length.
  rewrite str_drop_drop. subst head.
  rewrite !str_app_assoc, str_length_app, Nat.add_assoc. reflexivity.
Qed.

(** What the copy loop calls: one piece of data written where the stream
    stands. *)
Lemma WriteToFile_reliable_at id path pos content data w :
  env w = reliable_env ->
  stream_at w id path pos content ->
  (pos <= String.length content)%nat ->
  exists w' evs,
    WriteToFile (Some id) data EmptyString EmptyString w
    = Done (to_size_t (string_size data)) w' /\
    wrote (Some id) w w' evs /\
    env w' = reliable_env /\
    stream_at w' id path (pos + String.length data)
      (write_at content pos data).
Proof.
  intros Henv Hat Hpos.
  destruct (WriteToFile_reliable id path pos content data EmptyString
              EmptyString w Henv Hat)
    as (w' & evs & p' & c' & H & Hw & _ & He & _).
  rewrite !str_app_nil_r in H. exists w', evs.
  split; [exact H|]. split; [exact Hw|]. split; [exact He|].
  revert H. unfold WriteToFile. cbn [string_empty].
  destruct (string_empty data) eqn:Hdata.
  - apply string_empty_true in Hdata. subst data.
    unfold io_bind, io_ret. intros [= <-].
    rewrite Nat.add_0_r.
    rewrite write_at_nothing by exact Hpos. exact Hat.
  - destruct (fwrite_reliable data id path pos content w Henv Hat)
      as (w1 & Hf & _ & Hat1).
    unfold io_bind at 1 2 3. unfold io_bind at 1. rewrite Hf.
    unfold io_ret. intros [= <-]. exact Hat1.
Qed.

(** The copy loop on a cooperating operating system: every byte of the
    source past the read position is written to the destination where its
    stream stands. *)
Lemma copy_loop_reliable_at s src d path size :
  forall fuel w pos content pd cd,
  env w = reliable_env ->
  0 < size ->
  streams w !! s = Some (mkStream src pos) ->
  disk w !! src = Some content ->
  stream_at w d path pd cd ->
  (pd <= String.length cd)%nat ->
  d <> s -> path <> src ->
  (String.length content - pos < fuel)%nat ->
  exists w' evs,
    copy_loop fuel (Some s) (Some d) size w = Done tt w' /\
    env w' = reliable_env /\
    next_stream w' = next_stream w /\
    stream_at w' d path (pd + String.length (str_drop pos content))
      (write_at cd pd (str_drop pos content)) /\
    (forall q, q <> path -> disk w' !! q = disk w !! q) /\
    (forall id, id <> s -> id <> d -> streams w' !! id = streams w !! id) /\
    stream_path <$> streams w' !! s = Some src /\
    trace w' = trace w ++ evs /\
    forallb (is_copy_event (Some d)) evs = true.
Proof.
  induction fuel as [|fuel IH];
    intros w pos content pd cd Henv Hsize Hs Hc Hat Hpd Hds Hps Hfuel.
  { exfalso. lia. }
  cbn [copy_loop]. unfold io_bind at 1. unfold fread. rewrite Hs.
  cbn [stream_path stream_pos]. rewrite Hc.
  replace (env_read_room (env w) (trace w) s (Z.to_nat size))
    with (Z.to_nat size) by (rewrite Henv; reflexivity).
  rewrite Nat.min_id.
  set (data := str_take (Z.to_nat size) (str_drop pos content)).
  set (w1 := {| disk := disk w;
                streams := <[s := mkStream src (pos + String.length data)]>
                             (streams w);
                next_stream := next_stream w;
                trace := trace w ++ [EvRead s data];
                env := env w |}).
  assert (Hat1 : stream_at w1 d path pd cd).
  { destruct Hat as [Hd1 Hd2]. split; simpl; [|exact Hd2].
    rewrite lookup_insert_ne by congruence. exact Hd1. }
  destruct (string_empty data) eqn:Hempty.
  - apply string_empty_true in Hempty.
    assert (Hrest : str_drop pos content = EmptyString).
    { eapply str_take_empty; [|exact Hempty]. lia. }
    exists w1, [EvRead s data]. unfold io_ret. rewrite Hrest.
    rewrite write_at_nothing by exact Hpd. simpl String.length.
    rewrite Nat.add_0_r.
    split_and!; auto.
    + intros id Hid _. simpl. rewrite lookup_insert_ne by congruence.
      reflexivity.
    + simpl. rewrite lookup_insert_eq. reflexivity.
  - destruct (WriteToFile_reliable_at d path pd cd data w1 Henv Hat1 Hpd)
      as (w2 & evs2 & Hwrite & Hw2 & He2 & Hat2).
    destruct Hw2 as (Ht2 & Ha2 & _ & Hn2 & Hs2 & Hpath2 & Hd2).
    assert (Hlen : (0 < String.length data)%nat)
      by (apply string_empty_false; assumption).
    assert (Hdata : (String.length data <= String.length content - pos)%nat).
    { subst data. rewrite str_take_length, str_drop_length. lia. }
    assert (Hdisk2 : forall q, q <> path -> disk w2 !! q = disk w !! q).
    { intros q Hq. rewrite Hd2; [reflexivity|].
      intros id st [= <-] Hst. destruct Hat1 as [Hd1 _].
      rewrite Hd1 in Hst. injection Hst as <-. simpl. congruence. }
    assert (Hsplit : str_drop pos content
                     = data +:+ str_drop (pos + String.length data) content).
    { rewrite <- str_drop_drop. subst data. symmetry.
      apply str_take_drop_length. }
    destruct (IH w2 (pos + String.length data)%nat content
                (pd + String.length data)%nat (write_at cd pd data))
      as (w3 & evs3 & Hloop & He3 & Hn3 & Hat3 & Hd3 & Hs3 & Hp3 & Ht3 & Ha3).
    + exact He2.
    + exact Hsize.
    + rewrite Hs2 by congruence. simpl. apply lookup_insert_eq.
    + rewrite Hdisk2 by congruence. exact Hc.
    + exact Hat2.
    + apply write_at_length. exact Hpd.
    + exact Hds.
    + exact Hps.
    + lia.
    + exists w3, ([EvRead s data] ++ evs2 ++ evs3).
      unfold io_bind at 1. fold w1. rewrite Hwrite.
      split; [exact Hloop|]. split_and!; auto.
      * rewrite Hn3, Hn2. reflexivity.
      * rewrite write_at_twice in Hat3 by exact Hpd.
        rewrite Hsplit, str_length_app, Nat.add_assoc. exact Hat3.
      * intros q Hq. rewrite Hd3, Hdisk2 by assumption. reflexivity.
      * intros id Hid1 Hid2. rewrite Hs3, Hs2 by congruence. simpl.
        rewrite lookup_insert_ne by congruence. reflexivity.
      * rewrite Ht3, Ht2. simpl. rewrite <- !app_assoc. reflexivity.
      * simpl. rewrite forallb_app, Ha3.
        rewrite writes_are_copy_events by assumption. reflexivity.
Qed.

Lemma OpenFileForWrite_reliable path w :
  env w = reliable_env ->
  exists w',
    OpenFileForWrite path w = Done (Some (next_stream w)) w' /\
    env w' = reliable_env /\
    next_stream w' = S (next_stream w) /\
    at_eof w' (next_stream w) path EmptyString /\
    (forall q, q <> path -> disk w' !! q = disk w !! q) /\
    (forall id, id <> next_stream w -> streams w' !! id = streams w !! id) /\
    trace w'
    = trace w ++ [EvOpen path ModeWrite (Some (next_stream w))].
Proof.
  intros Henv. unfold OpenFileForWrite, OpenFile. rewrite Henv. simpl.
  eexists. split; [reflexivity|]. simpl. split_and!; auto.
  - split; simpl; apply lookup_insert_eq.
  - intros q Hq. apply lookup_insert_ne. congruence.
  - intros id Hid. apply lookup_insert_ne. congruence.
Qed.

Lemma WriteToFile_at_eof id path c data1 data2 data3 w :
  env w = reliable_env ->
  at_eof w id path c ->
  exists w' evs,
    WriteToFile (Some id) data1 data2 data3 w
    = Done (to_size_t (string_size (data1 +:+ data2 +:+ data3))) w' /\
    env w' = reliable_env /\
    next_stream w' = next_stream w /\
    at_eof w' id path (c +:+ data1 +:+ data2 +:+ data3) /\
    (forall q, q <> path -> disk w' !! q = disk w !! q) /\
    (forall id', id' <> id -> streams w' !! id' = streams w !! id') /\
    wrote (Some id) w w' evs /\
    bytes_written evs = data1 +:+ data2 +:+ data3.
Proof.
  intros Henv Hat.
  destruct (WriteToFile_reliable id path (String.length c) c data1 data2
              data3 w Henv Hat)
    as (w' & evs & p' & c' & H & Hw & Hb & He & Hat' & Hc).
  destruct (Hc eq_refl) as [-> ->].
  exists w', evs. split_and!; auto.
  - apply Hw.
  - intros q Hq. destruct Hw as (_ & _ & _ & _ & _ & _ & Hd).
    apply Hd. intros id0 st [= <-] Hst. destruct Hat as [Hs _].
    rewrite Hs in Hst. injection Hst as <-. simpl. congruence.
  - intros id' Hid. destruct Hw as (_ & _ & _ & _ & Hs & _).
    apply Hs. congruence.
Qed.

Lemma fclose_frame id w :
  exists w',
    ScopedFILE_reset (Some id) w = Done tt w' /\
    env w' = env w /\ next_stream w' = next_stream w /\
    disk w' = disk w /\
    (forall id', id' <> id -> streams w' !! id' = streams w !! id') /\
    trace w' = trace w ++ [EvClose id].
Proof.
  eexists. split; [reflexivity|]. simpl. split_and!; auto.
  intros id' Hid. apply lookup_delete_ne. congruence.
Qed.

Lemma kReadBufferSize_pos : 0 < kReadBufferSize.
Proof. reflexivity. Qed.

Lemma str_drop_0 s : str_drop 0 s = s.
Proof. destruct s; reflexivity. Qed.

(** A delete request on an operating system that carries out every
    request. *)
Lemma DeleteFile_reliable path recursive w :
  env w = reliable_env ->
  exists w',
    DeleteFile path recursive w = Done tt w' /\
    env w' = reliable_env /\
    streams w' = streams w /\
    next_stream w' = next_stream w /\
    (forall q, disk w' !! q
               = if delete_covers path recursive q then None
                 else disk w !! q).
Proof.
  intros Henv. eexists. split; [reflexivity|]. cbn [env streams next_stream].
  split_and!; auto.
  intros q. rewrite (DeleteFile_disk path recursive w _ eq_refl), Henv.
  cbn [env_delete_ok reliable_env]. rewrite andb_true_r. reflexivity.
Qed.

(** A source file that exists is copied to where the destination stream
    stands, then deleted. *)
Lemma AppendToFileThenDelete_reliable_at src d path pd cd content w :
  env w = reliable_env ->
  src <> path ->
  stream_at w d path pd cd ->
  (pd <= String.length cd)%nat ->
  disk w !! src = Some content ->
  (d < next_stream w)%nat ->
  exists w',
    AppendToFileThenDelete src (Some d) kReadBufferSize w = Done tt w' /\
    env w' = reliable_env /\
    (next_stream w <= next_stream w')%nat /\
    stream_at w' d path (pd + String.length content)
      (write_at cd pd content) /\
    disk w' !! src = None /\
    (forall q, q <> path -> q <> src -> disk w' !! q = disk w !! q).
Proof.
  intros Henv Hsrc Hat Hpd Hc Hd. unfold AppendToFileThenDelete.
  unfold io_bind at 1. unfold OpenFile. rewrite Henv.
  cbn [env_open_ok reliable_env andb].
  rewrite bool_decide_eq_true_2 by (rewrite Hc; eauto).
  set (s := next_stream w).
  set (w1 := {| disk := disk w;
                streams := <[s := mkStream src 0]> (streams w);
                next_stream := S s;
                trace := trace w ++ [EvOpen src ModeRead (Some s)];
                env := reliable_env |}).
  assert (Hat1 : stream_at w1 d path pd cd).
  { destruct Hat as [H1 H2]. split; simpl; [|exact H2].
    rewrite lookup_insert_ne by (subst s; lia). exact H1. }
  destruct (copy_loop_reliable_at s src d path kReadBufferSize
              (copy_fuel src w1) w1 0 content pd cd)
    as (w2 & evs2 & Hloop & He2 & Hn2 & Hat2 & Hd2 & Hs2 & _ & _ & _).
  - reflexivity.
  - apply kReadBufferSize_pos.
  - simpl. apply lookup_insert_eq.
  - exact Hc.
  - exact Hat1.
  - exact Hpd.
  - subst s. lia.
  - congruence.
  - unfold copy_fuel. simpl. rewrite Hc. lia.
  - rewrite str_drop_0 in Hat2.
    unfold io_bind. rewrite Hloop. cbn [ScopedFILE_reset fclose].
    set (w3 := {| disk := disk w2; streams := delete s (streams w2);
                  next_stream := next_stream w2;
                  trace := trace w2 ++ [EvClose s]; env := env w2 |}).
    destruct (DeleteFile_reliable src false w3 He2)
      as (w4 & Hdelete & He4 & Hs4 & Hn4 & Hd4).
    exists w4. split; [exact Hdelete|]. split_and!.
    + exact He4.
    + rewrite Hn4. cbn. rewrite Hn2. simpl. lia.
    + destruct Hat2 as [H1 H2]. split.
      * rewrite Hs4. cbn.
        rewrite lookup_delete_ne by (subst s; lia). exact H1.
      * rewrite Hd4, delete_covers_other_file by congruence. exact H2.
    + rewrite Hd4, delete_covers_self. reflexivity.
    + intros q Hq1 Hq2. rewrite Hd4, delete_covers_other_file by congruence.
      cbn. rewrite Hd2 by assumption. reflexivity.
Qed.

(** A source file that does not exist: nothing is copied. *)
Lemma AppendToFileThenDelete_missing src file w :
  env w = reliable_env ->
  disk w !! src = None ->
  AppendToFileThenDelete src file kReadBufferSize w
  = Done tt (log_event (EvOpen src ModeRead None) w).
Proof.
  intros Henv Hc. unfold AppendToFileThenDelete.
  unfold io_bind at 1. unfold OpenFile. rewrite Henv.
  cbn [env_open_ok reliable_env andb].
  rewrite bool_decide_eq_false_2; [reflexivity|].
  rewrite Hc. intros [? ?]. discriminate.
Qed.

(** Appending at the end of the destination, whether or not the source
    exists. *)
Lemma AppendToFileThenDelete_text src d path c w :
  env w = reliable_env ->
  src <> path ->
  at_eof w d path c ->
  (d < next_stream w)%nat ->
  exists w',
    AppendToFileThenDelete src (Some d) kReadBufferSize w = Done tt w' /\
    env w' = reliable_env /\
    (next_stream w <= next_stream w')%nat /\
    at_eof w' d path (c +:+ file_text (disk w) src) /\
    disk w' !! src = None /\
    (forall q, q <> path -> q <> src -> disk w' !! q = disk w !! q).
Proof.
  intros Henv Hsrc Hat Hd. unfold file_text.
  destruct (disk w !! src) as [content|] eqn:Hc.
  - destruct (AppendToFileThenDelete_reliable_at src d path
                (String.length c) c content w Henv Hsrc Hat (le_n _) Hc Hd)
      as (w' & H & He & Hn & Hat' & Hgone & Hrest).
    exists w'. split_and!; auto.
    rewrite write_at_end in Hat'. unfold at_eof.
    rewrite str_length_app. exact Hat'.
  - exists (log_event (EvOpen src ModeRead None) w).
    split; [apply AppendToFileThenDelete_missing; assumption|].
    rewrite str_app_nil_r. split_and!; auto.
Qed.

(** ** More about paths *)

Lemma constants_path_not_closing_path fw :
  GetConstantsFilePath fw <> GetClosingFilePath fw.
Proof.
  unfold GetConstantsFilePath, GetClosingFilePath, AppendASCII. intros H.
  apply String.app_inj in H. apply String.app_inj in H. discriminate.
Qed.

Lemma prefix_longer p x :
  x <> EmptyString -> String.prefix (p +:+ x) p = false.
Proof.
  intros Hx. induction p as [|c p IH].
  - rewrite str_app_nil_l. destruct x; [congruence | reflexivity].
  - rewrite str_app_cons. simpl. destruct (ascii_dec c c); [exact IH|].
    reflexivity.
Qed.

Lemma final_not_inside_inprogress fw :
  inside_directory (GetInprogressDirectory fw) (final_log_path_ fw) = false.
Proof.
  unfold inside_directory, GetInprogressDirectory, AddExtension.
  rewrite str_app_assoc. apply prefix_longer. discriminate.
Qed.

Lemma inprogress_not_final fw :
  GetInprogressDirectory fw <> final_log_path_ fw.
Proof.
  unfold GetInprogressDirectory, AddExtension. apply str_app_longer.
  discriminate.
Qed.

Lemma DeleteFile_recursive_keeps path q w :
  q <> path -> inside_directory path q = false ->
  exists w',
    DeleteFile path true w = Done tt w' /\
    disk w' !! q = disk w !! q /\
    env w' = env w /\ streams w' = streams w /\
    next_stream w' = next_stream w.
Proof.
  intros Hq Hin. eexists. split; [reflexivity|].
  cbn [env streams next_stream]. split_and!; auto.
  apply (DeleteFile_keeps path true w _ q eq_refl).
  unfold delete_covers. rewrite Hin, bool_decide_eq_false_2 by exact Hq.
  reflexivity.
Qed.

(** ** Initialize and Stop when the operating system cooperates *)

Lemma prologue_bytes constants :
  kConstantsKey +:+ json_text constants +:+ kEventsOpen
  = spec_prologue constants.
Proof. vm_compute. reflexivity. Qed.

Lemma CreateInprogressDirectory_reliable fw k path w :
  env w = reliable_env ->
  final_log_file_ fw = Some k ->
  at_eof w k path EmptyString ->
  exists w',
    CreateInprogressDirectory fw w = Done tt w' /\
    env w' = reliable_env /\
    next_stream w' = next_stream w /\
    at_eof w' k path kPlaceholder /\
    (forall q, q <> path -> disk w' !! q = disk w !! q).
Proof.
  intros Henv Hfile Hat. unfold CreateInprogressDirectory. rewrite Hfile.
  unfold io_bind at 1. unfold CreateDirectory. rewrite Henv.
  cbn [env_mkdir_ok reliable_env negb].
  set (w1 := log_event _ w).
  assert (Hat1 : at_eof w1 k path EmptyString) by exact Hat.
  destruct (WriteToFile_at_eof k path EmptyString kPlaceholder EmptyString
              EmptyString w1 Henv Hat1)
    as (w2 & e2 & H2 & He2 & Hn2 & Hat2 & Hd2 & _).
  rewrite (io_bind_done _ _ _ _ _ H2). unfold fflush.
  eexists. split; [reflexivity|]. simpl.
  rewrite str_app_nil_l, !str_app_nil_r in Hat2. split_and!; auto.
Qed.

Lemma WriteConstantsToFile_reliable constants id path w :
  env w = reliable_env ->
  at_eof w id path EmptyString ->
  exists w',
    WriteConstantsToFile constants (Some id) w = Done tt w' /\
    env w' = reliable_env /\
    next_stream w' = next_stream w /\
    at_eof w' id path (spec_prologue constants) /\
    (forall q, q <> path -> disk w' !! q = disk w !! q) /\
    (forall id', id' <> id -> streams w' !! id' = streams w !! id').
Proof.
  intros Henv Hat. unfold WriteConstantsToFile, JSONWriter_Write.
  cbv iota beta.
  destruct (WriteToFile_at_eof id path EmptyString kConstantsKey
              (json_text constants) kEventsOpen w Henv Hat)
    as (w2 & e2 & H2 & He2 & Hn2 & Hat2 & Hd2 & Hs2 & _).
  rewrite (io_bind_done _ _ _ _ _ H2).
  exists w2. split; [reflexivity|].
  rewrite str_app_nil_l, prologue_bytes in Hat2. split_and!; auto.
Qed.

Lemma Initialize_reliable constants fw w :
  env w = reliable_env ->
  final_log_file_ fw = None ->
  exists w',
    Initialize constants fw w
    = Done (set_final_log_file (Some (next_stream w)) fw) w' /\
    env w' = reliable_env /\
    (next_stream w < next_stream w')%nat /\
    if IsBounded fw
    then at_eof w' (next_stream w) (final_log_path_ fw) kPlaceholder /\
         disk w' !! GetConstantsFilePath fw = Some (spec_prologue constants)
    else at_eof w' (next_stream w) (final_log_path_ fw)
           (spec_prologue constants).
Proof.
  intros Henv Hnull. unfold Initialize.
  destruct (OpenFileForWrite_reliable (final_log_path_ fw) w Henv)
    as (w1 & H1 & He1 & Hn1 & Hat1 & Hd1 & Hs1 & _).
  rewrite (io_bind_done _ _ _ _ _ H1). rewrite Hnull.
  unfold ScopedFILE_reset. unfold io_bind at 1. unfold io_ret at 1.
  set (k := next_stream w) in *.
  set (fw1 := set_final_log_file (Some k) fw).
  change (IsBounded fw1) with (IsBounded fw).
  destruct (IsBounded fw) eqn:Hb.
  - destruct (CreateInprogressDirectory_reliable fw1 k (final_log_path_ fw)
                w1 He1 eq_refl Hat1)
      as (w2 & H2 & He2 & Hn2 & Hat2 & Hd2).
    rewrite (io_bind_done _ _ _ _ _ H2).
    destruct (OpenFileForWrite_reliable (GetConstantsFilePath fw1) w2 He2)
      as (w3 & H3 & He3 & Hn3 & Hat3 & Hd3 & Hs3 & _).
    rewrite (io_bind_done _ _ _ _ _ H3).
    destruct (WriteConstantsToFile_reliable constants (next_stream w2)
                (GetConstantsFilePath fw1) w3 He3 Hat3)
      as (w4 & H4 & He4 & Hn4 & Hat4 & Hd4 & Hs4).
    rewrite (io_bind_done _ _ _ _ _ H4).
    destruct (fclose_frame (next_stream w2) w4)
      as (w5 & H5 & He5 & Hn5 & Hd5 & Hs5 & _).
    rewrite (io_bind_done _ _ _ _ _ H5).
    exists w5. split; [reflexivity|].
    assert (Hpc : GetConstantsFilePath fw1 <> final_log_path_ fw)
      by apply (inprogress_path_not_final fw).
    assert (Hk : next_stream w2 = S k) by congruence.
    split_and!.
    + congruence.
    + rewrite Hn5, Hn4, Hn3, Hk. lia.
    + destruct Hat2 as [A1 A2]. split.
      * rewrite Hs5, Hs4, Hs3 by lia. exact A1.
      * rewrite Hd5, Hd4, Hd3 by congruence. exact A2.
    + rewrite Hd5. apply Hat4.
  - destruct (WriteConstantsToFile_reliable constants k (final_log_path_ fw)
                w1 He1 Hat1)
      as (w2 & H2 & He2 & Hn2 & Hat2 & _).
    cbn [final_log_file_ fw1 set_final_log_file].
    rewrite (io_bind_done _ _ _ _ _ H2).
    exists w2. split; [reflexivity|]. split_and!.
    + exact He2.
    + rewrite Hn2, Hn1. lia.
    + exact Hat2.
Qed.



Lemma for_filenumbers_none fw :
  current_event_file_number_ fw = 0 ->
  0 <= total_num_event_files_ fw ->
  for_filenumbers (begin_filenumber fw) (end_filenumber fw) = [].
Proof.
  intros Hn HN. unfold begin_filenumber, end_filenumber. rewrite Hn.
  replace (0 <=? total_num_event_files_ fw) with true
    by (symmetry; apply Z.leb_le; assumption).
  reflexivity.
Qed.

(** ** What stitching leaves in the final file *)

Lemma event_path_not_final fw index :
  GetEventFilePath fw index <> final_log_path_ fw.
Proof. apply inprogress_path_not_final. Qed.

Lemma event_path_not_constants_path fw index :
  GetEventFilePath fw index <> GetConstantsFilePath fw.
Proof.
  unfold GetEventFilePath, GetConstantsFilePath, AppendASCII. intros H.
  apply String.app_inj in H. apply String.app_inj in H. discriminate.
Qed.

Lemma event_path_not_closing_path fw index :
  GetEventFilePath fw index <> GetClosingFilePath fw.
Proof.
  unfold GetEventFilePath, GetClosingFilePath, AppendASCII. intros H.
  apply String.app_inj in H. apply String.app_inj in H. discriminate.
Qed.

Lemma event_file_paths_elem fw filenumbers q :
  q ∈ event_file_paths fw filenumbers ->
  exists index, q = GetEventFilePath fw index.
Proof.
  unfold event_file_paths. intros H. apply list_elem_of_In, in_map_iff in H.
  destruct H as (filenumber & <- & _). eauto.
Qed.

Lemma concat_files_ext files1 files2 paths :
  (forall p, p ∈ paths -> files1 !! p = files2 !! p) ->
  concat_files files1 paths = concat_files files2 paths.
Proof.
  induction paths as [|p paths IH]; intros H; [reflexivity|].
  simpl. unfold file_text at 1 2. rewrite (H p) by (left; reflexivity).
  rewrite IH; [reflexivity|]. intros q Hq. apply H. right. exact Hq.
Qed.

(** The loop over the file numbers appends the event files, in the order
    of the list, to the end of the final file. *)
Lemma append_event_files_reliable fw d : forall filenumbers w c,
  env w = reliable_env ->
  final_log_file_ fw = Some d ->
  at_eof w d (final_log_path_ fw) c ->
  (d < next_stream w)%nat ->
  NoDup (event_file_paths fw filenumbers) ->
  exists w',
    append_event_files fw filenumbers w = Done tt w' /\
    env w' = reliable_env /\
    (next_stream w <= next_stream w')%nat /\
    at_eof w' d (final_log_path_ fw)
      (c +:+ concat_files (disk w) (event_file_paths fw filenumbers)) /\
    (forall q, q <> final_log_path_ fw ->
               q ∉ event_file_paths fw filenumbers ->
               disk w' !! q = disk w !! q).
Proof.
  induction filenumbers as [|filenumber rest IH];
    intros w c Henv Hfile Hat Hd Hnodup.
  - exists w. simpl. rewrite str_app_nil_r. split_and!; auto.
  - cbn [append_event_files event_file_paths map concat_files] in *.
    fold (event_file_paths fw rest) in *.
    apply NoDup_cons in Hnodup as [Hnotin Hnodup].
    set (src := GetEventFilePath fw (FileNumberToIndex fw filenumber)) in *.
    rewrite Hfile.
    destruct (AppendToFileThenDelete_text src d (final_log_path_ fw) c w
                Henv (event_path_not_final _ _) Hat Hd)
      as (w1 & H1 & He1 & Hn1 & Hat1 & Hgone1 & Hd1).
    rewrite (io_bind_done _ _ _ _ _ H1).
    destruct (IH w1 (c +:+ file_text (disk w) src) He1 Hfile Hat1
                ltac:(lia) Hnodup)
      as (w2 & H2 & He2 & Hn2 & Hat2 & Hd2).
    exists w2. split; [exact H2|]. split_and!.
    + exact He2.
    + lia.
    + rewrite <- str_app_assoc.
      rewrite (concat_files_ext (disk w) (disk w1)); [exact Hat2|].
      intros p Hp. symmetry. apply Hd1.
      * destruct (event_file_paths_elem _ _ _ Hp) as [index ->].
        apply event_path_not_final.
      * intros ->. contradiction.
    + intros q Hq Hnot. apply not_elem_of_cons in Hnot as [Hq1 Hq2].
      rewrite Hd2, Hd1 by assumption. reflexivity.
Qed.

Lemma rewind_position_le fw body :
  (rewind_position fw body <= String.length body)%nat.
Proof.
  unfold rewind_position. destruct (_ && _); lia.
Qed.

Lemma RewindIfWroteEventBytes_at_eof fw id path body w :
  at_eof w id path body ->
  exists w',
    RewindIfWroteEventBytes fw (Some id) w = Done tt w' /\
    env w' = env w /\ next_stream w' = next_stream w /\
    disk w' = disk w /\
    stream_at w' id path (rewind_position fw body) body.
Proof.
  intros [Hs Hc]. unfold RewindIfWroteEventBytes, rewind_position.
  destruct (wrote_event_bytes_ fw); cbn [andb].
  - unfold fseek_end. rewrite Hs. cbn [stream_path]. rewrite Hc.
    destruct (2 <=? String.length body)%nat eqn:E.
    + apply Nat.leb_le in E.
      replace (_ <? 0) with false by (symmetry; apply Z.ltb_ge; lia).
      eexists. split; [reflexivity|]. simpl. split_and!; auto.
      split; simpl; [|exact Hc]. rewrite lookup_insert_eq.
      do 2 f_equal. lia.
    + apply Nat.leb_gt in E.
      replace (_ <? 0) with true by (symmetry; apply Z.ltb_lt; lia).
      eexists. split; [reflexivity|]. simpl. split_and!; auto.
      split; assumption.
  - exists w. split_and!; auto. split; assumption.
Qed.

(** Stitching on a cooperating operating system: the final file holds the
    constants file, then the event files of the window in the order of
    their file numbers, then, two bytes back when event bytes were
    written, the closing file. *)
Lemma StitchFinalLogFile_reliable fw w :
  env w = reliable_env ->
  handles_ok fw w ->
  NoDup (event_file_paths fw
           (for_filenumbers (begin_filenumber fw) (end_filenumber fw))) ->
  exists w' fw',
    StitchFinalLogFile fw w = Done fw' w' /\
    disk w' !! final_log_path_ fw
    = Some (stitched_text fw (disk w)
              (file_text (disk w) (GetClosingFilePath fw))).
Proof.
  intros Henv [Hfin Hcur] Hnodup. unfold StitchFinalLogFile.
  destruct (ScopedFILE_reset_extends (current_event_file_ fw) w)
    as (w1 & H1 & Hx1 & Hd1).
  rewrite (io_bind_done _ _ _ _ _ H1).
  assert (He1 : env w1 = reliable_env)
    by (rewrite (extends_env _ _ _ Hx1); exact Henv).
  set (fw1 := set_current_event_file None fw).
  destruct (OpenFileForWrite_reliable (final_log_path_ fw1) w1 He1)
    as (w2 & H2 & He2 & Hn2 & Hat2 & Hd2 & Hs2 & _).
  rewrite (io_bind_done _ _ _ _ _ H2).
  set (m := next_stream w1) in *.
  assert (Hle1 : (next_stream w <= m)%nat) by (apply Hx1).
  destruct (ScopedFILE_reset_extends (final_log_file_ fw1) w2)
    as (w3 & H3 & Hx3 & Hd3).
  rewrite (io_bind_done _ _ _ _ _ H3).
  assert (He3 : env w3 = reliable_env)
    by (rewrite (extends_env _ _ _ Hx3); exact He2).
  assert (Hat3 : at_eof w3 m (final_log_path_ fw) EmptyString).
  { destruct Hat2 as [A1 A2]. split; [|rewrite Hd3; exact A2].
    change (final_log_file_ fw1) with (final_log_file_ fw) in H3.
    destruct (final_log_file_ fw) as [old|] eqn:Hold; simpl in H3;
      injection H3 as <-; simpl; [|exact A1].
    specialize (Hfin old eq_refl).
    rewrite lookup_delete_ne by lia. exact A1. }
  assert (Hn3 : (m < next_stream w3)%nat).
  { destruct Hx3 as (_ & _ & Hle & _). lia. }
  set (fw2 := set_final_log_file (Some m) fw1).
  assert (Hpc_final : GetConstantsFilePath fw <> final_log_path_ fw)
    by apply inprogress_path_not_final.
  assert (Hpe_final : GetClosingFilePath fw <> final_log_path_ fw)
    by apply inprogress_path_not_final.
  pose proof (constants_path_not_closing_path fw) as Hpc_pe.
  assert (Hdisk3 : forall q, q <> final_log_path_ fw ->
                             disk w3 !! q = disk w !! q).
  { intros q Hq. rewrite Hd3, Hd2, Hd1 by exact Hq. reflexivity. }
  destruct (AppendToFileThenDelete_text (GetConstantsFilePath fw2) m
              (final_log_path_ fw) EmptyString w3 He3 Hpc_final Hat3 Hn3)
    as (w4 & H4 & He4 & Hn4 & Hat4 & Hgone4 & Hd4).
  cbn [final_log_file_ fw2 set_final_log_file].
  rewrite (io_bind_done _ _ _ _ _ H4).
  rewrite str_app_nil_l in Hat4.
  change (GetConstantsFilePath fw2) with (GetConstantsFilePath fw) in *.
  set (window := for_filenumbers (begin_filenumber fw2) (end_filenumber fw2)).
  change (event_file_paths fw _) with (event_file_paths fw2 window)
    in Hnodup |- *.
  destruct (append_event_files_reliable fw2 m window w4
              (file_text (disk w3) (GetConstantsFilePath fw))
              He4 eq_refl Hat4 ltac:(lia) Hnodup)
    as (w5 & H5 & He5 & Hn5 & Hat5 & Hd5).
  rewrite (io_bind_done _ _ _ _ _ H5).
  change (final_log_path_ fw2) with (final_log_path_ fw) in *.
  set (body := file_text (disk w3) (GetConstantsFilePath fw)
               +:+ concat_files (disk w4) (event_file_paths fw2 window)) in *.
  destruct (RewindIfWroteEventBytes_at_eof fw2 m (final_log_path_ fw) body
              w5 Hat5)
    as (w6 & H6 & He6 & Hn6 & Hd6 & Hat6).
  rewrite (io_bind_done _ _ _ _ _ H6).
  assert (Hclosing : file_text (disk w6) (GetClosingFilePath fw)
                     = file_text (disk w) (GetClosingFilePath fw)).
  { unfold file_text. rewrite Hd6, Hd5, Hd4, Hdisk3; auto.
    intros Hin. destruct (event_file_paths_elem _ _ _ Hin) as [index E].
    symmetry in E. revert E. apply (event_path_not_closing_path fw2). }
  assert (Hbody : body
                  = file_text (disk w) (GetConstantsFilePath fw)
                    +:+ concat_files (disk w) (event_file_paths fw2 window)).
  { subst body. unfold file_text at 1. rewrite Hdisk3 by exact Hpc_final.
    fold (file_text (disk w) (GetConstantsFilePath fw)). f_equal.
    apply concat_files_ext. intros p Hp.
    destruct (event_file_paths_elem _ _ _ Hp) as [index ->].
    rewrite Hd4, Hdisk3; [reflexivity|..].
    - apply (event_path_not_final fw2).
    - apply (event_path_not_final fw2).
    - apply (event_path_not_constants_path fw2). }
  assert (Hfinal : exists w7,
            AppendToFileThenDelete (GetClosingFilePath fw2) (Some m)
              kReadBufferSize w6 = Done tt w7 /\
            disk w7 !! final_log_path_ fw
            = Some (write_at body (rewind_position fw2 body)
                      (file_text (disk w6) (GetClosingFilePath fw)))).
  { change (GetClosingFilePath fw2) with (GetClosingFilePath fw).
    unfold file_text at 1.
    destruct (disk w6 !! GetClosingFilePath fw) as [closing|] eqn:Hc.
    - destruct (AppendToFileThenDelete_reliable_at (GetClosingFilePath fw) m
                  (final_log_path_ fw) (rewind_position fw2 body) body
                  closing w6)
        as (w7 & H7 & _ & _ & Hat7 & _); auto.
      + rewrite He6. exact He5.
      + apply rewind_position_le.
      + lia.
      + exists w7. split; [exact H7 | apply Hat7].
    - rewrite AppendToFileThenDelete_missing;
        [|rewrite He6; exact He5 | exact Hc].
      eexists. split; [reflexivity|]. simpl.
      rewrite write_at_nothing by apply rewind_position_le. apply Hat6. }
  destruct Hfinal as (w7 & H7 & Hat7).
  rewrite (io_bind_done _ _ _ _ _ H7).
  change (GetInprogressDirectory fw2) with (GetInprogressDirectory fw).
  destruct (DeleteFile_recursive_keeps (GetInprogressDirectory fw)
              (final_log_path_ fw) w7)
    as (w8 & H8 & Hd8 & _).
  { intros E. apply (inprogress_not_final fw). symmetry. exact E. }
  { apply final_not_inside_inprogress. }
  rewrite (io_bind_done _ _ _ _ _ H8).
  exists w8, fw2. split; [reflexivity|].
  rewrite Hd8, Hat7, Hclosing. unfold stitched_text.
  change (event_file_paths fw _) with (event_file_paths fw2 window).
  rewrite <- Hbody. reflexivity.
Qed.

Lemma stitched_text_ext fw files1 files2 closing :
  (forall q, q <> GetClosingFilePath fw -> files1 !! q = files2 !! q) ->
  stitched_text fw files1 closing = stitched_text fw files2 closing.
Proof.
  intros H. unfold stitched_text.
  assert (Hbody : forall paths,
            (forall p, p ∈ paths -> p <> GetClosingFilePath fw) ->
            concat_files files1 paths = concat_files files2 paths).
  { intros paths Hp. apply concat_files_ext. intros p Hin.
    apply H, Hp, Hin. }
  unfold file_text at 1 2.
  rewrite (H (GetConstantsFilePath fw))
    by apply constants_path_not_closing_path.
  rewrite Hbody; [reflexivity|].
  intros p Hin. destruct (event_file_paths_elem _ _ _ Hin) as [index ->].
  apply event_path_not_closing_path.
Qed.

Lemma Stop_reliable_bounded polled_data fw w :
  env w = reliable_env ->
  IsBounded fw = true ->
  exists w' evs,
    Stop polled_data fw w = Done (stopped fw) w' /\
    trace w' = trace w ++ evs /\
    head evs
    = Some (EvOpen (GetClosingFilePath fw) ModeWrite (Some (next_stream w))) /\
    written_to (next_stream w) evs = spec_epilogue polled_data /\
    (wrote_event_bytes_ fw = false -> seeks evs = []) /\
    (current_event_file_number_ fw = 0 ->
     0 <= total_num_event_files_ fw ->
     wrote_event_bytes_ fw = false ->
     handles_ok fw w ->
     forall prologue,
       disk w !! GetConstantsFilePath fw = Some prologue ->
       disk w' !! final_log_path_ fw
       = Some (prologue +:+ spec_epilogue polled_data)) /\
    (handles_ok fw w ->
     NoDup (event_file_paths fw
              (for_filenumbers (begin_filenumber fw) (end_filenumber fw))) ->
     disk w' !! final_log_path_ fw
     = Some (stitched_text fw (disk w) (spec_epilogue polled_data))).
Proof.
  intros Henv Hb. unfold Stop, stopped. rewrite Hb.
  destruct (OpenFileForWrite_reliable (GetClosingFilePath fw) w Henv)
    as (w1 & H1 & He1 & Hn1 & Hat1 & Hd1 & Hs1 & Ht1).
  set (n := next_stream w) in *.
  rewrite io_bind_assoc, (io_bind_done _ _ _ _ _ H1).
  destruct (WritePolledDataToFile_reliable polled_data n
              (GetClosingFilePath fw) 0 EmptyString w1 He1 Hat1)
    as (w2 & e2 & p2 & c2 & H2 & Hw2 & Hb2 & He2 & Hat2 & Hc2).
  destruct (Hc2 eq_refl) as [-> ->]. rewrite str_app_nil_l in Hat2.
  rewrite io_bind_assoc, (io_bind_done _ _ _ _ _ H2).
  destruct (fclose_frame n w2) as (w3 & H3 & He3 & Hn3 & Hd3 & Hs3 & Ht3).
  rewrite (io_bind_done _ _ _ _ _ H3).
  destruct (StitchFinalLogFile_general fw w3)
    as (file & w4 & e4 & H4 & Hx4 & Hr4 & Hwo4 & Hs4 & Hnot4).
  rewrite (io_bind_done _ _ _ _ _ H4).
  destruct (ScopedFILE_reset_extends
              (final_log_file_
                 (set_final_log_file file (set_current_event_file None fw)))
              w4) as (w5 & H5 & Hx5 & Hd5).
  rewrite (io_bind_done _ _ _ _ _ H5).
  destruct Hw2 as (Ht2 & Ha2 & _ & Hn2 & Hs2 & _ & Hdisk2).
  destruct (writes_only_summary (Some n) e2 Ha2) as (_ & _ & Ws & Wto & _).
  destruct (close_events_summary
              (final_log_file_
                 (set_final_log_file file (set_current_event_file None fw))))
    as (_ & _ & Fs & _ & Fto).
  assert (Hn4 : (n < next_stream w3)%nat) by lia.
  assert (Hstitched : handles_ok fw w ->
            NoDup (event_file_paths fw
                     (for_filenumbers (begin_filenumber fw)
                        (end_filenumber fw))) ->
            disk w5 !! final_log_path_ fw
            = Some (stitched_text fw (disk w) (spec_epilogue polled_data))).
  { intros [Hfin Hcur] Hnodup.
    destruct (StitchFinalLogFile_reliable fw w3)
      as (w4' & fw4' & H4' & Hfinal).
    - congruence.
    - split; intros id Hid; [specialize (Hfin id Hid)
                            | specialize (Hcur id Hid)]; fold n in Hfin, Hcur;
        lia.
    - exact Hnodup.
    - rewrite H4 in H4'. injection H4' as _ <-. rewrite Hd5, Hfinal.
      f_equal.
      replace (file_text (disk w3) (GetClosingFilePath fw))
        with (spec_epilogue polled_data)
        by (unfold file_text; rewrite Hd3; destruct Hat2 as [_ ->];
            reflexivity).
      apply stitched_text_ext. intros q Hq. rewrite Hd3, Hdisk2.
      + apply Hd1. exact Hq.
      + intros id st [= <-] Hst. destruct Hat1 as [A1 _].
        rewrite A1 in Hst. injection Hst as <-. simpl. congruence. }
  exists w5,
    ([EvOpen (GetClosingFilePath fw) ModeWrite (Some n)] ++ e2
     ++ [EvClose n] ++ e4
     ++ close_events
          (final_log_file_
             (set_final_log_file file (set_current_event_file None fw)))).
  split; [reflexivity|]. split_and!.
  - rewrite (extends_trace _ _ _ Hx5), (extends_trace _ _ _ Hx4).
    rewrite Ht3, Ht2, Ht1, <- !app_assoc. reflexivity.
  - reflexivity.
  - rewrite !written_to_app, (Wto n eq_refl), Hb2.
    rewrite (Hnot4 n Hn4), Fto. simpl.
    rewrite !str_app_nil_r. reflexivity.
  - intros Hflag. rewrite !seeks_app, Ws, Hs4, Fs.
    unfold rewind_seeks. rewrite Hflag. reflexivity.
  - intros Hnum HN Hflag Hok prologue Hpc. rewrite Hstitched.
    + unfold stitched_text, rewind_position.
      rewrite for_filenumbers_none by assumption. rewrite Hflag.
      cbn [event_file_paths map concat_files andb]. unfold file_text.
      rewrite Hpc, str_app_nil_r, write_at_end. reflexivity.
    + exact Hok.
    + rewrite for_filenumbers_none by assumption. apply NoDup_nil_2.
  - exact Hstitched.
Qed.

(** ** File numbers and the stitching window *)

Lemma FileNumberToIndex_eq fw file_number :
  1 <= file_number <= SIZE_MAX ->
  FileNumberToIndex fw file_number
  = (file_number - 1) mod total_num_event_files_ fw.
Proof.
  intros H. unfold FileNumberToIndex.
  rewrite size_sub_small by (unfold is_size_t; lia). reflexivity.
Qed.

(** C3.  For a file number [fn >= 1] and [N >= 1] chunk files,
    [FileNumberToIndex] is [(fn - 1) mod N], an index below [N], and
    [fn = ((fn - 1) / N) * N + (index + 1)].  The file number of a new
    writer is 0; [IncrementCurrentEventFile] adds exactly one to it as long
    as it is below [SIZE_MAX]; [Flush] never lowers it and raises it by at
    most one per queued event; [Initialize] and [Stop] leave it alone. *)
Theorem C3_file_number_to_index (fw : FileWriter) (file_number : Z) :
  1 <= file_number <= SIZE_MAX ->
  1 <= total_num_event_files_ fw ->
  let N := total_num_event_files_ fw in
  let index := FileNumberToIndex fw file_number in
  index = (file_number - 1) mod N /\
  0 <= index < N /\
  file_number = (file_number - 1) / N * N + (index + 1) /\
  (forall log_path max_size files indeterminate,
     current_event_file_number_
       (FileWriter_new log_path max_size files indeterminate) = 0) /\
  (forall w,
     0 <= current_event_file_number_ fw < SIZE_MAX ->
     exists file w',
       IncrementCurrentEventFile fw w = Done (rotated file fw) w' /\
       current_event_file_number_ (rotated file fw)
       = current_event_file_number_ fw + 1) /\
  (forall write_queue w,
     0 <= current_event_file_number_ fw ->
     current_event_file_number_ fw + Z.of_nat (length (queue_ write_queue))
     <= SIZE_MAX ->
     exists fw' w',
       Flush write_queue fw w
       = Done (snd (SwapQueue [] write_queue), fw') w' /\
       current_event_file_number_ fw <= current_event_file_number_ fw'
       <= current_event_file_number_ fw
          + Z.of_nat (length (queue_ write_queue))) /\
  (forall constants w,
     exists fw' w',
       Initialize constants fw w = Done fw' w' /\
       current_event_file_number_ fw' = current_event_file_number_ fw) /\
  (forall polled_data w,
     exists fw' w',
       Stop polled_data fw w = Done fw' w' /\
       current_event_file_number_ fw' = current_event_file_number_ fw).
Proof.
  intros Hfn HN N index.
  assert (Hindex : index = (file_number - 1) mod N)
    by (apply FileNumberToIndex_eq; assumption).
  split_and!.
  - exact Hindex.
  - rewrite Hindex. apply Z.mod_pos_bound. unfold N. lia.
  - rewrite Hindex. apply Z.mod_pos_bound. unfold N. lia.
  - rewrite Hindex. subst N.
    pose proof (Z.div_mod (file_number - 1) (total_num_event_files_ fw)
                  ltac:(lia)) as Hdm.
    rewrite Z.mul_comm. lia.
  - reflexivity.
  - intros w Hrange.
    destruct (IncrementCurrentEventFile_general fw w) as (file & w' & H & _).
    exists file, w'. split; [exact H|]. simpl.
    apply size_add_small. unfold is_size_t. lia.
  - intros write_queue w H0 Hfit.
    destruct (Flush_general write_queue fw w) as (fw' & w' & evs & H & Hl & _).
    destruct (Flush_loop_general (queue_ write_queue) fw w)
      as (fw2 & w2 & evs2 & Hl2 & _ & _ & _ & _ & _ & _ & _ & Hnum & _).
    rewrite Hl in Hl2. injection Hl2 as <- <-.
    assert (Hrange : current_event_file_number_ fw
                     <= current_event_file_number_ fw'
                     <= current_event_file_number_ fw
                        + Z.of_nat (length (queue_ write_queue))).
    { apply Hnum; [|exact Hfit]. unfold is_size_t.
      pose proof (Nat2Z.is_nonneg (length (queue_ write_queue))). lia. }
    exists fw', w'. split; [exact H | exact Hrange].
  - intros constants w.
    destruct (Initialize_general constants fw w) as (file & w' & evs & H & _).
    eexists _, w'. split; [exact H | reflexivity].
  - intros polled_data w.
    destruct (Stop_general polled_data fw w) as (w' & evs & H & _).
    eexists _, w'. split; [exact H|].
    unfold stopped. destruct (IsBounded fw); reflexivity.
Qed.

Lemma event_file_paths_window fw :
  0 <= current_event_file_number_ fw < SIZE_MAX ->
  1 <= total_num_event_files_ fw <= SIZE_MAX ->
  let fn := current_event_file_number_ fw in
  let N := total_num_event_files_ fw in
  let end_ := fn + 1 in
  let begin_ := if fn <=? N then 1 else end_ - N in
  event_file_paths fw
    (for_filenumbers (begin_filenumber fw) (end_filenumber fw))
  = map (fun fn' =>
           AppendASCII (GetInprogressDirectory fw)
             ("event_file_" +:+ SizeTToString ((fn' - 1) mod N)
              +:+ ".json"))
      (seqZ begin_ (end_ - begin_)).
Proof.
  intros Hfn HN fn N end_ begin_.
  assert (Hend : end_filenumber fw = end_).
  { unfold end_filenumber. apply size_add_small. unfold is_size_t. lia. }
  assert (Hbegin : begin_filenumber fw = begin_).
  { unfold begin_filenumber. rewrite Hend. subst begin_. fold fn N.
    destruct (fn <=? N) eqn:E; [reflexivity|].
    apply Z.leb_gt in E. apply size_sub_small.
    unfold is_size_t. subst end_. lia. }
  rewrite Hbegin, Hend. unfold event_file_paths, for_filenumbers.
  apply map_ext_in. intros fn' Hin.
  apply list_elem_of_In, elem_of_seqZ in Hin.
  unfold GetEventFilePath. rewrite FileNumberToIndex_eq; [reflexivity|].
  subst begin_ end_. destruct (fn <=? N) eqn:E; [lia|].
  apply Z.leb_gt in E. lia.
Qed.

Lemma stitch_sources_window fw :
  0 <= current_event_file_number_ fw < SIZE_MAX ->
  1 <= total_num_event_files_ fw <= SIZE_MAX ->
  let fn := current_event_file_number_ fw in
  let N := total_num_event_files_ fw in
  let end_ := fn + 1 in
  let begin_ := if fn <=? N then 1 else end_ - N in
  stitch_sources fw
  = GetConstantsFilePath fw
    :: map (fun fn' =>
              AppendASCII (GetInprogressDirectory fw)
                ("event_file_" +:+ SizeTToString ((fn' - 1) mod N)
                 +:+ ".json"))
         (seqZ begin_ (end_ - begin_))
    ++ [GetClosingFilePath fw].
Proof.
  intros Hfn HN fn N end_ begin_. unfold stitch_sources.
  rewrite event_file_paths_window by assumption. reflexivity.
Qed.

(** ** Event file paths are distinct across a stitching window *)

Lemma str_app_inv_tail a b c : a +:+ c = b +:+ c -> a = b.
Proof.
  revert b. induction a as [|x a IH]; intros [|y b] H.
  - reflexivity.
  - exfalso. apply (f_equal String.length) in H.
    rewrite str_app_nil_l, str_app_cons in H. simpl in H.
    rewrite str_length_app in H. lia.
  - exfalso. apply (f_equal String.length) in H.
    rewrite str_app_nil_l, str_app_cons in H. simpl in H.
    rewrite str_length_app in H. lia.
  - rewrite !str_app_cons in H. injection H as -> H.
    f_equal. apply IH. exact H.
Qed.

Lemma GetEventFilePath_inj fw i j :
  0 <= i -> 0 <= j ->
  GetEventFilePath fw i = GetEventFilePath fw j -> i = j.
Proof.
  intros Hi Hj H. unfold GetEventFilePath, AppendASCII in H.
  do 3 apply String.app_inj in H.
  apply str_app_inv_tail in H. unfold SizeTToString in H.
  apply pretty_N_inj in H. lia.
Qed.

Lemma window_indices_distinct N a b :
  1 <= N -> 1 <= a -> 1 <= b -> Z.abs (a - b) < N ->
  (a - 1) mod N = (b - 1) mod N -> a = b.
Proof.
  intros HN Ha Hb Habs Hmod.
  pose proof (Z.div_mod (a - 1) N ltac:(lia)) as Da.
  pose proof (Z.div_mod (b - 1) N ltac:(lia)) as Db.
  rewrite Hmod in Da.
  assert (Hdiff : a - b = N * ((a - 1) / N - (b - 1) / N)) by lia.
  assert (Hq : (a - 1) / N - (b - 1) / N = 0) by nia.
  lia.
Qed.

Lemma event_file_paths_NoDup fw :
  0 <= current_event_file_number_ fw < SIZE_MAX ->
  1 <= total_num_event_files_ fw <= SIZE_MAX ->
  NoDup (event_file_paths fw
           (for_filenumbers (begin_filenumber fw) (end_filenumber fw))).
Proof.
  intros Hfn HN.
  set (fn := current_event_file_number_ fw) in *.
  set (N := total_num_event_files_ fw) in *.
  assert (Hend : end_filenumber fw = fn + 1).
  { unfold end_filenumber. apply size_add_small. unfold is_size_t. lia. }
  assert (Hbegin : begin_filenumber fw = if fn <=? N then 1 else fn + 1 - N).
  { unfold begin_filenumber. rewrite Hend. fold fn N.
    destruct (fn <=? N) eqn:E; [reflexivity|].
    apply Z.leb_gt in E. apply size_sub_small. unfold is_size_t. lia. }
  unfold event_file_paths, for_filenumbers. rewrite Hbegin, Hend.
  apply NoDup_fmap_2_strong; [|apply NoDup_seqZ].
  intros a b Ha Hb Heq.
  apply elem_of_seqZ in Ha. apply elem_of_seqZ in Hb.
  assert (Hrange : forall x,
            (if fn <=? N then 1 else fn + 1 - N) <= x
            < (if fn <=? N then 1 else fn + 1 - N)
              + (fn + 1 - (if fn <=? N then 1 else fn + 1 - N)) ->
            1 <= x <= SIZE_MAX /\ fn + 1 - N <= x < fn + 1).
  { intros x Hx. destruct (fn <=? N) eqn:E.
    - apply Z.leb_le in E. lia.
    - apply Z.leb_gt in E. lia. }
  destruct (Hrange a Ha) as [Ha1 Ha2]. destruct (Hrange b Hb) as [Hb1 Hb2].
  apply GetEventFilePath_inj in Heq.
  - rewrite !FileNumberToIndex_eq in Heq by assumption.
    apply (window_indices_distinct N); fold N in Heq; lia.
  - rewrite FileNumberToIndex_eq by assumption.
    apply Z.mod_pos_bound. lia.
  - rewrite FileNumberToIndex_eq by assumption.
    apply Z.mod_pos_bound. lia.
Qed.

(** ** The text of the stitched file *)

Lemma write_at_tail c pos data :
  (pos <= String.length c)%nat ->
  (String.length c <= pos + String.length data)%nat ->
  write_at c pos data = str_take pos c +:+ data.
Proof.
  intros H1 H2. rewrite write_at_inside by exact H1.
  rewrite str_drop_all by exact H2. rewrite str_app_nil_r. reflexivity.
Qed.

Lemma spec_epilogue_length polled_data :
  (2 <= String.length (spec_epilogue polled_data))%nat.
Proof.
  unfold spec_epilogue. rewrite !str_length_app. simpl. lia.
Qed.

(** The epilogue covers the two bytes [RewindIfWroteEventBytes] steps
    back over. *)
Lemma stitched_text_epilogue fw files polled_data :
  let body :=
    file_text files (GetConstantsFilePath fw)
    +:+ concat_files files
          (event_file_paths fw
             (for_filenumbers (begin_filenumber fw) (end_filenumber fw))) in
  stitched_text fw files (spec_epilogue polled_data)
  = (if wrote_event_bytes_ fw && (2 <=? String.length body)%nat
     then str_take (String.length body - 2) body
     else body) +:+ spec_epilogue polled_data.
Proof.
  intros body. unfold stitched_text. fold body. unfold rewind_position.
  pose proof (spec_epilogue_length polled_data) as Hlen.
  destruct (wrote_event_bytes_ fw && (2 <=? String.length body)%nat).
  - apply write_at_tail; lia.
  - apply write_at_end.
Qed.

(** C2.  A bounded writer with current file number [fn] and [N] chunk
    files that is stopped opens for copying, after the constants file and
    before the closing file, exactly the event files of the file numbers
    [begin, end) in increasing order, where [end = fn + 1] and [begin] is 1
    if [fn <= N] and [end - N] otherwise; file number [fn'] is read from
    [event_file_<(fn' - 1) mod N>.json] in the in-progress directory.  On
    an operating system that carries out every request the final log file
    then holds the constants file, the event files of the window in this
    order, without their last two bytes (the separator after the last
    event) when event bytes were written, and the epilogue. *)
Theorem C2_stitch_window (polled_data : option Value) (fw : FileWriter)
    (w : World) :
  IsBounded fw = true ->
  0 <= current_event_file_number_ fw < SIZE_MAX ->
  1 <= total_num_event_files_ fw <= SIZE_MAX ->
  let fn := current_event_file_number_ fw in
  let N := total_num_event_files_ fw in
  let end_ := fn + 1 in
  let begin_ := if fn <=? N then 1 else end_ - N in
  let window := seqZ begin_ (end_ - begin_) in
  let chunks :=
    map (fun fn' =>
           AppendASCII (GetInprogressDirectory fw)
             ("event_file_" +:+ SizeTToString ((fn' - 1) mod N)
              +:+ ".json")) window in
  exists w' evs,
    Stop polled_data fw w = Done (stopped fw) w' /\
    trace w' = trace w ++ evs /\
    opened_for_read evs
    = GetConstantsFilePath fw :: chunks ++ [GetClosingFilePath fw] /\
    (forall fn', fn' ∈ window <-> begin_ <= fn' < end_) /\
    (forall i j a b,
       window !! i = Some a -> window !! j = Some b ->
       (i < j)%nat -> a < b) /\
    (env w = reliable_env ->
     handles_ok fw w ->
     let body :=
       file_text (disk w) (GetConstantsFilePath fw)
       +:+ concat_files (disk w) chunks in
     disk w' !! final_log_path_ fw
     = Some ((if wrote_event_bytes_ fw && (2 <=? String.length body)%nat
              then str_take (String.length body - 2) body
              else body) +:+ spec_epilogue polled_data)).
Proof.
  intros Hb Hfn HN fn N end_ begin_ window chunks.
  destruct (Stop_general polled_data fw w) as (w' & evs & H & Hx & _ & Hr & _).
  exists w', evs. split_and!.
  - exact H.
  - apply Hx.
  - rewrite Hr, Hb. apply stitch_sources_window; assumption.
  - intros fn'. unfold window. rewrite elem_of_seqZ. lia.
  - intros i j a b Ha Hb' Hij.
    apply lookup_seqZ in Ha. apply lookup_seqZ in Hb'. lia.
  - intros Henv Hok body.
    destruct (Stop_reliable_bounded polled_data fw w Henv Hb)
      as (w'' & evs' & H' & _ & _ & _ & _ & _ & Hfinal).
    rewrite H in H'. injection H' as <-.
    rewrite Hfinal by (auto using event_file_paths_NoDup).
    rewrite stitched_text_epilogue.
    rewrite event_file_paths_window by assumption. reflexivity.
Qed.
(** ** Rotation *)

Lemma needs_new_event_file_iff fw :
  needs_new_event_file fw = true <-> rotation_due fw.
Proof.
  unfold needs_new_event_file, rotation_due.
  rewrite orb_true_iff, Z.eqb_eq, Z.geb_le. lia.
Qed.

Lemma needs_new_event_file_not fw :
  needs_new_event_file fw = false <-> ~ rotation_due fw.
Proof.
  rewrite <- needs_new_event_file_iff.
  destruct (needs_new_event_file fw); split; congruence.
Qed.

(** One round of the loop of [Flush] in bounded mode. *)
Lemma Flush_event_round event fw w :
  IsBounded fw = true ->
  exists fw' w',
    Flush_event event fw w = Done fw' w' /\
    rotates_then_writes event fw w fw' w' /\
    IsBounded fw' = true /\
    (env w = reliable_env ->
     handles_ok fw w ->
     (needs_new_event_file fw = false ->
      exists id path content,
        current_event_file_ fw = Some id /\ at_eof w id path content) ->
     0 <= bytes_before fw ->
     bytes_before fw + string_size event + 2 <= SIZE_MAX ->
     written_in_full event fw w fw' w' /\
     env w' = reliable_env /\
     handles_ok fw' w' /\
     (exists id path content,
        current_event_file_ fw' = Some id /\ at_eof w' id path content)).
Proof.
  intros Hb.
  destruct (Flush_event_general event fw w)
    as (fw1 & w1 & rotation & n & w' & writes
        & Hcase & Hx1 & Hwrite & Hw & Hn & Hle & H).
  rewrite Hb in Hcase. cbn [andb] in Hcase.
  destruct (accounted_fields n fw1) as (Ap & Af & Ac & AN & An & Am & Aw & As).
  assert (Hb1 : IsBounded fw1 = true).
  { destruct (needs_new_event_file fw).
    - destruct Hcase as (file & _ & -> & _). exact Hb.
    - destruct Hcase as (-> & _). exact Hb. }
  assert (Hout : output_file fw1 = current_event_file_ fw1).
  { unfold output_file. rewrite Hb1. reflexivity. }
  rewrite Hout in Hw, Hwrite. rewrite Hb1 in As.
  destruct (wrote_appended_from _ _ _ _ Hw) as (_ & Wo & _).
  assert (Htrace : trace w' = trace w ++ rotation ++ writes).
  { destruct Hw as (Ht & _). rewrite Ht, (extends_trace _ _ _ Hx1).
    rewrite app_assoc. reflexivity. }
  assert (Hquiet : bytes_written rotation = EmptyString).
  { destruct (needs_new_event_file fw).
    - destruct Hcase as (file & _ & _ & ->).
      destruct (current_event_file_ fw); reflexivity.
    - destruct Hcase as (_ & _ & ->). reflexivity. }
  assert (Hthrough : forallb (is_write_to
                                (current_event_file_ (accounted n fw1)))
                       writes = true).
  { rewrite Ac. apply Hw. }
  exists (accounted n fw1), w'. split; [exact H|]. split_and!.
  - exists rotation, writes. split_and!.
    + exact Htrace.
    + exact Hquiet.
    + exact Wo.
    + exact Hthrough.
    + intros Hcond. apply needs_new_event_file_iff in Hcond.
      rewrite Hcond in Hcase. destruct Hcase as (file & _ & -> & ->).
      rewrite An. split; [|reflexivity].
      destruct (current_event_file_ fw); reflexivity.
    + intros Hcond. apply needs_new_event_file_not in Hcond.
      rewrite Hcond in Hcase.
      destruct Hcase as (-> & _ & ->). rewrite An, Ac. auto.
  - unfold IsBounded, IsUnbounded in *. rewrite Am. exact Hb1.
  - intros Henv Hok Husable Hsize Hfit. unfold bytes_before in Hsize, Hfit.
    pose proof (string_size_nonneg event) as Hev.
    assert (Hchunk : exists id path content,
              current_event_file_ fw1 = Some id /\
              at_eof w1 id path content /\
              (needs_new_event_file fw = true -> content = EmptyString) /\
              (needs_new_event_file fw = false -> at_eof w id path content) /\
              current_event_file_size_ fw1 = bytes_before fw /\
              (id < next_stream w1)%nat /\
              final_log_file_ fw1 = final_log_file_ fw /\
              (next_stream w <= next_stream w1)%nat).
    { unfold bytes_before.
      destruct (needs_new_event_file fw) eqn:Hneed.
      - destruct Hcase as (file & Hinc & -> & _).
        destruct (IncrementCurrentEventFile_general fw w)
          as (file' & w1' & Hinc' & Hxi & Hrel).
        rewrite Hinc in Hinc'. injection Hinc' as Hfw <-.
        destruct (Hrel Henv Hok) as [-> Hat].
        subst file.
        assert (Hnext : (next_stream w < next_stream w1)%nat).
        { unfold IncrementCurrentEventFile, OpenFileForWrite in Hinc.
          apply io_bind_inv in Hinc as (file3 & u1 & Hopen & Hinc).
          apply io_bind_inv in Hinc as ([] & u2 & Hclose & Hinc).
          injection Hinc as Hfile <-.
          subst file3.
          apply ScopedFILE_reset_effect in Hclose as (Hn2 & _).
          apply OpenFile_effect in Hopen as (_ & _ & Hn3 & _). lia. }
        exists (next_stream w), (next_event_file_path fw), EmptyString.
        split_and!; auto; [discriminate | lia].
      - destruct Hcase as (-> & -> & _).
        destruct (Husable eq_refl) as (id & path & content & Hid & Hat).
        exists id, path, content. split_and!; auto; [discriminate|].
        destruct Hok as [_ Hcur]. apply Hcur. exact Hid. }
    destruct Hchunk
      as (id & path & content & Hid & Hat & Hnew & Hold & Hsz & Hlt & Hfin
          & Hgrow).
    assert (He1 : env w1 = reliable_env)
      by (rewrite (extends_env _ _ _ Hx1); exact Henv).
    rewrite Hid in Hwrite, Hw.
    destruct (WriteToFile_at_eof id path content event kEventSeparator
                EmptyString w1 He1 Hat)
      as (w2 & evs2 & Hwrite2 & He2 & Hn2 & Hat2 & _ & _ & Hw2 & Hb2).
    rewrite Hwrite in Hwrite2. injection Hwrite2 as Hn2' <-.
    assert (Hevs : evs2 = writes).
    { destruct Hw as (Ht & _). destruct Hw2 as (Ht2 & _).
      rewrite Ht in Ht2. apply app_inv_head in Ht2. congruence. }
    subst evs2. rewrite str_app_nil_r in Hb2, Hat2.
    assert (Hcount : n = string_size event + 2).
    { rewrite Hn2', str_app_nil_r, string_size_app.
      change (string_size kEventSeparator) with 2.
      apply to_size_t_small. unfold is_size_t.
      destruct (needs_new_event_file fw); lia. }
    assert (Hsize' : current_event_file_size_ (accounted n fw1)
                     = bytes_before fw + string_size event + 2).
    { rewrite As, Hsz, Hcount. unfold bytes_before. rewrite size_add_small.
      - lia.
      - unfold is_size_t. destruct (needs_new_event_file fw); lia. }
    split_and!.
    + exists rotation, writes. split_and!; try assumption.
      * intros Hbig. apply needs_new_event_file_iff.
        apply needs_new_event_file_iff. right.
        rewrite Hsize', Am.
        assert (Hmax : max_event_file_size_ fw1 = max_event_file_size_ fw).
        { destruct (needs_new_event_file fw).
          - destruct Hcase as (file & _ & -> & _). reflexivity.
          - destruct Hcase as (-> & _). reflexivity. }
        rewrite Hmax. unfold bytes_before.
        destruct (needs_new_event_file fw); lia.
      * intros _. exists id, path, content. rewrite Ac.
        split; [exact Hid|]. split; [exact Hat2|]. split.
        -- intros Hdue. apply Hnew.
           apply needs_new_event_file_iff. exact Hdue.
        -- intros Hdue. apply Hold.
           apply needs_new_event_file_not. exact Hdue.
    + exact He2.
    + split.
      * intros id' Hid'. rewrite Af, Hfin in Hid'.
        destruct Hok as [Hfinal _]. specialize (Hfinal id' Hid').
        rewrite Hn2. lia.
      * intros id' Hid'. rewrite Ac, Hid in Hid'. injection Hid' as <-.
        rewrite Hn2. exact Hlt.
    + exists id, path, (content +:+ event +:+ kEventSeparator).
      rewrite Ac. split; [exact Hid | exact Hat2].
Qed.

(** The rounds of the loop, one after the other. *)
Lemma Flush_loop_rounds : forall events fw w,
  IsBounded fw = true ->
  exists fw' w',
    Flush_loop events fw w = Done fw' w' /\
    drains rotates_then_writes events fw w fw' w' /\
    (env w = reliable_env ->
     handles_ok fw w ->
     (needs_new_event_file fw = false ->
      exists id path content,
        current_event_file_ fw = Some id /\ at_eof w id path content) ->
     0 <= bytes_before fw ->
     bytes_before fw + queue_bytes events + 2 * Z.of_nat (length events)
     <= SIZE_MAX ->
     drains written_in_full events fw w fw' w').
Proof.
  induction events as [|event rest IH]; intros fw w Hb.
  - exists fw, w. split; [reflexivity|]. split; [constructor|].
    intros _ _ _ _ _. constructor.
  - destruct (Flush_event_round event fw w Hb)
      as (fw1 & w1 & Hround & Hrotates & Hb1 & Hfull).
    destruct (IH fw1 w1 Hb1) as (fw' & w' & Hloop & Hrest & Hrest_full).
    exists fw', w'. cbn [Flush_loop].
    rewrite (io_bind_done _ _ _ _ _ Hround).
    split; [exact Hloop|]. split.
    + econstructor; eassumption.
    + intros Henv Hok Husable Hsize Hfit.
      cbn [queue_bytes length] in Hfit.
      pose proof (string_size_nonneg event) as Hevent.
      pose proof (queue_bytes_nonneg rest) as Hbytes.
      destruct (Hfull Henv Hok Husable Hsize ltac:(lia))
        as (Hwritten & He1 & Hok1 & Husable1).
      assert (Hcount : current_event_file_size_ fw1
                       = bytes_before fw + string_size event + 2).
      { destruct Hwritten as (rotation & writes & _ & _ & _ & _ & Hc & _).
        exact Hc. }
      econstructor; [exact Hround | exact Hwritten |].
      apply Hrest_full.
      * exact He1.
      * exact Hok1.
      * intros _. exact Husable1.
      * unfold bytes_before. destruct (needs_new_event_file fw1); lia.
      * unfold bytes_before. destruct (needs_new_event_file fw1); lia.
Qed.

(** C4.  [Flush] in bounded mode takes the records of the queue in
    order, one round each, and leaves the queue empty.  Whatever the
    operating system does, every round rotates first, if at all, and then
    writes: the rotation takes place exactly when the file number is 0 or
    the current event file holds at least [max_event_file_size_] bytes;
    then the next event file is opened and the file number goes up by one,
    otherwise nothing is opened and file number and stream stay; no byte is
    written during the rotation and all bytes of the round go through the
    one current event file.  The limit is soft: on an operating system
    that carries out every request, every record is written in full with
    its separator to the current event file, however large it is; the byte
    count of the file grows by the size of the record plus two; and after a
    record larger than [max_event_file_size_] the rotation is due, so that
    it takes place before the next record and not before. *)
Theorem C4_rotation_before_write (write_queue : WriteQueue)
    (fw : FileWriter) (w : World) :
  IsBounded fw = true ->
  exists fw' w',
    Flush write_queue fw w = Done (snd (SwapQueue [] write_queue), fw') w' /\
    queue_ (snd (SwapQueue [] write_queue)) = [] /\
    drains rotates_then_writes (queue_ write_queue) fw w fw' w' /\
    (env w = reliable_env ->
     handles_ok fw w ->
     (needs_new_event_file fw = false ->
      exists id path content,
        current_event_file_ fw = Some id /\ at_eof w id path content) ->
     0 <= bytes_before fw ->
     bytes_before fw + queue_bytes (queue_ write_queue)
     + 2 * Z.of_nat (length (queue_ write_queue)) <= SIZE_MAX ->
     drains written_in_full (queue_ write_queue) fw w fw' w').
Proof.
  intros Hb.
  destruct (Flush_loop_rounds (queue_ write_queue) fw w Hb)
    as (fw' & w' & Hloop & Hrounds & Hfull).
  exists fw', w'. split_and!.
  - unfold Flush. cbn [SwapQueue fst snd].
    rewrite (io_bind_done _ _ _ _ _ Hloop). reflexivity.
  - reflexivity.
  - exact Hrounds.
  - exact Hfull.
Qed.

(** ** The epilogue *)


(** ** Runs without event bytes *)



(** ** Null handles *)

Lemma wrote_through_null w w' evs : wrote None w w' evs -> evs = [].
Proof.
  intros (_ & Ha & _). destruct evs as [|e evs]; [reflexivity|].
  simpl in Ha. destruct e; discriminate.
Qed.

(** An event that finds its output file null changes nothing but the
    bookkeeping, which records zero bytes. *)
Lemma Flush_event_null event fw w :
  IsBounded fw && needs_new_event_file fw = false ->
  output_file fw = None ->
  Flush_event event fw w = Done (accounted 0 fw) w.
Proof.
  intros Hrot Hnull.
  destruct (Flush_event_general event fw w)
    as (fw1 & w1 & rotation & n & w' & writes
        & Hcase & _ & Hwrite & _ & _ & _ & H).
  rewrite Hrot in Hcase. destruct Hcase as (-> & -> & _).
  rewrite Hnull in Hwrite. cbn [WriteToFile] in Hwrite.
  injection Hwrite as <- <-. exact H.
Qed.

Lemma Flush_loop_null_final : forall local_file_queue fw w,
  IsBounded fw = false ->
  final_log_file_ fw = None ->
  exists fw',
    Flush_loop local_file_queue fw w = Done fw' w /\
    wrote_event_bytes_ fw' = wrote_event_bytes_ fw.
Proof.
  induction local_file_queue as [|front rest IH]; intros fw w Hb Hnull.
  - exists fw. split; reflexivity.
  - cbn [Flush_loop].
    assert (Hev : Flush_event front fw w = Done (accounted 0 fw) w).
    { apply Flush_event_null.
      - rewrite Hb. reflexivity.
      - unfold output_file. rewrite Hb. exact Hnull. }
    rewrite (io_bind_done _ _ _ _ _ Hev).
    destruct (accounted_fields 0 fw)
      as (_ & Af & _ & _ & _ & Am & Aw & _).
    destruct (IH (accounted 0 fw) w) as (fw' & H & Hflag).
    + unfold IsBounded, IsUnbounded in *. rewrite Am. exact Hb.
    + rewrite Af. exact Hnull.
    + exists fw'. split; [exact H|]. rewrite Hflag, Aw.
      apply orb_false_r.
Qed.

Lemma WritePolledDataToFile_null polled_data w :
  WritePolledDataToFile polled_data None w = Done tt w.
Proof.
  unfold WritePolledDataToFile. destruct polled_data as [value|];
    [|reflexivity].
  unfold io_bind. simpl.
  destruct (negb (string_empty (json_text value))); reflexivity.
Qed.

Lemma Stop_null_final polled_data fw w :
  IsBounded fw = false ->
  final_log_file_ fw = None ->
  Stop polled_data fw w = Done (stopped fw) w.
Proof.
  intros Hb Hnull. unfold Stop, stopped. rewrite Hb, Hnull.
  rewrite io_bind_assoc.
  rewrite (io_bind_done _ _ _ _ _
             (eq_refl : RewindIfWroteEventBytes fw None w = Done tt w)).
  rewrite (io_bind_done _ _ _ _ _ (WritePolledDataToFile_null polled_data w)).
  rewrite (io_bind_done _ _ _ _ _ (eq_refl : io_ret fw w = Done fw w)).
  rewrite Hnull. reflexivity.
Qed.

(** C9.  [WriteToFile] on a null handle writes nothing and returns 0,
    whatever the data.  No task of the file task runner and no stitching
    stops short because of a null handle or for any other reason: each
    returns.  Events that reach a null handle are lost and the run goes
    on: in unbounded mode with a null final file [Flush] drains the queue
    and [Stop] returns, both without touching the file system; in bounded
    mode an event that finds a null chunk file and no rotation due leaves
    the file system as it was. *)
Theorem C9_null_handle :
  (forall data1 data2 data3 w,
     WriteToFile None data1 data2 data3 w = Done 0 w) /\
  (forall task write_queue fw w,
     exists write_queue' fw' w',
       run_task task write_queue fw w = Done (write_queue', fw') w') /\
  (forall fw w, exists fw' w', StitchFinalLogFile fw w = Done fw' w') /\
  (forall write_queue fw w,
     IsBounded fw = false ->
     final_log_file_ fw = None ->
     exists fw',
       Flush write_queue fw w
       = Done (snd (SwapQueue [] write_queue), fw') w /\
       queue_ (snd (SwapQueue [] write_queue)) = [] /\
       wrote_event_bytes_ fw' = wrote_event_bytes_ fw) /\
  (forall polled_data fw w,
     IsBounded fw = false ->
     final_log_file_ fw = None ->
     Stop polled_data fw w = Done (stopped fw) w) /\
  (forall event fw w,
     IsBounded fw = true ->
     needs_new_event_file fw = false ->
     current_event_file_ fw = None ->
     exists fw',
       Flush_event event fw w = Done fw' w /\
       wrote_event_bytes_ fw' = wrote_event_bytes_ fw).
Proof.
  split_and!.
  - reflexivity.
  - intros task write_queue fw w.
    destruct (run_task_total task write_queue fw w)
      as (wq' & fw' & w' & evs & H & _).
    eauto.
  - intros fw w.
    destruct (StitchFinalLogFile_general fw w) as (file & w' & evs & H & _).
    eauto.
  - intros write_queue fw w Hb Hnull.
    destruct (Flush_loop_null_final (queue_ write_queue) fw w Hb Hnull)
      as (fw' & H & Hflag).
    exists fw'. unfold Flush. simpl.
    rewrite (io_bind_done _ _ _ _ _ H). auto.
  - intros polled_data fw w Hb Hnull. apply Stop_null_final; assumption.
  - intros event fw w Hb Hneed Hnull.
    exists (accounted 0 fw). split.
    + apply Flush_event_null.
      * rewrite Hb, Hneed. reflexivity.
      * unfold output_file. rewrite Hb. exact Hnull.
    + destruct (accounted_fields 0 fw) as (_ & _ & _ & _ & _ & _ & Aw & _).
      rewrite Aw. apply orb_false_r.
Qed.

(** * The properties at concrete inputs *)

(** Cap 10, records of four bytes.  When ["dddd"] is pushed the queue
    holds ["bbbb"] and ["cccc"]; twelve bytes exceed the cap, so the oldest
    record goes. *)
Lemma C1_queue_bound_witness :
  is_size_t 10 /\
  fits_in_memory (WriteQueue_new 10)
    (example_calls ++ [CallAddEntry "dddd"]) /\
  memory_ (snd (AddEntryToQueue "dddd"
                  (run_calls (WriteQueue_new 10) example_calls))) <= 10 /\
  queue_ (snd (AddEntryToQueue "dddd"
                 (run_calls (WriteQueue_new 10) example_calls)))
  = ["cccc"; "dddd"].
Proof.
  assert (H1 : is_size_t 10).
  { unfold is_size_t. rewrite SIZE_MAX_eq. lia. }
  assert (H2 : fits_in_memory (WriteQueue_new 10)
                 (example_calls ++ [CallAddEntry "dddd"])).
  { simpl. unfold string_size. simpl. rewrite SIZE_MAX_eq.
    repeat split; lia. }
  split; [exact H1|]. split; [exact H2|]. split.
  - exact (proj1 (C1_queue_bound 10 example_calls "dddd" H1 H2)).
  - reflexivity.
Defined.

(** The counter after the example calls is the eight bytes queued. *)
Lemma C10_counter_is_queue_bytes_witness :
  fits_in_memory (WriteQueue_new 10) example_calls /\
  memory_ (run_calls (WriteQueue_new 10) example_calls)
  = queue_bytes (queue_ (run_calls (WriteQueue_new 10) example_calls)) /\
  memory_ (run_calls (WriteQueue_new 10) example_calls) = 8.
Proof.
  assert (H : fits_in_memory (WriteQueue_new 10) example_calls).
  { simpl. unfold string_size. simpl. rewrite SIZE_MAX_eq.
    repeat split; lia. }
  split; [exact H|]. split.
  - exact (proj1 (C10_counter_is_queue_bytes 10 example_calls H)).
  - reflexivity.
Defined.

(** A queue that holds one empty record has a zero counter and is not
    empty: the counter is not zero "exactly when the queue is empty". *)
Lemma C10_counterexample :
  fits_in_memory (WriteQueue_new 10) [CallAddEntry EmptyString] /\
  queue_ queue_with_empty_record = [EmptyString] /\
  memory_ queue_with_empty_record = 0 /\
  ~ (memory_ queue_with_empty_record = 0 <->
     queue_ queue_with_empty_record = []).
Proof.
  split.
  - simpl. unfold string_size. simpl. rewrite SIZE_MAX_eq. split; [lia|exact I].
  - split; [reflexivity|]. split; [reflexivity|].
    intros [H _]. specialize (H eq_refl). discriminate H.
Qed.

(** A budget of 1000 bytes over 10 files: chunks of 100 bytes, a queue cap
    of 2000 bytes. *)
Lemma C5_construction_limits_witness :
  is_size_t 1000 /\ 1 <= 10 /\
  max_event_file_size_
    (file_writer_ (CreateBoundedInternal "log.json" 1000 10 None
                     (example_value "{}") 77)) = 100 /\
  memory_max_
    (write_queue_ (CreateBoundedInternal "log.json" 1000 10 None
                     (example_value "{}") 77)) = 2000.
Proof.
  assert (H1 : is_size_t 1000).
  { unfold is_size_t. rewrite SIZE_MAX_eq. lia. }
  assert (H2 : 1 <= 10) by lia.
  assert (Hne : 1000 <> kNoLimit).
  { unfold kNoLimit. rewrite SIZE_MAX_eq. lia. }
  assert (Hfit : 2 * 1000 <= SIZE_MAX).
  { rewrite SIZE_MAX_eq. lia. }
  destruct (C5_construction_limits "log.json" 1000 10 None
              (example_value "{}") 77 H1 H2) as [Hbounded _].
  destruct (Hbounded Hne) as (Hchunk & _ & Hcap).
  split; [exact H1|]. split; [exact H2|]. split.
  - rewrite Hchunk. reflexivity.
  - rewrite (Hcap Hfit). reflexivity.
Defined.

(** In unbounded mode the chunk limit is the sentinel but the queue's cap
    is one less: they are not "both the unbounded sentinel". *)
Lemma C5_counterexample :
  max_event_file_size_
    (file_writer_ (CreateUnbounded "log.json" None (example_value "{}") 77))
  = kNoLimit /\
  memory_max_
    (write_queue_ (CreateUnbounded "log.json" None (example_value "{}") 77))
  = 18446744073709551614 /\
  ~ (max_event_file_size_
       (file_writer_ (CreateBoundedInternal "log.json" kNoLimit 10 None
                        (example_value "{}") 77)) = kNoLimit /\
     memory_max_
       (write_queue_ (CreateBoundedInternal "log.json" kNoLimit 10 None
                        (example_value "{}") 77)) = kNoLimit).
Proof.
  split; [reflexivity|]. split; [reflexivity|].
  intros [_ H]. vm_compute in H. discriminate H.
Qed.

(** The fifteenth record posts the flush. *)
Lemma C6_flush_posted_at_threshold_witness :
  json_ok (example_value "{}") = true /\
  fst (AddEntryToQueue (json_text (example_value "{}"))
         (write_queue_ example_observer)) = 15 /\
  file_task_runner_ (OnAddEntry (example_value "{}") example_observer)
  = file_task_runner_ example_observer ++ [TaskFlush].
Proof.
  assert (H1 : json_ok (example_value "{}") = true) by reflexivity.
  assert (H2 : fst (AddEntryToQueue (json_text (example_value "{}"))
                      (write_queue_ example_observer)) = 15)
    by (vm_compute; reflexivity).
  split; [exact H1|]. split; [exact H2|].
  destruct (C6_flush_posted_at_threshold (example_value "{}") example_observer)
    as [Hok _].
  destruct (Hok H1) as (_ & Hpost & _). exact (Hpost H2).
Defined.

(** Three chunk files and file number 7: whatever the operating system
    does, the files opened for copying are the constants file, the chunks
    of the file numbers 5, 6 and 7, that is the indices 1, 2 and 0, and the
    closing file.  And a run that flushed seven records [e1] ... [e7], one
    per chunk, leaves the last three of them in the final log file. *)
Lemma C2_stitch_window_witness :
  (IsBounded example_wrapped_writer = true /\
   0 <= current_event_file_number_ example_wrapped_writer < SIZE_MAX /\
   1 <= total_num_event_files_ example_wrapped_writer <= SIZE_MAX /\
   exists w' evs,
     Stop None example_wrapped_writer (empty_world hostile_env)
     = Done (stopped example_wrapped_writer) w' /\
     opened_for_read evs
     = ["log.json.inprogress/constants.json";
        "log.json.inprogress/event_file_1.json";
        "log.json.inprogress/event_file_2.json";
        "log.json.inprogress/event_file_0.json";
        "log.json.inprogress/end_netlog.json"]) /\
  (let fw := fst example_ring_state in
   let w := snd example_ring_state in
   IsBounded fw = true /\
   0 <= current_event_file_number_ fw < SIZE_MAX /\
   1 <= total_num_event_files_ fw <= SIZE_MAX /\
   env w = reliable_env /\
   handles_ok fw w /\
   current_event_file_number_ fw = 7 /\
   wrote_event_bytes_ fw = true /\
   exists w',
     Stop None fw w = Done (stopped fw) w' /\
     disk w' !! "log.json"
     = Some (spec_prologue (example_value "{}")
             +:+ "e5," +:+ newline +:+ "e6," +:+ newline +:+ "e7"
             +:+ spec_epilogue None)).
Proof.
  split.
  - assert (H1 : IsBounded example_wrapped_writer = true) by reflexivity.
    assert (H2 : 0 <= current_event_file_number_ example_wrapped_writer
                 < SIZE_MAX).
    { simpl. rewrite SIZE_MAX_eq. lia. }
    assert (H3 : 1 <= total_num_event_files_ example_wrapped_writer
                 <= SIZE_MAX).
    { simpl. rewrite SIZE_MAX_eq. lia. }
    split; [exact H1|]. split; [exact H2|]. split; [exact H3|].
    destruct (C2_stitch_window None example_wrapped_writer
                (empty_world hostile_env) H1 H2 H3)
      as (w' & evs & Hstop & _ & Hread & _).
    exists w', evs. split; [exact Hstop|]. rewrite Hread.
    vm_compute. reflexivity.
  - intros fw w.
    assert (H1 : IsBounded fw = true) by (vm_compute; reflexivity).
    assert (H2 : 0 <= current_event_file_number_ fw < SIZE_MAX).
    { replace (current_event_file_number_ fw) with 7
        by (vm_compute; reflexivity).
      rewrite SIZE_MAX_eq. lia. }
    assert (H3 : 1 <= total_num_event_files_ fw <= SIZE_MAX).
    { replace (total_num_event_files_ fw) with 3
        by (vm_compute; reflexivity).
      rewrite SIZE_MAX_eq. lia. }
    assert (H4 : env w = reliable_env) by (vm_compute; reflexivity).
    assert (H5 : handles_ok fw w).
    { split; intros id Hid; vm_compute in Hid; injection Hid as <-;
        vm_compute; lia. }
    split; [exact H1|]. split; [exact H2|]. split; [exact H3|].
    split; [exact H4|]. split; [exact H5|].
    split; [vm_compute; reflexivity|].
    split; [vm_compute; reflexivity|].
    destruct (C2_stitch_window None fw w H1 H2 H3)
      as (w' & evs & Hstop & _ & _ & _ & _ & Hcontent).
    exists w'. split; [exact Hstop|].
    change (final_log_path_ fw) with "log.json" in Hcontent.
    rewrite (Hcontent H4 H5). vm_compute. reflexivity.
Defined.

(** File number 7 of three chunk files has index 0, and
    [7 = (6 / 3) * 3 + (0 + 1)]. *)
Lemma C3_file_number_to_index_witness :
  1 <= 7 <= SIZE_MAX /\
  1 <= total_num_event_files_ example_wrapped_writer /\
  FileNumberToIndex example_wrapped_writer 7 = (7 - 1) mod 3 /\
  FileNumberToIndex example_wrapped_writer 7 = 0.
Proof.
  assert (H1 : 1 <= 7 <= SIZE_MAX) by (rewrite SIZE_MAX_eq; lia).
  assert (H2 : 1 <= total_num_event_files_ example_wrapped_writer)
    by (simpl; lia).
  split; [exact H1|]. split; [exact H2|]. split.
  - exact (proj1 (C3_file_number_to_index example_wrapped_writer 7 H1 H2)).
  - reflexivity.
Defined.

(** A queue of two records on a fresh writer with a four-byte limit: the
    first record rotates to [event_file_0.json] and, larger than the
    limit, is still written whole; the second rotates again. *)
Lemma C4_rotation_before_write_witness :
  IsBounded example_bounded_writer = true /\
  exists fw' w',
    Flush (mkWriteQueue ["{a:1111}"; "b"] 9 100) example_bounded_writer
      (empty_world reliable_env)
    = Done (mkWriteQueue [] 0 100, fw') w' /\
    drains rotates_then_writes ["{a:1111}"; "b"] example_bounded_writer
      (empty_world reliable_env) fw' w' /\
    drains written_in_full ["{a:1111}"; "b"] example_bounded_writer
      (empty_world reliable_env) fw' w' /\
    current_event_file_number_ fw' = 2.
Proof.
  assert (H1 : IsBounded example_bounded_writer = true) by reflexivity.
  split; [exact H1|].
  destruct (C4_rotation_before_write (mkWriteQueue ["{a:1111}"; "b"] 9 100)
              example_bounded_writer (empty_world reliable_env) H1)
    as (fw' & w' & Hrun & _ & Hrounds & Hfull).
  exists fw', w'. split; [exact Hrun|]. split; [exact Hrounds|].
  split.
  - apply Hfull.
    + reflexivity.
    + split; intros id Hid; discriminate Hid.
    + intros Hneed. discriminate Hneed.
    + vm_compute. discriminate.
    + rewrite SIZE_MAX_eq. vm_compute. discriminate.
  - vm_compute in Hrun. injection Hrun as Hfw _. rewrite <- Hfw. reflexivity.
Defined.


(** Two events flushed through a null final file: the queue is drained
    and the file system is untouched. *)
Lemma C9_null_handle_witness :
  IsBounded example_unbounded_writer = false /\
  final_log_file_ example_unbounded_writer = None /\
  exists fw',
    Flush (run_calls (WriteQueue_new 100)
             [CallAddEntry "{a:1}"; CallAddEntry "{a:2}"])
      example_unbounded_writer (empty_world hostile_env)
    = Done (WriteQueue_new 100, fw') (empty_world hostile_env) /\
    wrote_event_bytes_ fw' = false.
Proof.
  assert (H1 : IsBounded example_unbounded_writer = false) by reflexivity.
  assert (H2 : final_log_file_ example_unbounded_writer = None)
    by reflexivity.
  split; [exact H1|]. split; [exact H2|].
  destruct C9_null_handle as (_ & _ & _ & Hflush & _).
  destruct (Hflush (run_calls (WriteQueue_new 100)
                      [CallAddEntry "{a:1}"; CallAddEntry "{a:2}"])
              example_unbounded_writer (empty_world hostile_env) H1 H2)
    as (fw' & Hrun & _ & Hflag).
  exists fw'. split; [exact Hrun | exact Hflag].
Defined.

(** ** Writing at any position when the operating system cooperates *)

Lemma write_piece_position data id path acc acc' w w' pos content :
  env w = reliable_env ->
  stream_at w id path pos content ->
  (pos <= String.length content)%nat ->
  (if string_empty data then io_ret acc
   else let* n := fwrite data (Some id) in io_ret (size_add acc n)) w
  = Done acc' w' ->
  stream_at w' id path (pos + String.length data)
    (write_at content pos data).
Proof.
  intros Henv Hat Hpos. destruct (string_empty data) eqn:He.
  - apply string_empty_true in He. subst data. intros [= _ <-].
    rewrite write_at_nothing by exact Hpos. rewrite Nat.add_0_r. exact Hat.
  - destruct (fwrite_reliable data id path pos content w Henv Hat)
      as (w1 & Hf & _ & Hat1).
    rewrite (io_bind_done _ _ _ _ _ Hf). intros [= _ <-]. exact Hat1.
Qed.

(** On a cooperating operating system [WriteToFile] puts the three pieces,
    one after the other, where the stream stands. *)
Lemma WriteToFile_reliable_pos id path pos content data1 data2 data3 w :
  env w = reliable_env ->
  stream_at w id path pos content ->
  (pos <= String.length content)%nat ->
  exists w' evs,
    WriteToFile (Some id) data1 data2 data3 w
    = Done (to_size_t (string_size (data1 +:+ data2 +:+ data3))) w' /\
    wrote (Some id) w w' evs /\
    bytes_written evs = data1 +:+ data2 +:+ data3 /\
    env w' = reliable_env /\
    stream_at w' id path
      (pos + String.length (data1 +:+ data2 +:+ data3))
      (write_at content pos (data1 +:+ data2 +:+ data3)).
Proof.
  intros Henv Hat Hpos.
  destruct (WriteToFile_reliable id path pos content data1 data2 data3 w
              Henv Hat)
    as (w' & evs & p' & c' & H & Hw & Hb & He & _).
  exists w', evs. split_and!; auto.
  revert H. unfold WriteToFile. intros H.
  apply io_bind_inv in H as (a1 & w1 & H1 & H).
  apply io_bind_inv in H as (a2 & w2 & H2 & H).
  apply io_bind_inv in H as (a3 & w3 & H3 & H).
  injection H as _ <-.
  assert (He1 : env w1 = reliable_env).
  { destruct (string_empty data1); [injection H1 as _ <-; exact Henv|].
    apply io_bind_inv in H1 as (n & wa & Hf & [= _ <-]).
    destruct (fwrite_wrote data1 id w) as (wb & wr & Hf' & Hwr & _).
    rewrite Hf in Hf'. injection Hf' as _ <-.
    destruct Hwr as (_ & _ & -> & _). exact Henv. }
  assert (He2 : env w2 = reliable_env).
  { destruct (string_empty data2); [injection H2 as _ <-; exact He1|].
    apply io_bind_inv in H2 as (n & wa & Hf & [= _ <-]).
    destruct (fwrite_wrote data2 id w1) as (wb & wr & Hf' & Hwr & _).
    rewrite Hf in Hf'. injection Hf' as _ <-.
    destruct Hwr as (_ & _ & -> & _). exact He1. }
  pose proof (write_piece_position _ _ _ _ _ _ _ _ _ Henv Hat Hpos H1) as Hat1.
  pose proof (write_piece_position _ _ _ _ _ _ _ _ _ He1 Hat1
                (write_at_length _ _ _ Hpos) H2) as Hat2.
  rewrite write_at_twice in Hat2 by exact Hpos.
  assert (Hpos2 :
    (pos + String.length data1 + String.length data2
     <= String.length (write_at content pos (data1 +:+ data2)))%nat).
  { rewrite <- Nat.add_assoc, <- str_length_app.
    apply write_at_length. exact Hpos. }
  rewrite <- Nat.add_assoc, <- str_length_app in Hat2, Hpos2.
  pose proof (write_piece_position _ _ _ _ _ _ _ _ _ He2 Hat2 Hpos2 H3)
    as Hat3.
  rewrite write_at_twice in Hat3 by exact Hpos.
  rewrite <- Nat.add_assoc, <- str_length_app in Hat3.
  rewrite str_app_assoc in Hat3. exact Hat3.
Qed.

(** [WritePolledDataToFile] puts the epilogue where the stream stands. *)
Lemma WritePolledDataToFile_reliable_pos polled_data id path pos content w :
  env w = reliable_env ->
  stream_at w id path pos content ->
  (pos <= String.length content)%nat ->
  exists w' evs,
    WritePolledDataToFile polled_data (Some id) w = Done tt w' /\
    wrote (Some id) w w' evs /\
    bytes_written evs = spec_epilogue polled_data /\
    env w' = reliable_env /\
    stream_at w' id path
      (pos + String.length (spec_epilogue polled_data))
      (write_at content pos (spec_epilogue polled_data)).
Proof.
  intros Henv Hat Hpos. unfold WritePolledDataToFile.
  destruct (WriteToFile_reliable_pos id path pos content kEventsClose
              EmptyString EmptyString w Henv Hat Hpos)
    as (w1 & e1 & H1 & Hw1 & Hb1 & He1 & Hat1).
  rewrite (io_bind_done _ _ _ _ _ H1).
  rewrite !str_app_nil_r in Hat1, Hb1.
  set (middle := match polled_data with
                 | Some value =>
                     if negb (string_empty (json_text value))
                     then kPolledDataKey +:+ json_text value +:+ newline
                     else EmptyString
                 | None => EmptyString
                 end).
  assert (Hpos1 : (pos + String.length kEventsClose
                   <= String.length (write_at content pos kEventsClose))%nat)
    by (apply write_at_length; exact Hpos).
  assert (Hmid : exists w2 e2,
    match polled_data with
    | Some value =>
        let '(_, polled_data_json) := JSONWriter_Write value in
        if negb (string_empty polled_data_json)
        then WriteToFile (Some id) kPolledDataKey polled_data_json newline;;
             io_ret tt
        else io_ret tt
    | None => io_ret tt
    end w1 = Done tt w2 /\ wrote (Some id) w1 w2 e2 /\
    bytes_written e2 = middle /\ env w2 = reliable_env /\
    stream_at w2 id path
      (pos + String.length (kEventsClose +:+ middle))
      (write_at content pos (kEventsClose +:+ middle))).
  { subst middle. destruct polled_data as [value|]; simpl.
    - destruct (negb (string_empty (json_text value))).
      + destruct (WriteToFile_reliable_pos id path _ _ kPolledDataKey
                    (json_text value) newline w1 He1 Hat1 Hpos1)
          as (w2 & e2 & H2 & Hw2 & Hb2 & He2 & Hat2).
        exists w2, e2. rewrite (io_bind_done _ _ _ _ _ H2).
        rewrite write_at_twice in Hat2 by exact Hpos.
        rewrite <- Nat.add_assoc, <- str_length_app in Hat2.
        split_and!; auto.
      + exists w1, []. rewrite str_app_nil_r.
        split_and!; auto. apply wrote_nothing.
    - exists w1, []. rewrite str_app_nil_r.
      split_and!; auto. apply wrote_nothing. }
  destruct Hmid as (w2 & e2 & H2 & Hw2 & Hb2 & He2 & Hat2).
  rewrite (io_bind_done _ _ _ _ _ H2).
  assert (Hpos2 : (pos + String.length (kEventsClose +:+ middle)
                   <= String.length
                        (write_at content pos (kEventsClose +:+ middle)))%nat)
    by (apply write_at_length; exact Hpos).
  destruct (WriteToFile_reliable_pos id path _ _ kLogClose EmptyString
              EmptyString w2 He2 Hat2 Hpos2)
    as (w3 & e3 & H3 & Hw3 & Hb3 & He3 & Hat3).
  rewrite (io_bind_done _ _ _ _ _ H3).
  rewrite !str_app_nil_r in Hat3, Hb3.
  rewrite write_at_twice in Hat3 by exact Hpos.
  rewrite <- Nat.add_assoc, <- str_length_app in Hat3.
  rewrite str_app_assoc in Hat3.
  assert (Hepi : kEventsClose +:+ middle +:+ kLogClose
                 = spec_epilogue polled_data) by apply epilogue_bytes.
  rewrite Hepi in Hat3.
  exists w3, (e1 ++ e2 ++ e3). split; [reflexivity|].
  split_and!; auto.
  - eapply wrote_trans; [exact Hw1|]. eapply wrote_trans; eassumption.
  - rewrite !bytes_written_app, Hb1, Hb2, Hb3. exact Hepi.
Qed.

(** ** A whole run in unbounded mode *)

Lemma events_text_app a b :
  events_text (a ++ b) = events_text a +:+ events_text b.
Proof.
  induction a as [|e a IH]; simpl; [reflexivity|].
  rewrite IH, !str_app_assoc. reflexivity.
Qed.

(** Without its last separator, the text of the events is the events
    joined by the separator. *)
Lemma events_text_joined events :
  events <> [] ->
  events_text events = String.concat kEventSeparator events +:+ kEventSeparator.
Proof.
  induction events as [|e events IH]; intros Hne; [congruence|].
  destruct events as [|e' events].
  - simpl. rewrite str_app_nil_r. reflexivity.
  - change (events_text (e :: e' :: events))
      with (e +:+ kEventSeparator +:+ events_text (e' :: events)).
    rewrite IH by discriminate.
    change (String.concat kEventSeparator (e :: e' :: events))
      with (e +:+ kEventSeparator
            +:+ String.concat kEventSeparator (e' :: events)).
    rewrite !str_app_assoc. reflexivity.
Qed.

Lemma Flush_event_reliable_unbounded event fw id path content w :
  env w = reliable_env ->
  IsBounded fw = false ->
  final_log_file_ fw = Some id ->
  at_eof w id path content ->
  string_size event + 2 <= SIZE_MAX ->
  exists w',
    Flush_event event fw w = Done (set_wrote_event_bytes true fw) w' /\
    env w' = reliable_env /\
    next_stream w' = next_stream w /\
    at_eof w' id path (content +:+ event +:+ kEventSeparator) /\
    (forall q, q <> path -> disk w' !! q = disk w !! q) /\
    (forall id', id' <> id -> streams w' !! id' = streams w !! id').
Proof.
  intros Henv Hb Hfile Hat Hfit. unfold Flush_event. rewrite Hb.
  unfold io_bind at 1. unfold io_ret at 1. rewrite Hb, Hfile.
  destruct (WriteToFile_reliable id path (String.length content) content
              event kEventSeparator EmptyString w Henv Hat)
    as (w' & evs & p' & c' & H & Hw & Hbytes & He & Hat' & Hc).
  destruct (Hc eq_refl) as [-> ->].
  rewrite (io_bind_done _ _ _ _ _ H). rewrite str_app_nil_r in *.
  assert (Hn : (to_size_t (string_size (event +:+ kEventSeparator)) >? 0)
               = true).
  { rewrite string_size_app. change (string_size kEventSeparator) with 2.
    rewrite to_size_t_small.
    - pose proof (string_size_nonneg event). apply Z.gtb_lt. lia.
    - unfold is_size_t. pose proof (string_size_nonneg event). lia. }
  rewrite Hn, orb_true_r.
  change (IsBounded (set_wrote_event_bytes true fw)) with (IsBounded fw).
  rewrite Hb. exists w'. split; [reflexivity|].
  destruct Hw as (_ & _ & _ & Hnext & Hs & _ & Hd).
  split_and!; auto.
  - intros q Hq. apply Hd. intros id' st [= <-] Hst.
    destruct Hat as [Hst' _]. rewrite Hst' in Hst. injection Hst as <-.
    simpl. congruence.
  - intros id' Hid. apply Hs. congruence.
Qed.

Lemma Flush_loop_reliable_unbounded id path : forall events fw content w,
  env w = reliable_env ->
  IsBounded fw = false ->
  final_log_file_ fw = Some id ->
  at_eof w id path content ->
  Forall (fun e => string_size e + 2 <= SIZE_MAX) events ->
  exists w',
    Flush_loop events fw w
    = Done (match events with
            | [] => fw
            | _ => set_wrote_event_bytes true fw
            end) w' /\
    env w' = reliable_env /\
    next_stream w' = next_stream w /\
    at_eof w' id path (content +:+ events_text events) /\
    (forall q, q <> path -> disk w' !! q = disk w !! q) /\
    (forall id', id' <> id -> streams w' !! id' = streams w !! id').
Proof.
  induction events as [|e events IH]; intros fw content w Henv Hb Hfile Hat
    Hfit.
  - exists w. simpl. rewrite str_app_nil_r. split_and!; auto.
  - apply Forall_cons in Hfit as [He Hfit].
    destruct (Flush_event_reliable_unbounded e fw id path content w
                Henv Hb Hfile Hat He)
      as (w1 & H1 & He1 & Hn1 & Hat1 & Hd1 & Hs1).
    cbn [Flush_loop]. rewrite (io_bind_done _ _ _ _ _ H1).
    destruct (IH (set_wrote_event_bytes true fw) _ w1 He1 Hb Hfile Hat1 Hfit)
      as (w2 & H2 & He2 & Hn2 & Hat2 & Hd2 & Hs2).
    exists w2. split.
    + rewrite H2. destruct events; reflexivity.
    + split_and!; auto.
      * congruence.
      * cbn [events_text]. rewrite !str_app_assoc in *. exact Hat2.
      * intros q Hq. rewrite Hd2, Hd1 by exact Hq. reflexivity.
      * intros id' Hid. rewrite Hs2, Hs1 by exact Hid. reflexivity.
Qed.

Lemma flush_each_reliable_unbounded id path : forall write_queues fw content w,
  env w = reliable_env ->
  IsBounded fw = false ->
  final_log_file_ fw = Some id ->
  at_eof w id path content ->
  Forall (fun e => string_size e + 2 <= SIZE_MAX)
    (queued_events write_queues) ->
  exists w',
    flush_each write_queues fw w
    = Done (match queued_events write_queues with
            | [] => fw
            | _ => set_wrote_event_bytes true fw
            end) w' /\
    env w' = reliable_env /\
    next_stream w' = next_stream w /\
    at_eof w' id path (content +:+ events_text (queued_events write_queues)) /\
    (forall q, q <> path -> disk w' !! q = disk w !! q) /\
    (forall id', id' <> id -> streams w' !! id' = streams w !! id').
Proof.
  induction write_queues as [|write_queue rest IH];
    intros fw content w Henv Hb Hfile Hat Hfit.
  - exists w. simpl. rewrite str_app_nil_r. split_and!; auto.
  - unfold queued_events in Hfit |- *. cbn [map concat] in Hfit |- *.
    fold (queued_events rest) in Hfit |- *.
    apply Forall_app in Hfit as [Hq Hrest].
    destruct (Flush_general write_queue fw w) as (fw1 & w1 & evs & HF & HL & _).
    destruct (Flush_loop_reliable_unbounded id path (queue_ write_queue) fw
                content w Henv Hb Hfile Hat Hq)
      as (w1' & HL' & He1 & Hn1 & Hat1 & Hd1 & Hs1).
    rewrite HL in HL'. injection HL' as -> <-.
    cbn [flush_each]. rewrite (io_bind_done _ _ _ _ _ HF). cbn [snd].
    set (fw1 := match queue_ write_queue with
                | [] => fw
                | _ => set_wrote_event_bytes true fw
                end) in *.
    assert (Hb1 : IsBounded fw1 = false)
      by (subst fw1; destruct (queue_ write_queue); exact Hb).
    assert (Hfile1 : final_log_file_ fw1 = Some id)
      by (subst fw1; destruct (queue_ write_queue); exact Hfile).
    destruct (IH fw1 _ w1 He1 Hb1 Hfile1 Hat1 Hrest)
      as (w2 & H2 & He2 & Hn2 & Hat2 & Hd2 & Hs2).
    exists w2. split.
    + rewrite H2. subst fw1.
      destruct (queue_ write_queue), (queued_events rest); reflexivity.
    + split_and!; auto.
      * congruence.
      * rewrite events_text_app, <- str_app_assoc. exact Hat2.
      * intros q Hq'. rewrite Hd2, Hd1 by exact Hq'. reflexivity.
      * intros id' Hid. rewrite Hs2, Hs1 by exact Hid. reflexivity.
Qed.

Lemma Initialize_reliable_unbounded constants fw w :
  env w = reliable_env ->
  IsBounded fw = false ->
  final_log_file_ fw = None ->
  exists w',
    Initialize constants fw w
    = Done (set_final_log_file (Some (next_stream w)) fw) w' /\
    env w' = reliable_env /\
    next_stream w' = S (next_stream w) /\
    at_eof w' (next_stream w) (final_log_path_ fw) (spec_prologue constants) /\
    (forall q, q <> final_log_path_ fw -> disk w' !! q = disk w !! q) /\
    (forall id, id <> next_stream w -> streams w' !! id = streams w !! id).
Proof.
  intros Henv Hb Hfile. unfold Initialize.
  destruct (OpenFileForWrite_reliable (final_log_path_ fw) w Henv)
    as (w1 & H1 & He1 & Hn1 & Hat1 & Hd1 & Hs1 & _).
  rewrite (io_bind_done _ _ _ _ _ H1). rewrite Hfile.
  unfold ScopedFILE_reset. unfold io_bind at 1. unfold io_ret at 1.
  change (IsBounded (set_final_log_file _ fw)) with (IsBounded fw).
  rewrite Hb. cbn [final_log_file_ set_final_log_file].
  destruct (WriteConstantsToFile_reliable constants (next_stream w)
              (final_log_path_ fw) w1 He1 Hat1)
    as (w2 & H2 & He2 & Hn2 & Hat2 & Hd2 & Hs2).
  rewrite (io_bind_done _ _ _ _ _ H2). exists w2.
  split; [reflexivity|]. split_and!; auto.
  - congruence.
  - intros q Hq. rewrite Hd2, Hd1 by exact Hq. reflexivity.
  - intros id Hid. rewrite Hs2, Hs1 by exact Hid. reflexivity.
Qed.

(** [Stop] in unbounded mode: the epilogue goes over the last separator
    when event bytes were written, and to the end of the file otherwise. *)
Lemma Stop_reliable_unbounded_text polled_data fw id path content w :
  env w = reliable_env ->
  IsBounded fw = false ->
  final_log_file_ fw = Some id ->
  at_eof w id path content ->
  exists w',
    Stop polled_data fw w = Done (stopped fw) w' /\
    env w' = reliable_env /\
    disk w' !! path
    = Some (write_at content (rewind_position fw content)
              (spec_epilogue polled_data)) /\
    (forall q, q <> path -> disk w' !! q = disk w !! q).
Proof.
  intros Henv Hb Hfile Hat. unfold Stop, stopped. rewrite Hb, Hfile.
  destruct (RewindIfWroteEventBytes_at_eof fw id path content w Hat)
    as (w1 & H1 & He1 & Hn1 & Hd1 & Hat1).
  rewrite io_bind_assoc, (io_bind_done _ _ _ _ _ H1).
  rewrite Henv in He1.
  destruct (WritePolledDataToFile_reliable_pos polled_data id path _ content
              w1 He1 Hat1 (rewind_position_le fw content))
    as (w2 & e2 & H2 & Hw2 & Hb2 & He2 & Hat2).
  rewrite (io_bind_done _ _ _ _ _ H2).
  rewrite (io_bind_done _ _ _ _ _ (eq_refl : io_ret fw w2 = Done fw w2)).
  rewrite Hfile. eexists. split; [reflexivity|]. simpl.
  destruct Hw2 as (_ & _ & _ & _ & Hs2 & _ & Hdisk2).
  split_and!; auto.
  - apply Hat2.
  - intros q Hq. rewrite Hdisk2, Hd1; [reflexivity|].
    intros id' st [= <-] Hst. destruct Hat1 as [Hst1 _].
    rewrite Hst1 in Hst. injection Hst as <-. simpl. congruence.
Qed.

Lemma str_take_before_separator text :
  str_take (String.length (text +:+ kEventSeparator) - 2)
    (text +:+ kEventSeparator) = text.
Proof.
  rewrite str_length_app. change (String.length kEventSeparator) with 2%nat.
  replace (String.length text + 2 - 2)%nat with (String.length text) by lia.
  apply str_take_app_length.
Qed.

(** The file [Stop] leaves when the text before it is a prologue followed
    by the text of some events. *)
Lemma stopped_log_text fw constants events polled_data :
  wrote_event_bytes_ fw = negb (bool_decide (events = [])) ->
  write_at (spec_prologue constants +:+ events_text events)
    (rewind_position fw (spec_prologue constants +:+ events_text events))
    (spec_epilogue polled_data)
  = log_text constants events polled_data.
Proof.
  intros Hflag. unfold rewind_position, log_text. rewrite Hflag.
  destruct events as [|e events].
  - rewrite bool_decide_eq_true_2 by reflexivity.
    cbn [negb andb events_text String.concat].
    rewrite str_app_nil_r, str_app_nil_l. apply write_at_end.
  - rewrite bool_decide_eq_false_2 by discriminate. cbn [negb andb].
    rewrite events_text_joined by discriminate.
    set (joined := String.concat kEventSeparator (e :: events)).
    rewrite <- str_app_assoc.
    set (text := spec_prologue constants +:+ joined).
    assert (Hlen : (2 <= String.length (text +:+ kEventSeparator))%nat).
    { rewrite str_length_app. change (String.length kEventSeparator) with 2%nat.
      lia. }
    replace (2 <=? String.length (text +:+ kEventSeparator))%nat with true
      by (symmetry; apply Nat.leb_le; exact Hlen).
    pose proof (spec_epilogue_length polled_data) as Hepi.
    rewrite write_at_tail by lia.
    rewrite str_take_before_separator. subst text.
    rewrite str_app_assoc. reflexivity.
Qed.

(** The final log of an unbounded run that is stopped, on an operating
    system that carries out every request. *)
Lemma unbounded_run_text (constants : Value)
    (write_queues : list WriteQueue) (polled_data : option Value)
    (log_path : string) (total_num_event_files indeterminate : Z)
    (w : World) :
  env w = reliable_env ->
  Forall (fun e => string_size e + 2 <= SIZE_MAX)
    (queued_events write_queues) ->
  exists fw' w',
    writer_run constants write_queues polled_data
      (FileWriter_new log_path kNoLimit total_num_event_files indeterminate)
      w = Done fw' w' /\
    disk w' !! log_path
    = Some (log_text constants (queued_events write_queues) polled_data) /\
    (forall q, q <> log_path -> disk w' !! q = disk w !! q) /\
    final_log_file_ fw' = None /\
    current_event_file_number_ fw' = 0.
Proof.
  intros Henv Hfit.
  set (fw := FileWriter_new log_path kNoLimit total_num_event_files
               indeterminate).
  assert (Hb : IsBounded fw = false) by reflexivity.
  destruct (Initialize_reliable_unbounded constants fw w Henv Hb eq_refl)
    as (w1 & H1 & He1 & Hn1 & Hat1 & Hd1 & _).
  set (fw1 := set_final_log_file (Some (next_stream w)) fw) in *.
  destruct (flush_each_reliable_unbounded (next_stream w) log_path
              write_queues fw1 _ w1 He1 Hb eq_refl Hat1 Hfit)
    as (w2 & H2 & He2 & Hn2 & Hat2 & Hd2 & _).
  set (events := queued_events write_queues) in *.
  set (fw2 := match events with
              | [] => fw1
              | _ => set_wrote_event_bytes true fw1
              end) in *.
  assert (Hb2 : IsBounded fw2 = false)
    by (subst fw2; destruct events; reflexivity).
  assert (Hfile2 : final_log_file_ fw2 = Some (next_stream w))
    by (subst fw2; destruct events; reflexivity).
  destruct (Stop_reliable_unbounded_text polled_data fw2 (next_stream w)
              log_path _ w2 He2 Hb2 Hfile2 Hat2)
    as (w3 & H3 & He3 & Hfinal & Hd3).
  exists (stopped fw2), w3. unfold writer_run.
  rewrite (io_bind_done _ _ _ _ _ H1), (io_bind_done _ _ _ _ _ H2).
  split; [exact H3|]. split_and!.
  - rewrite Hfinal. f_equal. apply stopped_log_text.
    subst fw2. destruct events; reflexivity.
  - intros q Hq. rewrite Hd3, Hd2, Hd1 by exact Hq. reflexivity.
  - reflexivity.
  - subst fw2. destruct events; reflexivity.
Qed.

(** X1.  Unbounded mode, on an operating system that carries out every
    request: after [Initialize], any number of [Flush] tasks and [Stop],
    the final log file holds the prologue, every flushed event in the
    order it was queued with a separator between each two, and the
    epilogue; no other file was touched, the writer holds no stream and
    never left file number 0. *)
Theorem X1_unbounded_log_text (constants : Value)
    (write_queues : list WriteQueue) (polled_data : option Value)
    (log_path : string) (total_num_event_files indeterminate : Z)
    (w : World) :
  env w = reliable_env ->
  Forall (fun e => string_size e + 2 <= SIZE_MAX)
    (queued_events write_queues) ->
  exists fw' w',
    writer_run constants write_queues polled_data
      (FileWriter_new log_path kNoLimit total_num_event_files indeterminate)
      w = Done fw' w' /\
    disk w' !! log_path
    = Some (log_text constants (queued_events write_queues) polled_data) /\
    (forall q, q <> log_path -> disk w' !! q = disk w !! q) /\
    final_log_file_ fw' = None /\
    current_event_file_number_ fw' = 0.
Proof.
  intros Henv Hfit.
  apply unbounded_run_text; assumption.
Qed.

(** ** The ring of event files *)

Lemma add_event_all max chunks event :
  concat (rev (add_event max chunks event)) = concat (rev chunks) ++ [event].
Proof.
  destruct chunks as [|current older]; [reflexivity|].
  unfold add_event. destruct (_ >=? _); simpl.
  - rewrite !concat_app. simpl. rewrite app_nil_r. reflexivity.
  - rewrite !concat_app. simpl. rewrite !app_nil_r, app_assoc. reflexivity.
Qed.

Lemma fold_add_event_all max : forall events chunks,
  concat (rev (fold_left (add_event max) events chunks))
  = concat (rev chunks) ++ events.
Proof.
  induction events as [|e events IH]; intros chunks; simpl.
  - rewrite app_nil_r. reflexivity.
  - rewrite IH, add_event_all, <- app_assoc. reflexivity.
Qed.

Lemma fold_add_event_app max a b chunks :
  fold_left (add_event max) (a ++ b) chunks
  = fold_left (add_event max) b (fold_left (add_event max) a chunks).
Proof. apply fold_left_app. Qed.

Lemma add_event_nonempty max chunks event :
  Forall (fun chunk => chunk <> []) chunks ->
  Forall (fun chunk => chunk <> []) (add_event max chunks event).
Proof.
  intros H. destruct chunks as [|current older]; simpl.
  - repeat constructor. discriminate.
  - apply Forall_cons in H as [Hc Ho].
    destruct (_ >=? _); repeat constructor; auto; try discriminate.
    destruct current; discriminate.
Qed.

(** The bytes of all files filled so far. *)
Lemma events_text_size_app a b :
  string_size (events_text (a ++ b))
  = string_size (events_text a) + string_size (events_text b).
Proof. rewrite events_text_app, string_size_app. reflexivity. Qed.

Lemma events_text_size_one event :
  string_size (events_text [event]) = string_size event + 2.
Proof.
  simpl. rewrite str_app_nil_r, string_size_app. reflexivity.
Qed.

Lemma events_text_size_nonneg events : 0 <= string_size (events_text events).
Proof. apply string_size_nonneg. Qed.

Lemma events_text_size_nonempty events :
  events <> [] -> 2 <= string_size (events_text events).
Proof.
  destruct events as [|e events]; [congruence|]. intros _.
  change (e :: events) with ([e] ++ events).
  rewrite events_text_size_app, events_text_size_one.
  pose proof (string_size_nonneg e).
  pose proof (events_text_size_nonneg events). lia.
Qed.

Lemma chunks_size_bound chunks :
  Forall (fun chunk => chunk <> []) chunks ->
  2 * Z.of_nat (length chunks) <= string_size (events_text (concat chunks)).
Proof.
  induction chunks as [|chunk chunks IH]; intros H; simpl.
  - unfold string_size. simpl. lia.
  - apply Forall_cons in H as [Hc Hr]. rewrite events_text_size_app.
    pose proof (events_text_size_nonempty chunk Hc). specialize (IH Hr). lia.
Qed.

Lemma add_event_size max chunks event :
  string_size (events_text (concat (add_event max chunks event)))
  = string_size (events_text (concat chunks)) + string_size event + 2.
Proof.
  destruct chunks as [|current older]; unfold add_event.
  - cbn [concat app]. rewrite events_text_size_one.
    change (string_size (events_text [])) with 0. lia.
  - destruct (_ >=? _); cbn [concat].
    + rewrite !events_text_size_app, events_text_size_one. lia.
    + rewrite !events_text_size_app, events_text_size_one. lia.
Qed.

Lemma event_file_of_distinct fw a b :
  1 <= total_num_event_files_ fw <= SIZE_MAX ->
  1 <= a <= SIZE_MAX -> 1 <= b <= SIZE_MAX ->
  a <> b -> Z.abs (a - b) < total_num_event_files_ fw ->
  event_file_of fw a <> event_file_of fw b.
Proof.
  intros HN Ha Hb Hne Habs Heq. apply Hne. unfold event_file_of in Heq.
  apply GetEventFilePath_inj in Heq.
  - rewrite !FileNumberToIndex_eq in Heq by assumption.
    apply (window_indices_distinct (total_num_event_files_ fw)); lia.
  - rewrite FileNumberToIndex_eq by assumption. apply Z.mod_pos_bound. lia.
  - rewrite FileNumberToIndex_eq by assumption. apply Z.mod_pos_bound. lia.
Qed.

Lemma IncrementCurrentEventFile_reliable fw w :
  env w = reliable_env ->
  handles_ok fw w ->
  exists w',
    IncrementCurrentEventFile fw w
    = Done (rotated (Some (next_stream w)) fw) w' /\
    env w' = reliable_env /\
    next_stream w' = S (next_stream w) /\
    at_eof w' (next_stream w) (next_event_file_path fw) EmptyString /\
    (forall q, q <> next_event_file_path fw -> disk w' !! q = disk w !! q).
Proof.
  intros Henv [_ Hcur]. unfold IncrementCurrentEventFile.
  set (fw1 := set_current_event_file_number _ fw).
  change (GetEventFilePath fw1
            (FileNumberToIndex fw1 (current_event_file_number_ fw1)))
    with (next_event_file_path fw).
  destruct (OpenFileForWrite_reliable (next_event_file_path fw) w Henv)
    as (w1 & H1 & He1 & Hn1 & Hat1 & Hd1 & Hs1 & _).
  rewrite (io_bind_done _ _ _ _ _ H1).
  change (current_event_file_ fw1) with (current_event_file_ fw).
  destruct (current_event_file_ fw) as [old|] eqn:Hold.
  - destruct (fclose_frame old w1) as (w2 & H2 & He2 & Hn2 & Hd2 & Hs2 & _).
    rewrite (io_bind_done _ _ _ _ _ H2).
    exists w2. split; [reflexivity|].
    specialize (Hcur old eq_refl).
    split_and!; try congruence.
    + destruct Hat1 as [A1 A2]. split.
      * rewrite Hs2 by lia. exact A1.
      * rewrite Hd2. exact A2.
    + intros q Hq. rewrite Hd2. apply Hd1. exact Hq.
  - exists w1. split; [reflexivity|].
    split_and!; auto.
Qed.

Lemma ring_state_number constants chunks fw w :
  ring_state constants chunks fw w ->
  current_event_file_number_ fw = Z.of_nat (length chunks).
Proof. intros (_ & _ & H & _). exact H. Qed.

(** One round of the loop of [Flush] files the event as [add_event]
    says. *)
Lemma Flush_event_ring constants chunks event fw w :
  ring_state constants chunks fw w ->
  1 <= total_num_event_files_ fw <= SIZE_MAX ->
  string_size (events_text (concat chunks)) + string_size event + 2
  <= SIZE_MAX ->
  exists fw' w',
    Flush_event event fw w = Done fw' w' /\
    ring_state constants (add_event (max_event_file_size_ fw) chunks event)
      fw' w' /\
    final_log_path_ fw' = final_log_path_ fw /\
    final_log_file_ fw' = final_log_file_ fw /\
    total_num_event_files_ fw' = total_num_event_files_ fw /\
    max_event_file_size_ fw' = max_event_file_size_ fw.
Proof.
  intros (Henv & Hb & Hnum & Hflag & Hne & Hok & Hconst & Hfiles & Hcur)
    HN Hfit.
  pose proof (chunks_size_bound chunks Hne) as Hcount.
  pose proof (string_size_nonneg event) as Hev.
  unfold Flush_event. rewrite Hb.
  assert (Hrot : needs_new_event_file fw
                 = match chunks with
                   | [] => true
                   | current :: _ =>
                       string_size (events_text current)
                       >=? max_event_file_size_ fw
                   end).
  { unfold needs_new_event_file. rewrite Hnum.
    destruct chunks as [|current older]; [reflexivity|].
    destruct Hcur as (id & _ & _ & ->).
    replace (Z.of_nat (length (current :: older)) =? 0) with false
      by (symmetry; apply Z.eqb_neq; simpl; lia).
    reflexivity. }
  assert (Hnext : size_add (current_event_file_number_ fw) 1
                  = Z.of_nat (S (length chunks))).
  { rewrite Hnum, size_add_small; [lia|]. unfold is_size_t. lia. }
  assert (Hrotate :
    forall older', chunks = older' ->
    needs_new_event_file fw = true ->
    exists fw' w',
      (let* fw0 := IncrementCurrentEventFile fw in
       let* bytes_written :=
         WriteToFile
           (if IsBounded fw0 then current_event_file_ fw0
            else final_log_file_ fw0) event kEventSeparator EmptyString in
       io_ret
         (let fw1 := set_wrote_event_bytes
                       (wrote_event_bytes_ fw0 || (bytes_written >? 0)) fw0 in
          if IsBounded fw1
          then set_current_event_file_size
                 (size_add (current_event_file_size_ fw1) bytes_written) fw1
          else fw1)) w = Done fw' w' /\
      ring_state constants ([event] :: chunks) fw' w' /\
      final_log_path_ fw' = final_log_path_ fw /\
      final_log_file_ fw' = final_log_file_ fw /\
      total_num_event_files_ fw' = total_num_event_files_ fw /\
      max_event_file_size_ fw' = max_event_file_size_ fw).
  { intros older' _ _.
    destruct (IncrementCurrentEventFile_reliable fw w Henv Hok)
      as (w1 & H1 & He1 & Hn1 & Hat1 & Hd1).
    rewrite (io_bind_done _ _ _ _ _ H1).
    set (n := next_stream w) in *.
    change (IsBounded (rotated (Some n) fw)) with (IsBounded fw).
    rewrite Hb. cbn [current_event_file_ rotated set_current_event_file_size
                       set_current_event_file].
    assert (Hpath : next_event_file_path fw
                    = event_file_of fw (Z.of_nat (S (length chunks)))).
    { unfold next_event_file_path, event_file_of. rewrite Hnext.
      reflexivity. }
    rewrite Hpath in Hat1, Hd1.
    destruct (WriteToFile_at_eof n _ EmptyString event kEventSeparator
                EmptyString w1 He1 Hat1)
      as (w2 & evs & H2 & He2 & Hn2 & Hat2 & Hd2 & Hs2 & _).
    rewrite (io_bind_done _ _ _ _ _ H2).
    rewrite str_app_nil_l in Hat2.
    assert (Hsize : to_size_t
                      (string_size (event +:+ kEventSeparator +:+ EmptyString))
                    = string_size event + 2).
    { rewrite str_app_nil_r, string_size_app.
      change (string_size kEventSeparator) with 2.
      apply to_size_t_small. unfold is_size_t.
      pose proof (events_text_size_nonneg (concat chunks)). lia. }
    rewrite Hsize.
    replace (string_size event + 2 >? 0) with true
      by (symmetry; apply Z.gtb_lt; lia).
    rewrite orb_true_r.
    eexists _, w2. split; [reflexivity|].
    cbn [IsBounded IsUnbounded max_event_file_size_ set_wrote_event_bytes
           set_current_event_file_size set_current_event_file
           set_current_event_file_number rotated current_event_file_size_].
    change (IsBounded (set_wrote_event_bytes true (rotated (Some n) fw)))
      with (IsBounded fw).
    rewrite Hb.
    split; [|split_and!; reflexivity].
    unfold ring_state. split_and!.
    - exact He2.
    - exact Hb.
    - cbn. rewrite Hnext. reflexivity.
    - reflexivity.
    - constructor; [discriminate | exact Hne].
    - destruct Hok as [Hfin _]. split; cbn.
      + intros id Hid. specialize (Hfin id Hid). lia.
      + intros id [= <-]. lia.
    - change (GetConstantsFilePath _) with (GetConstantsFilePath fw).
      rewrite Hd2, Hd1; [exact Hconst| |];
        intros E; symmetry in E; revert E;
        apply event_path_not_constants_path.
    - intros k chunk Hk HkN.
      change (total_num_event_files_ _) with (total_num_event_files_ fw)
        in HkN.
      change (event_file_of _ ?x) with (event_file_of fw x).
      destruct k as [|k']; cbn in Hk.
      + injection Hk as <-. rewrite Z.sub_0_r.
        cbn [events_text]. apply Hat2.
      + pose proof (lookup_lt_Some _ _ _ Hk) as Hlt.
        replace (Z.of_nat (length ([event] :: chunks)) - Z.of_nat (S k'))
          with (Z.of_nat (length chunks) - Z.of_nat k')
          by (cbn [length]; lia).
        assert (Hdist : event_file_of fw (Z.of_nat (length chunks)
                                          - Z.of_nat k')
                        <> event_file_of fw (Z.of_nat (S (length chunks)))).
        { apply event_file_of_distinct; lia. }
        rewrite Hd2, Hd1 by exact Hdist.
        apply Hfiles; [exact Hk | lia].
    - exists n. split; [reflexivity|]. split.
      + change (event_file_of _ ?x) with (event_file_of fw x).
        cbn [events_text]. exact Hat2.
      + change (current_event_file_size_ _)
          with (size_add 0 (string_size event + 2)).
        rewrite size_add_small.
        * rewrite events_text_size_one. lia.
        * unfold is_size_t.
          pose proof (events_text_size_nonneg (concat chunks)). lia. }
  destruct chunks as [|current older].
  - rewrite Hrot. destruct (Hrotate [] eq_refl Hrot) as (fw' & w' & H & Hrest).
    exists fw', w'. split; [exact H | exact Hrest].
  - unfold add_event. rewrite Hrot.
    destruct (string_size (events_text current) >=? max_event_file_size_ fw)
      eqn:Hfull.
    + destruct (Hrotate _ eq_refl Hrot) as (fw' & w' & H & Hrest).
      exists fw', w'. split; [exact H | exact Hrest].
    + clear Hrotate. destruct Hcur as (id & Hid & Hat & Hsz).
      unfold io_bind at 1. unfold io_ret at 1. rewrite Hb, Hid.
      destruct (WriteToFile_at_eof id _ _ event kEventSeparator
                  EmptyString w Henv Hat)
        as (w2 & evs & H2 & He2 & Hn2 & Hat2 & Hd2 & Hs2 & _).
      rewrite (io_bind_done _ _ _ _ _ H2).
      assert (Hcursize : string_size (events_text current)
                         <= string_size
                              (events_text (concat (current :: older)))).
      { cbn [concat]. rewrite events_text_size_app.
        pose proof (events_text_size_nonneg (concat older)). lia. }
      assert (Hsize : to_size_t
                        (string_size
                           (event +:+ kEventSeparator +:+ EmptyString))
                      = string_size event + 2).
      { rewrite str_app_nil_r, string_size_app.
        change (string_size kEventSeparator) with 2.
        apply to_size_t_small. unfold is_size_t.
        pose proof (events_text_size_nonneg current). lia. }
      rewrite Hsize.
      replace (string_size event + 2 >? 0) with true
        by (symmetry; apply Z.gtb_lt; lia).
      rewrite orb_true_r.
      change (IsBounded (set_wrote_event_bytes true fw)) with (IsBounded fw).
      rewrite Hb.
      eexists _, w2. split; [reflexivity|].
      split; [|split_and!; reflexivity].
      assert (Htext : events_text current +:+ event +:+ kEventSeparator
                      +:+ EmptyString
                      = events_text (current ++ [event])).
      { rewrite events_text_app. reflexivity. }
      rewrite Htext in Hat2.
      unfold ring_state. split_and!.
      * exact He2.
      * exact Hb.
      * exact Hnum.
      * reflexivity.
      * apply Forall_cons in Hne as [Hc Ho].
        constructor; [destruct current; discriminate | exact Ho].
      * destruct Hok as [Hfin Hcu]. split; cbn.
        -- intros id' Hid'. specialize (Hfin id' Hid'). lia.
        -- intros id' Hid'. specialize (Hcu id' Hid'). lia.
      * change (GetConstantsFilePath _) with (GetConstantsFilePath fw).
        rewrite Hd2; [exact Hconst|].
        intros E; symmetry in E; revert E;
          apply event_path_not_constants_path.
      * intros k chunk Hk HkN.
        change (total_num_event_files_ _) with (total_num_event_files_ fw)
          in HkN.
        change (event_file_of _ ?x) with (event_file_of fw x).
        change (length ((current ++ [event]) :: older))
          with (length (current :: older)).
        destruct k as [|k']; cbn in Hk.
        -- injection Hk as <-. rewrite Z.sub_0_r. apply Hat2.
        -- pose proof (lookup_lt_Some _ _ _ Hk) as Hlt.
           assert (Hdist : event_file_of fw
                             (Z.of_nat (length (current :: older))
                              - Z.of_nat (S k'))
                           <> event_file_of fw
                                (Z.of_nat (length (current :: older)))).
           { cbn [length] in *. apply event_file_of_distinct; lia. }
           rewrite Hd2 by exact Hdist.
           apply (Hfiles (S k') chunk); [exact Hk | exact HkN].
      * exists id. split; [exact Hid|]. split.
        -- change (event_file_of _ ?x) with (event_file_of fw x).
           exact Hat2.
        -- cbn [current_event_file_size_ set_current_event_file_size].
           change (current_event_file_size_ (set_wrote_event_bytes true fw))
             with (current_event_file_size_ fw).
           rewrite Hsz, size_add_small.
           ++ rewrite events_text_size_app, events_text_size_one. lia.
           ++ unfold is_size_t.
              pose proof (events_text_size_nonneg current). lia.
Qed.

Lemma Flush_loop_ring constants : forall events chunks fw w,
  ring_state constants chunks fw w ->
  1 <= total_num_event_files_ fw <= SIZE_MAX ->
  string_size (events_text (concat chunks))
  + string_size (events_text events) <= SIZE_MAX ->
  exists fw' w',
    Flush_loop events fw w = Done fw' w' /\
    ring_state constants
      (fold_left (add_event (max_event_file_size_ fw)) events chunks)
      fw' w' /\
    final_log_path_ fw' = final_log_path_ fw /\
    final_log_file_ fw' = final_log_file_ fw /\
    total_num_event_files_ fw' = total_num_event_files_ fw /\
    max_event_file_size_ fw' = max_event_file_size_ fw.
Proof.
  induction events as [|e events IH]; intros chunks fw w Hring HN Hfit.
  - exists fw, w. split_and!; auto.
  - change (e :: events) with ([e] ++ events) in Hfit.
    rewrite events_text_size_app, events_text_size_one in Hfit.
    pose proof (events_text_size_nonneg events) as Hrest.
    destruct (Flush_event_ring constants chunks e fw w Hring HN)
      as (fw1 & w1 & H1 & Hring1 & Hp1 & Hf1 & HN1 & Hm1); [lia|].
    cbn [Flush_loop fold_left]. rewrite (io_bind_done _ _ _ _ _ H1).
    destruct (IH _ fw1 w1 Hring1) as (fw2 & w2 & H2 & Hring2 & Hp2 & Hf2
                                      & HN2 & Hm2).
    + rewrite HN1. exact HN.
    + rewrite add_event_size. lia.
    + exists fw2, w2. rewrite Hm1 in Hring2.
      split_and!; auto; congruence.
Qed.

Lemma fold_add_event_size max : forall events chunks,
  string_size (events_text (concat (fold_left (add_event max) events chunks)))
  = string_size (events_text (concat chunks))
    + string_size (events_text events).
Proof.
  induction events as [|e es IH]; intros chunks.
  - cbn [fold_left]. change (string_size (events_text [])) with 0. lia.
  - cbn [fold_left]. rewrite IH, add_event_size.
    change (e :: es) with ([e] ++ es).
    rewrite events_text_size_app, events_text_size_one. lia.
Qed.

Lemma flush_each_ring constants : forall write_queues chunks fw w,
  ring_state constants chunks fw w ->
  1 <= total_num_event_files_ fw <= SIZE_MAX ->
  string_size (events_text (concat chunks))
  + string_size (events_text (queued_events write_queues)) <= SIZE_MAX ->
  exists fw' w',
    flush_each write_queues fw w = Done fw' w' /\
    ring_state constants
      (fold_left (add_event (max_event_file_size_ fw))
         (queued_events write_queues) chunks)
      fw' w' /\
    final_log_path_ fw' = final_log_path_ fw /\
    final_log_file_ fw' = final_log_file_ fw /\
    total_num_event_files_ fw' = total_num_event_files_ fw /\
    max_event_file_size_ fw' = max_event_file_size_ fw.
Proof.
  induction write_queues as [|write_queue rest IH];
    intros chunks fw w Hring HN Hfit.
  - exists fw, w. split_and!; auto.
  - unfold queued_events in Hfit |- *. cbn [map concat] in Hfit |- *.
    fold (queued_events rest) in Hfit |- *.
    rewrite events_text_size_app in Hfit.
    pose proof (events_text_size_nonneg (queued_events rest)) as Hrest.
    pose proof (events_text_size_nonneg (queue_ write_queue)) as Hq.
    destruct (Flush_general write_queue fw w) as (fw1 & w1 & evs & HF & HL & _).
    destruct (Flush_loop_ring constants (queue_ write_queue) chunks fw w
                Hring HN)
      as (fw1' & w1' & HL' & Hring1 & Hp1 & Hf1 & HN1 & Hm1); [lia|].
    rewrite HL in HL'. injection HL' as <- <-.
    cbn [flush_each]. rewrite (io_bind_done _ _ _ _ _ HF). cbn [snd].
    destruct (IH _ fw1 w1 Hring1) as (fw2 & w2 & H2 & Hring2 & Hp2 & Hf2
                                      & HN2 & Hm2).
    + rewrite HN1. exact HN.
    + rewrite fold_add_event_size. lia.
    + exists fw2, w2. rewrite Hm1 in Hring2. rewrite fold_left_app.
      split_and!; auto; congruence.
Qed.

(** The event files [StitchFinalLogFile] copies hold the events of the
    newest files, oldest first. *)
Lemma ring_files_text fw files chunks :
  (forall k chunk,
     chunks !! k = Some chunk ->
     Z.of_nat k < total_num_event_files_ fw ->
     files !! event_file_of fw (Z.of_nat (length chunks) - Z.of_nat k)
     = Some (events_text chunk)) ->
  forall m,
    (m <= length chunks)%nat ->
    Z.of_nat m <= total_num_event_files_ fw ->
    concat_files files
      (map (event_file_of fw)
         (seqZ (Z.of_nat (length chunks) + 1 - Z.of_nat m) (Z.of_nat m)))
    = events_text (concat (rev (firstn m chunks))).
Proof.
  intros Hfiles. induction m as [|m IH]; intros Hlen HN.
  - reflexivity.
  - destruct (lookup_lt_is_Some_2 chunks m) as [chunk Hchunk]; [lia|].
    rewrite seqZ_cons by lia. cbn [map concat_files].
    replace (Z.succ (Z.of_nat (length chunks) + 1 - Z.of_nat (S m)))
      with (Z.of_nat (length chunks) + 1 - Z.of_nat m) by lia.
    replace (Z.pred (Z.of_nat (S m))) with (Z.of_nat m) by lia.
    rewrite IH by lia.
    replace (Z.of_nat (length chunks) + 1 - Z.of_nat (S m))
      with (Z.of_nat (length chunks) - Z.of_nat m) by lia.
    unfold file_text. rewrite (Hfiles m chunk Hchunk) by lia.
    rewrite (take_S_r _ _ _ Hchunk), rev_app_distr. cbn [rev app concat].
    rewrite events_text_app. reflexivity.
Qed.

Lemma retained_events_empty N chunks :
  1 <= N ->
  Forall (fun chunk => chunk <> []) chunks ->
  retained_events N chunks = [] <-> chunks = [].
Proof.
  intros HN Hne. unfold retained_events.
  split; [|intros ->; destruct (Z.to_nat N); reflexivity].
  destruct chunks as [|chunk chunks]; [reflexivity|]. intros H.
  apply Forall_cons in Hne as [Hc _].
  destruct (Z.to_nat N) as [|n] eqn:E; [lia|].
  cbn [firstn rev] in H. rewrite concat_app in H. cbn [concat] in H.
  rewrite app_nil_r in H. apply app_eq_nil in H as [_ H]. contradiction.
Qed.

Lemma retained_events_suffix N chunks :
  concat (rev chunks)
  = concat (rev (skipn (Z.to_nat N) chunks)) ++ retained_events N chunks.
Proof.
  unfold retained_events.
  rewrite <- (firstn_skipn (Z.to_nat N) chunks) at 1.
  rewrite rev_app_distr, concat_app. reflexivity.
Qed.

(** The final log of a bounded run that is stopped, on an operating system
    that carries out every request. *)
Lemma bounded_run_text (constants : Value)
    (write_queues : list WriteQueue) (polled_data : option Value)
    (log_path : string)
    (max_event_file_size total_num_event_files indeterminate : Z)
    (w : World) :
  env w = reliable_env ->
  max_event_file_size <> kNoLimit ->
  1 <= total_num_event_files <= SIZE_MAX ->
  string_size (events_text (queued_events write_queues)) <= SIZE_MAX ->
  let chunks :=
    chunk_events max_event_file_size (queued_events write_queues) in
  let retained := retained_events total_num_event_files chunks in
  exists fw' w',
    writer_run constants write_queues polled_data
      (FileWriter_new log_path max_event_file_size total_num_event_files
         indeterminate) w = Done fw' w' /\
    current_event_file_number_ fw' = Z.of_nat (length chunks) /\
    disk w' !! log_path = Some (log_text constants retained polled_data) /\
    (exists dropped, queued_events write_queues = dropped ++ retained) /\
    (Z.of_nat (length chunks) <= total_num_event_files ->
     retained = queued_events write_queues).
Proof.
  intros Henv Hmax HN Hfit chunks retained.
  set (fw := FileWriter_new log_path max_event_file_size
               total_num_event_files indeterminate).
  assert (Hb : IsBounded fw = true).
  { unfold IsBounded, IsUnbounded. cbn.
    replace (max_event_file_size =? kNoLimit) with false
      by (symmetry; apply Z.eqb_neq; exact Hmax).
    reflexivity. }
  destruct (Initialize_reliable constants fw w Henv eq_refl)
    as (w1 & H1 & He1 & Hn1 & Hinit).
  rewrite Hb in Hinit. destruct Hinit as [_ Hconst].
  set (fw1 := set_final_log_file (Some (next_stream w)) fw) in *.
  assert (Hring1 : ring_state constants [] fw1 w1).
  { unfold ring_state. split_and!; auto.
    - split; cbn; [intros id [= <-]; exact Hn1 | discriminate].
    - intros k chunk Hk. destruct k; discriminate. }
  destruct (flush_each_ring constants write_queues [] fw1 w1 Hring1 HN)
    as (fw2 & w2 & H2 & Hring2 & Hp2 & Hf2 & HN2 & Hm2).
  { change (string_size (events_text (concat []))) with 0. lia. }
  change (max_event_file_size_ fw1) with max_event_file_size in Hring2.
  change (fold_left (add_event max_event_file_size)
            (queued_events write_queues) []) with chunks in Hring2.
  change (final_log_path_ fw1) with log_path in Hp2.
  change (total_num_event_files_ fw1) with total_num_event_files in HN2.
  pose proof Hring2 as (He2 & Hb2 & Hnum2 & Hflag2 & Hne2 & Hok2 & Hconst2
                        & Hfiles2 & _).
  assert (Hcount : 2 * Z.of_nat (length chunks) <= SIZE_MAX).
  { pose proof (chunks_size_bound chunks Hne2) as Hc.
    unfold chunks, chunk_events in Hc |- *.
    rewrite fold_add_event_size in Hc.
    change (string_size (events_text (concat []))) with 0 in Hc. lia. }
  destruct (Stop_reliable_bounded polled_data fw2 w2 He2 Hb2)
    as (w3 & evs & H3 & _ & _ & _ & _ & _ & Hstitched).
  exists (stopped fw2), w3. unfold writer_run.
  rewrite (io_bind_done _ _ _ _ _ H1), (io_bind_done _ _ _ _ _ H2).
  split; [exact H3|].
  assert (Hall : concat (rev chunks) = queued_events write_queues).
  { unfold chunks, chunk_events. rewrite fold_add_event_all. reflexivity. }
  split_and!.
  - unfold stopped. rewrite Hb2. exact Hnum2.
  - rewrite <- Hp2. rewrite Hstitched.
    + f_equal. unfold stitched_text. cbv zeta. unfold file_text.
      rewrite Hconst2.
      assert (Hwindow :
        concat_files (disk w2)
          (event_file_paths fw2
             (for_filenumbers (begin_filenumber fw2) (end_filenumber fw2)))
        = events_text retained).
      { set (m := Nat.min (length chunks) (Z.to_nat total_num_event_files)).
        assert (Hend : end_filenumber fw2 = Z.of_nat (length chunks) + 1).
        { unfold end_filenumber. rewrite Hnum2. apply size_add_small.
          unfold is_size_t. lia. }
        assert (Hbegin : begin_filenumber fw2
                         = Z.of_nat (length chunks) + 1 - Z.of_nat m).
        { unfold begin_filenumber. rewrite Hend, Hnum2, HN2.
          destruct (Z.of_nat (length chunks) <=? total_num_event_files)
            eqn:E.
          - apply Z.leb_le in E. subst m. lia.
          - apply Z.leb_gt in E. rewrite size_sub_small.
            + subst m. lia.
            + unfold is_size_t. lia. }
        unfold for_filenumbers. rewrite Hbegin, Hend.
        replace (Z.of_nat (length chunks) + 1
                 - (Z.of_nat (length chunks) + 1 - Z.of_nat m))
          with (Z.of_nat m) by lia.
        change (event_file_paths fw2 ?l) with (map (event_file_of fw2) l).
        rewrite (ring_files_text fw2 (disk w2) chunks Hfiles2 m);
          [| subst m; lia | rewrite HN2; subst m; lia].
        unfold retained, retained_events. f_equal. f_equal. f_equal.
        subst m. destruct (Nat.le_ge_cases (length chunks)
                             (Z.to_nat total_num_event_files)) as [Hle|Hge].
        - rewrite Nat.min_l by exact Hle.
          rewrite !firstn_all2 by lia. reflexivity.
        - rewrite Nat.min_r by exact Hge. reflexivity. }
      rewrite Hwindow. apply stopped_log_text.
      rewrite Hflag2. f_equal. apply bool_decide_ext.
      symmetry. apply retained_events_empty; [lia | exact Hne2].
    + exact Hok2.
    + apply event_file_paths_NoDup; [rewrite Hnum2; lia | rewrite HN2; lia].
  - exists (concat (rev (skipn (Z.to_nat total_num_event_files) chunks))).
    rewrite <- Hall. apply retained_events_suffix.
  - intros Hle. unfold retained, retained_events.
    rewrite firstn_all2 by lia. exact Hall.
Qed.

(** X2.  Bounded mode with two event files or more, on an operating
    system that carries out every request: after [Initialize], any number
    of [Flush] tasks and [Stop], the file number is the number of event
    files the rotation rule filled, and the final log file holds the
    prologue, the events of the newest [total_num_event_files] of these
    files, oldest first, with a separator between each two, and the
    epilogue.  The events kept are the most recent ones, and all of them
    when no more than [total_num_event_files] files were filled.  (With a
    single event file a rotation reopens the file the old stream still
    holds bytes for, which the streams of this development do not
    follow.) *)
Theorem X2_bounded_log_text (constants : Value)
    (write_queues : list WriteQueue) (polled_data : option Value)
    (log_path : string)
    (max_event_file_size total_num_event_files indeterminate : Z)
    (w : World) :
  env w = reliable_env ->
  max_event_file_size <> kNoLimit ->
  2 <= total_num_event_files <= SIZE_MAX ->
  string_size (events_text (queued_events write_queues)) <= SIZE_MAX ->
  let chunks :=
    chunk_events max_event_file_size (queued_events write_queues) in
  let retained := retained_events total_num_event_files chunks in
  exists fw' w',
    writer_run constants write_queues polled_data
      (FileWriter_new log_path max_event_file_size total_num_event_files
         indeterminate) w = Done fw' w' /\
    current_event_file_number_ fw' = Z.of_nat (length chunks) /\
    disk w' !! log_path = Some (log_text constants retained polled_data) /\
    (exists dropped, queued_events write_queues = dropped ++ retained) /\
    (Z.of_nat (length chunks) <= total_num_event_files ->
     retained = queued_events write_queues).
Proof.
  intros Henv Hmax HN Hfit.
  apply bounded_run_text; try assumption. lia.
Qed.

(** ** What the queue keeps *)

(** X3.  On a queue reached by any calls: a push that fits under the cap
    drops nothing (the queue grows by the new record, the counter by its
    size, the returned length by one), and a record no larger than the cap
    is never dropped by its own push: it is the newest record of the queue
    afterwards. *)
Theorem X3_queue_keeps_what_fits (cap : Z) (cs : list queue_call)
    (event : string) :
  fits_in_memory (WriteQueue_new cap) (cs ++ [CallAddEntry event]) ->
  let wq := run_calls (WriteQueue_new cap) cs in
  let len := fst (AddEntryToQueue event wq) in
  let wq' := snd (AddEntryToQueue event wq) in
  (queue_bytes (queue_ wq) + string_size event <= cap ->
   queue_ wq' = queue_ wq ++ [event] /\
   len = Z.of_nat (length (queue_ wq)) + 1 /\
   memory_ wq' = memory_ wq + string_size event) /\
  (string_size event <= cap ->
   last (queue_ wq') = Some event /\ 1 <= len).
Proof.
  intros Hfit wq len wq'.
  apply fits_in_memory_app in Hfit. destruct Hfit as [Hcs [Hev _]].
  fold wq in Hev.
  assert (Hinv : counter_exact wq).
  { apply run_calls_exact; [reflexivity | assumption]. }
  assert (Hmax : memory_max_ wq = cap).
  { unfold wq. rewrite run_calls_memory_max. reflexivity. }
  destruct (AddEntryToQueue_exact event wq Hinv Hev)
    as (dropped & Hinv' & _ & Hlen & Happ & Hall & _).
  fold wq' in Hinv', Hlen, Happ. fold len in Hlen. rewrite Hmax in Hall.
  split.
  - intros Hroom.
    assert (Hnone : dropped = []).
    { destruct dropped as [|d dropped]; [reflexivity|]. exfalso.
      specialize (Hall O ltac:(simpl; lia)). rewrite drop_0 in Hall.
      rewrite queue_bytes_app in Hall. simpl in Hall. lia. }
    subst dropped. simpl in Happ. split_and!.
    + symmetry. exact Happ.
    + rewrite Hlen, <- Happ, length_app. simpl. lia.
    + unfold counter_exact in Hinv, Hinv'. rewrite Hinv', Hinv, <- Happ.
      rewrite queue_bytes_app. simpl. lia.
  - intros Hsmall.
    assert (Hkept : queue_ wq' <> []).
    { intros Hnil. rewrite Hnil, app_nil_r in Happ.
      specialize (Hall (length (queue_ wq))).
      rewrite <- Happ, length_app in Hall. simpl in Hall.
      specialize (Hall ltac:(lia)).
      rewrite drop_app_length in Hall. simpl in Hall. lia. }
    split.
    + assert (Hlast : last (queue_ wq ++ [event]) = Some event)
        by apply last_snoc.
      rewrite Happ in Hlast. rewrite last_app in Hlast.
      destruct (last (queue_ wq')) as [x|] eqn:E; [exact Hlast|].
      apply last_None in E. contradiction.
    + rewrite Hlen. destruct (queue_ wq'); [contradiction | simpl; lia].
Qed.

(** ** Events that build up have a Flush on its way *)

Lemma drop_oldest_length cap : forall queue memory,
  (length (snd (drop_oldest cap memory queue)) <= length queue)%nat.
Proof.
  induction queue as [|front rest IH]; intros memory; simpl; [lia|].
  destruct (memory >? cap); simpl; [|lia].
  specialize (IH (size_sub memory (string_size front))). lia.
Qed.

Lemma AddEntryToQueue_length event wq :
  fst (AddEntryToQueue event wq)
  = Z.of_nat (length (queue_ (snd (AddEntryToQueue event wq)))) /\
  (length (queue_ (snd (AddEntryToQueue event wq)))
   <= S (length (queue_ wq)))%nat.
Proof.
  unfold AddEntryToQueue.
  pose proof (drop_oldest_length (memory_max_ wq) (queue_ wq ++ [event])
                (size_add (memory_ wq) (string_size event))) as H.
  destruct (drop_oldest _ _ _) as [memory' queue']. simpl in *.
  rewrite length_app in H. simpl in H. split; [reflexivity | lia].
Qed.

(** The queue a task leaves: [Flush] and [FlushThenStop] empty it, the
    other tasks do not touch it. *)
Lemma run_task_queue task write_queue fw w :
  exists write_queue' fw' w',
    run_task task write_queue fw w = Done (write_queue', fw') w' /\
    match task with
    | TaskFlush | TaskFlushThenStop _ _ =>
        write_queue' = snd (SwapQueue [] write_queue)
    | _ => write_queue' = write_queue
    end.
Proof.
  destruct task as [constants| |polled_data reply| |]; cbn [run_task].
  - destruct (Initialize_general constants fw w) as (file & w' & evs & H & _).
    eexists _, _, w'. rewrite (io_bind_done _ _ _ _ _ H).
    split; reflexivity.
  - destruct (Flush_general write_queue fw w) as (fw' & w' & evs & H & _).
    eexists _, _, w'. split; [exact H | reflexivity].
  - destruct (FlushThenStop_general write_queue polled_data fw w)
      as (fw1 & w1 & w' & evs & _ & _ & H & _).
    eexists _, _, w'. split; [exact H | reflexivity].
  - destruct (DeleteAllFiles_general fw w) as (fw' & w' & evs & H & _).
    eexists _, _, w'. rewrite (io_bind_done _ _ _ _ _ H).
    split; reflexivity.
  - eexists _, _, w. split; reflexivity.
Qed.

Lemma OnAddEntry_flush_on_its_way entry obs :
  flush_on_its_way obs -> flush_on_its_way (OnAddEntry entry obs).
Proof.
  intros Hinv. unfold OnAddEntry, JSONWriter_Write.
  destruct (negb (json_ok entry)); [exact Hinv|].
  destruct (AddEntryToQueue_length (json_text entry) (write_queue_ obs))
    as [Hlen Hgrow].
  destruct (AddEntryToQueue (json_text entry) (write_queue_ obs))
    as [queue_size write_queue]. cbn [fst snd] in Hlen, Hgrow.
  unfold kNumWriteQueueEvents.
  destruct (queue_size =? 15) eqn:E.
  - intros _. cbn. apply in_or_app. right. left. reflexivity.
  - apply Z.eqb_neq in E. intros Hfull. cbn in Hfull |- *.
    apply Hinv. lia.
Qed.

Lemma system_step_flush_on_its_way action obs w :
  flush_on_its_way obs ->
  exists obs' w',
    system_step action obs w = Done obs' w' /\ flush_on_its_way obs'.
Proof.
  intros Hinv. destruct action as [entry|]; cbn [system_step].
  - eexists _, w. split; [reflexivity|].
    apply OnAddEntry_flush_on_its_way. exact Hinv.
  - destruct (file_task_runner_ obs) as [|task rest] eqn:Htasks.
    + exists obs, w. split; [reflexivity | exact Hinv].
    + destruct (run_task_queue task (write_queue_ obs) (file_writer_ obs) w)
        as (write_queue' & fw' & w' & H & Hq).
      rewrite (io_bind_done _ _ _ _ _ H). eexists _, w'.
      split; [reflexivity|]. unfold flush_on_its_way in *. cbn.
      rewrite Htasks in Hinv.
      destruct task; subst write_queue'; cbn; try lia;
        intros Hfull; destruct (Hinv Hfull) as [Hhead|Hin];
        try discriminate; exact Hin.
Qed.

(** X4.  Start from an observer whose queue is empty and let entries
    arrive and posted tasks run in any order, on any operating system:
    every step returns, and whenever fifteen or more events are queued a
    [Flush] task is posted and has not run yet. *)
Theorem X4_backlog_has_flush_pending (actions : list system_action)
    (obs : FileNetLogObserver) (w : World) :
  queue_ (write_queue_ obs) = [] ->
  exists obs' w',
    system_run actions obs w = Done obs' w' /\
    (15 <= Z.of_nat (length (queue_ (write_queue_ obs'))) ->
     In TaskFlush (file_task_runner_ obs')).
Proof.
  intros Hempty.
  assert (Hinv : flush_on_its_way obs).
  { unfold flush_on_its_way. rewrite Hempty. simpl. lia. }
  clear Hempty. revert obs w Hinv.
  induction actions as [|action rest IH]; intros obs w Hinv.
  - exists obs, w. split; [reflexivity | exact Hinv].
  - destruct (system_step_flush_on_its_way action obs w Hinv)
      as (obs1 & w1 & H1 & Hinv1).
    destruct (IH obs1 w1 Hinv1) as (obs' & w' & H & Hinv').
    exists obs', w'. cbn [system_run]. rewrite (io_bind_done _ _ _ _ _ H1).
    split; [exact H | exact Hinv'].
Qed.

(** ** Streams and files a writer may touch *)

Lemma fmap_path_None (m : gmap nat stream) id :
  stream_path <$> m !! id = None <-> m !! id = None.
Proof. destruct (m !! id); simpl; split; congruence. Qed.

Lemma quiet_refl touched w : wf_world w -> quiet touched w w.
Proof. intros Hwf. unfold quiet. split_and!; auto. Qed.

Lemma quiet_wf touched w w' : quiet touched w w' -> wf_world w'.
Proof.
  intros (Hn & _ & Hnew & _) id Hid. apply Hnew. lia.
Qed.

Lemma quiet_trans touched w1 w2 w3 :
  quiet touched w1 w2 -> quiet touched w2 w3 -> quiet touched w1 w3.
Proof.
  intros (Hn1 & Ho1 & Hw1 & Hd1) (Hn2 & Ho2 & Hw2 & Hd2).
  unfold quiet. split_and!.
  - lia.
  - intros id Hid. rewrite Ho2 by lia. apply Ho1. exact Hid.
  - intros id Hid. destruct (decide (next_stream w2 <= id)%nat) as [Hge|Hlt].
    + apply Hw2. exact Hge.
    + apply fmap_path_None. rewrite Ho2 by lia.
      apply fmap_path_None. apply Hw1. exact Hid.
  - intros q Hq. rewrite Hd2, Hd1 by exact Hq. reflexivity.
Qed.

Lemma quiet_weaken (touched touched' : string -> Prop) w w' :
  (forall q, touched q -> touched' q) ->
  quiet touched w w' -> quiet touched' w w'.
Proof.
  intros Hsub (Hn & Ho & Hw & Hd). unfold quiet. split_and!; auto.
Qed.

(** Writes through [file] touch the file its stream is open on. *)
Lemma wrote_quiet file w w' evs :
  wf_world w ->
  wrote file w w' evs ->
  quiet (fun q => exists id st, file = Some id /\ streams w !! id = Some st /\
                                stream_path st = q) w w'.
Proof.
  intros Hwf (_ & _ & _ & Hn & _ & Hp & Hd). unfold quiet. split_and!.
  - lia.
  - intros id _. apply Hp.
  - intros id Hid. apply fmap_path_None. rewrite Hp.
    apply fmap_path_None. apply Hwf. exact Hid.
  - intros q Hq. apply Hd. intros id st Hfile Hst Hpath. apply Hq. eauto.
Qed.

Lemma WriteToFile_quiet file data1 data2 data3 w n w' :
  wf_world w ->
  WriteToFile file data1 data2 data3 w = Done n w' ->
  quiet (fun q => exists id st, file = Some id /\ streams w !! id = Some st /\
                                stream_path st = q) w w'.
Proof.
  intros Hwf H.
  destruct (WriteToFile_wrote file data1 data2 data3 w)
    as (n' & w'' & evs & H' & Hw & _).
  rewrite H in H'. injection H' as _ <-. eapply wrote_quiet; eassumption.
Qed.

(** A stream that is opened, used quietly and closed again. *)
Lemma scoped_file_quiet (touched : string -> Prop) path mode w file w1 w2 w3 :
  wf_world w ->
  OpenFile path mode w = Done file w1 ->
  quiet touched w1 w2 ->
  ScopedFILE_reset file w2 = Done tt w3 ->
  quiet (fun q => touched q \/ q = path) w w3.
Proof.
  intros Hwf Hopen (Hn & Ho & Hw & Hd) Hclose.
  apply OpenFile_effect in Hopen as [Hdisk Hfile].
  apply ScopedFILE_reset_effect in Hclose as (Hn3 & Hd3 & Hs3).
  unfold quiet. destruct file as [id|].
  - destruct Hfile as (-> & Hn1 & Hs1). split_and!.
    + lia.
    + intros id Hid. rewrite Hs3, lookup_delete_ne by lia.
      rewrite Ho by lia. rewrite Hs1, lookup_insert_ne by lia. reflexivity.
    + intros id Hid. rewrite Hs3.
      destruct (decide (id = next_stream w)) as [->|Hne].
      * apply lookup_delete_eq.
      * rewrite lookup_delete_ne by congruence. apply Hw. lia.
    + intros q Hq. rewrite Hd3, Hd, Hdisk; auto.
  - destruct Hfile as (Hs1 & Hn1 & Hd1). split_and!.
    + lia.
    + intros id Hid. rewrite Hs3, Ho by lia. rewrite Hs1. reflexivity.
    + intros id Hid. rewrite Hs3. apply Hw. lia.
    + intros q Hq. rewrite Hd3, Hd, Hd1; auto.
Qed.

(** Reading changes neither the files nor which streams are open. *)
Lemma fread_quiet size file data w w' :
  wf_world w ->
  fread size file w = Done data w' ->
  quiet (fun _ => False) w w' /\
  forall id, stream_path <$> streams w' !! id
             = stream_path <$> streams w !! id.
Proof.
  intros Hwf. unfold fread. destruct file as [id|]; [|discriminate].
  assert (Hsame : forall w0 : World,
            disk w0 = disk w -> streams w0 = streams w ->
            next_stream w0 = next_stream w ->
            quiet (fun _ => False) w w0 /\
            forall id', stream_path <$> streams w0 !! id'
                        = stream_path <$> streams w !! id').
  { intros w0 Hd Hs Hn. unfold quiet. rewrite Hd, Hs, Hn.
    split_and!; auto. }
  destruct (streams w !! id) as [st|] eqn:Hst;
    [|intros [= _ <-]; apply Hsame; reflexivity].
  destruct (disk w !! stream_path st);
    [|intros [= _ <-]; apply Hsame; reflexivity].
  intros [= _ <-]. simpl.
  assert (Hp : forall pos id',
               stream_path <$>
                 <[id := mkStream (stream_path st) pos]> (streams w) !! id'
               = stream_path <$> streams w !! id').
  { intros pos id'. destruct (decide (id' = id)) as [->|Hne].
    - rewrite lookup_insert_eq, Hst. reflexivity.
    - rewrite lookup_insert_ne by congruence. reflexivity. }
  split; [|apply Hp]. unfold quiet. simpl. split_and!; auto.
  intros id' Hid. apply fmap_path_None. rewrite Hp.
  apply fmap_path_None. apply Hwf. exact Hid.
Qed.

Lemma quiet_paths touched w w' :
  wf_world w -> quiet touched w w' ->
  forall id, stream_path <$> streams w' !! id
             = stream_path <$> streams w !! id.
Proof.
  intros Hwf (_ & Ho & Hw & _) id.
  destruct (decide (id < next_stream w)%nat) as [Hlt|Hge].
  - apply Ho. exact Hlt.
  - rewrite Hw, Hwf by lia. reflexivity.
Qed.

Lemma WriteToFile_quiet_paths file data1 data2 data3 w n w' :
  wf_world w ->
  WriteToFile file data1 data2 data3 w = Done n w' ->
  quiet (fun q => exists id, file = Some id /\
                             stream_path <$> streams w !! id = Some q) w w'.
Proof.
  intros Hwf H. eapply quiet_weaken; [|eapply WriteToFile_quiet; eassumption].
  intros q (id & st & Hfile & Hst & Hq). exists id. rewrite Hst. simpl.
  split; congruence.
Qed.

Lemma copy_loop_quiet s dst size : forall fuel w w',
  wf_world w ->
  copy_loop fuel (Some s) dst size w = Done tt w' ->
  quiet (fun q => exists id, dst = Some id /\
                             stream_path <$> streams w !! id = Some q) w w'.
Proof.
  induction fuel as [|fuel IH]; intros w w' Hwf H; [discriminate|].
  cbn [copy_loop] in H. apply io_bind_inv in H as (data & w1 & Hread & H).
  apply fread_quiet in Hread as [Hq1 Hp1]; [|exact Hwf].
  assert (Hwf1 : wf_world w1) by (eapply quiet_wf; exact Hq1).
  assert (Hq1' : quiet (fun q => exists id, dst = Some id /\
                          stream_path <$> streams w !! id = Some q) w w1).
  { eapply quiet_weaken; [|exact Hq1]. intros q []. }
  destruct (string_empty data).
  - injection H as <-. exact Hq1'.
  - apply io_bind_inv in H as (n & w2 & Hwrite & H).
    apply WriteToFile_quiet_paths in Hwrite; [|exact Hwf1].
    assert (Hwf2 : wf_world w2) by (eapply quiet_wf; exact Hwrite).
    apply IH in H; [|exact Hwf2].
    eapply quiet_trans; [exact Hq1'|]. eapply quiet_trans.
    + eapply quiet_weaken; [|exact Hwrite].
      intros q (id & Hid & Hq). exists id. rewrite <- Hp1. auto.
    + eapply quiet_weaken; [|exact H].
      intros q (id & Hid & Hq). exists id.
      rewrite <- Hp1, <- (quiet_paths _ _ _ Hwf1 Hwrite). auto.
Qed.

Lemma DeleteFile_quiet path recursive w w' :
  wf_world w ->
  DeleteFile path recursive w = Done tt w' ->
  quiet (fun q => q = path \/
                  (recursive = true /\ inside_directory path q = true)) w w'.
Proof.
  intros Hwf H.
  pose proof (fun q => DeleteFile_keeps path recursive w w' q H) as Hkeep.
  injection H as <-. unfold quiet. cbn [next_stream streams].
  split_and!; auto.
  intros q Hq. apply Hkeep.
  assert (Hne : q <> path) by (intros ->; apply Hq; left; reflexivity).
  unfold delete_covers. rewrite bool_decide_eq_false_2 by exact Hne.
  destruct recursive; [|reflexivity].
  destruct (inside_directory path q) eqn:E; [|reflexivity].
  exfalso. apply Hq. right. auto.
Qed.

(** [AppendToFileThenDelete] closes the source it opened, and touches the
    source and the file the destination is open on. *)
Lemma AppendToFileThenDelete_quiet src dst size w w' :
  wf_world w ->
  AppendToFileThenDelete src dst size w = Done tt w' ->
  quiet (fun q => q = src \/
                  exists id, dst = Some id /\
                             stream_path <$> streams w !! id = Some q) w w'.
Proof.
  intros Hwf H. unfold AppendToFileThenDelete in H.
  apply io_bind_inv in H as (file & w1 & Hopen & H).
  destruct file as [s|].
  - apply io_bind_inv in H as ([] & w2 & Hloop & H).
    apply io_bind_inv in H as ([] & w3 & Hclose & Hdelete).
    pose proof Hopen as Heff.
    apply OpenFile_effect in Heff as (_ & -> & Hn1 & Hs1).
    assert (Hwf1 : wf_world w1).
    { intros id Hid. rewrite Hs1, lookup_insert_ne by lia.
      apply Hwf. lia. }
    apply copy_loop_quiet in Hloop; [|exact Hwf1].
    pose proof (scoped_file_quiet _ _ _ _ _ _ _ _ Hwf Hopen Hloop Hclose)
      as Hq3.
    assert (Hwf3 : wf_world w3) by (eapply quiet_wf; exact Hq3).
    apply DeleteFile_quiet in Hdelete; [|exact Hwf3].
    eapply quiet_trans.
    + eapply quiet_weaken; [|exact Hq3].
      intros q [(id & Hid & Hq)|Hq]; [|left; exact Hq].
      rewrite Hs1 in Hq.
      destruct (decide (id = next_stream w)) as [->|Hne].
      * rewrite lookup_insert_eq in Hq. simpl in Hq. left. congruence.
      * rewrite lookup_insert_ne in Hq by congruence. right. eauto.
    + eapply quiet_weaken; [|exact Hdelete].
      intros q [Hq|[Hq _]]; [left; exact Hq | discriminate].
  - injection H as <-.
    apply OpenFile_effect in Hopen as (Hd & Hs & Hn & _).
    unfold quiet. rewrite Hs, Hn. split_and!; auto.
Qed.

Lemma append_event_files_quiet fw : forall filenumbers w w',
  wf_world w ->
  append_event_files fw filenumbers w = Done tt w' ->
  quiet (fun q => (exists index, q = GetEventFilePath fw index) \/
                  exists id, final_log_file_ fw = Some id /\
                             stream_path <$> streams w !! id = Some q) w w'.
Proof.
  induction filenumbers as [|filenumber rest IH]; intros w w' Hwf H.
  - injection H as <-. apply quiet_refl. exact Hwf.
  - cbn [append_event_files] in H.
    apply io_bind_inv in H as ([] & w1 & Happend & H).
    apply AppendToFileThenDelete_quiet in Happend; [|exact Hwf].
    assert (Hwf1 : wf_world w1) by (eapply quiet_wf; exact Happend).
    apply IH in H; [|exact Hwf1]. eapply quiet_trans.
    + eapply quiet_weaken; [|exact Happend].
      intros q [->|Hq]; [left; eauto | right; exact Hq].
    + eapply quiet_weaken; [|exact H].
      intros q [Hq|(id & Hid & Hq)]; [left; exact Hq|].
      right. exists id. rewrite <- (quiet_paths _ _ _ Hwf Happend). auto.
Qed.

Lemma fseek_end_quiet file offset w w' :
  wf_world w ->
  fseek_end file offset w = Done tt w' ->
  quiet (fun _ => False) w w'.
Proof.
  intros Hwf. unfold fseek_end. destruct file as [id|]; [|discriminate].
  assert (Hsame : quiet (fun _ => False) w (log_event (EvSeekEnd id offset) w))
    by (unfold quiet; simpl; split_and!; auto).
  destruct (streams w !! id) as [st|] eqn:Hst;
    [|intros [= <-]; exact Hsame].
  destruct (disk w !! stream_path st);
    [|intros [= <-]; exact Hsame].
  destruct (_ <? 0); intros [= <-]; [exact Hsame|].
  unfold quiet. simpl. split_and!; auto.
  - intros id' _. destruct (decide (id' = id)) as [->|Hne].
    + rewrite lookup_insert_eq, Hst. reflexivity.
    + rewrite lookup_insert_ne by congruence. reflexivity.
  - intros id' Hid. destruct (decide (id' = id)) as [->|Hne].
    + rewrite Hwf in Hst by exact Hid. discriminate.
    + rewrite lookup_insert_ne by congruence. apply Hwf. exact Hid.
Qed.

Lemma RewindIfWroteEventBytes_quiet fw file w w' :
  wf_world w ->
  RewindIfWroteEventBytes fw file w = Done tt w' ->
  quiet (fun _ => False) w w'.
Proof.
  intros Hwf. unfold RewindIfWroteEventBytes.
  destruct file as [id|]; [|intros [= <-]; apply quiet_refl; exact Hwf].
  destruct (wrote_event_bytes_ fw);
    [|intros [= <-]; apply quiet_refl; exact Hwf].
  apply fseek_end_quiet. exact Hwf.
Qed.

Lemma WritePolledDataToFile_quiet polled_data file w w' :
  wf_world w ->
  WritePolledDataToFile polled_data file w = Done tt w' ->
  quiet (fun q => exists id, file = Some id /\
                             stream_path <$> streams w !! id = Some q) w w'.
Proof.
  intros Hwf H.
  destruct (WritePolledDataToFile_wrote polled_data file w)
    as (w'' & evs & H' & Hw).
  rewrite H in H'. injection H' as <-.
  eapply quiet_weaken; [|eapply wrote_quiet; eassumption].
  intros q (id & st & Hfile & Hst & Hq). exists id. rewrite Hst. simpl.
  split; congruence.
Qed.

Lemma WriteConstantsToFile_quiet constants file w w' :
  wf_world w ->
  WriteConstantsToFile constants file w = Done tt w' ->
  quiet (fun q => exists id, file = Some id /\
                             stream_path <$> streams w !! id = Some q) w w'.
Proof.
  intros Hwf H.
  destruct (WriteConstantsToFile_wrote constants file w)
    as (w'' & evs & H' & Hw).
  rewrite H in H'. injection H' as <-.
  eapply quiet_weaken; [|eapply wrote_quiet; eassumption].
  intros q (id & st & Hfile & Hst & Hq). exists id. rewrite Hst. simpl.
  split; congruence.
Qed.

Lemma CreateInprogressDirectory_quiet fw w w' :
  wf_world w ->
  CreateInprogressDirectory fw w = Done tt w' ->
  quiet (fun q => exists id, final_log_file_ fw = Some id /\
                             stream_path <$> streams w !! id = Some q) w w'.
Proof.
  intros Hwf. unfold CreateInprogressDirectory.
  destruct (final_log_file_ fw) as [id|] eqn:Hfile;
    [|intros [= <-]; apply quiet_refl; exact Hwf].
  intros H. apply io_bind_inv in H as (created & w1 & Hmk & H).
  injection Hmk as _ <-.
  assert (Hq1 : forall touched, quiet touched w
                  (log_event (EvCreateDirectory (GetInprogressDirectory fw)
                                created) w))
    by (intros touched; unfold quiet; simpl; split_and!; auto).
  destruct (negb created).
  - injection H as <-. apply Hq1.
  - apply io_bind_inv in H as (n & w2 & Hwrite & Hflush).
    apply WriteToFile_quiet_paths in Hwrite;
      [|eapply quiet_wf; apply (Hq1 (fun _ => False))].
    injection Hflush as <-.
    eapply quiet_trans; [apply Hq1|]. eapply quiet_trans.
    + eapply quiet_weaken; [|exact Hwrite]. intros q Hq. exact Hq.
    + unfold quiet. simpl. split_and!; auto.
      eapply quiet_wf. exact Hwrite.
Qed.

(** ** What a writer keeps to itself *)

Lemma prefix_app a b : String.prefix a (a +:+ b) = true.
Proof.
  induction a as [|c a IH]; [destruct b; reflexivity|].
  rewrite str_app_cons. simpl. rewrite IH.
  destruct (Ascii.ascii_dec c c); [reflexivity | contradiction].
Qed.

Lemma inside_inprogress fw name :
  inside_directory (GetInprogressDirectory fw)
    (AppendASCII (GetInprogressDirectory fw) name) = true.
Proof.
  unfold inside_directory, AppendASCII. rewrite <- str_app_assoc.
  apply prefix_app.
Qed.

Lemma kept_refl n0 fw w : kept n0 fw w w.
Proof. split; auto. Qed.

Lemma kept_trans n0 fw fw' w1 w2 w3 :
  final_log_path_ fw' = final_log_path_ fw ->
  max_event_file_size_ fw' = max_event_file_size_ fw ->
  kept n0 fw w1 w2 -> kept n0 fw' w2 w3 -> kept n0 fw w1 w3.
Proof.
  intros Hp Hm [Hs1 Hd1] [Hs2 Hd2]. split.
  - intros id Hid. rewrite Hs2, Hs1 by exact Hid. reflexivity.
  - intros q Hq. rewrite Hd2, Hd1; [reflexivity | exact Hq |].
    intros Hq'. apply Hq. unfold log_files, IsBounded, IsUnbounded,
      GetInprogressDirectory in *. rewrite Hp, Hm in Hq'. exact Hq'.
Qed.

(** Every stream of the writer is open on one of its own files. *)
Lemma writer_ok_handle n0 fw w id path :
  writer_ok n0 fw w ->
  final_log_file_ fw = Some id \/ current_event_file_ fw = Some id ->
  stream_path <$> streams w !! id = Some path ->
  log_files fw path.
Proof.
  intros (_ & _ & Hfin & Hcur & Hopen) Hid Hpath.
  assert (Hge : (n0 <= id)%nat).
  { destruct Hid as [Hid|Hid];
      [apply Hfin in Hid | apply Hcur in Hid]; lia. }
  destruct (Hopen id path Hge Hpath) as [[_ ->]|[Hc Hin]].
  - left. reflexivity.
  - right. destruct (Hcur id Hc) as [_ Hb]. auto.
Qed.

(** A quiet operation on the writer's files keeps the writer in order. *)
Lemma quiet_writer_ok (touched : string -> Prop) n0 fw w w' :
  writer_ok n0 fw w ->
  quiet touched w w' ->
  (forall q, touched q -> log_files fw q) ->
  writer_ok n0 fw w' /\ kept n0 fw w w'.
Proof.
  intros Hok Hq Hsub. pose proof Hok as (Hwf & Hn0 & Hfin & Hcur & Hopen).
  pose proof (quiet_paths _ _ _ Hwf Hq) as Hpaths.
  destruct Hq as (Hn & Ho & Hw & Hd). split.
  - unfold writer_ok. split_and!.
    + intros id Hid. apply Hw. lia.
    + lia.
    + intros id Hid. specialize (Hfin id Hid). lia.
    + intros id Hid. destruct (Hcur id Hid). split; [lia | assumption].
    + intros id path Hge Hpath. rewrite Hpaths in Hpath. eauto.
  - split.
    + intros id Hid. apply Ho. lia.
    + intros q Hq. apply Hd. intros Ht. apply Hq, Hsub, Ht.
Qed.

(** The writer only matters through its handles, its path and its
    mode. *)
Lemma writer_ok_fields n0 fw fw' w :
  final_log_path_ fw' = final_log_path_ fw ->
  final_log_file_ fw' = final_log_file_ fw ->
  current_event_file_ fw' = current_event_file_ fw ->
  max_event_file_size_ fw' = max_event_file_size_ fw ->
  writer_ok n0 fw w -> writer_ok n0 fw' w.
Proof.
  intros Hp Hf Hc Hm. unfold writer_ok, IsBounded, IsUnbounded,
    GetInprogressDirectory. rewrite Hp, Hf, Hc, Hm. auto.
Qed.

(** A handle of the writer is replaced: the new stream is opened on one of
    the writer's files, then the old stream is closed. *)
Lemma replace_handle_ok n0 path w file w1 old w2 :
  wf_world w -> (n0 <= next_stream w)%nat ->
  (forall id, old = Some id -> (n0 <= id < next_stream w)%nat) ->
  OpenFile path ModeWrite w = Done file w1 ->
  ScopedFILE_reset old w1 = Done tt w2 ->
  wf_world w2 /\ (next_stream w <= next_stream w2)%nat /\
  (forall id, file = Some id -> (n0 <= id < next_stream w2)%nat) /\
  (forall id, (id < n0)%nat -> streams w2 !! id = streams w !! id) /\
  (forall q, q <> path -> disk w2 !! q = disk w !! q) /\
  (forall id p,
     stream_path <$> streams w2 !! id = Some p ->
     (file = Some id /\ p = path) \/
     (old <> Some id /\ stream_path <$> streams w !! id = Some p)).
Proof.
  intros Hwf Hn0 Hold Hopen Hclose.
  apply OpenFile_effect in Hopen as [Hdisk Hfile].
  apply ScopedFILE_reset_effect in Hclose as (Hn2 & Hd2 & Hs2).
  assert (Hdel : forall (m : gmap nat stream) id,
            match old with
            | Some o => delete o m
            | None => m
            end !! id
            = if decide (old = Some id) then None else m !! id).
  { intros m id. destruct old as [o|].
    - destruct (decide (Some o = Some id)) as [[= ->]|Hne].
      + apply lookup_delete_eq.
      + apply lookup_delete_ne. congruence.
    - destruct (decide (None = Some id)); [discriminate | reflexivity]. }
  destruct file as [new|].
  - destruct Hfile as (-> & Hn1 & Hs1). rewrite Hs1 in Hs2. split_and!.
    + intros id Hid. rewrite Hs2, Hdel.
      destruct (decide (old = Some id)); [reflexivity|].
      rewrite lookup_insert_ne by lia. apply Hwf. lia.
    + lia.
    + intros id [= <-]. lia.
    + intros id Hid. rewrite Hs2, Hdel.
      destruct (decide (old = Some id)) as [E|_].
      * apply Hold in E. lia.
      * apply lookup_insert_ne. lia.
    + intros q Hq. rewrite Hd2. apply Hdisk. exact Hq.
    + intros id p. rewrite Hs2, Hdel.
      destruct (decide (old = Some id)) as [E|Hne]; [discriminate|].
      destruct (decide (id = next_stream w)) as [->|Hid].
      * rewrite lookup_insert_eq. simpl. intros [= <-]. left. auto.
      * rewrite lookup_insert_ne by congruence. right. auto.
  - destruct Hfile as (Hs1 & Hn1 & Hd1). rewrite Hs1 in Hs2. split_and!.
    + intros id Hid. rewrite Hs2, Hdel.
      destruct (decide (old = Some id)); [reflexivity|]. apply Hwf. lia.
    + lia.
    + discriminate.
    + intros id Hid. rewrite Hs2, Hdel.
      destruct (decide (old = Some id)) as [E|_]; [|reflexivity].
      apply Hold in E. lia.
    + intros q Hq. rewrite Hd2. apply Hdisk. exact Hq.
    + intros id p. rewrite Hs2, Hdel.
      destruct (decide (old = Some id)) as [E|Hne]; [discriminate|].
      right. auto.
Qed.

(** A stream opened on [path], written to and closed again. *)
Lemma scoped_write_quiet path mode w file w1 w2 w3 :
  wf_world w ->
  OpenFile path mode w = Done file w1 ->
  quiet (fun q => exists id, file = Some id /\
                             stream_path <$> streams w1 !! id = Some q)
    w1 w2 ->
  ScopedFILE_reset file w2 = Done tt w3 ->
  quiet (fun q => q = path) w w3.
Proof.
  intros Hwf Hopen Hq Hclose.
  eapply quiet_weaken;
    [|eapply scoped_file_quiet; [exact Hwf | exact Hopen | exact Hq
                                | exact Hclose]].
  intros q [(id & -> & Hpath)|Hpath]; [|exact Hpath].
  apply OpenFile_effect in Hopen as (_ & _ & _ & Hs).
  rewrite Hs, lookup_insert_eq in Hpath. simpl in Hpath. congruence.
Qed.

Lemma Initialize_ok n0 constants fw w fw' w' :
  writer_ok n0 fw w ->
  Initialize constants fw w = Done fw' w' ->
  writer_ok n0 fw' w' /\ kept n0 fw w w' /\
  final_log_path_ fw' = final_log_path_ fw /\
  max_event_file_size_ fw' = max_event_file_size_ fw.
Proof.
  intros Hok H. pose proof Hok as (Hwf & Hn0 & Hfin & Hcur & Hopen).
  unfold Initialize in H.
  apply io_bind_inv in H as (file & w1 & H1 & H).
  apply io_bind_inv in H as ([] & w2 & H2 & H).
  destruct (replace_handle_ok n0 _ _ _ _ _ _ Hwf Hn0 Hfin H1 H2)
    as (Hwf2 & Hn2 & Hfile2 & Hs2 & Hd2 & Hopen2).
  set (fw1 := set_final_log_file file fw) in *.
  assert (Hok2 : writer_ok n0 fw1 w2).
  { unfold writer_ok. split_and!.
    - exact Hwf2.
    - lia.
    - exact Hfile2.
    - intros id Hid. destruct (Hcur id Hid). split; [lia | assumption].
    - intros id p Hge Hp. destruct (Hopen2 id p Hp) as [[-> ->]|[Hne Hp']].
      + left. auto.
      + destruct (Hopen id p Hge Hp') as [[Hf _]|Hc]; [congruence|].
        right. exact Hc. }
  assert (Hkept2 : kept n0 fw w w2).
  { split.
    - intros id Hid. rewrite Hs2 by exact Hid. reflexivity.
    - intros q Hq. apply Hd2. intros ->. apply Hq. left. reflexivity. }
  assert (Hrest : writer_ok n0 fw1 w' /\ kept n0 fw1 w2 w' /\ fw' = fw1).
  { destruct (IsBounded fw1) eqn:Hb.
    - apply io_bind_inv in H as ([] & w3 & H3 & H).
      apply io_bind_inv in H as (cfile & w4 & H4 & H).
      apply io_bind_inv in H as ([] & w5 & H5 & H).
      apply io_bind_inv in H as ([] & w6 & H6 & H).
      injection H as <- <-.
      apply CreateInprogressDirectory_quiet in H3; [|exact Hwf2].
      destruct (quiet_writer_ok _ n0 fw1 w2 w3 Hok2 H3) as [Hok3 Hkept3].
      { intros q (id & Hid & Hp).
        eapply writer_ok_handle; [exact Hok2 | left; exact Hid | exact Hp]. }
      pose proof Hok3 as (Hwf3 & _).
      assert (Hwf4 : wf_world w4).
      { pose proof H4 as Heff.
        apply OpenFile_effect in Heff as (_ & Heff).
        destruct cfile as [c|].
        - destruct Heff as (-> & Hn4 & Hs4). intros id Hid.
          rewrite Hs4, lookup_insert_ne by lia. apply Hwf3. lia.
        - destruct Heff as (Hs4 & Hn4 & _). intros id Hid.
          rewrite Hs4. apply Hwf3. lia. }
      apply WriteConstantsToFile_quiet in H5; [|exact Hwf4].
      pose proof (scoped_write_quiet _ _ _ _ _ _ _ Hwf3 H4 H5 H6) as Hq6.
      destruct (quiet_writer_ok _ n0 fw1 w3 w6 Hok3 Hq6) as [Hok6 Hkept6].
      { intros q ->. right. split; [exact Hb|]. right.
        apply inside_inprogress. }
      split; [exact Hok6|]. split; [|reflexivity].
      eapply kept_trans; [reflexivity | reflexivity | exact Hkept3
                         | exact Hkept6].
    - apply io_bind_inv in H as ([] & w3 & H3 & H). injection H as <- <-.
      apply WriteConstantsToFile_quiet in H3; [|exact Hwf2].
      destruct (quiet_writer_ok _ n0 fw1 w2 w3 Hok2 H3) as [Hok3 Hkept3].
      { intros q (id & Hid & Hp).
        eapply writer_ok_handle; [exact Hok2 | left; exact Hid | exact Hp]. }
      auto. }
  destruct Hrest as (Hok' & Hkept' & ->). split; [exact Hok'|].
  split; [|split; reflexivity].
  eapply kept_trans; [| | exact Hkept2 | exact Hkept']; reflexivity.
Qed.

Lemma IncrementCurrentEventFile_ok n0 fw w fw' w' :
  writer_ok n0 fw w ->
  IsBounded fw = true ->
  IncrementCurrentEventFile fw w = Done fw' w' ->
  writer_ok n0 fw' w' /\ kept n0 fw w w' /\
  final_log_path_ fw' = final_log_path_ fw /\
  max_event_file_size_ fw' = max_event_file_size_ fw.
Proof.
  intros Hok Hb H. pose proof Hok as (Hwf & Hn0 & Hfin & Hcur & Hopen).
  unfold IncrementCurrentEventFile in H.
  apply io_bind_inv in H as (file & w1 & H1 & H).
  apply io_bind_inv in H as ([] & w2 & H2 & H).
  injection H as <- <-.
  assert (Hold : forall id, current_event_file_ fw = Some id ->
                            (n0 <= id < next_stream w)%nat)
    by (intros id Hid; apply Hcur; exact Hid).
  destruct (replace_handle_ok n0 _ _ _ _ _ _ Hwf Hn0 Hold H1 H2)
    as (Hwf2 & Hn2 & Hfile2 & Hs2 & Hd2 & Hopen2).
  split; [|split; [|split; reflexivity]].
  - unfold writer_ok. split_and!.
    + exact Hwf2.
    + lia.
    + intros id Hid. specialize (Hfin id Hid). cbn in Hid |- *. lia.
    + cbn. intros id Hid. split; [apply Hfile2; exact Hid | exact Hb].
    + intros id p Hge Hp. destruct (Hopen2 id p Hp) as [[-> ->]|[Hne Hp']].
      * right. split; [reflexivity|]. exact (inside_inprogress fw _).
      * destruct (Hopen id p Hge Hp') as [Hf|[Hc _]]; [|congruence].
        left. exact Hf.
  - split.
    + intros id Hid. rewrite Hs2 by exact Hid. reflexivity.
    + intros q Hq. apply Hd2. intros ->. apply Hq. right.
      split; [exact Hb|]. right. exact (inside_inprogress fw _).
Qed.

Lemma Flush_event_ok n0 event fw w fw' w' :
  writer_ok n0 fw w ->
  Flush_event event fw w = Done fw' w' ->
  writer_ok n0 fw' w' /\ kept n0 fw w w' /\
  final_log_path_ fw' = final_log_path_ fw /\
  max_event_file_size_ fw' = max_event_file_size_ fw.
Proof.
  intros Hok H. unfold Flush_event in H.
  apply io_bind_inv in H as (fw1 & w1 & H1 & H).
  assert (Hrot : writer_ok n0 fw1 w1 /\ kept n0 fw w w1 /\
                 final_log_path_ fw1 = final_log_path_ fw /\
                 max_event_file_size_ fw1 = max_event_file_size_ fw).
  { destruct (IsBounded fw) eqn:Hb;
      [destruct (needs_new_event_file fw)|].
    - eapply IncrementCurrentEventFile_ok; eassumption.
    - injection H1 as <- <-. split_and!; auto using kept_refl.
    - injection H1 as <- <-. split_and!; auto using kept_refl. }
  destruct Hrot as (Hok1 & Hkept1 & Hp1 & Hm1).
  apply io_bind_inv in H as (n & w2 & H2 & H).
  pose proof Hok1 as (Hwf1 & _).
  apply WriteToFile_quiet_paths in H2; [|exact Hwf1].
  destruct (quiet_writer_ok _ n0 fw1 w1 w2 Hok1 H2) as [Hok2 Hkept2].
  { intros q (id & Hid & Hp).
    eapply writer_ok_handle; [exact Hok1 | | exact Hp].
    destruct (IsBounded fw1); auto. }
  injection H as <- <-.
  set (fw2 := if IsBounded _ then _ else _).
  assert (Hfields : final_log_path_ fw2 = final_log_path_ fw1 /\
                    final_log_file_ fw2 = final_log_file_ fw1 /\
                    current_event_file_ fw2 = current_event_file_ fw1 /\
                    max_event_file_size_ fw2 = max_event_file_size_ fw1).
  { subst fw2. destruct (IsBounded (set_wrote_event_bytes _ _));
      split_and!; reflexivity. }
  destruct Hfields as (Hp2 & Hf2 & Hc2 & Hm2).
  split_and!; try congruence.
  - exact (writer_ok_fields n0 fw1 fw2 w2 Hp2 Hf2 Hc2 Hm2 Hok2).
  - eapply kept_trans; [exact Hp1 | exact Hm1 | exact Hkept1 | exact Hkept2].
Qed.

Lemma Flush_loop_ok n0 : forall events fw w fw' w',
  writer_ok n0 fw w ->
  Flush_loop events fw w = Done fw' w' ->
  writer_ok n0 fw' w' /\ kept n0 fw w w' /\
  final_log_path_ fw' = final_log_path_ fw /\
  max_event_file_size_ fw' = max_event_file_size_ fw.
Proof.
  induction events as [|e events IH]; intros fw w fw' w' Hok H.
  - injection H as <- <-. split_and!; auto using kept_refl.
  - cbn [Flush_loop] in H. apply io_bind_inv in H as (fw1 & w1 & H1 & H).
    destruct (Flush_event_ok n0 e fw w fw1 w1 Hok H1)
      as (Hok1 & Hkept1 & Hp1 & Hm1).
    destruct (IH fw1 w1 fw' w' Hok1 H) as (Hok' & Hkept' & Hp' & Hm').
    split_and!; try congruence.
    eapply kept_trans; [exact Hp1 | exact Hm1 | exact Hkept1 | exact Hkept'].
Qed.

Lemma flush_each_ok n0 : forall write_queues fw w fw' w',
  writer_ok n0 fw w ->
  flush_each write_queues fw w = Done fw' w' ->
  writer_ok n0 fw' w' /\ kept n0 fw w w' /\
  final_log_path_ fw' = final_log_path_ fw /\
  max_event_file_size_ fw' = max_event_file_size_ fw.
Proof.
  induction write_queues as [|write_queue rest IH];
    intros fw w fw' w' Hok H.
  - injection H as <- <-. split_and!; auto using kept_refl.
  - cbn [flush_each] in H.
    apply io_bind_inv in H as ([write_queue1 fw1] & w1 & H1 & H).
    unfold Flush in H1. cbn [SwapQueue] in H1.
    apply io_bind_inv in H1 as (fw1' & w1' & HL & [= _ <- <-]).
    destruct (Flush_loop_ok n0 _ fw w fw1' w1' Hok HL)
      as (Hok1 & Hkept1 & Hp1 & Hm1).
    destruct (IH fw1' w1' fw' w' Hok1 H) as (Hok' & Hkept' & Hp' & Hm').
    split_and!; try congruence.
    eapply kept_trans; [exact Hp1 | exact Hm1 | exact Hkept1 | exact Hkept'].
Qed.

Lemma close_current_ok n0 fw w w' :
  writer_ok n0 fw w ->
  ScopedFILE_reset (current_event_file_ fw) w = Done tt w' ->
  writer_ok n0 (set_current_event_file None fw) w' /\ kept n0 fw w w'.
Proof.
  intros (Hwf & Hn0 & Hfin & Hcur & Hopen) H.
  apply ScopedFILE_reset_effect in H as (Hn & Hd & Hs).
  assert (Hlook : forall id,
            streams w' !! id
            = if decide (current_event_file_ fw = Some id) then None
              else streams w !! id).
  { intros id. rewrite Hs. destruct (current_event_file_ fw) as [c|].
    - destruct (decide (Some c = Some id)) as [[= ->]|Hne].
      + apply lookup_delete_eq.
      + apply lookup_delete_ne. congruence.
    - destruct (decide (None = Some id)); [discriminate | reflexivity]. }
  split.
  - unfold writer_ok. split_and!.
    + intros id Hid. rewrite Hlook.
      destruct (decide _); [reflexivity|]. apply Hwf. lia.
    + lia.
    + intros id Hid. rewrite Hn. apply Hfin. exact Hid.
    + discriminate.
    + intros id p Hge. rewrite Hlook.
      destruct (decide _) as [E|Hne]; [discriminate|]. intros Hp.
      destruct (Hopen id p Hge Hp) as [Hf|[Hc _]]; [|congruence].
      left. exact Hf.
  - split.
    + intros id Hid. rewrite Hlook.
      destruct (decide _) as [E|Hne]; [|reflexivity].
      apply Hcur in E. lia.
    + intros q _. rewrite Hd. reflexivity.
Qed.

Lemma close_final_ok n0 fw w w' :
  writer_ok n0 fw w ->
  ScopedFILE_reset (final_log_file_ fw) w = Done tt w' ->
  writer_ok n0 (set_final_log_file None fw) w' /\ kept n0 fw w w'.
Proof.
  intros (Hwf & Hn0 & Hfin & Hcur & Hopen) H.
  apply ScopedFILE_reset_effect in H as (Hn & Hd & Hs).
  assert (Hlook : forall id,
            streams w' !! id
            = if decide (final_log_file_ fw = Some id) then None
              else streams w !! id).
  { intros id. rewrite Hs. destruct (final_log_file_ fw) as [c|].
    - destruct (decide (Some c = Some id)) as [[= ->]|Hne].
      + apply lookup_delete_eq.
      + apply lookup_delete_ne. congruence.
    - destruct (decide (None = Some id)); [discriminate | reflexivity]. }
  split.
  - unfold writer_ok. split_and!.
    + intros id Hid. rewrite Hlook.
      destruct (decide _); [reflexivity|]. apply Hwf. lia.
    + lia.
    + discriminate.
    + intros id Hid. rewrite Hn. apply Hcur. exact Hid.
    + intros id p Hge. rewrite Hlook.
      destruct (decide _) as [E|Hne]; [discriminate|]. intros Hp.
      destruct (Hopen id p Hge Hp) as [[Hf _]|Hc]; [congruence|].
      right. exact Hc.
  - split.
    + intros id Hid. rewrite Hlook.
      destruct (decide _) as [E|Hne]; [|reflexivity].
      apply Hfin in E. lia.
    + intros q _. rewrite Hd. reflexivity.
Qed.

Lemma reopen_final_ok n0 fw w file w1 w2 :
  writer_ok n0 fw w ->
  OpenFileForWrite (final_log_path_ fw) w = Done file w1 ->
  ScopedFILE_reset (final_log_file_ fw) w1 = Done tt w2 ->
  writer_ok n0 (set_final_log_file file fw) w2 /\ kept n0 fw w w2.
Proof.
  intros (Hwf & Hn0 & Hfin & Hcur & Hopen) H1 H2.
  destruct (replace_handle_ok n0 _ _ _ _ _ _ Hwf Hn0 Hfin H1 H2)
    as (Hwf2 & Hn2 & Hfile2 & Hs2 & Hd2 & Hopen2).
  split.
  - unfold writer_ok. split_and!.
    + exact Hwf2.
    + lia.
    + exact Hfile2.
    + intros id Hid. destruct (Hcur id Hid). split; [lia | assumption].
    + intros id p Hge Hp. destruct (Hopen2 id p Hp) as [[-> ->]|[Hne Hp']].
      * left. auto.
      * destruct (Hopen id p Hge Hp') as [[Hf _]|Hc]; [congruence|].
        right. exact Hc.
  - split.
    + intros id Hid. rewrite Hs2 by exact Hid. reflexivity.
    + intros q Hq. apply Hd2. intros ->. apply Hq. left. reflexivity.
Qed.

(** A writer without handles has no stream open. *)
Lemma writer_ok_closed n0 fw w :
  writer_ok n0 fw w ->
  final_log_file_ fw = None -> current_event_file_ fw = None ->
  forall id, (n0 <= id)%nat -> streams w !! id = None.
Proof.
  intros (_ & _ & _ & _ & Hopen) Hf Hc id Hge.
  destruct (streams w !! id) as [st|] eqn:Hst; [|reflexivity].
  destruct (Hopen id (stream_path st) Hge) as [[E _]|[E _]];
    [rewrite Hst; reflexivity | congruence | congruence].
Qed.

Lemma writer_ok_unbounded n0 fw w :
  writer_ok n0 fw w -> IsBounded fw = false -> current_event_file_ fw = None.
Proof.
  intros (_ & _ & _ & Hcur & _) Hb.
  destruct (current_event_file_ fw) as [id|]; [|reflexivity].
  destruct (Hcur id eq_refl). congruence.
Qed.

Lemma StitchFinalLogFile_ok n0 fw w fw' w' :
  writer_ok n0 fw w ->
  IsBounded fw = true ->
  StitchFinalLogFile fw w = Done fw' w' ->
  writer_ok n0 fw' w' /\ kept n0 fw w w' /\
  current_event_file_ fw' = None /\
  final_log_path_ fw' = final_log_path_ fw /\
  max_event_file_size_ fw' = max_event_file_size_ fw.
Proof.
  intros Hok Hb H. unfold StitchFinalLogFile in H.
  apply io_bind_inv in H as ([] & w1 & H1 & H).
  apply io_bind_inv in H as (file & w2 & H2 & H).
  apply io_bind_inv in H as ([] & w3 & H3 & H).
  apply io_bind_inv in H as ([] & w4 & H4 & H).
  apply io_bind_inv in H as ([] & w5 & H5 & H).
  apply io_bind_inv in H as ([] & w6 & H6 & H).
  apply io_bind_inv in H as ([] & w7 & H7 & H).
  apply io_bind_inv in H as ([] & w8 & H8 & H).
  injection H as <- <-.
  destruct (close_current_ok n0 fw w w1 Hok H1) as [Hok1 Hkept1].
  set (fw1 := set_current_event_file None fw) in *.
  destruct (reopen_final_ok n0 fw1 w1 file w2 w3 Hok1 H2 H3)
    as [Hok3 Hkept3].
  set (fw2 := set_final_log_file file fw1) in *.
  assert (Hb2 : IsBounded fw2 = true) by exact Hb.
  assert (Hdst : forall w0 q,
            writer_ok n0 fw2 w0 ->
            (exists id, final_log_file_ fw2 = Some id /\
                        stream_path <$> streams w0 !! id = Some q) ->
            log_files fw2 q).
  { intros w0 q Hok0 (id & Hid & Hp).
    eapply writer_ok_handle; [exact Hok0 | left; exact Hid | exact Hp]. }
  assert (Hin : forall name,
            log_files fw2 (AppendASCII (GetInprogressDirectory fw2) name)).
  { intros name. right. split; [exact Hb2|]. right.
    apply inside_inprogress. }
  pose proof Hok3 as (Hwf3 & _).
  apply AppendToFileThenDelete_quiet in H4; [|exact Hwf3].
  destruct (quiet_writer_ok _ n0 fw2 w3 w4 Hok3 H4) as [Hok4 Hkept4].
  { intros q [->|Hq]; [apply Hin | eapply Hdst; eassumption]. }
  pose proof Hok4 as (Hwf4 & _).
  apply append_event_files_quiet in H5; [|exact Hwf4].
  destruct (quiet_writer_ok _ n0 fw2 w4 w5 Hok4 H5) as [Hok5 Hkept5].
  { intros q [[index ->]|Hq]; [apply Hin | eapply Hdst; eassumption]. }
  pose proof Hok5 as (Hwf5 & _).
  apply RewindIfWroteEventBytes_quiet in H6; [|exact Hwf5].
  destruct (quiet_writer_ok _ n0 fw2 w5 w6 Hok5 H6) as [Hok6 Hkept6].
  { intros q []. }
  pose proof Hok6 as (Hwf6 & _).
  apply AppendToFileThenDelete_quiet in H7; [|exact Hwf6].
  destruct (quiet_writer_ok _ n0 fw2 w6 w7 Hok6 H7) as [Hok7 Hkept7].
  { intros q [->|Hq]; [apply Hin | eapply Hdst; eassumption]. }
  pose proof Hok7 as (Hwf7 & _).
  apply DeleteFile_quiet in H8; [|exact Hwf7].
  destruct (quiet_writer_ok _ n0 fw2 w7 w8 Hok7 H8) as [Hok8 Hkept8].
  { intros q [->|[_ Hq]]; right; (split; [exact Hb2|]); auto. }
  split; [exact Hok8|]. split; [|split_and!; reflexivity].
  assert (Hk : forall wa wb wc, kept n0 fw2 wa wb -> kept n0 fw2 wb wc ->
                                kept n0 fw2 wa wc)
    by (intros wa wb wc; apply kept_trans; reflexivity).
  eapply (kept_trans n0 fw fw1); [reflexivity | reflexivity | exact Hkept1|].
  eapply (kept_trans n0 fw1 fw2); [reflexivity | reflexivity | exact Hkept3|].
  eauto 10.
Qed.

(** After [Stop] the writer has no stream left. *)
Lemma Stop_ok n0 polled_data fw w fw' w' :
  writer_ok n0 fw w ->
  Stop polled_data fw w = Done fw' w' ->
  kept n0 fw w w' /\ wf_world w' /\
  (forall id, (n0 <= id)%nat -> streams w' !! id = None).
Proof.
  intros Hok H. unfold Stop in H.
  apply io_bind_inv in H as ([] & w1 & H1 & H).
  apply io_bind_inv in H as (fw2 & w2 & H2 & H).
  apply io_bind_inv in H as ([] & w3 & H3 & H).
  injection H as <- <-.
  pose proof Hok as (Hwf & _).
  assert (Hok1 : writer_ok n0 fw w1 /\ kept n0 fw w w1).
  { destruct (IsBounded fw) eqn:Hb.
    - apply io_bind_inv in H1 as (closing_file & wa & Ha & H1).
      apply io_bind_inv in H1 as ([] & wb & Hb' & H1).
      assert (Hwfa : wf_world wa).
      { pose proof Ha as Heff. apply OpenFile_effect in Heff as (_ & Heff).
        destruct closing_file as [c|].
        - destruct Heff as (-> & Hna & Hsa). intros id Hid.
          rewrite Hsa, lookup_insert_ne by lia. apply Hwf. lia.
        - destruct Heff as (Hsa & Hna & _). intros id Hid.
          rewrite Hsa. apply Hwf. lia. }
      apply WritePolledDataToFile_quiet in Hb'; [|exact Hwfa].
      pose proof (scoped_write_quiet _ _ _ _ _ _ _ Hwf Ha Hb' H1) as Hq.
      apply (quiet_writer_ok _ n0 fw w w1 Hok Hq).
      intros q ->. right. split; [exact Hb|]. right.
      apply inside_inprogress.
    - apply io_bind_inv in H1 as ([] & wa & Ha & H1).
      apply RewindIfWroteEventBytes_quiet in Ha; [|exact Hwf].
      destruct (quiet_writer_ok _ n0 fw w wa Hok Ha) as [Hoka Hkepta].
      { intros q []. }
      pose proof Hoka as (Hwfa & _).
      apply WritePolledDataToFile_quiet in H1; [|exact Hwfa].
      destruct (quiet_writer_ok _ n0 fw wa w1 Hoka H1) as [Hok1 Hkept1].
      { intros q (id & Hid & Hp).
        eapply writer_ok_handle; [exact Hoka | left; exact Hid | exact Hp]. }
      split; [exact Hok1|].
      eapply kept_trans; [| | exact Hkepta | exact Hkept1]; reflexivity. }
  destruct Hok1 as [Hok1 Hkept1].
  assert (Hok2 : writer_ok n0 fw2 w2 /\ kept n0 fw w1 w2 /\
                 current_event_file_ fw2 = None /\
                 final_log_path_ fw2 = final_log_path_ fw /\
                 max_event_file_size_ fw2 = max_event_file_size_ fw).
  { destruct (IsBounded fw) eqn:Hb.
    - eapply StitchFinalLogFile_ok; eassumption.
    - injection H2 as <- <-. split_and!; auto using kept_refl.
      eapply writer_ok_unbounded; eassumption. }
  destruct Hok2 as (Hok2 & Hkept2 & Hcur2 & Hp2 & Hm2).
  destruct (close_final_ok n0 fw2 w2 w3 Hok2 H3) as [Hok3 Hkept3].
  split_and!.
  - eapply kept_trans; [reflexivity | reflexivity | exact Hkept1|].
    eapply kept_trans; [exact Hp2 | exact Hm2 | exact Hkept2 | exact Hkept3].
  - apply Hok3.
  - apply (writer_ok_closed n0 _ w3 Hok3); [reflexivity | exact Hcur2].
Qed.

(** After [DeleteAllFiles] the writer has no stream left either. *)
Lemma DeleteAllFiles_ok n0 fw w fw' w' :
  writer_ok n0 fw w ->
  DeleteAllFiles fw w = Done fw' w' ->
  kept n0 fw w w' /\ wf_world w' /\
  (forall id, (n0 <= id)%nat -> streams w' !! id = None).
Proof.
  intros Hok H. unfold DeleteAllFiles in H.
  apply io_bind_inv in H as ([] & w1 & H1 & H).
  apply io_bind_inv in H as (fw2 & w2 & H2 & H).
  apply io_bind_inv in H as ([] & w3 & H3 & H).
  injection H as <- <-.
  destruct (close_final_ok n0 fw w w1 Hok H1) as [Hok1 Hkept1].
  set (fw1 := set_final_log_file None fw) in *.
  assert (Hok2 : writer_ok n0 fw2 w2 /\ kept n0 fw1 w1 w2 /\
                 final_log_file_ fw2 = None /\
                 current_event_file_ fw2 = None /\
                 final_log_path_ fw2 = final_log_path_ fw /\
                 max_event_file_size_ fw2 = max_event_file_size_ fw).
  { destruct (IsBounded fw1) eqn:Hb.
    - apply io_bind_inv in H2 as ([] & wa & Ha & H2).
      apply io_bind_inv in H2 as ([] & wb & Hb' & H2).
      injection H2 as <- <-.
      destruct (close_current_ok n0 fw1 w1 wa Hok1 Ha) as [Hoka Hkepta].
      pose proof Hoka as (Hwfa & _).
      apply DeleteFile_quiet in Hb'; [|exact Hwfa].
      destruct (quiet_writer_ok _ n0 _ wa wb Hoka Hb') as [Hokb Hkeptb].
      { intros q [->|[_ Hq]]; right; (split; [exact Hb|]); auto. }
      split_and!; try reflexivity; [exact Hokb|].
      eapply kept_trans; [| | exact Hkepta | exact Hkeptb]; reflexivity.
    - injection H2 as <- <-. split_and!; auto using kept_refl.
      eapply writer_ok_unbounded; eassumption. }
  destruct Hok2 as (Hok2 & Hkept2 & Hfin2 & Hcur2 & Hp2 & Hm2).
  pose proof Hok2 as (Hwf2 & _).
  apply DeleteFile_quiet in H3; [|exact Hwf2].
  destruct (quiet_writer_ok _ n0 fw2 w2 w3 Hok2 H3) as [Hok3 Hkept3].
  { intros q [->|[E _]]; [left; reflexivity | discriminate]. }
  split_and!.
  - eapply kept_trans; [reflexivity | reflexivity | exact Hkept1|].
    eapply kept_trans; [exact Hp2 | exact Hm2 | exact Hkept2 | exact Hkept3].
  - apply Hok3.
  - apply (writer_ok_closed n0 fw2 w3 Hok3); assumption.
Qed.

Lemma flush_each_total : forall write_queues fw w,
  exists fw' w', flush_each write_queues fw w = Done fw' w'.
Proof.
  induction write_queues as [|write_queue rest IH]; intros fw w.
  - exists fw, w. reflexivity.
  - destruct (Flush_general write_queue fw w) as (fw1 & w1 & evs & H & _).
    destruct (IH fw1 w1) as (fw' & w' & H').
    exists fw', w'. cbn [flush_each]. rewrite (io_bind_done _ _ _ _ _ H).
    exact H'.
Qed.

Lemma FileWriter_new_ok log_path max_event_file_size total_num_event_files
    indeterminate w :
  wf_world w ->
  writer_ok (next_stream w)
    (FileWriter_new log_path max_event_file_size total_num_event_files
       indeterminate) w.
Proof.
  intros Hwf. unfold writer_ok. split_and!; auto; try discriminate.
  intros id p Hge Hp. rewrite Hwf in Hp by exact Hge. discriminate.
Qed.

(** The streams and files of a whole run of a new writer. *)
Lemma writer_run_ok constants write_queues polled_data log_path
    max_event_file_size total_num_event_files indeterminate w :
  wf_world w ->
  let fw := FileWriter_new log_path max_event_file_size
              total_num_event_files indeterminate in
  exists fw' w',
    writer_run constants write_queues polled_data fw w = Done fw' w' /\
    kept (next_stream w) fw w w' /\
    (forall id, (next_stream w <= id)%nat -> streams w' !! id = None).
Proof.
  intros Hwf fw.
  pose proof (FileWriter_new_ok log_path max_event_file_size
                total_num_event_files indeterminate w Hwf) as Hok.
  fold fw in Hok.
  destruct (Initialize_general constants fw w) as (file & w1 & e1 & H1 & _).
  destruct (flush_each_total write_queues (set_final_log_file file fw) w1)
    as (fw2 & w2 & H2).
  destruct (Stop_general polled_data fw2 w2) as (w3 & e3 & H3 & _).
  destruct (Initialize_ok _ _ _ _ _ _ Hok H1) as (Hok1 & Hkept1 & Hp1 & Hm1).
  destruct (flush_each_ok _ _ _ _ _ _ Hok1 H2)
    as (Hok2 & Hkept2 & Hp2 & Hm2).
  destruct (Stop_ok _ _ _ _ _ _ Hok2 H3) as (Hkept3 & _ & Hclosed).
  exists (stopped fw2), w3. unfold writer_run.
  rewrite (io_bind_done _ _ _ _ _ H1), (io_bind_done _ _ _ _ _ H2).
  split; [exact H3|]. split; [|exact Hclosed].
  eapply kept_trans; [exact Hp1 | exact Hm1 | exact Hkept1|].
  eapply kept_trans; [exact Hp2 | exact Hm2 | exact Hkept2 | exact Hkept3].
Qed.

(** X5.  Whatever the operating system does, a run of a new writer
    ([Initialize], any number of [Flush] tasks, [Stop]) creates, changes
    or deletes no file but the final log file and, in bounded mode, the
    in-progress directory with the files inside it. *)
Theorem X5_writer_touches_only_its_files (constants : Value)
    (write_queues : list WriteQueue) (polled_data : option Value)
    (log_path : string)
    (max_event_file_size total_num_event_files indeterminate : Z)
    (w : World) :
  wf_world w ->
  let fw := FileWriter_new log_path max_event_file_size
              total_num_event_files indeterminate in
  exists fw' w',
    writer_run constants write_queues polled_data fw w = Done fw' w' /\
    forall q,
      q <> log_path ->
      (IsBounded fw = true ->
       q <> GetInprogressDirectory fw /\
       inside_directory (GetInprogressDirectory fw) q = false) ->
      disk w' !! q = disk w !! q.
Proof.
  intros Hwf fw.
  destruct (writer_run_ok constants write_queues polled_data log_path
              max_event_file_size total_num_event_files indeterminate w Hwf)
    as (fw' & w' & H & [_ Hdisk] & _).
  exists fw', w'. split; [exact H|].
  intros q Hq Hdir. apply Hdisk. intros [Hfinal|[Hb [Hd|Hin]]].
  - apply Hq. exact Hfinal.
  - destruct (Hdir Hb) as [Hne _]. apply Hne. exact Hd.
  - destruct (Hdir Hb) as [_ Hout]. fold fw in Hin. congruence.
Qed.

(** X6.  Whatever the operating system does, a run of a new writer that
    ends with [Stop], or with [DeleteAllFiles], leaves no stream open that
    it opened, and leaves every stream that was open before open on the
    same file. *)
Theorem X6_writer_leaves_no_stream_open (constants : Value)
    (write_queues : list WriteQueue) (polled_data : option Value)
    (log_path : string)
    (max_event_file_size total_num_event_files indeterminate : Z)
    (w : World) :
  wf_world w ->
  let fw := FileWriter_new log_path max_event_file_size
              total_num_event_files indeterminate in
  (exists fw' w',
     writer_run constants write_queues polled_data fw w = Done fw' w' /\
     forall id, stream_path <$> streams w' !! id
                = stream_path <$> streams w !! id) /\
  (exists fw' w',
     (let* fw1 := Initialize constants fw in
      let* fw2 := flush_each write_queues fw1 in
      DeleteAllFiles fw2) w = Done fw' w' /\
     forall id, stream_path <$> streams w' !! id
                = stream_path <$> streams w !! id).
Proof.
  intros Hwf fw.
  assert (Hsame : forall w' : World,
            kept (next_stream w) fw w w' ->
            (forall id, (next_stream w <= id)%nat ->
                        streams w' !! id = None) ->
            forall id, stream_path <$> streams w' !! id
                       = stream_path <$> streams w !! id).
  { intros w' [Hold _] Hnew id.
    destruct (decide (id < next_stream w)%nat) as [Hlt|Hge].
    - apply Hold. exact Hlt.
    - rewrite Hnew, Hwf by lia. reflexivity. }
  split.
  - destruct (writer_run_ok constants write_queues polled_data log_path
                max_event_file_size total_num_event_files indeterminate w
                Hwf)
      as (fw' & w' & H & Hkept & Hclosed).
    exists fw', w'. split; [exact H|]. apply Hsame; assumption.
  - pose proof (FileWriter_new_ok log_path max_event_file_size
                  total_num_event_files indeterminate w Hwf) as Hok.
    fold fw in Hok.
    destruct (Initialize_general constants fw w) as (file & w1 & e1 & H1 & _).
    destruct (flush_each_total write_queues (set_final_log_file file fw) w1)
      as (fw2 & w2 & H2).
    destruct (DeleteAllFiles_general fw2 w2) as (fw3 & w3 & e3 & H3 & _).
    destruct (Initialize_ok _ _ _ _ _ _ Hok H1)
      as (Hok1 & Hkept1 & Hp1 & Hm1).
    destruct (flush_each_ok _ _ _ _ _ _ Hok1 H2)
      as (Hok2 & Hkept2 & Hp2 & Hm2).
    destruct (DeleteAllFiles_ok _ _ _ _ _ Hok2 H3) as (Hkept3 & _ & Hclosed).
    exists fw3, w3.
    rewrite (io_bind_done _ _ _ _ _ H1), (io_bind_done _ _ _ _ _ H2).
    split; [exact H3|]. apply Hsame; [|exact Hclosed].
    eapply kept_trans; [exact Hp1 | exact Hm1 | exact Hkept1|].
    eapply kept_trans; [exact Hp2 | exact Hm2 | exact Hkept2 | exact Hkept3].
Qed.
(** ** Cleaning up *)

Lemma ScopedFILE_reset_trace file w w' :
  ScopedFILE_reset file w = Done tt w' ->
  env w' = env w /\ trace w' = trace w ++ close_events file.
Proof.
  destruct file as [id|]; cbn; intros [= <-]; cbn; [auto|].
  rewrite app_nil_r. auto.
Qed.

Lemma DeleteFile_trace path recursive w w' :
  DeleteFile path recursive w = Done tt w' ->
  env w' = env w /\ trace w' = trace w ++ [EvDeleteFile path recursive].
Proof. intros [= <-]. cbn. auto. Qed.

(** A recursive delete that the operating system carries out for [q]. *)
Lemma DeleteFile_recursive_gone path q w w' :
  DeleteFile path true w = Done tt w' ->
  env_delete_ok (env w) (trace w) path true q = true ->
  q = path \/ inside_directory path q = true ->
  disk w' !! q = None.
Proof.
  intros H Hok Hq. eapply DeleteFile_removes; [exact H | | exact Hok].
  unfold delete_covers. destruct Hq as [->|Hin].
  - rewrite bool_decide_eq_true_2 by reflexivity. reflexivity.
  - rewrite Hin. apply orb_true_r.
Qed.

(** [Stop] in bounded mode ends with [StitchFinalLogFile], which ends
    with the recursive delete of the in-progress directory; only the
    close of the final log file comes after it. *)
Lemma Stop_bounded_last_delete polled_data fw w fw' w' :
  IsBounded fw = true ->
  Stop polled_data fw w = Done fw' w' ->
  exists w1 w2 file,
    DeleteFile (GetInprogressDirectory fw) true w1 = Done tt w2 /\
    disk w' = disk w2 /\
    env w1 = env w' /\
    trace w'
    = trace w1 ++ EvDeleteFile (GetInprogressDirectory fw) true
                  :: close_events file.
Proof.
  intros Hb H. unfold Stop in H. rewrite Hb in H.
  apply io_bind_inv in H as ([] & wa & _ & H).
  apply io_bind_inv in H as (fw2 & wb & Hstitch & H).
  apply io_bind_inv in H as ([] & wc & Hclose & H).
  injection H as _ <-.
  pose proof (ScopedFILE_reset_trace _ _ _ Hclose) as [Hec Htc].
  apply ScopedFILE_reset_effect in Hclose as (_ & Hd & _).
  unfold StitchFinalLogFile in Hstitch.
  apply io_bind_inv in Hstitch as ([] & w1 & _ & Hstitch).
  apply io_bind_inv in Hstitch as (file & w2 & _ & Hstitch).
  apply io_bind_inv in Hstitch as ([] & w3 & _ & Hstitch).
  apply io_bind_inv in Hstitch as ([] & w4 & _ & Hstitch).
  apply io_bind_inv in Hstitch as ([] & w5 & _ & Hstitch).
  apply io_bind_inv in Hstitch as ([] & w6 & _ & Hstitch).
  apply io_bind_inv in Hstitch as ([] & w7 & _ & Hstitch).
  apply io_bind_inv in Hstitch as ([] & w8 & Hdelete & Hstitch).
  injection Hstitch as <- <-.
  pose proof (DeleteFile_trace _ _ _ _ Hdelete) as [He8 Ht8].
  exists w7, w8, file.
  split; [exact Hdelete|]. split; [exact Hd|]. split; [congruence|].
  rewrite Htc, Ht8, <- app_assoc. reflexivity.
Qed.

(** X7.  When [Stop] returns in bounded mode, whatever the operating
    system granted or refused on the way, the last thing asked of it but
    for closing the final log file is to delete the in-progress directory
    with everything inside; and every file of the directory that the
    operating system agrees to remove at that request is gone.  So on an
    operating system that carries out the deletions it is asked for, the
    directory is gone after [Stop] with the constants file, the closing
    file and every event file. *)
Theorem X7_stop_removes_inprogress_directory (polled_data : option Value)
    (fw : FileWriter) (w : World) :
  IsBounded fw = true ->
  let directory := GetInprogressDirectory fw in
  exists w' before file,
    Stop polled_data fw w = Done (stopped fw) w' /\
    trace w' = before ++ EvDeleteFile directory true :: close_events file /\
    (forall q, q = directory \/ inside_directory directory q = true ->
               env_delete_ok (env w) before directory true q = true ->
               disk w' !! q = None) /\
    (deletes_carried_out (env w) ->
     disk w' !! directory = None /\
     (forall q, inside_directory directory q = true -> disk w' !! q = None) /\
     disk w' !! GetConstantsFilePath fw = None /\
     disk w' !! GetClosingFilePath fw = None /\
     (forall index, disk w' !! GetEventFilePath fw index = None)).
Proof.
  intros Hb directory.
  destruct (Stop_general polled_data fw w) as (w' & evs & H & Hx & _).
  destruct (Stop_bounded_last_delete polled_data fw w _ w' Hb H)
    as (w1 & w2 & file & Hdelete & Hd & He1 & Htrace).
  assert (Henv : env w1 = env w).
  { rewrite He1. eapply extends_env. exact Hx. }
  assert (Hgone : forall q,
            q = directory \/ inside_directory directory q = true ->
            env_delete_ok (env w) (trace w1) directory true q = true ->
            disk w' !! q = None).
  { intros q Hq Hok. rewrite Hd.
    eapply DeleteFile_recursive_gone; [exact Hdelete | | exact Hq].
    rewrite Henv. exact Hok. }
  exists w', (trace w1), file. split; [exact H|].
  split; [exact Htrace|]. split; [exact Hgone|].
  intros Hcarried.
  assert (Hall : forall q,
            q = directory \/ inside_directory directory q = true ->
            disk w' !! q = None).
  { intros q Hq. apply Hgone; [exact Hq | apply Hcarried]. }
  split_and!.
  - apply Hall. left. reflexivity.
  - intros q Hq. apply Hall. right. exact Hq.
  - apply Hall. right. apply inside_inprogress.
  - apply Hall. right. apply inside_inprogress.
  - intros index. apply Hall. right. apply inside_inprogress.
Qed.

(** What [DeleteAllFiles] asks for and what it leaves on the disk. *)
Lemma DeleteAllFiles_disk fw w fw' w' :
  DeleteAllFiles fw w = Done fw' w' ->
  env w' = env w /\
  last (trace w') = Some (EvDeleteFile (final_log_path_ fw) false) /\
  (deletes_carried_out (env w) ->
   disk w' !! final_log_path_ fw = None /\
   (IsBounded fw = true ->
    forall q, q = GetInprogressDirectory fw \/
              inside_directory (GetInprogressDirectory fw) q = true ->
              disk w' !! q = None)) /\
  (IsBounded fw = false ->
   forall q, q <> final_log_path_ fw -> disk w' !! q = disk w !! q).
Proof.
  intros H. unfold DeleteAllFiles in H.
  apply io_bind_inv in H as ([] & w1 & H1 & H).
  apply io_bind_inv in H as (fw2 & w2 & H2 & H).
  apply io_bind_inv in H as ([] & w3 & H3 & H).
  injection H as _ <-.
  pose proof (ScopedFILE_reset_trace _ _ _ H1) as [He1 _].
  apply ScopedFILE_reset_effect in H1 as (_ & Hd1 & _).
  change (IsBounded (set_final_log_file None fw)) with (IsBounded fw) in H2.
  assert (Hpath : final_log_path_ fw2 = final_log_path_ fw).
  { destruct (IsBounded fw).
    - apply io_bind_inv in H2 as ([] & wa & _ & H2).
      apply io_bind_inv in H2 as ([] & wb & _ & H2).
      injection H2 as <- _. reflexivity.
    - injection H2 as <- _. reflexivity. }
  rewrite Hpath in H3.
  assert (He2 : env w2 = env w).
  { rewrite <- He1. destruct (IsBounded fw).
    - apply io_bind_inv in H2 as ([] & wa & Ha & H2).
      apply io_bind_inv in H2 as ([] & wb & Hb & H2).
      injection H2 as _ <-.
      apply ScopedFILE_reset_trace in Ha as [Ha _].
      apply DeleteFile_trace in Hb as [Hb _]. congruence.
    - injection H2 as _ <-. reflexivity. }
  pose proof (DeleteFile_trace _ _ _ _ H3) as [He3 Ht3].
  split; [congruence|].
  split; [rewrite Ht3; apply last_snoc|].
  split.
  - intros Hcarried. split.
    + eapply DeleteFile_removes; [exact H3 | apply delete_covers_self|].
      rewrite He2. apply Hcarried.
    + intros Hb q Hq. rewrite Hb in H2.
      apply io_bind_inv in H2 as ([] & wa & Ha & H2).
      apply io_bind_inv in H2 as ([] & wb & Hdel & H2).
      injection H2 as _ <-.
      assert (Hgone : disk wb !! q = None).
      { eapply DeleteFile_recursive_gone; [exact Hdel | | exact Hq].
        apply ScopedFILE_reset_trace in Ha as [Ha _].
        rewrite Ha, He1. apply Hcarried. }
      rewrite (DeleteFile_disk _ _ _ _ H3).
      destruct (_ && _); [reflexivity | exact Hgone].
  - intros Hb q Hq. rewrite Hb in H2. injection H2 as _ <-.
    rewrite (DeleteFile_keeps _ _ _ _ q H3)
      by (apply delete_covers_other_file; exact Hq).
    rewrite Hd1. reflexivity.
Qed.

(** ** An observer destroyed while it observes *)

Lemma run_tasks_app : forall tasks1 tasks2 write_queue fw w,
  run_tasks (tasks1 ++ tasks2) write_queue fw w
  = (let* state := run_tasks tasks1 write_queue fw in
     run_tasks tasks2 (fst state) (snd state)) w.
Proof.
  induction tasks1 as [|task rest IH]; intros tasks2 write_queue fw w.
  - reflexivity.
  - cbn [app run_tasks]. unfold io_bind.
    destruct (run_task task write_queue fw w) as [state w1| |];
      [|reflexivity..].
    rewrite IH. reflexivity.
Qed.

Lemma run_task_observing task write_queue fw w :
  observing_task task ->
  exists write_queue' fw' w',
    run_task task write_queue fw w = Done (write_queue', fw') w' /\
    final_log_path_ fw' = final_log_path_ fw /\
    max_event_file_size_ fw' = max_event_file_size_ fw /\
    env w' = env w.
Proof.
  destruct task as [constants| |polled_data reply| |]; cbn [observing_task];
    intros Htask; try contradiction; cbn [run_task].
  - destruct (Initialize_general constants fw w)
      as (file & w' & evs & H & Hx & _).
    eexists _, _, w'. rewrite (io_bind_done _ _ _ _ _ H).
    split; [reflexivity|]. split_and!; [reflexivity..|].
    eapply extends_env. exact Hx.
  - destruct (Flush_general write_queue fw w)
      as (fw' & w' & evs & H & Hloop & Hx).
    destruct (Flush_loop_general (queue_ write_queue) fw w)
      as (fw2 & w2 & evs2 & Hloop2 & _ & _ & _ & Hp & _ & _ & Hm & _).
    rewrite Hloop in Hloop2. injection Hloop2 as <- <-.
    eexists _, _, w'. split; [exact H|]. split_and!; [assumption..|].
    eapply extends_env. exact Hx.
Qed.

Lemma run_tasks_observing : forall tasks write_queue fw w,
  Forall observing_task tasks ->
  exists write_queue' fw' w',
    run_tasks tasks write_queue fw w = Done (write_queue', fw') w' /\
    final_log_path_ fw' = final_log_path_ fw /\
    max_event_file_size_ fw' = max_event_file_size_ fw /\
    env w' = env w.
Proof.
  induction tasks as [|task rest IH]; intros write_queue fw w Htasks.
  - exists write_queue, fw, w. split; [reflexivity|]. split_and!; reflexivity.
  - apply Forall_cons in Htasks as [Htask Hrest].
    destruct (run_task_observing task write_queue fw w Htask)
      as (wq1 & fw1 & w1 & H1 & Hp1 & Hm1 & He1).
    destruct (IH wq1 fw1 w1 Hrest)
      as (wq2 & fw2 & w2 & H2 & Hp2 & Hm2 & He2).
    exists wq2, fw2, w2. cbn [run_tasks].
    rewrite (io_bind_done _ _ _ _ _ H1). cbn [fst snd].
    split; [exact H2|]. split_and!; congruence.
Qed.

Lemma OnAddEntry_observing log_path max_event_file_size entry obs :
  observing log_path max_event_file_size obs ->
  observing log_path max_event_file_size (OnAddEntry entry obs).
Proof.
  intros (Hn & Hp & Hm & Ht). unfold OnAddEntry, JSONWriter_Write.
  destruct (negb (json_ok entry)); [repeat split; assumption|].
  destruct (AddEntryToQueue (json_text entry) (write_queue_ obs))
    as [queue_size write_queue].
  destruct (queue_size =? kNumWriteQueueEvents).
  - repeat split; try assumption. cbn [PostTask file_task_runner_].
    apply Forall_app. split; [exact Ht|].
    apply Forall_cons. split; [exact I | apply Forall_nil_2].
  - repeat split; assumption.
Qed.

Lemma system_step_observing log_path max_event_file_size action obs w :
  observing log_path max_event_file_size obs ->
  exists obs' w',
    system_step action obs w = Done obs' w' /\
    observing log_path max_event_file_size obs' /\
    env w' = env w.
Proof.
  intros Hobs. destruct action as [entry|]; cbn [system_step].
  - eexists _, w. split; [reflexivity|]. split; [|reflexivity].
    apply OnAddEntry_observing. exact Hobs.
  - destruct Hobs as (Hn & Hp & Hm & Ht).
    destruct (file_task_runner_ obs) as [|task rest] eqn:Etasks.
    + exists obs, w. split; [reflexivity|]. split; [|reflexivity].
      repeat split; try assumption.
      rewrite Etasks. apply Forall_nil_2.
    + apply Forall_cons in Ht as [Htask Hrest].
      destruct (run_task_observing task (write_queue_ obs) (file_writer_ obs)
                  w Htask) as (wq1 & fw1 & w1 & H1 & Hp1 & Hm1 & He1).
      eexists _, w1. rewrite (io_bind_done _ _ _ _ _ H1).
      split; [reflexivity|]. cbn [fst snd]. split; [|exact He1].
      repeat split; cbn; try assumption; congruence.
Qed.

Lemma system_run_observing log_path max_event_file_size :
  forall actions obs w,
  observing log_path max_event_file_size obs ->
  exists obs' w',
    system_run actions obs w = Done obs' w' /\
    observing log_path max_event_file_size obs' /\
    env w' = env w.
Proof.
  induction actions as [|action rest IH]; intros obs w Hobs.
  - exists obs, w. split; [reflexivity|]. split; [exact Hobs | reflexivity].
  - destruct (system_step_observing _ _ action obs w Hobs)
      as (obs1 & w1 & H1 & Hobs1 & He1).
    destruct (IH obs1 w1 Hobs1) as (obs2 & w2 & H2 & Hobs2 & He2).
    exists obs2, w2. cbn [system_run].
    rewrite (io_bind_done _ _ _ _ _ H1). split; [exact H2|].
    split; [exact Hobs2 | congruence].
Qed.

(** X8.  An observer that is destroyed while it is still observing asks
    for its log to be deleted.  However the entries delivered so far
    interleaved with the tasks of the file task runner and whatever the
    operating system granted or refused, the last thing the tasks posted
    by the destructor ask of the operating system is to delete the final
    log file; and on an operating system that carries out the deletions it
    is asked for, the final log file is gone afterwards, and in bounded
    mode so is the in-progress directory with everything inside it.  After
    [StopObserving] the destructor deletes nothing: the file task runner
    does what it does without it. *)
Theorem X8_destroyed_while_observing_deletes_log (log_path : string)
    (max_total_size total_num_event_files : Z) (constants : option Value)
    (GetNetConstants : Value) (indeterminate : Z)
    (actions : list system_action) (w : World) :
  1 <= total_num_event_files ->
  let created :=
    CreateBoundedInternal log_path max_total_size total_num_event_files
      constants GetNetConstants indeterminate in
  let directory := GetInprogressDirectory (file_writer_ created) in
  exists obs w1,
    system_run actions (StartObserving created) w = Done obs w1 /\
    exists state w2,
      run_tasks (file_task_runner_ (FileNetLogObserver_delete obs))
        (write_queue_ obs) (file_writer_ obs) w1 = Done state w2 /\
      last (trace w2) = Some (EvDeleteFile log_path false) /\
      (deletes_carried_out (env w) ->
       disk w2 !! log_path = None /\
       (IsBounded (file_writer_ created) = true ->
        forall q, q = directory \/ inside_directory directory q = true ->
                  disk w2 !! q = None)) /\
      forall polled_data optional_callback,
        let stopped_observer :=
          StopObserving polled_data optional_callback obs in
        run_tasks (file_task_runner_ (FileNetLogObserver_delete
                                        stopped_observer))
          (write_queue_ obs) (file_writer_ obs) w1
        = run_tasks (file_task_runner_ stopped_observer)
            (write_queue_ obs) (file_writer_ obs) w1.
Proof.
  intros HN created directory.
  set (size := max_event_file_size_ (file_writer_ created)).
  assert (Hstart : observing log_path size (StartObserving created)).
  { repeat split. cbn. apply Forall_cons. split; [exact I|].
    apply Forall_nil_2. }
  destruct (system_run_observing log_path size actions _ w Hstart)
    as (obs & w1 & Hrun & (Hn & Hp & Hm & Ht) & He1).
  exists obs, w1. split; [exact Hrun|].
  unfold FileNetLogObserver_delete. rewrite Hn.
  cbn [PostTask file_task_runner_]. rewrite <- app_assoc.
  destruct (run_tasks_observing (file_task_runner_ obs) (write_queue_ obs)
              (file_writer_ obs) w1 Ht)
    as (wq2 & fw2 & w2 & H2 & Hp2 & Hm2 & He2).
  destruct (DeleteAllFiles_general fw2 w2) as (fw3 & w3 & evs & H3 & _).
  exists (wq2, fw3), w3. rewrite run_tasks_app.
  rewrite (io_bind_done _ _ _ _ _ H2). cbn [fst snd app run_tasks run_task].
  rewrite io_bind_assoc, (io_bind_done _ _ _ _ _ H3).
  split; [reflexivity|].
  destruct (DeleteAllFiles_disk fw2 w2 fw3 w3 H3)
    as (_ & Hlast & Hgone & _).
  assert (Hsame : IsBounded fw2 = IsBounded (file_writer_ created)).
  { unfold IsBounded, IsUnbounded. rewrite Hm2, Hm. reflexivity. }
  assert (Hd : GetInprogressDirectory fw2 = directory).
  { unfold directory, GetInprogressDirectory. rewrite Hp2, Hp. reflexivity. }
  split_and!.
  - rewrite <- Hp, <- Hp2. exact Hlast.
  - intros Hcarried.
    destruct Hgone as [Hfinal Hdir]; [rewrite He2, He1; exact Hcarried|].
    split.
    + rewrite <- Hp, <- Hp2. exact Hfinal.
    + intros Hb q Hq. apply Hdir; [congruence | rewrite Hd; exact Hq].
  - intros polled_data optional_callback.
    cbn [StopObserving PostTask file_task_runner_ net_log_].
    rewrite (run_tasks_app (_ ++ [_]) [TaskDeleteSoon]).
    unfold io_bind.
    destruct (run_tasks
                (file_task_runner_ obs
                 ++ [TaskFlushThenStop polled_data optional_callback])
                (write_queue_ obs) (file_writer_ obs) w1)
      as [[write_queue fw] w'| |]; reflexivity.
Qed.

(** ** Initialize when the final file cannot be opened *)








(** ** A bounded log is bounded *)

(** No event file is asked to hold more than the limit and one event. *)
Lemma add_event_chunk_size max bound chunks event :
  0 <= max ->
  string_size event + 2 <= bound ->
  Forall (fun chunk => string_size (events_text chunk) <= max + bound)
    chunks ->
  Forall (fun chunk => string_size (events_text chunk) <= max + bound)
    (add_event max chunks event).
Proof.
  intros Hmax Hevent Hchunks. unfold add_event.
  destruct chunks as [|current older].
  - apply Forall_cons. split; [|apply Forall_nil_2].
    rewrite events_text_size_one. lia.
  - destruct (string_size (events_text current) >=? max) eqn:E.
    + apply Forall_cons. split; [|exact Hchunks].
      rewrite events_text_size_one. lia.
    + apply Forall_cons in Hchunks as [_ Holder].
      apply Forall_cons. split; [|exact Holder].
      rewrite events_text_size_app, events_text_size_one.
      assert (string_size (events_text current) < max) by lia. lia.
Qed.

Lemma chunk_events_chunk_size max bound : forall events chunks,
  0 <= max ->
  Forall (fun event => string_size event + 2 <= bound) events ->
  Forall (fun chunk => string_size (events_text chunk) <= max + bound)
    chunks ->
  Forall (fun chunk => string_size (events_text chunk) <= max + bound)
    (fold_left (add_event max) events chunks).
Proof.
  induction events as [|event events IH]; intros chunks Hmax Hevents Hchunks.
  - exact Hchunks.
  - apply Forall_cons in Hevents as [Hevent Hevents]. cbn [fold_left].
    apply IH; [exact Hmax | exact Hevents|].
    apply add_event_chunk_size; assumption.
Qed.

Lemma chunks_text_size limit : forall chunks,
  0 <= limit ->
  Forall (fun chunk => string_size (events_text chunk) <= limit) chunks ->
  string_size (events_text (concat chunks))
  <= Z.of_nat (length chunks) * limit.
Proof.
  induction chunks as [|chunk chunks IH]; intros Hlimit Hchunks.
  - change (string_size (events_text (concat []))) with 0. cbn. lia.
  - apply Forall_cons in Hchunks as [Hchunk Hchunks].
    cbn [concat length]. rewrite events_text_size_app.
    specialize (IH Hlimit Hchunks). lia.
Qed.

Lemma retained_events_size N max bound chunks :
  0 <= N -> 0 <= max + bound ->
  Forall (fun chunk => string_size (events_text chunk) <= max + bound)
    chunks ->
  string_size (events_text (retained_events N chunks)) <= N * (max + bound).
Proof.
  intros HN Hlimit Hchunks. unfold retained_events.
  assert (Hkept : Forall (fun chunk => string_size (events_text chunk)
                                       <= max + bound)
                    (rev (firstn (Z.to_nat N) chunks))).
  { apply Forall_rev, Forall_take. exact Hchunks. }
  pose proof (chunks_text_size (max + bound) _ Hlimit Hkept) as Hsize.
  rewrite length_rev in Hsize.
  pose proof (firstn_le_length (Z.to_nat N) chunks) as Hlen.
  assert (Z.of_nat (length (firstn (Z.to_nat N) chunks)) <= N).
  { pose proof (length_firstn (Z.to_nat N) chunks). lia. }
  nia.
Qed.

Lemma log_text_size constants events polled_data :
  string_size (log_text constants events polled_data)
  <= string_size (spec_prologue constants)
     + string_size (events_text events)
     + string_size (spec_epilogue polled_data).
Proof.
  unfold log_text. rewrite !string_size_app.
  destruct events as [|e events].
  - change (string_size (String.concat kEventSeparator [])) with 0.
    change (string_size (events_text [])) with 0. lia.
  - rewrite (events_text_joined (e :: events)) by discriminate.
    rewrite string_size_app.
    pose proof (string_size_nonneg kEventSeparator). lia.
Qed.

(** X10.  A bounded log is bounded.  With two event files or more, on
    an operating system that carries out every request, when every event
    with its separator takes at most [bound] bytes, the final log a
    stopped bounded writer leaves holds, beside the prologue and the
    epilogue, at most [total_num_event_files] times
    [max_event_file_size + bound] bytes, however many events were
    flushed. *)
Theorem X10_bounded_log_size (constants : Value)
    (write_queues : list WriteQueue) (polled_data : option Value)
    (log_path : string)
    (max_event_file_size total_num_event_files indeterminate bound : Z)
    (w : World) :
  env w = reliable_env ->
  max_event_file_size <> kNoLimit ->
  0 <= max_event_file_size ->
  2 <= total_num_event_files <= SIZE_MAX ->
  string_size (events_text (queued_events write_queues)) <= SIZE_MAX ->
  0 <= bound ->
  Forall (fun event => string_size event + 2 <= bound)
    (queued_events write_queues) ->
  exists fw' w' text,
    writer_run constants write_queues polled_data
      (FileWriter_new log_path max_event_file_size total_num_event_files
         indeterminate) w = Done fw' w' /\
    disk w' !! log_path = Some text /\
    string_size text
    <= string_size (spec_prologue constants)
       + total_num_event_files * (max_event_file_size + bound)
       + string_size (spec_epilogue polled_data).
Proof.
  intros Henv Hlimit Hmax HN Hfit Hbound Hevents.
  destruct (bounded_run_text constants write_queues polled_data log_path
              max_event_file_size total_num_event_files indeterminate w
              Henv Hlimit ltac:(lia) Hfit)
    as (fw' & w' & Hrun & _ & Hdisk & _).
  eexists fw', w', _. split; [exact Hrun|]. split; [exact Hdisk|].
  etransitivity; [apply log_text_size|].
  assert (Hchunks :
    Forall (fun chunk => string_size (events_text chunk)
                         <= max_event_file_size + bound)
      (chunk_events max_event_file_size (queued_events write_queues))).
  { apply chunk_events_chunk_size;
      [exact Hmax | exact Hevents | apply Forall_nil_2]. }
  pose proof (retained_events_size total_num_event_files
                max_event_file_size bound _ ltac:(lia) ltac:(lia) Hchunks).
  lia.
Qed.

(** ** Appending a file to a stream, then deleting it *)

(** X11.  [AppendToFileThenDelete] on an operating system that carries out
    every request, with a read buffer of any size from one byte up: the
    whole source file goes to the end of the destination, in order, however
    many reads it takes; the source file is deleted; no other file
    changes. *)
Theorem X11_append_copies_all_then_deletes (source_path path : string)
    (destination : nat) (read_buffer_size : Z) (before content : string)
    (w : World) :
  env w = reliable_env ->
  0 < read_buffer_size ->
  source_path <> path ->
  at_eof w destination path before ->
  (destination < next_stream w)%nat ->
  disk w !! source_path = Some content ->
  exists w',
    AppendToFileThenDelete source_path (Some destination) read_buffer_size w
    = Done tt w' /\
    at_eof w' destination path (before +:+ content) /\
    disk w' !! source_path = None /\
    (forall q, q <> path -> q <> source_path -> disk w' !! q = disk w !! q).
Proof.
  intros Henv Hsize Hsrc Hat Hd Hc. unfold AppendToFileThenDelete.
  unfold io_bind at 1. unfold OpenFile. rewrite Henv.
  cbn [env_open_ok reliable_env andb].
  rewrite bool_decide_eq_true_2 by (rewrite Hc; eauto).
  set (s := next_stream w).
  set (w1 := {| disk := disk w;
                streams := <[s := mkStream source_path 0]> (streams w);
                next_stream := S s;
                trace := trace w ++ [EvOpen source_path ModeRead (Some s)];
                env := reliable_env |}).
  assert (Hat1 : stream_at w1 destination path (String.length before) before).
  { destruct Hat as [H1 H2]. split; simpl; [|exact H2].
    rewrite lookup_insert_ne by (subst s; lia). exact H1. }
  destruct (copy_loop_reliable_at s source_path destination path
              read_buffer_size (copy_fuel source_path w1) w1 0 content
              (String.length before) before)
    as (w2 & evs2 & Hloop & He2 & Hn2 & Hat2 & Hd2 & Hs2 & _ & _ & _).
  - reflexivity.
  - exact Hsize.
  - simpl. apply lookup_insert_eq.
  - exact Hc.
  - exact Hat1.
  - lia.
  - subst s. lia.
  - congruence.
  - unfold copy_fuel. simpl. rewrite Hc. lia.
  - rewrite str_drop_0, write_at_end in Hat2.
    unfold io_bind. rewrite Hloop. cbn [ScopedFILE_reset fclose].
    set (w3 := {| disk := disk w2; streams := delete s (streams w2);
                  next_stream := next_stream w2;
                  trace := trace w2 ++ [EvClose s]; env := env w2 |}).
    destruct (DeleteFile_reliable source_path false w3 He2)
      as (w4 & Hdelete & He4 & Hs4 & Hn4 & Hd4).
    exists w4. split; [exact Hdelete|]. split_and!.
    + destruct Hat2 as [H1 H2]. unfold at_eof. rewrite str_length_app.
      split.
      * rewrite Hs4. cbn.
        rewrite lookup_delete_ne by (subst s; lia). exact H1.
      * rewrite Hd4, delete_covers_other_file by congruence. exact H2.
    + rewrite Hd4, delete_covers_self. reflexivity.
    + intros q Hq1 Hq2. rewrite Hd4, delete_covers_other_file by congruence.
      cbn. rewrite Hd2 by assumption. reflexivity.
Qed.

(** Copying to a null destination changes no file. *)
Lemma copy_loop_null_disk s size : forall fuel w w',
  copy_loop fuel (Some s) None size w = Done tt w' -> disk w' = disk w.
Proof.
  induction fuel as [|fuel IH]; intros w w' H; [discriminate|].
  cbn [copy_loop] in H. apply io_bind_inv in H as (data & w1 & Hread & H).
  assert (Hd1 : disk w1 = disk w).
  { unfold fread in Hread. destruct (streams w !! s) as [st|].
    - destruct (disk w !! stream_path st);
        injection Hread as _ <-; reflexivity.
    - injection Hread as _ <-. reflexivity. }
  destruct (string_empty data).
  - injection H as <-. exact Hd1.
  - apply io_bind_inv in H as (n & w2 & Hwrite & H).
    injection Hwrite as _ <-. apply IH in H. congruence.
Qed.

Lemma OpenFile_read_disk path w file w' :
  OpenFile path ModeRead w = Done file w' -> disk w' = disk w.
Proof.
  unfold OpenFile. destruct (_ && _); intros [= <- <-]; reflexivity.
Qed.

Lemma copy_to_null_writes_nothing : forall evs,
  forallb (is_copy_event None) evs = true ->
  bytes_written evs = EmptyString.
Proof.
  induction evs as [|e evs IH]; [reflexivity|].
  cbn [forallb]. intros H. apply andb_prop in H as [He Hevs].
  destruct e; try discriminate He. cbn. apply IH. exact Hevs.
Qed.

(** X12.  [AppendToFileThenDelete] when something is missing, whatever the
    operating system grants or refuses.  A source that cannot be opened,
    because it does not exist or because the open is refused, is left
    alone: the failed open is all that is asked of the operating system,
    no file changes and nothing is deleted.  With a null destination a
    source that can be opened is still asked to be deleted, as the last
    request, after reads that write nothing; the source is gone exactly
    when the operating system carries that deletion out, and no other file
    changes. *)
Theorem X12_append_without_source_or_destination (source_path : string)
    (read_buffer_size : Z) (w : World) :
  (forall destination_file w1,
     OpenFile source_path ModeRead w = Done None w1 ->
     AppendToFileThenDelete source_path destination_file read_buffer_size w
     = Done tt w1 /\
     trace w1 = trace w ++ [EvOpen source_path ModeRead None] /\
     disk w1 = disk w /\ streams w1 = streams w) /\
  (disk w !! source_path = None ->
   exists w1, OpenFile source_path ModeRead w = Done None w1) /\
  (forall source_file w1,
     OpenFile source_path ModeRead w = Done (Some source_file) w1 ->
     exists w' requests,
       AppendToFileThenDelete source_path None read_buffer_size w
       = Done tt w' /\
       trace w' = trace w ++ requests ++ [EvDeleteFile source_path false] /\
       bytes_written requests = EmptyString /\
       disk w' !! source_path
       = (if env_delete_ok (env w) (trace w ++ requests) source_path false
               source_path
          then None else disk w !! source_path) /\
       (forall q, q <> source_path -> disk w' !! q = disk w !! q)).
Proof.
  split_and!.
  - intros destination_file w1 Hopen. unfold AppendToFileThenDelete.
    rewrite (io_bind_done _ _ _ _ _ Hopen).
    destruct (OpenFile_extends source_path ModeRead w)
      as (file & w1' & Hopen' & Hx & _).
    rewrite Hopen in Hopen'. injection Hopen' as <- <-.
    apply OpenFile_effect in Hopen as (_ & Hs & _ & Hd).
    split_and!; auto. eapply extends_trace. exact Hx.
  - intros Hmissing. unfold OpenFile.
    rewrite bool_decide_eq_false_2, andb_false_r; [eauto|].
    rewrite Hmissing. intros [content Hc]. discriminate.
  - intros source_file w1 Hopen. unfold AppendToFileThenDelete.
    rewrite (io_bind_done _ _ _ _ _ Hopen).
    assert (Hsome : is_Some (disk w !! source_path)).
    { unfold OpenFile in Hopen.
      destruct (env_open_ok _ _ _ _); cbn [andb] in Hopen;
        [|discriminate].
      destruct (bool_decide (is_Some (disk w !! source_path))) eqn:E;
        [|discriminate].
      apply bool_decide_eq_true in E. exact E. }
    destruct Hsome as [content Hc].
    pose proof (OpenFile_read_disk _ _ _ _ Hopen) as Hdisk1.
    destruct (OpenFile_extends source_path ModeRead w)
      as (file & w1' & Hopen' & Hx1 & _).
    rewrite Hopen in Hopen'. injection Hopen' as <- <-.
    pose proof (extends_trace _ _ _ Hx1) as Ht1.
    pose proof (extends_env _ _ _ Hx1) as He1.
    apply OpenFile_effect in Hopen as (_ & -> & Hn1 & Hs1).
    destruct (copy_loop_general (next_stream w) source_path None
                read_buffer_size (copy_fuel source_path w1) w1 0 content)
      as (w2 & evs & Hloop & Ht2 & Hall2 & He2 & _).
    + rewrite Hs1. apply lookup_insert_eq.
    + rewrite Hdisk1. exact Hc.
    + unfold copy_fuel. rewrite Hdisk1, Hc. lia.
    + discriminate.
    + intros d st [=].
    + unfold io_bind. rewrite Hloop. cbn [ScopedFILE_reset fclose].
      set (w3 := {| disk := disk w2;
                    streams := delete (next_stream w) (streams w2);
                    next_stream := next_stream w2;
                    trace := trace w2 ++ [EvClose (next_stream w)];
                    env := env w2 |}).
      apply copy_loop_null_disk in Hloop.
      destruct (DeleteFile_extends source_path false w3)
        as (w4 & Hdelete & _).
      pose proof (DeleteFile_trace _ _ _ _ Hdelete) as [_ Ht4].
      exists w4,
        ([EvOpen source_path ModeRead (Some (next_stream w))] ++ evs
         ++ [EvClose (next_stream w)]).
      assert (Htrace3 :
        trace w3
        = trace w ++ [EvOpen source_path ModeRead (Some (next_stream w))]
          ++ evs ++ [EvClose (next_stream w)]).
      { cbn [w3 trace]. rewrite Ht2, Ht1, <- !app_assoc. reflexivity. }
      assert (Hdisk4 : forall q,
        disk w4 !! q
        = if delete_covers source_path false q
             && env_delete_ok (env w) (trace w3) source_path false q
          then None else disk w !! q).
      { intros q. rewrite (DeleteFile_disk _ _ _ _ Hdelete q).
        cbn [w3 env disk]. rewrite He2, He1, Hloop, Hdisk1. reflexivity. }
      split; [exact Hdelete|]. split_and!.
      * rewrite Ht4, Htrace3, <- !app_assoc. reflexivity.
      * rewrite !bytes_written_app.
        rewrite (copy_to_null_writes_nothing evs Hall2). reflexivity.
      * rewrite Hdisk4, delete_covers_self, Htrace3. reflexivity.
      * intros q Hq.
        rewrite Hdisk4, delete_covers_other_file by exact Hq. reflexivity.
Qed.

(** ** Any interleaving of the two threads *)

(** A push that fits under the cap drops nothing. *)
Lemma AddEntryToQueue_room event wq :
  counter_exact wq ->
  queue_bytes (queue_ wq) + string_size event <= memory_max_ wq ->
  queue_bytes (queue_ wq) + string_size event <= SIZE_MAX ->
  AddEntryToQueue event wq
  = (Z.of_nat (length (queue_ wq ++ [event])),
     {| queue_ := queue_ wq ++ [event];
        memory_ := memory_ wq + string_size event;
        memory_max_ := memory_max_ wq |}).
Proof.
  intros Hexact Hroom Hfit. unfold AddEntryToQueue.
  pose proof (queue_bytes_nonneg (queue_ wq)) as Hq.
  pose proof (string_size_nonneg event) as He.
  rewrite size_add_small by (rewrite Hexact; unfold is_size_t; lia).
  destruct (queue_ wq ++ [event]) as [|front rest] eqn:E.
  - destruct (queue_ wq); discriminate.
  - cbn [drop_oldest].
    replace (memory_ wq + string_size event >? memory_max_ wq) with false;
      [reflexivity|].
    symmetry. rewrite Hexact, Z.gtb_ltb. apply Z.ltb_ge. exact Hroom.
Qed.

Lemma queued_events_cons write_queue write_queues :
  queued_events (write_queue :: write_queues)
  = queue_ write_queue ++ queued_events write_queues.
Proof. reflexivity. Qed.

Lemma io_bind_ext {A B : Type} (m : IO A) (k1 k2 : A -> IO B) w :
  (forall a w', k1 a w' = k2 a w') -> io_bind m k1 w = io_bind m k2 w.
Proof. intros H. unfold io_bind. destruct (m w); auto. Qed.

Lemma bind_Flush {B : Type} write_queue fw
    (k : WriteQueue * FileWriter -> IO B) w :
  io_bind (Flush write_queue fw) k w
  = io_bind (Flush_loop (queue_ write_queue) fw)
      (fun fw' => k (snd (SwapQueue [] write_queue), fw')) w.
Proof.
  unfold Flush, SwapQueue, io_bind, io_ret.
  destruct (Flush_loop (queue_ write_queue) fw w); reflexivity.
Qed.

(** The tasks left when the observer is stopped: the [Flush] tasks that
    were posted, then [FlushThenStop]. *)
Lemma drain_as_flushes polled_data reply : forall flushes write_queue,
  Forall (eq TaskFlush) flushes ->
  exists write_queues,
    queued_events write_queues = queue_ write_queue /\
    forall fw w,
      run_tasks (flushes ++ [TaskFlushThenStop polled_data reply])
        write_queue fw w
      = (let* fw := flush_each write_queues fw in
         let* fw := Stop polled_data fw in
         io_ret (snd (SwapQueue [] write_queue), fw)) w.
Proof.
  induction flushes as [|task flushes IH]; intros write_queue Hflushes.
  - exists [write_queue]. split.
    + rewrite queued_events_cons. apply app_nil_r.
    + intros fw w.
      cbn [app run_tasks run_task flush_each]. unfold FlushThenStop.
      rewrite !io_bind_assoc, !bind_Flush. apply io_bind_ext.
      intros fw1 w1. cbn [fst snd]. unfold io_bind, io_ret.
      destruct (Stop polled_data fw1 w1); reflexivity.
  - apply Forall_cons in Hflushes as [<- Hflushes].
    destruct (IH (snd (SwapQueue [] write_queue)) Hflushes)
      as (write_queues & Hevents & Hrun).
    exists (write_queue :: write_queues). split.
    + rewrite queued_events_cons, Hevents. apply app_nil_r.
    + intros fw w.
      cbn [app run_tasks run_task flush_each].
      rewrite io_bind_assoc, !bind_Flush. apply io_bind_ext.
      intros fw1 w1. cbn [fst snd]. apply (Hrun fw1 w1).
Qed.

(** An entry is delivered: the step changes the tasks and the queue alone,
    in a way that does not depend on the writer. *)
Lemma OnAddEntry_room entry flushes write_queue :
  Forall (eq TaskFlush) flushes ->
  counter_exact write_queue ->
  queue_bytes (queue_ write_queue)
  + queue_bytes (delivered [DeliverEntry entry])
  <= memory_max_ write_queue ->
  queue_bytes (queue_ write_queue)
  + queue_bytes (delivered [DeliverEntry entry])
  <= SIZE_MAX ->
  exists flushes' write_queue',
    Forall (eq TaskFlush) flushes' /\
    counter_exact write_queue' /\
    memory_max_ write_queue' = memory_max_ write_queue /\
    queue_ write_queue'
    = queue_ write_queue ++ delivered [DeliverEntry entry] /\
    forall initialize fw net,
      OnAddEntry entry (mkObserver (initialize ++ flushes) write_queue fw net)
      = mkObserver (initialize ++ flushes') write_queue' fw net.
Proof.
  intros Hflushes Hexact Hroom Hfit. unfold OnAddEntry, JSONWriter_Write.
  cbn [delivered] in *.
  destruct (json_ok entry); cbn [negb].
  - cbn [queue_bytes] in Hroom, Hfit. rewrite Z.add_0_r in Hroom, Hfit.
    cbn [write_queue_].
    rewrite (AddEntryToQueue_room _ _ Hexact Hroom Hfit).
    set (write_queue' :=
           {| queue_ := queue_ write_queue ++ [json_text entry];
              memory_ := memory_ write_queue + string_size (json_text entry);
              memory_max_ := memory_max_ write_queue |}).
    assert (Hexact' : counter_exact write_queue').
    { unfold counter_exact in *. cbn. rewrite queue_bytes_app, Hexact.
      cbn. lia. }
    destruct (Z.of_nat (length (queue_ write_queue ++ [json_text entry]))
              =? kNumWriteQueueEvents).
    + exists (flushes ++ [TaskFlush]), write_queue'. split_and!; auto.
      * apply Forall_app. split; [exact Hflushes|].
        apply Forall_cons. split; [reflexivity | apply Forall_nil_2].
      * intros initialize fw net. cbn. rewrite app_assoc. reflexivity.
    + exists flushes, write_queue'. split_and!; auto.
  - exists flushes, write_queue. split_and!; auto.
    symmetry. apply app_nil_r.
Qed.

Lemma delivered_cons_bytes action actions :
  queue_bytes (delivered (action :: actions))
  = queue_bytes (delivered [action]) + queue_bytes (delivered actions).
Proof.
  destruct action as [entry|]; cbn [delivered]; [|reflexivity].
  destruct (json_ok entry); cbn [queue_bytes]; lia.
Qed.

Lemma delivered_cons action actions :
  delivered (action :: actions) = delivered [action] ++ delivered actions.
Proof.
  destruct action as [entry|]; cbn [delivered]; [|reflexivity].
  destruct (json_ok entry); reflexivity.
Qed.

Lemma observer_run_cons action actions polled_data reply obs w :
  observer_run (action :: actions) polled_data reply obs w
  = (let* obs := system_step action obs in
     observer_run actions polled_data reply obs) w.
Proof.
  unfold observer_run. cbn [system_run]. rewrite io_bind_assoc. reflexivity.
Qed.

(** After [Initialize] has run: whatever the interleaving, the writer sees
    a sequence of [Flush] tasks and then [Stop], and the queues the
    [Flush] tasks find hold together what was queued and what was
    delivered, in order, as long as the queue had room for it. *)
Lemma observer_run_as_flushes polled_data reply :
  forall actions flushes write_queue,
  Forall (eq TaskFlush) flushes ->
  counter_exact write_queue ->
  queue_bytes (queue_ write_queue) + queue_bytes (delivered actions)
  <= memory_max_ write_queue ->
  queue_bytes (queue_ write_queue) + queue_bytes (delivered actions)
  <= SIZE_MAX ->
  exists write_queues,
    queued_events write_queues = queue_ write_queue ++ delivered actions /\
    forall fw net w,
      observer_run actions polled_data reply
        (mkObserver flushes write_queue fw net) w
      = (let* fw := flush_each write_queues fw in
         let* fw := Stop polled_data fw in
         io_ret (snd (SwapQueue [] write_queue), fw)) w.
Proof.
  induction actions as [|action actions IH];
    intros flushes write_queue Hflushes Hexact Hroom Hfit.
  - destruct (drain_as_flushes polled_data reply flushes write_queue Hflushes)
      as (write_queues & Hevents & Hrun).
    exists write_queues. split.
    + rewrite Hevents. symmetry. apply app_nil_r.
    + intros fw net w. apply Hrun.
  - rewrite delivered_cons_bytes in Hroom, Hfit.
    pose proof (queue_bytes_nonneg (delivered actions)) as Hrest.
    pose proof (queue_bytes_nonneg (delivered [action])) as Hfirst.
    pose proof (queue_bytes_nonneg (queue_ write_queue)) as Hqueue.
    destruct action as [entry|].
    + destruct (OnAddEntry_room entry flushes write_queue Hflushes Hexact)
        as (flushes' & write_queue' & Hflushes' & Hexact' & Hmax' & Hqueue'
            & Hstep); [lia | lia |].
      destruct (IH flushes' write_queue' Hflushes' Hexact')
        as (write_queues & Hevents & Hrun).
      * rewrite Hmax', Hqueue', queue_bytes_app. lia.
      * rewrite Hqueue', queue_bytes_app. lia.
      * exists write_queues. split.
        -- rewrite Hevents, Hqueue', <- app_assoc.
           rewrite (delivered_cons (DeliverEntry entry) actions).
           reflexivity.
        -- intros fw net w. specialize (Hstep [] fw net).
           cbn [app] in Hstep.
           rewrite observer_run_cons. cbn [system_step].
           unfold io_bind at 1. unfold io_ret at 1. rewrite Hstep.
           rewrite (Hrun fw net w). cbn [SwapQueue snd]. rewrite Hmax'.
           reflexivity.
    + cbn [delivered queue_bytes] in Hroom, Hfit.
      destruct flushes as [|task flushes].
      * destruct (IH [] write_queue Hflushes Hexact)
          as (write_queues & Hevents & Hrun); [lia | lia |].
        exists write_queues. split; [exact Hevents|].
        intros fw net w. rewrite observer_run_cons.
        cbn [system_step file_task_runner_].
        unfold io_bind at 1. unfold io_ret at 1. apply Hrun.
      * apply Forall_cons in Hflushes as [<- Hflushes].
        destruct (IH flushes (snd (SwapQueue [] write_queue)) Hflushes)
          as (write_queues & Hevents & Hrun).
        -- reflexivity.
        -- cbn. lia.
        -- cbn. lia.
        -- exists (write_queue :: write_queues). split.
           ++ rewrite queued_events_cons, Hevents. reflexivity.
           ++ intros fw net w.
              rewrite observer_run_cons.
              cbn [system_step file_task_runner_ write_queue_ file_writer_
                   net_log_ run_task flush_each].
              rewrite !io_bind_assoc, !bind_Flush. apply io_bind_ext.
              intros fw1 w1. cbn [fst snd].
              unfold io_bind at 1. unfold io_ret at 1.
              apply (Hrun fw1 net w1).
Qed.

(** From the construction on: whatever the interleaving, the writer goes
    through [Initialize], a sequence of [Flush] tasks and [Stop]. *)
Lemma observer_run_as_writer_run polled_data reply constants :
  forall actions flushes write_queue,
  Forall (eq TaskFlush) flushes ->
  counter_exact write_queue ->
  queue_bytes (queue_ write_queue) + queue_bytes (delivered actions)
  <= memory_max_ write_queue ->
  queue_bytes (queue_ write_queue) + queue_bytes (delivered actions)
  <= SIZE_MAX ->
  exists write_queues,
    queued_events write_queues = queue_ write_queue ++ delivered actions /\
    forall fw net w,
      observer_run actions polled_data reply
        (mkObserver (TaskInitialize constants :: flushes) write_queue fw net)
        w
      = (let* fw := writer_run constants write_queues polled_data fw in
         io_ret (snd (SwapQueue [] write_queue), fw)) w.
Proof.
  induction actions as [|action actions IH];
    intros flushes write_queue Hflushes Hexact Hroom Hfit.
  - destruct (drain_as_flushes polled_data reply flushes write_queue Hflushes)
      as (write_queues & Hevents & Hrun).
    exists write_queues. split.
    + rewrite Hevents. symmetry. apply app_nil_r.
    + intros fw net w. unfold observer_run, writer_run.
      cbn [system_run]. unfold io_bind at 1. unfold io_ret at 1.
      cbn [StopObserving PostTask file_task_runner_ write_queue_ file_writer_
           app run_tasks run_task].
      rewrite !io_bind_assoc. apply io_bind_ext. intros fw1 w1.
      unfold io_bind at 1. unfold io_ret at 1. cbn [fst snd].
      rewrite (Hrun fw1 w1), !io_bind_assoc. reflexivity.
  - rewrite delivered_cons_bytes in Hroom, Hfit.
    pose proof (queue_bytes_nonneg (delivered actions)) as Hrest.
    pose proof (queue_bytes_nonneg (delivered [action])) as Hfirst.
    pose proof (queue_bytes_nonneg (queue_ write_queue)) as Hqueue.
    destruct action as [entry|].
    + destruct (OnAddEntry_room entry flushes write_queue Hflushes Hexact)
        as (flushes' & write_queue' & Hflushes' & Hexact' & Hmax' & Hqueue'
            & Hstep); [lia | lia |].
      destruct (IH flushes' write_queue' Hflushes' Hexact')
        as (write_queues & Hevents & Hrun).
      * rewrite Hmax', Hqueue', queue_bytes_app. lia.
      * rewrite Hqueue', queue_bytes_app. lia.
      * exists write_queues. split.
        -- rewrite Hevents, Hqueue', <- app_assoc.
           rewrite (delivered_cons (DeliverEntry entry) actions).
           reflexivity.
        -- intros fw net w.
           specialize (Hstep [TaskInitialize constants] fw net).
           cbn [app] in Hstep.
           rewrite observer_run_cons. cbn [system_step].
           unfold io_bind at 1. unfold io_ret at 1. rewrite Hstep.
           rewrite (Hrun fw net w). cbn [SwapQueue snd]. rewrite Hmax'.
           reflexivity.
    + cbn [delivered queue_bytes] in Hroom, Hfit.
      destruct (observer_run_as_flushes polled_data reply actions flushes
                  write_queue Hflushes Hexact)
        as (write_queues & Hevents & Hrun); [lia | lia |].
      exists write_queues. split; [exact Hevents|].
      intros fw net w. rewrite observer_run_cons.
      cbn [system_step file_task_runner_ write_queue_ file_writer_ net_log_
           run_task].
      unfold writer_run. rewrite !io_bind_assoc. apply io_bind_ext.
      intros fw1 w1. unfold io_bind at 1 2. unfold io_ret at 1 2.
      cbn [fst snd]. rewrite (Hrun fw1 net w1), !io_bind_assoc.
      reflexivity.
Qed.

(** The bytes of some events and the size of their text. *)
Lemma events_text_bytes events :
  string_size (events_text events)
  = queue_bytes events + 2 * Z.of_nat (length events).
Proof.
  induction events as [|event events IH].
  - reflexivity.
  - change (event :: events) with ([event] ++ events).
    rewrite events_text_size_app, events_text_size_one, IH.
    cbn [app queue_bytes length]. lia.
Qed.

Lemma events_text_each_fits events :
  string_size (events_text events) <= SIZE_MAX ->
  Forall (fun event => string_size event + 2 <= SIZE_MAX) events.
Proof.
  induction events as [|event events IH]; intros Hfit.
  - apply Forall_nil_2.
  - change (event :: events) with ([event] ++ events) in Hfit.
    rewrite events_text_size_app, events_text_size_one in Hfit.
    pose proof (events_text_size_nonneg events).
    pose proof (string_size_nonneg event).
    apply Forall_cons. split; [lia | apply IH; lia].
Qed.

(** X13.  An unbounded observer from construction to stop, on an operating
    system that carries out every request: however the deliveries of
    entries on the observer's thread interleave with the tasks of the file
    task runner, after [StopObserving] and the tasks that are left the log
    file holds the prologue, the text of every entry the encoder accepted,
    once each and in the order of delivery, and the epilogue; the shared
    queue is empty and no other file has changed. *)
Theorem X13_unbounded_log_any_interleaving (log_path : string)
    (constants : option Value) (GetNetConstants : Value)
    (indeterminate : Z) (actions : list system_action)
    (polled_data : option Value) (optional_callback : bool) (w : World) :
  env w = reliable_env ->
  string_size (events_text (delivered actions)) <= SIZE_MAX ->
  let written_constants :=
    match constants with
    | Some c => c
    | None => GetNetConstants
    end in
  exists state w',
    observer_run actions polled_data optional_callback
      (StartObserving
         (CreateUnbounded log_path constants GetNetConstants indeterminate))
      w = Done state w' /\
    disk w' !! log_path
    = Some (log_text written_constants (delivered actions) polled_data) /\
    queue_ (fst state) = [] /\
    (forall q, q <> log_path -> disk w' !! q = disk w !! q).
Proof.
  intros Henv Hfit written_constants.
  pose proof (events_text_bytes (delivered actions)) as Hbytes.
  pose proof (queue_bytes_nonneg (delivered actions)) as Hnonneg.
  set (write_queue := WriteQueue_new (size_mul kNoLimit 2)).
  assert (Hcap : memory_max_ write_queue = SIZE_MAX - 1) by reflexivity.
  assert (Hroom : queue_bytes (delivered actions) <= SIZE_MAX - 1).
  { destruct (delivered actions) as [|event events]; cbn [length] in Hbytes.
    - cbn. rewrite SIZE_MAX_eq. lia.
    - lia. }
  destruct (observer_run_as_writer_run polled_data optional_callback
              written_constants actions [] write_queue)
    as (write_queues & Hevents & Hrun).
  - apply Forall_nil_2.
  - reflexivity.
  - rewrite Hcap. cbn [write_queue WriteQueue_new queue_ queue_bytes]. lia.
  - cbn [write_queue WriteQueue_new queue_ queue_bytes]. lia.
  - cbn [write_queue WriteQueue_new queue_ app] in Hevents.
    destruct (unbounded_run_text written_constants write_queues polled_data
                log_path 10 indeterminate w Henv)
      as (fw' & w' & Hwriter & Hdisk & Hrest & _).
    { rewrite Hevents. apply events_text_each_fits. exact Hfit. }
    exists (snd (SwapQueue [] write_queue), fw'), w'.
    split_and!.
    + change (StartObserving
                (CreateUnbounded log_path constants GetNetConstants
                   indeterminate))
        with (mkObserver [TaskInitialize written_constants] write_queue
                (FileWriter_new log_path kNoLimit 10 indeterminate) true).
      rewrite Hrun. rewrite (io_bind_done _ _ _ _ _ Hwriter). reflexivity.
    + rewrite Hdisk, Hevents. reflexivity.
    + reflexivity.
    + exact Hrest.
Qed.

(** X14.  A bounded observer with two event files or more from
    construction to stop, on an operating system that carries out every
    request, when the entries delivered fit the queue's cap of twice
    [max_total_size] bytes: however the deliveries interleave with the
    tasks of the file task runner, the log file ends up holding the
    prologue, the events of the newest [total_num_event_files] event files
    that the rotation rule fills with the delivered events at
    [max_total_size / total_num_event_files] bytes a file, and the
    epilogue; the interleaving changes nothing in the log. *)
Theorem X14_bounded_log_any_interleaving (log_path : string)
    (max_total_size total_num_event_files : Z) (constants : option Value)
    (GetNetConstants : Value) (indeterminate : Z)
    (actions : list system_action) (polled_data : option Value)
    (optional_callback : bool) (w : World) :
  env w = reliable_env ->
  0 <= max_total_size ->
  2 * max_total_size <= SIZE_MAX ->
  2 <= total_num_event_files <= SIZE_MAX ->
  queue_bytes (delivered actions) <= 2 * max_total_size ->
  string_size (events_text (delivered actions)) <= SIZE_MAX ->
  let written_constants :=
    match constants with
    | Some c => c
    | None => GetNetConstants
    end in
  let chunks :=
    chunk_events (max_total_size / total_num_event_files)
      (delivered actions) in
  exists state w',
    observer_run actions polled_data optional_callback
      (StartObserving
         (CreateBoundedInternal log_path max_total_size total_num_event_files
            constants GetNetConstants indeterminate))
      w = Done state w' /\
    disk w' !! log_path
    = Some (log_text written_constants
              (retained_events total_num_event_files chunks) polled_data) /\
    queue_ (fst state) = [] /\
    current_event_file_number_ (snd state) = Z.of_nat (length chunks).
Proof.
  intros Henv Hsize Hdouble HN Hroom Hfit written_constants chunks.
  pose proof (queue_bytes_nonneg (delivered actions)) as Hnonneg.
  assert (Hbounded : (max_total_size =? kNoLimit) = false).
  { apply Z.eqb_neq. unfold kNoLimit. rewrite SIZE_MAX_eq in *. lia. }
  set (max_event_file_size := max_total_size / total_num_event_files).
  assert (Hlimit : max_event_file_size <> kNoLimit).
  { unfold kNoLimit, max_event_file_size.
    assert (max_total_size / total_num_event_files <= max_total_size).
    { apply Z.div_le_upper_bound; [lia | nia]. }
    rewrite SIZE_MAX_eq in *. lia. }
  set (write_queue := WriteQueue_new (size_mul max_total_size 2)).
  assert (Hcap : memory_max_ write_queue = 2 * max_total_size).
  { cbn. unfold size_mul. rewrite to_size_t_small; [lia|].
    unfold is_size_t. lia. }
  destruct (observer_run_as_writer_run polled_data optional_callback
              written_constants actions [] write_queue)
    as (write_queues & Hevents & Hrun).
  - apply Forall_nil_2.
  - reflexivity.
  - rewrite Hcap. cbn [write_queue WriteQueue_new queue_ queue_bytes]. lia.
  - cbn [write_queue WriteQueue_new queue_ queue_bytes]. lia.
  - cbn [write_queue WriteQueue_new queue_ app] in Hevents.
    destruct (bounded_run_text written_constants write_queues polled_data
                log_path max_event_file_size total_num_event_files
                indeterminate w Henv Hlimit ltac:(lia))
      as (fw' & w' & Hwriter & Hnumber & Hdisk & _).
    { rewrite Hevents. exact Hfit. }
    rewrite Hevents in Hnumber, Hdisk.
    exists (snd (SwapQueue [] write_queue), fw'), w'.
    split_and!.
    + assert (Hobs :
        StartObserving
          (CreateBoundedInternal log_path max_total_size
             total_num_event_files constants GetNetConstants indeterminate)
        = mkObserver [TaskInitialize written_constants] write_queue
            (FileWriter_new log_path max_event_file_size
               total_num_event_files indeterminate) true).
      { unfold CreateBoundedInternal. rewrite Hbounded. reflexivity. }
      rewrite Hobs, Hrun. rewrite (io_bind_done _ _ _ _ _ Hwriter).
      reflexivity.
    + exact Hdisk.
    + reflexivity.
    + exact Hnumber.
Qed.

(** ** The files of a writer *)

(** X15.  The files of a bounded writer never collide.  Two file numbers
    share an event file exactly when they are congruent modulo
    [total_num_event_files_], so the newest [total_num_event_files_] file
    numbers have files of their own and file number [n +
    total_num_event_files_] takes over the file of [n]; and no event file
    is the constants file, the closing file or the final log file, which
    differ from each other, the first three lying inside the in-progress
    directory. *)
Theorem X15_writer_files_never_collide (fw : FileWriter) (a b : Z) :
  1 <= total_num_event_files_ fw ->
  1 <= a <= SIZE_MAX -> 1 <= b <= SIZE_MAX ->
  (event_file_of fw a = event_file_of fw b <->
   (a - 1) mod total_num_event_files_ fw
   = (b - 1) mod total_num_event_files_ fw) /\
  (a + total_num_event_files_ fw <= SIZE_MAX ->
   event_file_of fw (a + total_num_event_files_ fw) = event_file_of fw a) /\
  (Z.abs (a - b) < total_num_event_files_ fw -> a <> b ->
   event_file_of fw a <> event_file_of fw b) /\
  event_file_of fw a <> GetConstantsFilePath fw /\
  event_file_of fw a <> GetClosingFilePath fw /\
  event_file_of fw a <> final_log_path_ fw /\
  GetConstantsFilePath fw <> GetClosingFilePath fw /\
  GetConstantsFilePath fw <> final_log_path_ fw /\
  GetClosingFilePath fw <> final_log_path_ fw /\
  inside_directory (GetInprogressDirectory fw) (event_file_of fw a) = true /\
  inside_directory (GetInprogressDirectory fw) (GetConstantsFilePath fw)
  = true /\
  inside_directory (GetInprogressDirectory fw) (GetClosingFilePath fw)
  = true /\
  inside_directory (GetInprogressDirectory fw) (final_log_path_ fw) = false.
Proof.
  intros HN Ha Hb.
  pose proof (FileNumberToIndex_eq fw) as Hindex.
  assert (Hsame : event_file_of fw a = event_file_of fw b <->
                  (a - 1) mod total_num_event_files_ fw
                  = (b - 1) mod total_num_event_files_ fw).
  { unfold event_file_of. rewrite (Hindex a Ha), (Hindex b Hb). split.
    - apply GetEventFilePath_inj; apply Z.mod_pos_bound; lia.
    - intros ->. reflexivity. }
  split_and!.
  - exact Hsame.
  - intros Hfit. unfold event_file_of.
    rewrite (Hindex a Ha).
    rewrite (Hindex (a + total_num_event_files_ fw)) by lia. f_equal.
    replace (a + total_num_event_files_ fw - 1)
      with (a - 1 + 1 * total_num_event_files_ fw) by lia.
    apply Z.mod_add. lia.
  - intros Hnear Hne Heq. apply Hne. apply Hsame in Heq.
    eapply window_indices_distinct; [exact HN | lia | lia | exact Hnear|].
    exact Heq.
  - apply event_path_not_constants_path.
  - apply event_path_not_closing_path.
  - apply event_path_not_final.
  - apply constants_path_not_closing_path.
  - apply inprogress_path_not_final.
  - apply inprogress_path_not_final.
  - apply inside_inprogress.
  - apply inside_inprogress.
  - apply inside_inprogress.
  - unfold inside_directory, GetInprogressDirectory, AddExtension.
    rewrite str_app_assoc. apply prefix_longer. discriminate.
Qed.

(** ** Runs without event bytes, on an operating system that carries out
    every request *)







(** ** The extra properties at reference inputs *)

(** Seven events flushed in unbounded mode: the log holds all of them. *)
Lemma X1_unbounded_log_text_witness :
  env (empty_world reliable_env) = reliable_env /\
  Forall (fun e => string_size e + 2 <= SIZE_MAX)
    (queued_events [example_ring_queue]) /\
  exists fw' w',
    writer_run (example_value "{}") [example_ring_queue] None
      (FileWriter_new "log.json" kNoLimit 10 77) (empty_world reliable_env)
    = Done fw' w' /\
    disk w' !! "log.json"
    = Some (spec_prologue (example_value "{}")
            +:+ "e1," +:+ newline +:+ "e2," +:+ newline +:+ "e3," +:+ newline
            +:+ "e4," +:+ newline +:+ "e5," +:+ newline +:+ "e6," +:+ newline
            +:+ "e7" +:+ spec_epilogue None).
Proof.
  assert (H1 : env (empty_world reliable_env) = reliable_env) by reflexivity.
  assert (H2 : Forall (fun e => string_size e + 2 <= SIZE_MAX)
                 (queued_events [example_ring_queue])).
  { repeat constructor; vm_compute; discriminate. }
  split; [exact H1|]. split; [exact H2|].
  destruct (X1_unbounded_log_text (example_value "{}") [example_ring_queue]
              None "log.json" 10 77 (empty_world reliable_env) H1 H2)
    as (fw' & w' & Hrun & Hdisk & _).
  exists fw', w'. split; [exact Hrun|]. rewrite Hdisk.
  vm_compute. reflexivity.
Defined.

(** The same seven events in bounded mode with three files of four bytes:
    every event fills a file, and the log holds the last three. *)
Lemma X2_bounded_log_text_witness :
  env (empty_world reliable_env) = reliable_env /\
  4 <> kNoLimit /\ 2 <= 3 <= SIZE_MAX /\
  string_size (events_text (queued_events [example_ring_queue]))
  <= SIZE_MAX /\
  exists fw' w',
    writer_run (example_value "{}") [example_ring_queue] None
      (FileWriter_new "log.json" 4 3 77) (empty_world reliable_env)
    = Done fw' w' /\
    current_event_file_number_ fw' = 7 /\
    disk w' !! "log.json"
    = Some (spec_prologue (example_value "{}")
            +:+ "e5," +:+ newline +:+ "e6," +:+ newline +:+ "e7"
            +:+ spec_epilogue None).
Proof.
  assert (H1 : env (empty_world reliable_env) = reliable_env) by reflexivity.
  assert (H2 : 4 <> kNoLimit) by (vm_compute; discriminate).
  assert (H3 : 2 <= 3 <= SIZE_MAX) by (rewrite SIZE_MAX_eq; lia).
  assert (H4 : string_size (events_text (queued_events [example_ring_queue]))
               <= SIZE_MAX) by (vm_compute; discriminate).
  split; [exact H1|]. split; [exact H2|]. split; [exact H3|].
  split; [exact H4|].
  destruct (X2_bounded_log_text (example_value "{}") [example_ring_queue]
              None "log.json" 4 3 77 (empty_world reliable_env) H1 H2 H3 H4)
    as (fw' & w' & Hrun & Hnum & Hdisk & _).
  exists fw', w'. split; [exact Hrun|]. split.
  - rewrite Hnum. vm_compute. reflexivity.
  - rewrite Hdisk. vm_compute. reflexivity.
Defined.

(** A queue of cap 10 holding eight bytes: a record of two bytes is kept
    with the others. *)
Lemma X3_queue_keeps_what_fits_witness :
  fits_in_memory (WriteQueue_new 10) (example_calls ++ [CallAddEntry "dd"]) /\
  queue_ (snd (AddEntryToQueue "dd"
                 (run_calls (WriteQueue_new 10) example_calls)))
  = ["bbbb"; "cccc"; "dd"].
Proof.
  assert (H : fits_in_memory (WriteQueue_new 10)
                (example_calls ++ [CallAddEntry "dd"])).
  { simpl. unfold string_size. simpl. rewrite SIZE_MAX_eq.
    repeat split; lia. }
  split; [exact H|].
  destruct (X3_queue_keeps_what_fits 10 example_calls "dd" H)
    as [Hroom _].
  destruct Hroom as (Hqueue & _).
  - vm_compute. discriminate.
  - rewrite Hqueue. reflexivity.
Defined.

(** Sixteen entries queued on an operating system that refuses everything:
    the [Flush] is posted. *)
Lemma X4_backlog_has_flush_pending_witness :
  queue_ (write_queue_
            (StartObserving
               (CreateBounded "log.json" 1000 None (example_value "{}") 77)))
  = [] /\
  exists obs' w',
    system_run example_backlog
      (StartObserving
         (CreateBounded "log.json" 1000 None (example_value "{}") 77))
      (empty_world hostile_env) = Done obs' w' /\
    length (queue_ (write_queue_ obs')) = 16%nat /\
    In TaskFlush (file_task_runner_ obs').
Proof.
  assert (H : queue_ (write_queue_
                (StartObserving
                   (CreateBounded "log.json" 1000 None (example_value "{}")
                      77))) = []) by reflexivity.
  split; [exact H|].
  destruct (X4_backlog_has_flush_pending example_backlog
              (StartObserving
                 (CreateBounded "log.json" 1000 None (example_value "{}") 77))
              (empty_world hostile_env) H)
    as (obs' & w' & Hrun & Hpending).
  exists obs', w'. split; [exact Hrun|].
  assert (Hlength : length (queue_ (write_queue_ obs')) = 16%nat).
  { vm_compute in Hrun. injection Hrun as <- _. reflexivity. }
  split; [exact Hlength|].
  apply Hpending. rewrite Hlength. lia.
Defined.

(** A bounded run next to somebody else's file: the file is as it was. *)
Lemma X5_writer_touches_only_its_files_witness :
  wf_world (example_shared_world reliable_env) /\
  exists fw' w',
    writer_run (example_value "{}") [example_ring_queue] None
      (FileWriter_new "log.json" 4 3 77) (example_shared_world reliable_env)
    = Done fw' w' /\
    disk w' !! "notes.txt" = Some "keep".
Proof.
  assert (H : wf_world (example_shared_world reliable_env)).
  { intros id Hid. cbn in Hid |- *.
    apply lookup_singleton_ne. lia. }
  split; [exact H|].
  destruct (X5_writer_touches_only_its_files (example_value "{}")
              [example_ring_queue] None "log.json" 4 3 77
              (example_shared_world reliable_env) H)
    as (fw' & w' & Hrun & Hframe).
  exists fw', w'. split; [exact Hrun|].
  rewrite Hframe.
  - reflexivity.
  - discriminate.
  - intros _. split; [discriminate | reflexivity].
Defined.

(** The same run: the stream that was open is still open on its file, and
    no other stream is left, on an operating system that refuses
    everything as well. *)
Lemma X6_writer_leaves_no_stream_open_witness :
  wf_world (example_shared_world hostile_env) /\
  exists fw' w',
    writer_run (example_value "{}") [example_ring_queue] None
      (FileWriter_new "log.json" 4 3 77) (example_shared_world hostile_env)
    = Done fw' w' /\
    stream_path <$> streams w' !! 0%nat = Some "notes.txt" /\
    stream_path <$> streams w' !! 1%nat = None.
Proof.
  assert (H : wf_world (example_shared_world hostile_env)).
  { intros id Hid. cbn in Hid |- *.
    apply lookup_singleton_ne. lia. }
  split; [exact H|].
  destruct (X6_writer_leaves_no_stream_open (example_value "{}")
              [example_ring_queue] None "log.json" 4 3 77
              (example_shared_world hostile_env) H)
    as [(fw' & w' & Hrun & Hstreams) _].
  exists fw', w'. split; [exact Hrun|].
  rewrite !Hstreams. split; reflexivity.
Defined.

(** The ring of three files after seven events, stopped: nothing of the
    in-progress directory is left. *)
Lemma X7_stop_removes_inprogress_directory_witness :
  IsBounded (fst example_ring_state) = true /\
  deletes_carried_out (env (snd example_ring_state)) /\
  exists w',
    Stop None (fst example_ring_state) (snd example_ring_state)
    = Done (stopped (fst example_ring_state)) w' /\
    disk w' !! "log.json.inprogress/constants.json" = None /\
    disk w' !! "log.json.inprogress/event_file_0.json" = None /\
    disk (snd example_ring_state) !! "log.json.inprogress/event_file_0.json"
    = Some ("e7," +:+ newline).
Proof.
  assert (H : IsBounded (fst example_ring_state) = true)
    by (vm_compute; reflexivity).
  assert (Hcarried : deletes_carried_out (env (snd example_ring_state))).
  { intros events path recursive q. vm_compute. reflexivity. }
  split; [exact H|]. split; [exact Hcarried|].
  destruct (X7_stop_removes_inprogress_directory None
              (fst example_ring_state) (snd example_ring_state) H)
    as (w' & before & file & Hstop & _ & _ & Hgone).
  destruct (Hgone Hcarried) as (_ & Hinside & _).
  exists w'. split; [exact Hstop|]. split_and!.
  - apply Hinside. vm_compute. reflexivity.
  - apply Hinside. vm_compute. reflexivity.
  - vm_compute. reflexivity.
Defined.

(** An observer over three event files destroyed while the [Flush] of a
    backlog is still waiting: the log is deleted. *)
Lemma X8_destroyed_while_observing_deletes_log_witness :
  1 <= 3 /\
  deletes_carried_out (env (empty_world reliable_env)) /\
  exists obs w1,
    system_run example_backlog
      (StartObserving
         (CreateBoundedInternal "log.json" 12 3 None (example_value "{}")
            77))
      (empty_world reliable_env) = Done obs w1 /\
    disk w1 !! "log.json" = Some kPlaceholder /\
    exists state w2,
      run_tasks (file_task_runner_ (FileNetLogObserver_delete obs))
        (write_queue_ obs) (file_writer_ obs) w1 = Done state w2 /\
      disk w2 !! "log.json" = None /\
      disk w2 !! "log.json.inprogress/constants.json" = None.
Proof.
  assert (H : 1 <= 3) by lia.
  assert (Hcarried : deletes_carried_out (env (empty_world reliable_env))).
  { intros events path recursive q. reflexivity. }
  split; [exact H|]. split; [exact Hcarried|].
  destruct (X8_destroyed_while_observing_deletes_log "log.json" 12 3 None
              (example_value "{}") 77 example_backlog
              (empty_world reliable_env) H)
    as (obs & w1 & Hrun & state & w2 & Htasks & _ & Hgone & _).
  destruct (Hgone Hcarried) as [Hfinal Hdirectory].
  exists obs, w1. split; [exact Hrun|]. split.
  - vm_compute in Hrun. injection Hrun as _ <-. vm_compute. reflexivity.
  - exists state, w2. split; [exact Htasks|]. split; [exact Hfinal|].
    apply Hdirectory; [reflexivity|]. right. vm_compute. reflexivity.
Defined.


(** Seven events of four bytes with their separators, three files of four
    bytes: at most twenty-four bytes of events in the log. *)
Lemma X10_bounded_log_size_witness :
  env (empty_world reliable_env) = reliable_env /\
  4 <> kNoLimit /\ 0 <= 4 /\ 2 <= 3 <= SIZE_MAX /\
  string_size (events_text (queued_events [example_ring_queue]))
  <= SIZE_MAX /\
  0 <= 4 /\
  Forall (fun event => string_size event + 2 <= 4)
    (queued_events [example_ring_queue]) /\
  exists fw' w' text,
    writer_run (example_value "{}") [example_ring_queue] None
      (FileWriter_new "log.json" 4 3 77) (empty_world reliable_env)
    = Done fw' w' /\
    disk w' !! "log.json" = Some text /\
    string_size text
    <= string_size (spec_prologue (example_value "{}")) + 3 * (4 + 4)
       + string_size (spec_epilogue None).
Proof.
  assert (H1 : env (empty_world reliable_env) = reliable_env) by reflexivity.
  assert (H2 : 4 <> kNoLimit) by (vm_compute; discriminate).
  assert (H3 : 0 <= 4) by lia.
  assert (H4 : 2 <= 3 <= SIZE_MAX) by (rewrite SIZE_MAX_eq; lia).
  assert (H5 : string_size (events_text (queued_events [example_ring_queue]))
               <= SIZE_MAX) by (vm_compute; discriminate).
  assert (H6 : Forall (fun event => string_size event + 2 <= 4)
                 (queued_events [example_ring_queue])).
  { repeat constructor; vm_compute; discriminate. }
  split_and!; try assumption.
  exact (X10_bounded_log_size (example_value "{}") [example_ring_queue] None
           "log.json" 4 3 77 4 (empty_world reliable_env)
           H1 H2 H3 H4 H5 H3 H6).
Defined.

(** Five bytes copied with a buffer of two bytes. *)
Lemma X11_append_copies_all_then_deletes_witness :
  env example_copy_world = reliable_env /\
  0 < 2 /\ "in.json" <> "out.json" /\
  at_eof example_copy_world 0 "out.json" "ab" /\
  (0 < next_stream example_copy_world)%nat /\
  disk example_copy_world !! "in.json" = Some "hello" /\
  exists w',
    AppendToFileThenDelete "in.json" (Some 0%nat) 2 example_copy_world
    = Done tt w' /\
    disk w' !! "out.json" = Some "abhello" /\
    disk w' !! "in.json" = None.
Proof.
  assert (H1 : env example_copy_world = reliable_env) by reflexivity.
  assert (H2 : 0 < 2) by lia.
  assert (H3 : "in.json" <> "out.json") by discriminate.
  assert (H4 : at_eof example_copy_world 0 "out.json" "ab")
    by (split; vm_compute; reflexivity).
  assert (H5 : (0 < next_stream example_copy_world)%nat) by (cbn; lia).
  assert (H6 : disk example_copy_world !! "in.json" = Some "hello")
    by (vm_compute; reflexivity).
  split_and!; try assumption.
  destruct (X11_append_copies_all_then_deletes "in.json" "out.json" 0 2
              "ab" "hello" example_copy_world H1 H2 H3 H4 H5 H6)
    as (w' & Hrun & Hat & Hgone & _).
  exists w'. split; [exact Hrun|]. split; [|exact Hgone].
  destruct Hat as [_ Hdisk]. exact Hdisk.
Defined.

(** Sixteen entries and one the encoder rejects, with the file task runner
    taking its turns in between: the unbounded log holds the sixteen. *)
Lemma X13_unbounded_log_any_interleaving_witness :
  env (empty_world reliable_env) = reliable_env /\
  string_size (events_text (delivered example_schedule)) <= SIZE_MAX /\
  exists state w',
    observer_run example_schedule None false
      (StartObserving
         (CreateUnbounded "log.json" None (example_value "{}") 77))
      (empty_world reliable_env) = Done state w' /\
    disk w' !! "log.json"
    = Some (log_text (example_value "{}")
              ["e0"; "e1"; "e2"; "e3"; "e4"; "e5"; "e6"; "e7";
               "e8"; "e9"; "ea"; "eb"; "ec"; "ed"; "ee"; "ef"] None).
Proof.
  assert (H1 : env (empty_world reliable_env) = reliable_env) by reflexivity.
  assert (H2 : string_size (events_text (delivered example_schedule))
               <= SIZE_MAX) by (vm_compute; discriminate).
  split; [exact H1|]. split; [exact H2|].
  destruct (X13_unbounded_log_any_interleaving "log.json" None
              (example_value "{}") 77 example_schedule None false
              (empty_world reliable_env) H1 H2)
    as (state & w' & Hrun & Hdisk & _).
  exists state, w'. split; [exact Hrun|]. rewrite Hdisk. reflexivity.
Defined.

(** The same schedule with a budget of sixteen bytes in four files: every
    event fills a file of four bytes, and the log holds the last four. *)
Lemma X14_bounded_log_any_interleaving_witness :
  env (empty_world reliable_env) = reliable_env /\
  0 <= 16 /\ 2 * 16 <= SIZE_MAX /\ 2 <= 4 <= SIZE_MAX /\
  queue_bytes (delivered example_schedule) <= 2 * 16 /\
  string_size (events_text (delivered example_schedule)) <= SIZE_MAX /\
  exists state w',
    observer_run example_schedule None false
      (StartObserving
         (CreateBoundedInternal "log.json" 16 4 None (example_value "{}") 77))
      (empty_world reliable_env) = Done state w' /\
    disk w' !! "log.json"
    = Some (log_text (example_value "{}") ["ec"; "ed"; "ee"; "ef"] None) /\
    current_event_file_number_ (snd state) = 16.
Proof.
  assert (H1 : env (empty_world reliable_env) = reliable_env) by reflexivity.
  assert (H2 : 0 <= 16) by lia.
  assert (H3 : 2 * 16 <= SIZE_MAX) by (rewrite SIZE_MAX_eq; lia).
  assert (H4 : 2 <= 4 <= SIZE_MAX) by (rewrite SIZE_MAX_eq; lia).
  assert (H5 : queue_bytes (delivered example_schedule) <= 2 * 16)
    by (vm_compute; discriminate).
  assert (H6 : string_size (events_text (delivered example_schedule))
               <= SIZE_MAX) by (vm_compute; discriminate).
  split_and!; try assumption.
  destruct (X14_bounded_log_any_interleaving "log.json" 16 4 None
              (example_value "{}") 77 example_schedule None false
              (empty_world reliable_env) H1 H2 H3 H4 H5 H6)
    as (state & w' & Hrun & Hdisk & _ & Hnumber).
  exists state, w'. split; [exact Hrun|]. split.
  - rewrite Hdisk. reflexivity.
  - rewrite Hnumber. reflexivity.
Defined.

(** Three event files: file numbers 5 and 2 share a file, 5 and 4 do
    not. *)
Lemma X15_writer_files_never_collide_witness :
  1 <= total_num_event_files_ example_bounded_writer /\
  1 <= 5 <= SIZE_MAX /\ 1 <= 2 <= SIZE_MAX /\
  event_file_of example_bounded_writer 5
  = event_file_of example_bounded_writer 2 /\
  event_file_of example_bounded_writer 2
  = "log.json.inprogress/event_file_1.json" /\
  event_file_of example_bounded_writer 5
  <> GetConstantsFilePath example_bounded_writer.
Proof.
  assert (H1 : 1 <= total_num_event_files_ example_bounded_writer)
    by (cbn; lia).
  assert (H2 : 1 <= 5 <= SIZE_MAX) by (rewrite SIZE_MAX_eq; lia).
  assert (H3 : 1 <= 2 <= SIZE_MAX) by (rewrite SIZE_MAX_eq; lia).
  destruct (X15_writer_files_never_collide example_bounded_writer 5 2
              H1 H2 H3) as ([_ Hsame] & _ & _ & Hconstants & _).
  split_and!; try assumption.
  - apply Hsame. reflexivity.
  - vm_compute. reflexivity.
Defined.
